(* ===== verification/_CoqProject ===== *)
-Q . S2P
Prelude.v
Prog.v
Trace.v
ScopeMatcher.v
ConfigVersion.v
ConfigStore.v
Ulid.v
Diff.v
Scanner.v
AuditLog.v
Rollout.v
RolloutStore.v
ControlPlane.v
ConfigService.v
RolloutController.v
Json.v
ApprovalQueue.v
ApprovalWorkflow.v
Unicode.v
Balancer.v
CircuitBreaker.v
ErrorCodes.v
Fallback.v
ToolSandbox.v
WorkflowDsl.v
WorkflowStore.v
WorkflowEngine.v
WorkflowApproval.v
Codec.v
Jwt.v
IsoTime.v
Identity.v
Auth.v
Totp.v
ChatTypes.v
Upstream.v
Connector.v
RateLimiter.v
AbuseDetector.v
Pipeline.v
SemanticCache.v
CostTracker.v
Gateway.v
GatewayFacts.v
Sse.v
Proxy.v
Orchestrator.v
Api.v
AdminSession.v
AdminBase.v
AdminIam.v
AdminMfa.v
