(* ===== verification/Prelude.v ===== *)
(** * AegisGate: a verification library

    AegisGate (the C++ sources under [src/src/] and [src/include/]) is a
    gateway in front of language-model providers.  A client's request is
    authenticated, screened, limited and routed to a provider's connector with
    retries; the answer is filtered, billed, cached and logged, as a whole or
    as a stream.  Agents and workflows run tools on behalf of clients.  The
    gateway's configuration is managed by a control plane with versioned
    bundles, dual approval and staged rollouts; changes the gateway proposes
    itself pass through an approval workflow; and administrators manage
    tenants, users, keys and second factors.  This library translates the C++
    functions to Rocq definitions and proves what each part promises to the
    others.

    ** How the code is modelled

    A pure function is a Rocq function; an integer is a [Z], with the
    wrap-around written out where the code relies on it ([u64], [to_int]
    below); a [double] is the kernel's binary64 float; bytes are [Z]s between
    0 and 255; a map is a [gmap], its iteration order a parameter
    ([UnorderedIter]) where the code iterates over an [unordered_map];
    [std::sort] is any sorting function ([SortOrder]).  A class is a record of
    its fields, a method a function on that record.  A method that can throw
    returns an option or a sum.  Clock readings and random draws are arguments
    or calls.

    Handlers that call several mutex-protected or external objects are
    programs of type [prog] ([Prog.v]): a tree of atomic calls.  The same
    definition is executed alone ([run]) for the functional and refinement
    theorems; interleaved with any number of other handlers and with the
    environment ([pool_step]) for the invariants under concurrency, which are
    proved by a rely/guarantee condition ([safe], lifted by [pool_safe]); and
    read as the set of its traces ([trace] of [Trace.v]), calls with whatever
    answers the environment gives, for the theorems on what happened before a
    call and after it.

    Third-party code is a parameter: SHA-256, HMAC and the cipher of OpenSSL,
    RE2, the text format of [nlohmann::json], [std::hash], the external
    [diff], the YAML validator, libcurl and drogon, the providers behind the
    connectors, the tools and the appliers.  What a theorem needs of one of
    them is a named hypothesis, and the theorem comes with a witness in which
    the parameter is a concrete function.

    ** The files

    - [Prelude.v]: machine integers, string order and list lemmas, sorting and
      pagination, record update, the hint database [aegis] and the tactics.
    - [Prog.v], [Trace.v]: programs, their semantics and the concurrency logic.
    - [Json.v], [Codec.v], [IsoTime.v]: JSON values, regrouping of bits (the
      base32 and base64 codecs), calendar time.

    Request path ([src/src/server/], [src/src/gateway/], [src/src/core/],
    [src/src/multimodal/], [src/src/observe/], [src/src/cache/],
    [src/include/]):
    - [ChatTypes.v]: the types of [types.h] with their JSON forms and the text
      in multimodal content.
    - [Upstream.v], [Connector.v]: the lines of a response in the curl and
      drogon clients; the OpenAI and Claude connectors with their retries.
    - [Unicode.v], [Balancer.v], [CircuitBreaker.v], [ErrorCodes.v],
      [Fallback.v]: [UnicodeNormalizer], the round robin over keys, the
      breaker, the error codes, [FallbackManager].
    - [RateLimiter.v]: [RateLimiter] and the quotas per modality.
    - [AbuseDetector.v]: [AbuseDetector] with its windows and similarity hash.
    - [Pipeline.v]: [RequestContext], [Pipeline], [TokenEstimator].
    - [SemanticCache.v]: [SemanticCache], its partition keys and summaries.
    - [CostTracker.v]: [CostTracker], proxy billing, [BudgetGuardStage].
    - [Gateway.v], [GatewayFacts.v]: [processRequest] and
      [processStreamingRequest] of [gateway_runtime.cpp], and their theorems.
    - [Proxy.v]: [processProxyRequest], [ModalityRouter] and its handlers.
    - [Sse.v]: [SseResponseWriter].
    - [Api.v]: the handlers of [api_controller.cpp].

    Agents and workflows ([src/src/agent/], [src/src/workflow/]):
    - [ToolSandbox.v], [Orchestrator.v]: [ToolRegistry], [ToolSandbox] and the
      loop of [Orchestrator] between a model and its tools.
    - [WorkflowDsl.v], [WorkflowStore.v], [WorkflowEngine.v]: the DSL, the
      state store behind an interface, and the engine with its worker pool.
    - [WorkflowApproval.v]: the proposals of paused nodes and their applier.

    Control plane ([src/src/control_plane/], [src/src/common/],
    [src/src/core/rollout_resolve.cpp]):
    - [ScopeMatcher.v]: [matches], [percentageMatches], [resolveActiveConfigId].
    - [ConfigVersion.v]: records and the transition table of configurations.
    - [ConfigStore.v], [RolloutStore.v]: the store's interface as type classes
      of operations and laws, and the in-memory implementation of
      [memory_persistent_store.cpp], which is proved to meet the laws.
    - [Ulid.v], [Diff.v], [Scanner.v]: identifiers, line diffs, secret scan.
    - [AuditLog.v]: the hash chain, the writer queue and [flush] of
      [guardrail/audit.cpp].
    - [Rollout.v]: rollout records and the rollout state machine.
    - [ControlPlane.v]: the world shared by the handlers, and the audit bridges.
    - [ConfigService.v]: [ConfigServiceCore], every handler.
    - [RolloutController.v]: [RolloutController], every handler and the tick.

    Approval of autonomous changes ([src/src/observe/autonomy/]):
    - [ApprovalQueue.v]: proposals, rows, payload digest, table and cache.
    - [ApprovalWorkflow.v]: [propose], [approve], [reject], [apply], [rollback].

    Identity and administration ([src/src/auth/], [src/src/server/admin_*]):
    - [Jwt.v], [Totp.v]: tokens, one-time codes and recovery codes.
    - [Identity.v]: the identity tables of the store and their operations.
    - [Auth.v]: [AuthService] and [SessionManager].
    - [AdminSession.v], [AdminBase.v], [AdminIam.v], [AdminMfa.v]: the session
      gate, the base class of the admin controllers, the handlers for tenants,
      users and keys, and those of the second factor.

    ** What the theorems show

    - Chat requests: a model is reached only by a request that passed every
      gate, in order and with the text the guardrails left
      ([gateway_gated]), only with a usable key ([chat_authenticated]); what
      the client gets is the answer of the one call the request was cleared
      for, as the outbound stages left it ([gateway_reply]), or the filtered
      chunks until a cut ([gateway_stream]); the connection gauge is accounted
      for exactly ([gateway_connections]).  Proxied requests pass their own
      gates, the answer is the upstream's, a success is billed once, and the
      gauge is released once but for late exceptions ([proxy_gated]); agents
      stay within their budget and run only tools that were asked for and are
      allowed ([agent_endpoint]); the other endpoints need their keys
      ([endpoint_keys]).
    - Wire formats: the connectors retry as documented, send the request and
      return what the provider said ([connector_complete], [connector_stream]);
      both transports give the same lines ([transports_agree]); what the stream
      writer sends is read back ([sse_delivers]); gateways can be chained
      ([gateway_chain]); text in data URIs is scanned up to the limit, whatever
      their parameters ([image_text_scanned]).
    - Cache: tenants do not see each other's answers under any interleaving
      ([cache_isolation]); alone, each operation is one on a list by recency
      ([cache_recency]).
    - Costs and limits: the ledger answers as the sum over the window
      ([ledger_window]), the budget guard decides exactly by its three checks
      ([budget_guard]), the answers under a quota are those of the own requests
      whatever else the limiter does, up to the pruning of idle buckets
      ([quota_isolated]), the abuse detector refines a history per key
      ([abuse_refines]).
    - Failures: the breaker refines a summary per model, forgetting by time
      included ([breaker_refines]), and the fallback returns the first answer
      or the documented error.
    - Workflows: dependencies are respected under every interleaving, every run
      ends with the outcome its nodes give, a resumed run continues where it
      paused, and the cycle check is exact.
    - Configurations: under any interleaving of requests, what becomes ACTIVE
      was reviewed by someone other than its submitter, at most one version is
      ACTIVE, and stored content passed the gates and never changes
      ([config_four_eyes], [config_single_active],
      [config_content_integrity]); alone, each request takes exactly the
      step of an abstract transition system and of the documented lifecycle
      ([config_refines],
      [config_sequential_lifecycle], [config_submit_dedupe]).
    - Rollouts: one active rollout per target, stages in range, no bypass of
      the approval workflow, refinement of the state machine, and what
      promotion, automatic rollback and reconciliation achieve
      ([rollout_invariants] to [rollout_reconcile]); which requests a stage
      covers, and that coverage only grows with the percentage
      ([matches_spec], [resolve_monotone]).
    - Audit: a log verifies, a change of a covered field is detected up to a
      SHA-256 collision, and [flush] is durable and resolves once the writer
      has caught up with what was logged meanwhile ([audit_flush_resolves]).
    - Approval: a proposal moves only along its lifecycle, only untampered
      payloads are applied, and a restart restores the queue.
    - Identity: exactly the bearers of usable keys are resolved
      ([auth_resolve_exact]); tokens verify exactly if signed; sessions expire;
      administrators act within their tenant ([iam_isolation]); a second factor
      cannot be skipped, and the guesses at the two endpoints with a lock-out
      are bounded when they follow one another ([mfa_guess_bound]).
    - Encodings and listings: ULIDs sort by time and give it back, pages
      enumerate every version once, a fallback diff is a lossless edit script,
      the scanner reports what the engine finds.
    - Limits: the lemmas named in the findings exhibit executions in which an
      expected stronger property fails.

    ** Bounds and fuel

    Loops over data are structural.  Where a definition takes fuel, the
    theorems hold at the fuel its callers use: the fallback diff uses one unit
    per input line plus one, since every turn consumes a line; the UTF-8
    decoder uses the length of the input, since every turn consumes a byte;
    the scan of one pattern uses the length of the text plus two, since every
    turn moves past a line ([scan_pattern_fuel]); [all_pages] takes any fuel
    above the number of rows; the cycle check uses its measure
    ([kahn_measure]); a workflow run ends within [run_bound] steps; the codecs
    take one or two units per symbol; the line splitter of the curl client uses
    the length of its buffer; the retries of a connector use the configured
    maximum, and an agent run its maximal number of steps.  The counters kept
    as [Z] (failure counts, weights) are C++ [int]s that do not overflow below
    2^31 events.

    ** What is not modelled

    The SQL, Redis and PostgreSQL stores (SQL text run by a server), apart
    from the second-factor table of SQLite; the gRPC and command-line front
    ends and the start of the processes (I/O); single sign-on and SCIM; the
    learned and statistical components (routers, classifiers, anomaly
    detection); embedders, vector indexes and retrieval; the guardrail stages
    other than the normaliser and the budget guard; plugins.
    Of the circuit breaker and the rate limiter the Redis branches, of the
    audit log the subscriber and sink callbacks, of the upstream clients the
    transfers themselves, and of the workflow DSL the YAML reader are left
    out.  Tracing spans are not modelled. *)
From stdpp Require Export base gmap strings list sorting relations.
From stdpp Require Export ssreflect.
From Stdlib Require Export Ascii ZArith Lia.

Declare Scope aegis_scope.
Delimit Scope aegis_scope with aegis.

(** ** Machine integers *)

(** [std::uint64_t] arithmetic wraps modulo 2^64. *)
Definition u64 (z : Z) : Z := (z mod 2 ^ 64)%Z.

Lemma u64_range z : (0 <= u64 z < 2 ^ 64)%Z.
Proof. apply Z.mod_pos_bound. reflexivity. Qed.

Lemma u64_id z : (0 <= z < 2 ^ 64)%Z → u64 z = z.
Proof. apply Z.mod_small. Qed.

Lemma u64_idemp z : u64 (u64 z) = u64 z.
Proof. apply u64_id, u64_range. Qed.

(** A wider integer narrowed to [int]. *)
Definition to_int (z : Z) : Z := ((z + 2 ^ 31) mod 2 ^ 32 - 2 ^ 31)%Z.

(** The bytes of a [std::string], as unsigned values. *)
Definition byte_of (c : Ascii.ascii) : Z := Z.of_N (Ascii.N_of_ascii c).
Definition bytes_of (s : string) : list Z :=
  byte_of <$> String.list_ascii_of_string s.

Lemma byte_of_range c : (0 <= byte_of c < 256)%Z.
Proof.
  unfold byte_of. pose proof (Ascii.N_ascii_bounded c). lia.
Qed.

Definition ascii_of_byte (z : Z) : Ascii.ascii := Ascii.ascii_of_N (Z.to_N z).
Definition string_of_bytes (l : list Z) : string :=
  String.string_of_list_ascii (ascii_of_byte <$> l).

Lemma byte_of_ascii z : (0 <= z < 256)%Z → byte_of (ascii_of_byte z) = z.
Proof. intros Hz. unfold byte_of, ascii_of_byte. rw Ascii.N_ascii_embedding; lia. Qed.

Lemma ascii_of_byte_of c : ascii_of_byte (byte_of c) = c.
Proof. unfold byte_of, ascii_of_byte. by rw N2Z.id Ascii.ascii_N_embedding. Qed.

Lemma string_of_bytes_of s : string_of_bytes (bytes_of s) = s.
Proof.
  unfold string_of_bytes, bytes_of. rw -list_fmap_compose.
  rw (list_fmap_ext _ id); [|intros; apply ascii_of_byte_of].
  by rw list_fmap_id String.string_of_list_ascii_of_string.
Qed.

Lemma bytes_of_range s : Forall (λ b, (0 <= b < 256)%Z) (bytes_of s).
Proof. apply Forall_fmap, Forall_forall. intros c _. apply byte_of_range. Qed.

(** A property of the numbers below [n], by cases. *)
Lemma below_all (P : Z → Prop) (n : nat) :
  Forall (λ i, P (Z.of_nat i)) (seq 0 n) → ∀ v, (0 <= v < Z.of_nat n)%Z → P v.
Proof.
  intros Hall v Hv. rw Forall_forall in Hall. specialize (Hall (Z.to_nat v)).
  rw Z2Nat.id in Hall; [|lia]. apply Hall, elem_of_seq. lia.
Qed.

(** ** Strings *)

Lemma string_length_app (s t : string) :
  String.length (s +:+ t) = (String.length s + String.length t)%nat.
Proof. induction s as [|c s IH]; [done|]. by rw /= IH. Qed.

Lemma string_app_nil_r (s : string) : s +:+ "" = s.
Proof. induction s as [|c s IH]; [done|]. change (String c (s +:+ "") = String c s). by rw IH. Qed.

Lemma string_app_assoc (s t u : string) : (s +:+ t) +:+ u = s +:+ (t +:+ u).
Proof.
  induction s as [|c s IH]; [done|].
  change (String c ((s +:+ t) +:+ u) = String c (s +:+ (t +:+ u))). by rw IH.
Qed.

Lemma substring_app_l (p q : string) :
  String.substring 0 (String.length p) (p +:+ q) = p.
Proof.
  induction p as [|c p IH]; [by destruct q|].
  change (String c (String.substring 0 (String.length p) (p +:+ q)) = String c p).
  by rw IH.
Qed.

Lemma substring_prefix_iff (p s : string) :
  String.substring 0 (String.length p) s = p ↔ ∃ q, s = p +:+ q.
Proof.
  split; [|intros [q ->]; apply substring_app_l].
  revert s. induction p as [|c p IH]; intros s; [by exists s|].
  destruct s as [|d s]; simpl; [done|].
  intros [= -> [q ->]%IH]. by exists q.
Qed.

(** A non-empty string is its all-but-last prefix and its last character. *)
Lemma string_snoc (s : string) n :
  String.length s = S n →
  ∃ c, String.get n s = Some c ∧ s = String.substring 0 n s +:+ String c "".
Proof.
  revert n. induction s as [|a s IH]; intros n Hn; simplify_eq/=.
  destruct s as [|b s]; [exists a; done|].
  destruct (IH (String.length s)) as (c & Hget & Heq); [done|].
  exists c. split; [done|].
  change (String a (String b s) =
    String a (String.substring 0 (String.length s) (String b s) +:+ String c "")).
  by rw -Heq.
Qed.

Lemma string_get_snoc (p : string) c :
  String.get (String.length p) (p +:+ String c "") = Some c.
Proof. induction p as [|a p IH]; [done|]. exact IH. Qed.

Lemma string_snoc_inj (p q : string) c d :
  p +:+ String c "" = q +:+ String d "" → p = q ∧ c = d.
Proof.
  revert q. induction p as [|a p IH]; intros [|b q] H.
  - by injection H as ->.
  - injection H as -> H. by destruct q.
  - injection H as -> H. by destruct p.
  - injection H as -> H. apply IH in H as [-> ->]. done.
Qed.

(** [s.find(c, from)]. *)
Fixpoint str_find (c : Ascii.ascii) (from : nat) (s : string) : option nat :=
  match s, from with
  | EmptyString, _ => None
  | String d s, O => if decide (d = c) then Some O else S <$> str_find c 0 s
  | String _ s, S from => S <$> str_find c from s
  end.

(** [s.substr(pos)], within the string. *)
Definition substr_from (pos : nat) (s : string) : string :=
  String.substring pos (String.length s - pos) s.

Definition has_char (c : Ascii.ascii) (s : string) : Prop :=
  c ∈ String.list_ascii_of_string s.

Lemma list_ascii_app (s t : string) :
  String.list_ascii_of_string (s +:+ t) =
  String.list_ascii_of_string s ++ String.list_ascii_of_string t.
Proof.
  induction s as [|c s IH]; [done|].
  change (c :: String.list_ascii_of_string (s +:+ t) =
          c :: (String.list_ascii_of_string s ++ String.list_ascii_of_string t)). by rw IH.
Qed.

Lemma string_cons_app (c : Ascii.ascii) (s t : string) : String c s +:+ t = String c (s +:+ t).
Proof. done. Qed.

Lemma str_find_skip c (a b : string) :
  str_find c (String.length a) (a +:+ b) = (λ n, String.length a + n)%nat <$> str_find c 0 b.
Proof.
  induction a as [|d a IH].
  { change ("" +:+ b) with b. simpl. by destruct (str_find c 0 b). }
  rw string_cons_app /= IH. by destruct (str_find c 0 b).
Qed.

Lemma str_find_none c s : ¬ has_char c s → str_find c 0 s = None.
Proof.
  unfold has_char. induction s as [|d s IH]; [done|]. simpl. rw not_elem_of_cons. intros [Hd Hs].
  rw decide_False; [by rw IH|]. by intros ->.
Qed.

Lemma str_find_none_inv c s : str_find c 0 s = None → ¬ has_char c s.
Proof.
  unfold has_char. induction s as [|d s IH]; simpl; [intros _; apply not_elem_of_nil|].
  case_decide; [done|]. intros Hs%fmap_None. rw not_elem_of_cons. split; [by intros ->|by apply IH].
Qed.

Lemma str_find_first c (a b : string) :
  ¬ has_char c a → str_find c 0 (a +:+ String c b) = Some (String.length a).
Proof.
  unfold has_char. induction a as [|d a IH]; [by rw /= decide_True|].
  simpl. rw not_elem_of_cons. intros [Hd Hs]. rw decide_False; [by rw IH|]. by intros ->.
Qed.

Lemma str_find_some c from s n :
  str_find c from s = Some n →
  ∃ a b, s = a +:+ String c b ∧ String.length a = n ∧ (from <= n)%nat ∧
         (from = 0%nat → ¬ has_char c a).
Proof.
  unfold has_char. revert from n. induction s as [|d s IH]; intros [|from] n; simpl; try done.
  - case_decide as Hd.
    + intros [= <-]. exists "", s. subst. split_and!; [done..|]. intros _. apply not_elem_of_nil.
    + intros (m & (a & b & -> & <- & _ & Ha)%IH & ->)%fmap_Some.
      exists (String d a), b. split_and!; [done|done|lia|]. intros _. simpl.
      rw not_elem_of_cons. split; [by intros ->|by apply Ha].
  - intros (m & (a & b & -> & <- & ? & _)%IH & ->)%fmap_Some.
    exists (String d a), b. split_and!; [done|done|simpl; lia|done].
Qed.

Lemma substring_skip (a b : string) n :
  String.substring (String.length a) n (a +:+ b) = String.substring 0 n b.
Proof. induction a as [|d a IH]; [done|]. rw string_cons_app /=. done. Qed.

Lemma substring_full (s : string) : String.substring 0 (String.length s) s = s.
Proof. induction s as [|d s IH]; [done|]. rw /= IH //. Qed.

Lemma substr_from_app (a b : string) : substr_from (String.length a) (a +:+ b) = b.
Proof.
  unfold substr_from. rw string_length_app substring_skip Nat.add_comm Nat.add_sub.
  apply substring_full.
Qed.

Lemma has_char_app c (a b : string) : has_char c (a +:+ b) ↔ has_char c a ∨ has_char c b.
Proof. unfold has_char. by rw list_ascii_app elem_of_app. Qed.

Lemma substr_after (a b : string) c : substr_from (S (String.length a)) (a +:+ String c b) = b.
Proof.
  rw (_ : a +:+ String c b = (a +:+ String c "") +:+ b); [|by rw string_app_assoc].
  rw (_ : S (String.length a) = String.length (a +:+ String c "")); [apply substr_from_app|].
  rw string_length_app /=. lia.
Qed.

(** ** Record update *)

(** [Settable R] is the eta-expansion of [R]'s constructor over its
    projections; from it [r <| f := v |>] is the record [r] with one field
    changed. *)
Class Settable (R : Type) := eta_of : R → R.
Class Setter {R T : Type} (f : R → T) := set_field : (T → T) → R → R.
#[global] Arguments set_field {R T} f {_} _ _ /.

Ltac find_setter :=
  match goal with
  | |- @Setter ?R ?T ?f =>
      let eta := constr:(_ : Settable R) in
      let eta := eval hnf in eta in
      match eval pattern f in eta with
      | ?update _ => exact (λ (g : T → T) (r : R), update (λ r, g (f r)) r)
      end
  end.
#[global] Hint Extern 1 (Setter _) => find_setter : typeclass_instances.

Notation "r <| f := v |>" := (set_field f (λ _, v) r)
  (at level 12, left associativity, v at level 99, format "r  <|  f  :=  v  |>").

(** ** Lists *)

Lemma elem_of_take_1 {A} n (l : list A) x : x ∈ take n l → x ∈ l.
Proof. intros (i & Hi & _)%elem_of_take. by eapply list_elem_of_lookup_2. Qed.

Lemma take_short {A} n (l : list A) : (length (take n l) < n)%nat → take n l = l.
Proof. rw length_take. intros. apply take_ge. lia. Qed.

Lemma sublist_same_length {A} (l1 l2 : list A) :
  sublist l1 l2 → (length l2 <= length l1)%nat → l1 = l2.
Proof.
  induction 1 as [|x l1 l2 _ IH|x l1 l2 Hs]; simpl; intros Hlen; [done| |].
  - f_equal. apply IH. lia.
  - apply sublist_length in Hs. lia.
Qed.

Lemma filter_all {A} (P : A → Prop) `{!∀ x, Decision (P x)} l :
  Forall P l → base.filter P l = l.
Proof. induction 1 as [|x l Hx _ IH]; [done|]. by rw filter_cons_True // IH. Qed.

Lemma filter_none {A} (P : A → Prop) `{!∀ x, Decision (P x)} l :
  Forall (λ x, ¬ P x) l → base.filter P l = [].
Proof. induction 1 as [|x l Hx _ IH]; [done|]. by rw filter_cons_False // IH. Qed.

Lemma StronglySorted_weaken {A} (R R' : relation A) l :
  (∀ a b, R a b → R' a b) → StronglySorted R l → StronglySorted R' l.
Proof.
  intros HR. induction 1 as [|a l ? IH Hf]; constructor; [done|].
  eapply Forall_impl; [done|]. auto.
Qed.

Lemma StronglySorted_irrefl_NoDup {A} (R : relation A) l :
  (∀ a, ¬ R a a) → StronglySorted R l → NoDup l.
Proof.
  intros HR. induction 1 as [|a l ? IH Hf]; constructor; [|done].
  intros Ha. eapply HR, (proj1 (Forall_forall _ _) Hf a Ha).
Qed.

(** ** Invariants of step relations *)

Lemma rtc_invariant {A} (R : relation A) (P : A → Prop) x y :
  P x → (∀ a b, P a → R a b → P b) → rtc R x y → P y.
Proof. intros Hx HR Hxy. induction Hxy; eauto. Qed.

(** ** Decidable string order *)

(** [a < b] on [std::string] compares unsigned characters
    lexicographically. *)
Definition str_ltb (a b : string) : bool := String.ltb a b.

Lemma str_compare_refl s : String.compare s s = Eq.
Proof.
  induction s as [|c s IH]; simpl; [done|].
  unfold Ascii.compare. by rw N.compare_refl.
Qed.

Lemma str_ltb_irrefl s : str_ltb s s = false.
Proof. unfold str_ltb, String.ltb. by rw str_compare_refl. Qed.

Lemma str_ltb_asym a b : str_ltb a b = true → str_ltb b a = false.
Proof.
  unfold str_ltb, String.ltb. rw (String.compare_antisym a b).
  by destruct (String.compare b a).
Qed.

Lemma str_ltb_total a b : a ≠ b → str_ltb a b = false → str_ltb b a = true.
Proof.
  unfold str_ltb, String.ltb. rw (String.compare_antisym a b).
  destruct (String.compare b a) eqn:E; simpl; [|done..].
  apply String.compare_eq_iff in E. congruence.
Qed.

Lemma str_ltb_leb a b : str_ltb a b = false ↔ String.le b a.
Proof.
  unfold str_ltb, String.ltb, String.le, String.leb.
  rw (String.compare_antisym a b). destruct (String.compare b a); naive_solver.
Qed.

Lemma str_ltb_trans a b c : str_ltb a b = true → str_ltb b c = true → str_ltb a c = true.
Proof.
  intros Hab Hbc%str_ltb_asym%str_ltb_leb. destruct (str_ltb a c) eqn:Hac; [done|].
  apply str_ltb_leb in Hac. assert (str_ltb a b = false) by (apply str_ltb_leb; by etrans).
  congruence.
Qed.

Lemma str_ltb_empty s : s ≠ "" → str_ltb "" s = true.
Proof. by destruct s. Qed.

(** Strings with equally long prefixes compare prefix first. *)
Lemma str_compare_app (a b c d : string) :
  String.length a = String.length c →
  String.compare (a +:+ b) (c +:+ d) =
    match String.compare a c with Eq => String.compare b d | r => r end.
Proof.
  revert c. induction a as [|x a IH]; intros [|y c] Hl; simplify_eq/=; [done|].
  change (match Ascii.compare x y with
          | Eq => String.compare (a +:+ b) (c +:+ d) | Lt => Lt | Gt => Gt end =
          match match Ascii.compare x y with
                | Eq => String.compare a c | Lt => Lt | Gt => Gt end with
          | Eq => String.compare b d | r => r end).
  destruct (Ascii.compare x y); [by apply IH|done|done].
Qed.

Lemma str_app_inj_length (a b c d : string) :
  String.length a = String.length c → a +:+ b = c +:+ d → a = c ∧ b = d.
Proof.
  revert c. induction a as [|x a IH]; intros [|y c] Hl H; [done..|].
  injection Hl as Hl. injection H as -> H. apply IH in H as [-> ->]; done.
Qed.

(** ** [std::sort] *)

(** [std::sort] with comparator [ltb] leaves the elements in an order in
    which no later element is [ltb] an earlier one; for the comparators of the
    code, which are strict total orders on distinct keys, that order is
    unique, so any implementation returns this list. *)
Definition no_later {A} (ltb : A → A → bool) (a b : A) : Prop := ltb b a = false.
#[global] Instance no_later_dec {A} (ltb : A → A → bool) :
  RelDecision (no_later ltb) := λ a b, decide (ltb b a = false).

Definition std_sort {A} (ltb : A → A → bool) (l : list A) : list A :=
  merge_sort (no_later ltb) l.

(** A comparator that lists in a strict weak order. *)
Class SortOrder {A} (ltb : A → A → bool) : Prop := {
  sort_asym a b : ltb a b = true → ltb b a = false;
  sort_trans a b c : ltb b a = false → ltb c b = false → ltb c a = false;
}.

Section sort.
Context {A : Type} (ltb : A → A → bool).

Lemma std_sort_perm l : std_sort ltb l ≡ₚ l.
Proof. apply merge_sort_Permutation. Qed.

Lemma std_sort_elem x l : x ∈ std_sort ltb l ↔ x ∈ l.
Proof. by rw std_sort_perm. Qed.

Context `{!SortOrder ltb}.

#[local] Instance no_later_total : Total (no_later ltb).
Proof.
  intros a b. unfold no_later. destruct (ltb b a) eqn:E; [|by left].
  right. by apply sort_asym.
Qed.

#[local] Instance no_later_trans : Transitive (no_later ltb).
Proof. intros a b c. unfold no_later. apply sort_trans. Qed.

Lemma std_sort_sorted l : StronglySorted (no_later ltb) (std_sort ltb l).
Proof. apply StronglySorted_merge_sort; apply _. Qed.

(** When ties are only between equal elements, the result is a function of
    the multiset: the iteration order of an [unordered_map] cannot show. *)
Lemma std_sort_unique l1 l2 :
  (∀ a b, a ∈ l1 → b ∈ l1 → ltb a b = false → ltb b a = false → a = b) →
  l1 ≡ₚ l2 → std_sort ltb l1 = std_sort ltb l2.
Proof.
  intros Htie Hp. apply (StronglySorted_unique_strong (no_later ltb)).
  - intros a b. rw !std_sort_elem. intros Ha Hb H1 H2.
    apply Htie; [done|by rw Hp|done|done].
  - apply std_sort_sorted.
  - apply std_sort_sorted.
  - by rw !std_sort_perm Hp.
Qed.
End sort.

(** Sorting by a string field. *)
#[export] Instance str_key_order {A} (key : A → string) :
  SortOrder (λ a b, str_ltb (key a) (key b)).
Proof.
  split; [by intros a b ?%str_ltb_asym|].
  intros a b c. rw !str_ltb_leb. by etrans.
Qed.

(** ** Iteration over [std::unordered_map] *)

(** The iteration order is the container's own; the code may rely only on
    every entry being visited once. *)
Class UnorderedIter := {
  iter `{Countable K} {V : Type} : gmap K V → list (K * V);
  iter_perm `{Countable K} {V : Type} (m : gmap K V) : iter m ≡ₚ map_to_list m;
}.

#[global] Instance canonical_iter : UnorderedIter :=
  {| iter K _ _ V m := map_to_list m; iter_perm K _ _ V m := reflexivity _ |}.

Lemma elem_of_iter `{UnorderedIter} `{Countable K} {V} (m : gmap K V) k v :
  (k, v) ∈ iter m ↔ m !! k = Some v.
Proof. by rw iter_perm elem_of_map_to_list. Qed.

Lemma NoDup_iter `{UnorderedIter} `{Countable K} {V} (m : gmap K V) : NoDup (iter m).*1.
Proof. rw iter_perm. apply NoDup_fst_map_to_list. Qed.

(** ** Booleans and results *)

(** [x.empty()] on a string. *)
Definition str_empty (s : string) : bool := bool_decide (s = "").

Lemma str_empty_spec s : str_empty s = true ↔ s = "".
Proof. apply bool_decide_eq_true. Qed.
Lemma str_empty_false s : str_empty s = false ↔ s ≠ "".
Proof. apply bool_decide_eq_false. Qed.

(** Case analysis on the conditions of a definition, the way the code
    branches. *)
Ltac branch :=
  repeat (match goal with
  | |- context [match ?x with _ => _ end] => destruct x eqn:?
  | H : context [match ?x with _ => _ end] |- _ => destruct x eqn:?
  end; simplify_eq/=).

Create HintDb aegis.
#[export] Hint Resolve str_ltb_irrefl u64_range byte_of_range : aegis.
#[export] Hint Rewrite @bool_decide_eq_true @bool_decide_eq_false str_empty_spec
  str_empty_false Z.eqb_eq Z.eqb_neq Z.ltb_lt Z.ltb_ge Z.leb_le Z.leb_gt
  Nat.eqb_eq Nat.leb_le andb_true_iff orb_true_iff negb_true_iff negb_false_iff
  andb_false_iff orb_false_iff : bools.

(** Boolean conditions as propositions. *)
Ltac bools := autorewrite with bools in *.

(** ** Cursor pagination *)

(** [std::find_if] on the cursor followed by [++start]: what comes after the
    first element with key [tok], nothing when there is none. *)
Fixpoint after_token {A} (key : A → string) (tok : string) (l : list A) : list A :=
  match l with
  | [] => []
  | a :: l => if decide (key a = tok) then l else after_token key tok l
  end.

Definition from_token {A} (key : A → string) (tok : string) (l : list A) : list A :=
  if str_empty tok then l else after_token key tok l.

(** A client that fetches page after page, each time with the key of the
    last element it received as the cursor, until a page is empty. *)
Fixpoint all_pages {A} (fuel : nat) (key : A → string) (get : string → list A)
    (tok : string) : list A :=
  match fuel with
  | O => []
  | S fuel =>
      match last (get tok) with
      | None => []
      | Some a => get tok ++ all_pages fuel key get (key a)
      end
  end.

Section pagination.
Context {A : Type} (key : A → string).

Lemma elem_of_from_token tok l x : x ∈ from_token key tok l → x ∈ l.
Proof.
  unfold from_token. destruct (str_empty tok); [done|].
  induction l as [|a l IH]; simpl; [done|]. case_decide; set_solver.
Qed.

Lemma after_token_app l1 x l2 :
  NoDup (key <$> l1 ++ x :: l2) → after_token key (key x) (l1 ++ x :: l2) = l2.
Proof.
  induction l1 as [|y l1 IH]; simpl.
  - intros _. by case_decide.
  - intros [Hy Hnd]%NoDup_cons. case_decide as E; [|by apply IH].
    destruct Hy. rw E. apply list_elem_of_fmap_2. set_solver.
Qed.

Lemma all_pages_rest l cap fuel pre rest tok :
  (0 < cap)%nat → NoDup (key <$> l) → "" ∉ key <$> l →
  l = pre ++ rest → from_token key tok l = rest → (length rest < fuel)%nat →
  all_pages fuel key (λ t, take cap (from_token key t l)) tok = rest.
Proof.
  intros Hcap Hnd Hne. revert pre rest tok.
  induction fuel as [|fuel IH]; intros pre rest tok Hl Htok Hfuel; [lia|].
  simpl. rw Htok. destruct (last (take cap rest)) as [a|] eqn:Hlast.
  - apply last_Some in Hlast as [l' Hl'].
    assert (rest = (l' ++ [a]) ++ drop cap rest) as Hrest
      by by rw -Hl' take_drop.
    assert (l = (pre ++ l') ++ a :: drop cap rest) as Hl2.
    { rw Hl {1}Hrest -!app_assoc //. }
    rw {2}Hrest -Hl'. f_equal. apply (IH (pre ++ l' ++ [a])).
    + by rw Hl2 -!app_assoc.
    + unfold from_token. destruct (str_empty (key a)) eqn:E.
      { apply str_empty_spec in E. destruct Hne. rw -E Hl2 fmap_app. set_solver. }
      rw {1}Hl2. apply after_token_app. by rw -Hl2.
    + rw Hrest length_app in Hfuel. rw length_app /= in Hfuel. lia.
  - apply last_None in Hlast. destruct rest; [done|]. destruct cap; [lia|done].
Qed.

(** Paging through a list by cursor enumerates it exactly once. *)
Lemma all_pages_complete l cap fuel :
  (0 < cap)%nat → NoDup (key <$> l) → "" ∉ key <$> l → (length l < fuel)%nat →
  all_pages fuel key (λ t, take cap (from_token key t l)) "" = l.
Proof. intros. by apply (all_pages_rest l cap fuel [] l ""). Qed.
End pagination.

(** ** The listings' comparators *)

(** [if (a.t != b.t) return a.t > b.t; return a.id > b.id;] *)
Definition desc_by {A} (t : A → Z) (id : A → string) (a b : A) : bool :=
  if bool_decide (t a ≠ t b) then (t b <? t a)%Z else str_ltb (id b) (id a).

(** [if (a.t != b.t) return a.t < b.t; return a.id < b.id;] *)
Definition asc_by {A} (t : A → Z) (id : A → string) (a b : A) : bool :=
  if bool_decide (t a ≠ t b) then (t a <? t b)%Z else str_ltb (id a) (id b).

Section comparators.
Context {A : Type} (t : A → Z) (id : A → string).

Lemma desc_by_asc a b : desc_by t id a b = asc_by t id b a.
Proof. unfold desc_by, asc_by. repeat case_bool_decide; congruence. Qed.

Lemma asc_by_false a b :
  asc_by t id a b = false ↔ (t b < t a)%Z ∨ (t a = t b ∧ String.le (id b) (id a)).
Proof.
  unfold asc_by. case_bool_decide as E.
  - rw Z.ltb_ge. naive_solver lia.
  - rw str_ltb_leb. naive_solver lia.
Qed.

#[export] Instance asc_by_order : SortOrder (asc_by t id).
Proof.
  split.
  - intros a b Hab. apply asc_by_false.
    assert (¬ ((t b < t a)%Z ∨ (t a = t b ∧ String.le (id b) (id a)))) as Hn
      by (rw -asc_by_false; congruence).
    destruct (total String.le (id a) (id b)), (Z.lt_total (t a) (t b)) as [?|[?|?]];
      naive_solver.
  - intros a b c. rw !asc_by_false.
    intros [?|[? ?]] [?|[? ?]]; [left; lia..|].
    right. split; [congruence|]. by etrans.
Qed.

#[export] Instance desc_by_order : SortOrder (desc_by t id).
Proof.
  split.
  - intros a b. rw !desc_by_asc. apply sort_asym.
  - intros a b c. rw !desc_by_asc. intros. by eapply sort_trans.
Qed.

Lemma asc_by_tie a b :
  asc_by t id a b = false → asc_by t id b a = false → id a = id b.
Proof.
  rw !asc_by_false. intros [?|[? ?]] [?|[? ?]]; try lia.
  by apply (anti_symm String.le).
Qed.

Lemma desc_by_tie a b :
  desc_by t id a b = false → desc_by t id b a = false → id a = id b.
Proof. rw !desc_by_asc. intros. by apply asc_by_tie. Qed.
End comparators.
