(* ===== verification/Prog.v ===== *)
(** * Prog: handlers as effectful programs

    A handler of the gateway is a C++ function that calls a store, a clock, an
    audit logger, ...; each of those calls takes the callee's mutex for its
    whole duration and is one atomic step, but nothing is held between two of
    them.  [prog E A] is such a handler: a tree of calls [E B] with the code
    between them as continuations.  The one definition of a handler has two
    semantics: [run] executes it alone, [pool_step] interleaves the calls of a
    pool of handlers with each other and with steps of the environment.
    [safe] is a rely/guarantee condition on one handler, and [pool_safe] lifts
    it to every interleaving. *)
From S2P Require Import Prelude.

Inductive prog (E : Type → Type) (A : Type) : Type :=
| Ret (a : A)
| Vis {B : Type} (e : E B) (k : B → prog E A).
Arguments Ret {E A} a.
Arguments Vis {E A B} e k.

Fixpoint prog_bind {E A B} (f : A → prog E B) (p : prog E A) : prog E B :=
  match p with
  | Ret a => f a
  | Vis e k => Vis e (λ b, prog_bind f (k b))
  end.

#[global] Instance prog_mret {E} : MRet (prog E) := λ A, Ret.
#[global] Instance prog_mbind {E} : MBind (prog E) := λ A B, prog_bind.

(** One call. *)
Definition call {E B} (e : E B) : prog E B := Vis e Ret.

(** [when (c) p]: an [if (c) { ... }] without an [else]. *)
Definition when_ {E} (c : bool) (p : prog E unit) : prog E unit :=
  if c then p else Ret tt.

(** A handler of one component called from another's. *)
Fixpoint translate {E F : Type → Type} {A} (f : ∀ B, E B → F B) (p : prog E A) : prog F A :=
  match p with
  | Ret a => Ret a
  | Vis e k => Vis (f _ e) (λ b, translate f (k b))
  end.

(** A range-[for] whose body performs calls. *)
Fixpoint for_each {E A} (f : A → prog E unit) (l : list A) : prog E unit :=
  match l with
  | [] => Ret tt
  | a :: l => f a ≫= λ _, for_each f l
  end.

(** [within n p]: at most [n] calls, whatever they return. *)
Fixpoint within {E : Type → Type} {A} (n : nat) (p : prog E A) {struct p} : Prop :=
  match p with
  | Ret _ => True
  | Vis e k => match n with O => False | S n => ∀ b, within n (k b) end
  end.

Lemma within_mono {E : Type → Type} {A} n m (p : prog E A) : n ≤ m → within n p → within m p.
Proof.
  revert n m. induction p as [a|B e k IH]; intros [|n] [|m] Hle Hp; simpl in *; try done; [lia|].
  intros b. apply (IH b n); [lia|done].
Qed.

Lemma within_bind {E : Type → Type} {A B} n m (p : prog E A) (f : A → prog E B) :
  within n p → (∀ a, within m (f a)) → within (n + m) (p ≫= f).
Proof.
  revert n. induction p as [a|C e k IH]; intros n Hp Hf.
  - apply (within_mono m); [lia|apply Hf].
  - destruct n as [|n]; [done|]. intros b. by apply IH.
Qed.

Lemma within_call {E : Type → Type} {A B} n (e : E B) (k : B → prog E A) :
  (∀ b, within n (k b)) → within (S n) (call e ≫= k).
Proof. done. Qed.

Section semantics.
Context {E : Type → Type} {W : Type}.
Variable exec : ∀ B, E B → W → B * W.
Arguments exec {B} _ _.

(** Sequential execution. *)
Fixpoint run {A} (p : prog E A) (w : W) : A * W :=
  match p with
  | Ret a => (a, w)
  | Vis e k => let '(b, w') := exec e w in run (k b) w'
  end.

(** One atomic call of one handler; a finished handler does not move. *)
Definition prog_step {A} (p : prog E A) (w : W) : prog E A * W :=
  match p with
  | Ret a => (Ret a, w)
  | Vis e k => let '(b, w') := exec e w in (k b, w')
  end.

(** A schedule names the handler that makes the next call. *)
Fixpoint run_sched {A} (sched : list nat) (ts : list (prog E A)) (w : W) :
    list (prog E A) * W :=
  match sched with
  | [] => (ts, w)
  | i :: sched =>
      match ts !! i with
      | None => run_sched sched ts w
      | Some p => let '(p', w') := prog_step p w in
                  run_sched sched (<[i := p']> ts) w'
      end
  end.

(** Any interleaving, with environment steps [env] in between; a handler
    that [req] admits may start at any time. *)
Inductive pool_step {A} (env : W → W → Prop) (req : prog E A → Prop) :
    list (prog E A) * W → list (prog E A) * W → Prop :=
| pool_thread ts i p w :
    ts !! i = Some p →
    pool_step env req (ts, w) (<[i := (prog_step p w).1]> ts, (prog_step p w).2)
| pool_env ts w w' : env w w' → pool_step env req (ts, w) (ts, w')
| pool_spawn ts p w : req p → pool_step env req (ts, w) (ts ++ [p], w).

Lemma run_bind {A B} (f : A → prog E B) (p : prog E A) w :
  run (p ≫= f) w = let '(a, w') := run p w in run (f a) w'.
Proof.
  revert w. induction p as [a|C e k IH]; intros w; [done|].
  change (run (Vis e k ≫= f) w) with
    (let '(b, w') := exec e w in run (k b ≫= f) w').
  simpl. destruct (exec e w) as [b w']. apply IH.
Qed.

Lemma run_sched_steps {A} env req sched (ts : list (prog E A)) w :
  rtc (pool_step env req) (ts, w) (run_sched sched ts w).
Proof.
  revert ts w. induction sched as [|i sched IH]; intros ts w; simpl; [done|].
  destruct (ts !! i) as [p|] eqn:Hi; [|done].
  destruct (prog_step p w) as [p' w'] eqn:Hp.
  eapply rtc_l; [apply (pool_thread env req ts i p w Hi)|]. rw Hp. apply IH.
Qed.

(** The same for handlers started from nothing. *)
Lemma run_sched_spawned {A} env req sched (ts : list (prog E A)) w :
  Forall req ts → rtc (pool_step env req) ([], w) (run_sched sched ts w).
Proof.
  intros Hts. transitivity (ts, w); [|apply run_sched_steps].
  assert (∀ pre, rtc (pool_step env req) (pre, w) (pre ++ ts, w)) as H; [|apply (H [])].
  induction Hts as [|p ts Hp _ IH]; intros pre; [by rw app_nil_r|].
  eapply rtc_l; [by apply (pool_spawn env req pre p w)|].
  rw (_ : pre ++ p :: ts = (pre ++ [p]) ++ ts); [apply IH|by rw -app_assoc].
Qed.

Lemma run_call {A B} (e : E B) (k : B → prog E A) w :
  run (call e ≫= k) w = run (k (exec e w).1) (exec e w).2.
Proof. simpl. by destruct (exec e w). Qed.

(** ** Rely/guarantee *)

Section rely_guarantee.
Context (Rel Gua : relation W) `{!PreOrder Rel} (I : W → Prop).

(** [safe Q p w]: from any state the others may have moved [w] to (by [Rel]),
    the next call of [p] respects [Gua] and [I], and so on; the result
    satisfies [Q]. *)
Fixpoint safe {A} (Q : A → W → Prop) (p : prog E A) (w : W) : Prop :=
  match p with
  | Ret a => ∀ w', Rel w w' → I w' → Q a w'
  | Vis e k => ∀ w', Rel w w' → I w' →
      Gua w' (exec e w').2 ∧ I (exec e w').2 ∧
      safe Q (k (exec e w').1) (exec e w').2
  end.

Lemma safe_stable {A} (Q : A → W → Prop) p w w' :
  Rel w w' → safe Q p w → safe Q p w'.
Proof.
  intros HR. destruct p as [a|B e k]; simpl; intros Hs w'' HR';
    apply Hs; by etrans.
Qed.

Lemma safe_mono {A} (Q Q' : A → W → Prop) p w :
  (∀ a w', I w' → Q a w' → Q' a w') → safe Q p w → safe Q' p w.
Proof.
  intros HQ. revert w. induction p as [a|B e k IH]; simpl; intros w Hs w' HR HI.
  - auto.
  - destruct (Hs w' HR HI) as (?&?&?). auto.
Qed.

Lemma safe_bind {A B} (Q : B → W → Prop) (f : A → prog E B) p w :
  safe (λ a w', safe Q (f a) w') p w → safe Q (p ≫= f) w.
Proof.
  revert w. induction p as [a|C e k IH]; intros w Hs; simpl in *.
  - assert (∀ w', Rel w w' → I w' → safe Q (f a) w') as Hs' by done. clear Hs.
    change (safe Q (f a) w). destruct (f a) as [b|D e k]; simpl in *.
    + intros w' ??. apply (Hs' w'); done.
    + intros w' ??. apply (Hs' w'); done.
  - intros w' HR HI. destruct (Hs w' HR HI) as (?&?&?). eauto.
Qed.

(** Alone, a safe handler keeps the invariant and returns a [Q]-result. *)
Lemma safe_run {A} (Q : A → W → Prop) p w :
  I w → safe Q p w → I (run p w).2 ∧ Q (run p w).1 (run p w).2.
Proof.
  revert w. induction p as [a|B e k IH]; simpl; intros w HI Hs.
  - split_and!; [done|]. by apply Hs.
  - destruct (Hs w) as (HR & HI' & Hk); [done|done|].
    destruct (exec e w) as [b w']; simpl in *. by apply IH.
Qed.

Lemma safe_step {A} (Q : A → W → Prop) p w :
  I w → (∀ w1, Gua w1 w1) → safe Q p w →
  Gua w (prog_step p w).2 ∧ I (prog_step p w).2 ∧
  safe Q (prog_step p w).1 (prog_step p w).2.
Proof.
  destruct p as [a|B e k]; simpl; intros HI Hg Hs; [done|].
  destruct (Hs w) as (?&?&?); [done|done|]. by destruct (exec e w).
Qed.

(** A handler none of whose calls touches what [view] shows, whatever the
    calls return. *)
Fixpoint quiet {V A} (view : W → V) (p : prog E A) : Prop :=
  match p with
  | Ret _ => True
  | Vis e k => (∀ w, view (exec e w).2 = view w) ∧ ∀ b, quiet view (k b)
  end.

Lemma quiet_bind {V A B} (view : W → V) (p : prog E A) (f : A → prog E B) :
  quiet view p → (∀ a, quiet view (f a)) → quiet view (p ≫= f).
Proof.
  induction p as [a|C e k IH]; intros Hp Hf; [apply Hf|].
  destruct Hp as [He Hk]. split; [done|]. intros b. apply IH; auto.
Qed.

Lemma quiet_run {V A} (view : W → V) (p : prog E A) w :
  quiet view p → view (run p w).2 = view w.
Proof.
  revert w. induction p as [a|B e k IH]; intros w; [done|]. intros [He Hk]. simpl.
  specialize (He w). destruct (exec e w) as [b w']; simpl in *. rw -He. by apply IH.
Qed.

(** Alone, a quiet handler followed by a value. *)
Lemma quiet_run_ret {V A B} (view : W → V) (p : prog E A) (b : B) w :
  quiet view p →
  (run (p ≫= λ _, Ret b) w).1 = b ∧ view (run (p ≫= λ _, Ret b) w).2 = view w.
Proof.
  intros Hq. rw run_bind. pose proof (quiet_run view p w Hq) as Hv.
  by destruct (run p w).
Qed.

(** A quiet prefix keeps what was known of the view. *)
Lemma safe_quiet {V A B} (view : W → V) (Q : B → W → Prop) (p : prog E A)
    (f : A → prog E B) w :
  (∀ w1 w2, view w1 = view w2 → Gua w1 w2 ∧ Rel w1 w2 ∧ (I w1 → I w2)) →
  quiet view p →
  (∀ a w', Rel w w' → I w' → safe Q (f a) w') →
  safe Q (p ≫= f) w.
Proof.
  intros Hv. revert w. induction p as [a|C e k IH]; intros w Hq Hf; simpl in *.
  - assert (∀ w', Rel w w' → I w' → safe Q (f a) w') as Hs' by eauto.
    change (safe Q (f a) w). destruct (f a) as [b|D e k]; simpl in *; intros w' ??;
      by apply (Hs' w').
  - destruct Hq as [He Hk]. intros w' HR HI.
    destruct (Hv w' (exec e w').2) as (?&HR'&?); [done|]. split_and!; [done|auto|].
    apply IH; [done|]. intros a w'' HR''. apply Hf. by do 2 (etrans; [done|]).
Qed.

(** A safe prefix whose result is not looked at. *)
Lemma safe_then {A B} (Q : B → W → Prop) (p : prog E A) (f : A → prog E B) w :
  (∀ w1 w2, Gua w1 w2 → Rel w1 w2) →
  safe (λ _ _, True) p w → (∀ a w', Rel w w' → safe Q (f a) w') → safe Q (p ≫= f) w.
Proof.
  intros HGR. revert w. induction p as [a|C e k IH]; intros w Hp Hf.
  - by apply (Hf a w).
  - intros w' HR HI. destruct (Hp w' HR HI) as (HG & HI' & Hk). split_and!; [done..|].
    apply IH; [done|]. intros a w'' HR''. apply Hf. etrans; [done|]. etrans; [|done]. by apply HGR.
Qed.

(** Under any interleaving of safe handlers, the invariant holds throughout
    and every handler stays safe. *)
Lemma pool_safe {A} (Q : A → W → Prop) env req ts w ts' w' :
  (∀ w1 w2, Gua w1 w2 → Rel w1 w2) → (∀ w1, Gua w1 w1) →
  (∀ w1 w2, env w1 w2 → I w1 → Rel w1 w2 ∧ I w2) →
  (∀ p w, req p → safe Q p w) →
  rtc (pool_step env req) (ts, w) (ts', w') →
  I w → Forall (λ p, safe Q p w) ts →
  Rel w w' ∧ I w' ∧ Forall (λ p, safe Q p w') ts'.
Proof.
  intros HGR HGrefl Henv Hreq Hsteps. remember (ts, w) as c eqn:Hc. remember (ts', w') as c'.
  revert ts w ts' w' Hc Heqc'.
  induction Hsteps as [|c1 c2 c3 Hstep _ IH];
    intros ts w ts' w' -> Heq HI Hts; simplify_eq; [done|].
  inversion Hstep as [? i p ? Hi|? ? w2 He|? p ? Hp]; simplify_eq/=.
  - destruct (safe_step Q p w) as (HR%HGR & HI2 & Hs);
      [done|done|exact (Forall_lookup_1 _ _ _ _ Hts Hi)|].
    destruct (IH _ _ _ _ eq_refl eq_refl) as (?&?&?); [done| |split_and!; [by etrans|done..]].
    apply Forall_insert; [|done]. eapply Forall_impl; [done|].
    intros q. by apply safe_stable.
  - destruct (Henv w w2) as [HR HI2]; [done..|].
    destruct (IH _ _ _ _ eq_refl eq_refl) as (?&?&?); [done| |split_and!; [by etrans|done..]].
    eapply Forall_impl; [done|]. intros q. by apply safe_stable.
  - destruct (IH _ _ _ _ eq_refl eq_refl) as (?&?&?); [done| |done].
    apply Forall_app. split; [done|]. by apply Forall_singleton, Hreq.
Qed.
End rely_guarantee.
End semantics.
