(* ===== verification/Trace.v ===== *)
(** * Trace: what a handler does, whatever the parts answer

    [Prog] gives a handler meaning against a world.  Here the parts a handler
    calls are not fixed at all: a [trace] of a handler is the sequence of its
    calls with arbitrary answers, and a theorem about all traces holds
    whatever the parts do.  The lemmas take a trace apart along the program;
    [recorded_trace] says that an execution against a world is a trace. *)
From S2P Require Import Prelude.
From S2P Require Import Prog.

(** A call with its answer. *)
Inductive Event (E : Type → Type) : Type :=
| Ev {B : Type} (e : E B) (b : B).
Arguments Ev {E B} e b.

(** The calls of a complete execution with result [a]. *)
Fixpoint trace {E : Type → Type} {A} (p : prog E A) (tr : list (Event E)) (a : A) : Prop :=
  match p with
  | Ret a' => tr = [] ∧ a = a'
  | Vis e k => ∃ b tr', tr = Ev e b :: tr' ∧ trace (k b) tr' a
  end.

Section traces.
Context {E : Type → Type}.

Lemma trace_bind {A B} (p : prog E A) (f : A → prog E B) tr b :
  trace (p ≫= f) tr b →
  ∃ tr1 tr2 a, tr = tr1 ++ tr2 ∧ trace p tr1 a ∧ trace (f a) tr2 b.
Proof.
  revert tr. induction p as [a|C e k IH]; intros tr; simpl.
  - intros Htr. by exists [], tr, a.
  - intros (c & tr' & -> & Htr). destruct (IH c tr' Htr) as (tr1 & tr2 & a & -> & H1 & H2).
    exists (Ev e c :: tr1), tr2, a. split_and!; [done| |done]. by exists c, tr1.
Qed.

Lemma trace_call {B} (e : E B) tr b : trace (call e) tr b → tr = [Ev e b].
Proof. by intros (b' & tr' & -> & -> & ->). Qed.

Lemma trace_call_bind {A B} (e : E B) (k : B → prog E A) tr a :
  trace (call e ≫= k) tr a → ∃ b tr', tr = Ev e b :: tr' ∧ trace (k b) tr' a.
Proof. done. Qed.

Lemma trace_when c (p : prog E unit) tr u :
  trace (when_ c p) tr u → c = true ∧ trace p tr u ∨ c = false ∧ tr = [].
Proof. destruct c; simpl; [by left|]. intros [-> _]. by right. Qed.

End traces.

(** A program run inside another: its calls, lifted. *)
Definition lift {E F : Type → Type} (f : ∀ B, E B → F B) (ev : Event E) : Event F :=
  let 'Ev e b := ev in Ev (f _ e) b.

Lemma trace_translate {E F : Type → Type} {A} (f : ∀ B, E B → F B) (p : prog E A) tr a :
  trace (translate f p) tr a → ∃ tr', tr = lift f <$> tr' ∧ trace p tr' a.
Proof.
  revert tr. induction p as [a'|B e k IH]; intros tr; simpl.
  - intros [-> ->]. by exists [].
  - intros (b & tr1 & -> & (tr' & -> & Ht)%IH). exists (Ev e b :: tr'). split; [done|]. by exists b, tr'.
Qed.

(** The calls of the execution against a world: one of the traces. *)
Fixpoint recorded {E : Type → Type} {W A} (exec : ∀ B, E B → W → B * W) (p : prog E A) (w : W) :
    list (Event E) :=
  match p with
  | Ret _ => []
  | Vis e k => let '(b, w') := exec _ e w in Ev e b :: recorded exec (k b) w'
  end.

Lemma recorded_trace {E : Type → Type} {W A} (exec : ∀ B, E B → W → B * W) (p : prog E A) w :
  trace p (recorded exec p w) (run exec p w).1.
Proof.
  revert w. induction p as [a|B e k IH]; intros w; simpl; [done|].
  destruct (exec B e w) as [b w']. by exists b, (recorded exec (k b) w').
Qed.

(** Takes a leading call off the hypothesis [H : trace p tr a], or splits it at
    the first part of a sequence. *)
Ltac trace_next H :=
  lazymatch type of H with
  | trace (call _ ≫= _) _ _ => apply trace_call_bind in H as (? & ? & -> & H)
  | trace (call _) _ _ => apply trace_call in H as ->
  | trace (Ret _) _ _ => destruct H as [-> ->]
  end; cbv beta in *.
Tactic Notation "trace_split" hyp(H) "as" simple_intropattern(pat) :=
  apply trace_bind in H as (? & ? & ? & -> & pat & H).
