(* ===== verification/ScopeMatcher.v ===== *)
(** * ScopeMatcher: which requests a rollout stage applies to

    Models [src/src/common/scope_matcher.cpp] (the FNV-1a percentage bucket,
    tenant globs and regions) and [resolveActiveConfigId] of
    [src/src/core/rollout_resolve.cpp], which picks the configuration version
    of one request from the rollout section of the loaded configuration. *)
From S2P Require Import Prelude.
Local Open Scope Z_scope.

Module ScopeMatcher.

(** ** Data *)

(** [struct ScopeContext]: the request's three inputs. *)
Record ScopeContext := {
  sc_tenant_id : string;
  sc_region : string;
  sc_sticky_value : string;
}.

(** [struct RolloutScopeConfig] and the part of [RolloutConfigView] the
    resolver reads. *)
Record RolloutScopeConfig := {
  rs_tenant_globs : list string;
  rs_regions : list string;
  rs_percentage : Z;
}.

Record RolloutStageConfig := {
  rst_stage_index : Z;
  rst_name : string;
  rst_scope : RolloutScopeConfig;
}.

Record RolloutConfigView := {
  rcv_rollout_id : string;
  rcv_target_version_id : string;
  rcv_sticky_key : string;
  rcv_current_stage : RolloutStageConfig;
}.

(** What [resolveActiveConfigId] reads of [Config]: [rolloutConfig()] and
    [activeVersionId()]. *)
Record ConfigView := {
  cfg_rollout : option RolloutConfigView;
  cfg_active_version_id : string;
}.

(** ** Operations *)

Definition kFnvOffsetBasis : Z := 1469598103934665603.
Definition kFnvPrime : Z := 1099511628211.

(** [isPrefixGlob]: the prefix of a trailing-star glob. *)
Definition isPrefixGlob (g : string) : option string :=
  match String.length g with
  | O => None
  | S n => if decide (String.get n g = Some "*"%char)
           then Some (String.substring 0 n g)
           else None
  end.

(** [fnv1a64]: xor the byte in, then multiply modulo 2^64. *)
Definition fnv1a64 (s : string) : Z :=
  foldl (λ h c, u64 (Z.lxor h c * kFnvPrime)) kFnvOffsetBasis (bytes_of s).

Definition globMatches (g tenant_id : string) : bool :=
  if decide (g = "*") then true
  else match isPrefixGlob g with
       | Some prefix =>
           (String.length prefix <=? String.length tenant_id)%nat &&
           bool_decide
             (String.substring 0 (String.length prefix) tenant_id = prefix)
       | None => bool_decide (g = tenant_id)
       end.

(** The [for] loop of [tenantMatches]: stop at the first glob that matches. *)
Fixpoint anyGlob (globs : list string) (tenant_id : string) : bool :=
  match globs with
  | [] => false
  | g :: rest => if globMatches g tenant_id then true else anyGlob rest tenant_id
  end.

Definition tenantMatches (globs : list string) (tenant_id : string) : bool :=
  match globs with [] => true | _ => anyGlob globs tenant_id end.

Fixpoint anyRegion (regions : list string) (region : string) : bool :=
  match regions with
  | [] => false
  | r :: rest => if bool_decide (r = region) then true else anyRegion rest region
  end.

Definition regionMatches (regions : list string) (region : string) : bool :=
  match regions with [] => true | _ => anyRegion regions region end.

Definition percentageMatches (sticky_value : string) (percentage : Z) : bool :=
  if percentage <=? 0 then false
  else if 100 <=? percentage then true
  else if decide (sticky_value = "") then false
  else fnv1a64 sticky_value mod 100 <? u64 percentage.

Definition matches (tenant_globs regions : list string) (percentage : Z)
    (ctx : ScopeContext) : bool :=
  tenantMatches tenant_globs (sc_tenant_id ctx)
  && regionMatches regions (sc_region ctx)
  && percentageMatches (sc_sticky_value ctx) percentage.

Definition resolveActiveConfigId (cfg : ConfigView)
    (tenant_id region sticky_value : string) : string :=
  match cfg_rollout cfg with
  | None => cfg_active_version_id cfg
  | Some rc =>
      let scope := rst_scope (rcv_current_stage rc) in
      let hit := matches (rs_tenant_globs scope) (rs_regions scope)
                   (rs_percentage scope)
                   {| sc_tenant_id := tenant_id; sc_region := region;
                      sc_sticky_value := sticky_value |} in
      if hit then rcv_target_version_id rc else cfg_active_version_id cfg
  end.

(** ** What a glob means *)

(** A trailing-star glob denotes the strings with its prefix; any other
    glob denotes itself. *)
Definition glob_denotes (g tenant_id : string) : Prop :=
  (∃ p q, g = p +:+ "*" ∧ tenant_id = p +:+ q) ∨
  ((¬ ∃ p, g = p +:+ "*") ∧ g = tenant_id).

Lemma isPrefixGlob_Some g p : isPrefixGlob g = Some p ↔ g = p +:+ "*".
Proof.
  unfold isPrefixGlob. split.
  - destruct (String.length g) as [|n] eqn:Hn; [done|].
    destruct (string_snoc g n Hn) as (c & Hget & Hg).
    rw Hget. case_decide; [|done]. intros; by simplify_eq.
  - intros ->. rw string_length_app Nat.add_comm /= string_get_snoc substring_app_l.
    by case_decide.
Qed.

Lemma isPrefixGlob_None g : isPrefixGlob g = None ↔ ¬ ∃ p, g = p +:+ "*".
Proof.
  split.
  - intros H [p Hp%isPrefixGlob_Some]. congruence.
  - intros H. destruct (isPrefixGlob g) as [p|] eqn:E; [|done].
    apply isPrefixGlob_Some in E. naive_solver.
Qed.

Lemma globMatches_spec g t : globMatches g t = true ↔ glob_denotes g t.
Proof.
  unfold globMatches, glob_denotes. case_decide as Hstar; subst.
  { split; [intros _; left; by exists "", t|done]. }
  destruct (isPrefixGlob g) as [p|] eqn:E.
  - apply isPrefixGlob_Some in E as ->.
    rw andb_true_iff Nat.leb_le bool_decide_eq_true substring_prefix_iff.
    split; [naive_solver|].
    intros [(p' & q & [-> _]%string_snoc_inj & ->)|[Hno _]]; [|by destruct Hno; eauto].
    rw string_length_app. split; [lia|eauto].
  - apply isPrefixGlob_None in E. rw bool_decide_eq_true. naive_solver.
Qed.

Lemma anyGlob_spec globs t :
  anyGlob globs t = true ↔ ∃ g, g ∈ globs ∧ glob_denotes g t.
Proof.
  induction globs as [|g globs IH]; simpl; [set_solver|].
  destruct (globMatches g t) eqn:E.
  - apply globMatches_spec in E. split; [|done]. intros _. exists g. set_solver.
  - rw IH. assert (¬ glob_denotes g t) by (rw -globMatches_spec; congruence).
    set_solver.
Qed.

Lemma anyRegion_spec regions r : anyRegion regions r = true ↔ r ∈ regions.
Proof.
  induction regions as [|x regions IH]; simpl; [set_solver|].
  case_bool_decide; [set_solver|]. rw IH. set_solver.
Qed.

Lemma fnv1a64_range s : 0 <= fnv1a64 s < 2 ^ 64.
Proof.
  unfold fnv1a64. generalize (bytes_of s) as l. intros l.
  assert (0 <= kFnvOffsetBasis < 2 ^ 64) as Hh by (unfold kFnvOffsetBasis; lia).
  revert Hh. generalize kFnvOffsetBasis as h.
  induction l as [|c l IH]; intros h Hh; [done|]. apply IH, u64_range.
Qed.

(** The hash bucket of a sticky value. *)
Definition bucket (s : string) : Z := fnv1a64 s mod 100.

Lemma percentageMatches_spec s p :
  percentageMatches s p = true ↔ 0 < p ∧ (100 <= p ∨ (s ≠ "" ∧ bucket s < p)).
Proof.
  unfold percentageMatches, bucket.
  destruct (Z.leb_spec p 0); [naive_solver lia|].
  destruct (Z.leb_spec 100 p); [naive_solver lia|].
  case_decide; [naive_solver lia|].
  rw Z.ltb_lt u64_id; [|lia]. naive_solver lia.
Qed.

(** ** Properties *)

(** The composite matcher is exactly the documented selector: a request
    is in scope when its tenant is denoted by one of the globs (or there are
    none), its region is listed (or none is), and its percentage bucket is
    below the stage's percentage, with 100 or more admitting every request
    and an empty sticky value admitted only then. *)
Theorem matches_spec globs regions p ctx :
  matches globs regions p ctx = true ↔
  (globs = [] ∨ ∃ g, g ∈ globs ∧ glob_denotes g (sc_tenant_id ctx)) ∧
  (regions = [] ∨ sc_region ctx ∈ regions) ∧
  0 < p ∧ (100 <= p ∨ (sc_sticky_value ctx ≠ "" ∧ bucket (sc_sticky_value ctx) < p)).
Proof.
  unfold matches, tenantMatches, regionMatches.
  rw !andb_true_iff percentageMatches_spec.
  destruct globs as [|g globs], regions as [|r regions];
    rw ?anyGlob_spec ?anyRegion_spec; naive_solver.
Qed.

(** Sticky rollouts never take a request back: if a request resolves to
    the rollout's target at some percentage, it still does when the same
    stage scope is widened to any larger percentage, whatever the active
    version. *)
Theorem resolve_monotone cfg cfg' rc rc' tenant region sticky :
  cfg_rollout cfg = Some rc →
  cfg_rollout cfg' = Some rc' →
  rcv_target_version_id rc' = rcv_target_version_id rc →
  rs_tenant_globs (rst_scope (rcv_current_stage rc')) =
    rs_tenant_globs (rst_scope (rcv_current_stage rc)) →
  rs_regions (rst_scope (rcv_current_stage rc')) =
    rs_regions (rst_scope (rcv_current_stage rc)) →
  rs_percentage (rst_scope (rcv_current_stage rc)) <=
    rs_percentage (rst_scope (rcv_current_stage rc')) →
  cfg_active_version_id cfg ≠ rcv_target_version_id rc →
  resolveActiveConfigId cfg tenant region sticky = rcv_target_version_id rc →
  resolveActiveConfigId cfg' tenant region sticky = rcv_target_version_id rc.
Proof.
  unfold resolveActiveConfigId. intros -> -> Htgt Hg Hr Hp Hne.
  rw Htgt Hg Hr.
  destruct (matches _ _ (rs_percentage (rst_scope (rcv_current_stage rc))) _)
    eqn:Hm; [|congruence].
  intros _. assert (matches (rs_tenant_globs (rst_scope (rcv_current_stage rc)))
    (rs_regions (rst_scope (rcv_current_stage rc)))
    (rs_percentage (rst_scope (rcv_current_stage rc')))
    {| sc_tenant_id := tenant; sc_region := region; sc_sticky_value := sticky |} = true)
    as ->; [|done].
  revert Hm. unfold matches. rw !andb_true_iff !percentageMatches_spec.
  intros [? ?]. split; [done|]. naive_solver lia.
Qed.

(** A canary that widens from 30 to 60 percent for the tenants of [acme-]. *)
Definition sample_rollout (p : Z) : RolloutConfigView :=
  {| rcv_rollout_id := "r1"; rcv_target_version_id := "v2"; rcv_sticky_key := "user";
     rcv_current_stage :=
       {| rst_stage_index := 0; rst_name := "canary";
          rst_scope := {| rs_tenant_globs := ["acme-*"]; rs_regions := [];
                          rs_percentage := p |} |} |}.

Definition sample_view (p : Z) : ConfigView :=
  {| cfg_rollout := Some (sample_rollout p); cfg_active_version_id := "v1" |}.

Lemma resolve_monotone_witness :
  resolveActiveConfigId (sample_view 60) "acme-eu" "eu" "user-2" = "v2" ∧
  resolveActiveConfigId (sample_view 30) "other" "eu" "user-2" = "v1".
Proof.
  split; [|by vm_compute].
  apply (resolve_monotone (sample_view 30) (sample_view 60) (sample_rollout 30)
           (sample_rollout 60)); vm_compute; congruence.
Defined.

End ScopeMatcher.
