(* ===== verification/ConfigVersion.v ===== *)
(** * ConfigVersion: versioned configuration bundles and their lifecycle

    Models [src/src/control_plane/config_version_record.h] (the status
    enumeration, the record, the list query) and
    [src/src/control_plane/state_machine.cpp] (the dual-approval transition
    table). *)
From S2P Require Import Prelude.
Local Open Scope Z_scope.

Module ConfigVersion.

(** [enum class ConfigStatus]. *)
Inductive ConfigStatus := PENDING | APPROVED | REJECTED | ACTIVE | SUPERSEDED.

#[global] Instance ConfigStatus_eq_dec : EqDecision ConfigStatus.
Proof. solve_decision. Defined.

(** [struct ConfigVersionRecord], field for field; times are milliseconds. *)
Record ConfigVersionRecord := {
  version_id : string;
  content_sha256 : string;
  yaml_content : string;
  size_bytes : Z;
  status : ConfigStatus;
  submitter : string;
  submitter_comment : string;
  submitted_at : Z;
  reviewer : string;
  reviewer_comment : string;
  reviewed_at : Z;
  activator : string;
  activated_at : Z;
  deactivated_at : Z;
  chain_hash : string;
}.

#[global] Instance ConfigVersionRecord_eq_dec : EqDecision ConfigVersionRecord.
Proof. solve_decision. Defined.

(** The default-initialised record. *)
Definition empty_record : ConfigVersionRecord :=
  {| version_id := ""; content_sha256 := ""; yaml_content := "";
     size_bytes := 0; status := PENDING; submitter := "";
     submitter_comment := ""; submitted_at := 0; reviewer := "";
     reviewer_comment := ""; reviewed_at := 0; activator := "";
     activated_at := 0; deactivated_at := 0; chain_hash := "" |}.

(** [struct ConfigVersionQuery]. *)
Record ConfigVersionQuery := {
  q_statuses : list ConfigStatus;
  q_since_millis : Z;
  q_limit : Z;
  q_page_token : string;
}.

(** [configStatusToString] and [configStatusFromString]. *)
Definition configStatusToString (s : ConfigStatus) : string :=
  match s with
  | PENDING => "PENDING"
  | APPROVED => "APPROVED"
  | REJECTED => "REJECTED"
  | ACTIVE => "ACTIVE"
  | SUPERSEDED => "SUPERSEDED"
  end.

Definition configStatusFromString (s : string) : option ConfigStatus :=
  if decide (s = "PENDING") then Some PENDING
  else if decide (s = "APPROVED") then Some APPROVED
  else if decide (s = "REJECTED") then Some REJECTED
  else if decide (s = "ACTIVE") then Some ACTIVE
  else if decide (s = "SUPERSEDED") then Some SUPERSEDED
  else None.

(** Field assignments of the store and the service. *)
Definition set_status (s : ConfigStatus) (r : ConfigVersionRecord) :=
  {| version_id := version_id r; content_sha256 := content_sha256 r;
     yaml_content := yaml_content r; size_bytes := size_bytes r;
     status := s; submitter := submitter r;
     submitter_comment := submitter_comment r; submitted_at := submitted_at r;
     reviewer := reviewer r; reviewer_comment := reviewer_comment r;
     reviewed_at := reviewed_at r; activator := activator r;
     activated_at := activated_at r; deactivated_at := deactivated_at r;
     chain_hash := chain_hash r |}.

Definition set_review (actor comment : string) (ts : Z)
    (r : ConfigVersionRecord) :=
  {| version_id := version_id r; content_sha256 := content_sha256 r;
     yaml_content := yaml_content r; size_bytes := size_bytes r;
     status := status r; submitter := submitter r;
     submitter_comment := submitter_comment r; submitted_at := submitted_at r;
     reviewer := actor; reviewer_comment := comment; reviewed_at := ts;
     activator := activator r; activated_at := activated_at r;
     deactivated_at := deactivated_at r; chain_hash := chain_hash r |}.

Definition set_deactivated_at (ts : Z) (r : ConfigVersionRecord) :=
  {| version_id := version_id r; content_sha256 := content_sha256 r;
     yaml_content := yaml_content r; size_bytes := size_bytes r;
     status := status r; submitter := submitter r;
     submitter_comment := submitter_comment r; submitted_at := submitted_at r;
     reviewer := reviewer r; reviewer_comment := reviewer_comment r;
     reviewed_at := reviewed_at r; activator := activator r;
     activated_at := activated_at r; deactivated_at := ts;
     chain_hash := chain_hash r |}.

Definition set_activation (who : string) (ts : Z) (r : ConfigVersionRecord) :=
  {| version_id := version_id r; content_sha256 := content_sha256 r;
     yaml_content := yaml_content r; size_bytes := size_bytes r;
     status := status r; submitter := submitter r;
     submitter_comment := submitter_comment r; submitted_at := submitted_at r;
     reviewer := reviewer r; reviewer_comment := reviewer_comment r;
     reviewed_at := reviewed_at r; activator := who; activated_at := ts;
     deactivated_at := deactivated_at r; chain_hash := chain_hash r |}.

Definition clear_yaml (r : ConfigVersionRecord) :=
  {| version_id := version_id r; content_sha256 := content_sha256 r;
     yaml_content := ""; size_bytes := size_bytes r;
     status := status r; submitter := submitter r;
     submitter_comment := submitter_comment r; submitted_at := submitted_at r;
     reviewer := reviewer r; reviewer_comment := reviewer_comment r;
     reviewed_at := reviewed_at r; activator := activator r;
     activated_at := activated_at r; deactivated_at := deactivated_at r;
     chain_hash := chain_hash r |}.

(** What a submission fixes for ever. *)
Definition same_submission (r r' : ConfigVersionRecord) : Prop :=
  version_id r' = version_id r ∧ content_sha256 r' = content_sha256 r ∧
  yaml_content r' = yaml_content r ∧ size_bytes r' = size_bytes r ∧
  submitter r' = submitter r ∧ submitter_comment r' = submitter_comment r ∧
  submitted_at r' = submitted_at r.

#[global] Instance same_submission_preorder : PreOrder same_submission.
Proof.
  split.
  - by intros r.
  - intros r1 r2 r3. unfold same_submission. intuition congruence.
Qed.

Lemma configStatus_roundtrip s :
  configStatusFromString (configStatusToString s) = Some s.
Proof. by destruct s. Qed.

End ConfigVersion.

Module StateMachine.
Import ConfigVersion.

(** [enum class ConfigAction]. *)
Inductive ConfigAction := APPROVE | REJECT | ACTIVATE | ROLLBACK_TO.

#[global] Instance ConfigAction_eq_dec : EqDecision ConfigAction.
Proof. solve_decision. Defined.

(** [kTransitions]. *)
Definition kTransitions : list (ConfigStatus * ConfigAction * ConfigStatus) :=
  [ (PENDING, APPROVE, APPROVED);
    (PENDING, REJECT, REJECTED);
    (APPROVED, ACTIVATE, ACTIVE);
    (APPROVED, REJECT, REJECTED);
    (ACTIVE, ROLLBACK_TO, ACTIVE);
    (SUPERSEDED, ROLLBACK_TO, ACTIVE) ].

(** The linear scan of [StateMachine::next]. *)
Fixpoint scan_table (l : list (ConfigStatus * ConfigAction * ConfigStatus))
    (from : ConfigStatus) (action : ConfigAction) : option ConfigStatus :=
  match l with
  | [] => None
  | (f, a, t) :: l =>
      if bool_decide (f = from) && bool_decide (a = action) then Some t
      else scan_table l from action
  end.

Definition next (from : ConfigStatus) (action : ConfigAction) :
    option ConfigStatus :=
  scan_table kTransitions from action.

Definition canTransition (from : ConfigStatus) (action : ConfigAction) : bool :=
  match next from action with Some _ => true | None => false end.

(** The lifecycle as the graph drawn in config_version_record.h, with the
    demotion of the previous active version that an activation performs. *)
Inductive lifecycle : ConfigStatus → ConfigStatus → Prop :=
| lc_action from a to : next from a = Some to → lifecycle from to
| lc_demote : lifecycle ACTIVE SUPERSEDED.

Lemma next_graph from a to :
  next from a = Some to ↔ (from, a, to) ∈ kTransitions.
Proof.
  split.
  - destruct from, a; vm_compute; intros; simplify_eq; set_solver.
  - unfold kTransitions. intros H.
    repeat (apply elem_of_cons in H as [H|H]; [by simplify_eq|]).
    by apply elem_of_nil in H.
Qed.

(** Rejection is final, and nothing reaches ACTIVE from PENDING or REJECTED
    without an approval. *)
Lemma lifecycle_rejected s : rtc lifecycle REJECTED s → s = REJECTED.
Proof.
  intros H. remember REJECTED as r. induction H as [|x y z Hs _ IH]; [done|].
  subst. inversion Hs as [? a ? Hn|]; subst. destruct a; done.
Qed.

Lemma lifecycle_pending_active s :
  lifecycle s ACTIVE → s = APPROVED ∨ s = ACTIVE ∨ s = SUPERSEDED.
Proof. inversion 1 as [? a ? Hn|]; subst. destruct s, a; naive_solver. Qed.

End StateMachine.
