(* ===== verification/ConfigStore.v ===== *)
(** * ConfigStore: the persistent store's configuration versions

    [ConfigStoreOps] is the configuration part of the [PersistentStore]
    interface of [src/src/storage/persistent_store.h], [ConfigStoreLaws] what
    its clients rely on, stated over an abstract view (the version table and
    the active pointer).  [MemoryConfigStore] models the implementation in
    [src/src/storage/memory_persistent_store.cpp] and discharges the laws.
    Every operation runs under the store's mutex. *)
From S2P Require Import Prelude.
From S2P Require Import ConfigVersion.
Import ConfigVersion.
Local Open Scope Z_scope.

(** ** Interface *)

(** What a store holds, to a client. *)
Record CView := {
  cv_versions : gmap string ConfigVersionRecord;
  cv_active : string;
}.

Class ConfigStoreOps (S : Type) := {
  cs_insert : ConfigVersionRecord → S → bool * S;
  cs_update : string → ConfigStatus → string → string → Z → S → bool * S;
  cs_get : string → S → option ConfigVersionRecord;
  cs_list : ConfigVersionQuery → S → list ConfigVersionRecord;
  cs_getActive : S → option ConfigVersionRecord;
  cs_activate : string → string → Z → S → bool * S;
  cs_view : S → CView;
}.

(** The effect of a successful [updateConfigStatus] on one record: a verdict
    also records who gave it. *)
Definition review_record (s : ConfigStatus) (actor comment : string) (ts : Z)
    (r : ConfigVersionRecord) : ConfigVersionRecord :=
  let r := set_status s r in
  if bool_decide (s = APPROVED) || bool_decide (s = REJECTED)
  then set_review actor comment ts r else r.

Definition demote_record (ts : Z) (r : ConfigVersionRecord) :=
  set_deactivated_at ts (set_status SUPERSEDED r).

Definition promote_record (who : string) (ts : Z) (r : ConfigVersionRecord) :=
  set_deactivated_at 0 (set_activation who ts (set_status ACTIVE r)).

(** The effect of a successful activation: demote the previous active
    version, promote the target, move the pointer. *)
Definition activate_view (id who : string) (ts : Z) (v : CView) : CView :=
  let m := if negb (str_empty (cv_active v)) && bool_decide (cv_active v ≠ id)
           then alter (demote_record ts) (cv_active v) (cv_versions v)
           else cv_versions v in
  {| cv_versions := alter (promote_record who ts) id m; cv_active := id |}.

(** The table is keyed by the records' identifiers, none of them empty. *)
Definition view_keyed (v : CView) : Prop :=
  ∀ id r, cv_versions v !! id = Some r → version_id r = id ∧ id ≠ "".

(** [statuses] as a filter: empty means every status. *)
Definition status_wanted (ss : list ConfigStatus) (s : ConfigStatus) : bool :=
  match ss with [] => true | _ => existsb (λ x, bool_decide (x = s)) ss end.

Definition query_keeps (q : ConfigVersionQuery) (r : ConfigVersionRecord) : bool :=
  status_wanted (q_statuses q) (status r) &&
  negb ((0 <? q_since_millis q) && (submitted_at r <? q_since_millis q)).

Class ConfigStoreLaws (S : Type) `{!ConfigStoreOps S} : Prop := {
  cs_insert_true r s s' :
    cs_insert r s = (true, s') →
    version_id r ≠ "" ∧ cv_versions (cs_view s) !! version_id r = None ∧
    cs_view s' = {| cv_versions := <[version_id r := r]> (cv_versions (cs_view s));
                    cv_active := cv_active (cs_view s) |};
  cs_insert_false r s s' : cs_insert r s = (false, s') → cs_view s' = cs_view s;
  cs_update_true id st a c ts s s' :
    cs_update id st a c ts s = (true, s') →
    is_Some (cv_versions (cs_view s) !! id) ∧
    cs_view s' = {| cv_versions := alter (review_record st a c ts) id
                                     (cv_versions (cs_view s));
                    cv_active := cv_active (cs_view s) |};
  cs_update_false id st a c ts s s' :
    cs_update id st a c ts s = (false, s') → cs_view s' = cs_view s;
  cs_get_view id s : cs_get id s = cv_versions (cs_view s) !! id;
  cs_getActive_view s :
    cs_getActive s =
      if str_empty (cv_active (cs_view s)) then None
      else cv_versions (cs_view s) !! cv_active (cs_view s);
  cs_activate_true id a ts s s' :
    cs_activate id a ts s = (true, s') →
    ∃ r, cv_versions (cs_view s) !! id = Some r ∧
      ((status r = ACTIVE ∧ cv_active (cs_view s) = id ∧ cs_view s' = cs_view s) ∨
       ((status r = APPROVED ∨ status r = SUPERSEDED) ∧
        cs_view s' = activate_view id a ts (cs_view s)));
  cs_activate_false id a ts s s' :
    cs_activate id a ts s = (false, s') → cs_view s' = cs_view s;
  cs_list_sound q s r :
    r ∈ cs_list q s →
    query_keeps q r = true ∧ ∃ id, cv_versions (cs_view s) !! id = Some r;
  (** A listing from the start that is shorter than its limit misses nothing. *)
  cs_list_complete q s id r :
    q_page_token q = "" → 0 < q_limit q →
    Z.of_nat (length (cs_list q s)) < q_limit q →
    cv_versions (cs_view s) !! id = Some r → query_keeps q r = true →
    r ∈ cs_list q s;
}.

(** ** The in-memory implementation *)

Module MemoryConfigStore.

(** [config_versions_] and [active_config_version_id_]. *)
Record ConfigTable := {
  config_versions : gmap string ConfigVersionRecord;
  active_config_version_id : string;
}.

Definition empty_table : ConfigTable :=
  {| config_versions := ∅; active_config_version_id := "" |}.

Definition set_versions (m : gmap string ConfigVersionRecord) (t : ConfigTable) :=
  {| config_versions := m; active_config_version_id := active_config_version_id t |}.

Definition insertConfigVersion (rec : ConfigVersionRecord) (t : ConfigTable) :
    bool * ConfigTable :=
  if str_empty (version_id rec) then (false, t)
  else match config_versions t !! version_id rec with
       | Some _ => (false, t)
       | None => (true, set_versions (<[version_id rec := rec]> (config_versions t)) t)
       end.

Definition updateConfigStatus (id : string) (new_status : ConfigStatus)
    (actor comment : string) (timestamp_ms : Z) (t : ConfigTable) :
    bool * ConfigTable :=
  match config_versions t !! id with
  | None => (false, t)
  | Some rec =>
      let rec := set_status new_status rec in
      let rec := if bool_decide (new_status = APPROVED) ||
                    bool_decide (new_status = REJECTED)
                 then set_review actor comment timestamp_ms rec else rec in
      (true, set_versions (<[id := rec]> (config_versions t)) t)
  end.

Definition getConfigVersion (id : string) (t : ConfigTable) :
    option ConfigVersionRecord :=
  config_versions t !! id.

(** The comparator of [listConfigVersions]: newest first, then the larger
    identifier. *)
Definition newest_first : ConfigVersionRecord → ConfigVersionRecord → bool :=
  desc_by submitted_at version_id.

(** The records a query keeps, in the order of the listing. *)
Definition listing `{UnorderedIter} (q : ConfigVersionQuery) (t : ConfigTable) :
    list ConfigVersionRecord :=
  std_sort newest_first
    (base.filter (λ r, query_keeps q r = true) (snd <$> iter (config_versions t))).

Definition listConfigVersions `{UnorderedIter} (q : ConfigVersionQuery)
    (t : ConfigTable) : list ConfigVersionRecord :=
  let start := from_token version_id (q_page_token q) (listing q t) in
  let cap := if 0 <? q_limit q then q_limit q else 50 in
  take (Z.to_nat cap) start.

Definition getActiveConfig (t : ConfigTable) : option ConfigVersionRecord :=
  if str_empty (active_config_version_id t) then None
  else config_versions t !! active_config_version_id t.

Definition activateConfig (id activator : string) (activate_ms : Z)
    (t : ConfigTable) : bool * ConfigTable :=
  match config_versions t !! id with
  | None => (false, t)
  | Some target =>
      if bool_decide (status target = ACTIVE) &&
         bool_decide (active_config_version_id t = id) then (true, t)
      else if negb (bool_decide (status target = APPROVED)) &&
              negb (bool_decide (status target = SUPERSEDED)) then (false, t)
      else
        let m :=
          if negb (str_empty (active_config_version_id t)) &&
             bool_decide (active_config_version_id t ≠ id)
          then match config_versions t !! active_config_version_id t with
               | Some prev =>
                   <[active_config_version_id t :=
                       set_deactivated_at activate_ms (set_status SUPERSEDED prev)]>
                     (config_versions t)
               | None => config_versions t
               end
          else config_versions t in
        let target := set_status ACTIVE target in
        let target := set_activation activator activate_ms target in
        let target := set_deactivated_at 0 target in
        (true, {| config_versions := <[id := target]> m;
                  active_config_version_id := id |})
  end.

Definition view (t : ConfigTable) : CView :=
  {| cv_versions := config_versions t; cv_active := active_config_version_id t |}.

#[global] Instance ops `{UnorderedIter} : ConfigStoreOps ConfigTable := {|
  cs_insert := insertConfigVersion;
  cs_update := updateConfigStatus;
  cs_get := getConfigVersion;
  cs_list := listConfigVersions;
  cs_getActive := getActiveConfig;
  cs_activate := activateConfig;
  cs_view := view;
|}.

Definition keyed (t : ConfigTable) : Prop := view_keyed (view t).

(** ** Lemmas *)

Lemma listing_elem `{UnorderedIter} q t r :
  r ∈ listing q t ↔
  query_keeps q r = true ∧ ∃ id, config_versions t !! id = Some r.
Proof.
  unfold listing. rw std_sort_elem list_elem_of_filter list_elem_of_fmap.
  split.
  - intros [Hq [[id r'] [-> Hin]]]. apply elem_of_iter in Hin. eauto.
  - intros [Hq [id Hid%elem_of_iter]]. split; [done|]. by exists (id, r).
Qed.

Lemma keyed_listing_NoDup `{UnorderedIter} q t :
  keyed t → NoDup (version_id <$> listing q t).
Proof.
  intros Hk. unfold listing. rw std_sort_perm.
  eapply (sublist_NoDup _ (version_id <$> (snd <$> iter (config_versions t)))).
  { rw -list_fmap_compose. rw (list_fmap_ext _ fst); [apply NoDup_iter|].
    intros i [id r] Hi%list_elem_of_lookup_2%elem_of_iter. by apply Hk in Hi as [? _]. }
  apply fmap_sublist, sublist_filter.
Qed.

(** The iteration order of the [unordered_map] does not show in a listing. *)
Lemma listing_iter_indep (it1 it2 : UnorderedIter) q t :
  keyed t → listing (H:=it1) q t = listing (H:=it2) q t.
Proof.
  intros Hk. unfold listing. apply std_sort_unique; [apply _| |].
  - intros a b Ha Hb H1 H2.
    apply list_elem_of_filter in Ha as [_ Ha], Hb as [_ Hb].
    apply list_elem_of_fmap in Ha as [[ida ra] [-> Ha%elem_of_iter]].
    apply list_elem_of_fmap in Hb as [[idb rb] [-> Hb%elem_of_iter]]. simpl in *.
    pose proof (desc_by_tie _ _ _ _ H1 H2) as Htie.
    destruct (Hk _ _ Ha) as [? _], (Hk _ _ Hb) as [? _]. congruence.
  - by rw (iter_perm (UnorderedIter:=it1)) (iter_perm (UnorderedIter:=it2)).
Qed.

Lemma updateConfigStatus_view id st a c ts t t' :
  updateConfigStatus id st a c ts t = (true, t') →
  is_Some (config_versions t !! id) ∧
  view t' = {| cv_versions := alter (review_record st a c ts) id (config_versions t);
               cv_active := active_config_version_id t |}.
Proof.
  unfold updateConfigStatus. destruct (config_versions t !! id) as [r|] eqn:E; [|done].
  intros [= <-]. split; [by eexists|]. unfold view, review_record; simpl. f_equal.
  apply map_eq. intros j. destruct (decide (j = id)) as [->|].
  - by rw lookup_insert_eq lookup_alter_eq E.
  - by rw lookup_insert_ne ?lookup_alter_ne.
Qed.

Lemma activateConfig_view id a ts t t' :
  activateConfig id a ts t = (true, t') →
  ∃ r, config_versions t !! id = Some r ∧
    ((status r = ACTIVE ∧ active_config_version_id t = id ∧ t' = t) ∨
     ((status r = APPROVED ∨ status r = SUPERSEDED) ∧
      view t' = activate_view id a ts (view t))).
Proof.
  unfold activateConfig. destruct (config_versions t !! id) as [r|] eqn:E; [|done].
  intros H. exists r. split; [done|].
  destruct (bool_decide (status r = ACTIVE) && _) eqn:Eact.
  { apply andb_true_iff in Eact as [?%bool_decide_eq_true ?%bool_decide_eq_true].
    simplify_eq. by left. }
  right. destruct (negb (bool_decide (status r = APPROVED)) && _) eqn:Est; [done|].
  split.
  { rw andb_false_iff !negb_false_iff !bool_decide_eq_true in Est. done. }
  injection H as <-. unfold view, activate_view, promote_record, demote_record; simpl.
  f_equal. set (m := if negb (str_empty _) && _ then alter _ _ _ else _).
  assert (m !! id = Some r) as Hm.
  { subst m. destruct (negb _ && bool_decide _) eqn:Ec; [|done].
    apply andb_true_iff in Ec as [_ Hne%bool_decide_eq_true]. by rw lookup_alter_ne. }
  apply map_eq. intros j. destruct (decide (j = id)) as [->|].
  - by rw lookup_insert_eq lookup_alter_eq Hm.
  - rw lookup_insert_ne; [|done]. rw lookup_alter_ne; [|done]. subst m.
    destruct (negb _ && bool_decide _) eqn:Ec; [|done].
    destruct (config_versions t !! active_config_version_id t) as [p|] eqn:Ep.
    + destruct (decide (active_config_version_id t = j)) as [<-|].
      * by rw lookup_insert_eq lookup_alter_eq Ep.
      * by rw lookup_insert_ne ?lookup_alter_ne.
    + destruct (decide (active_config_version_id t = j)) as [<-|].
      * by rw lookup_alter_eq Ep.
      * by rw lookup_alter_ne.
Qed.

#[global] Instance laws `{UnorderedIter} : ConfigStoreLaws ConfigTable.
Proof.
  split; simpl; unfold view; simpl.
  - intros r t t'. unfold insertConfigVersion.
    destruct (str_empty (version_id r)) eqn:E; [done|].
    destruct (config_versions t !! version_id r) eqn:E2; [done|].
    intros [= <-]. apply str_empty_false in E. done.
  - intros r t t' H1. unfold insertConfigVersion in H1. branch; done.
  - intros id st a c ts t t'. apply updateConfigStatus_view.
  - intros id st a c ts t t' H1. unfold updateConfigStatus in H1. branch; done.
  - done.
  - done.
  - intros id a ts t t' (r & ? & [(?&?&->)|?])%activateConfig_view;
      exists r; split; [done|by left|done|by right].
  - intros id a ts t t' H1. unfold activateConfig in H1. branch; done.
  - intros q t r Hr%elem_of_take_1%elem_of_from_token. by apply listing_elem.
  - intros q t id r Htok Hlim Hlen Hid Hq.
    unfold listConfigVersions in *. rw Htok in Hlen *. unfold from_token in *; simpl in *.
    assert (0 <? q_limit q = true) as Hl by by apply Z.ltb_lt.
    rw Hl in Hlen *.
    rw take_short; [|lia]. apply listing_elem. eauto.
Qed.

(** The order of a listing: a later element was not submitted after an
    earlier one, and at equal times has the smaller identifier. *)
Definition newer_or_tie (a b : ConfigVersionRecord) : Prop :=
  submitted_at b < submitted_at a ∨
  (submitted_at a = submitted_at b ∧ String.le (version_id b) (version_id a)).

Lemma no_later_newest a b : no_later newest_first a b ↔ newer_or_tie a b.
Proof.
  unfold no_later, newest_first, newer_or_tie. rw desc_by_asc asc_by_false. done.
Qed.

Lemma listing_sorted `{UnorderedIter} q t : StronglySorted newer_or_tie (listing q t).
Proof.
  unfold listing. eapply StronglySorted_weaken; [|apply std_sort_sorted; apply _].
  intros a b. apply no_later_newest.
Qed.

Lemma listing_length `{UnorderedIter} q t :
  (length (listing q t) <= size (config_versions t))%nat.
Proof.
  unfold listing. rw std_sort_perm. etrans; [apply length_filter|].
  by rw length_fmap iter_perm length_map_to_list.
Qed.

(** A client that follows the cursor of [listConfigVersions] page by
    page, whatever the page size, receives every version the filters keep
    exactly once, newest first. *)
Theorem config_pages_complete `{UnorderedIter} (t : ConfigTable) ss since limit fuel :
  keyed t → (size (config_versions t) < fuel)%nat →
  let q tok := {| q_statuses := ss; q_since_millis := since; q_limit := limit;
                  q_page_token := tok |} in
  let res := all_pages fuel version_id (λ tok, listConfigVersions (q tok) t) "" in
  (∀ r, r ∈ res ↔ query_keeps (q "") r = true ∧
                  config_versions t !! version_id r = Some r) ∧
  NoDup (version_id <$> res) ∧
  StronglySorted newer_or_tie res.
Proof.
  intros Hk Hfuel q res.
  assert (res = listing (q "") t) as ->.
  { apply (all_pages_complete version_id (listing (q "") t)
             (Z.to_nat (if 0 <? limit then limit else 50)) fuel).
    - destruct (0 <? limit) eqn:E; simpl; [apply Z.ltb_lt in E; lia|lia].
    - by apply keyed_listing_NoDup.
    - intros (r & Hr & [_ [id Hid]]%listing_elem)%list_elem_of_fmap.
      apply Hk in Hid as [??]. congruence.
    - pose proof (listing_length (q "") t). lia. }
  split_and!; [|by apply keyed_listing_NoDup|apply listing_sorted].
  intros r. rw listing_elem. split; [|naive_solver].
  intros [? [id Hid]]. split; [done|]. by destruct (Hk _ _ Hid) as [-> _].
Qed.

(** Three versions, two of them submitted in the same millisecond. *)
Definition sample_version (id : string) (ts : Z) : ConfigVersionRecord :=
  {| version_id := id; content_sha256 := ""; yaml_content := ""; size_bytes := 0;
     status := PENDING; submitter := "ann"; submitter_comment := "";
     submitted_at := ts; reviewer := ""; reviewer_comment := ""; reviewed_at := 0;
     activator := ""; activated_at := 0; deactivated_at := 0; chain_hash := "" |}.

Definition sample_table : ConfigTable :=
  (insertConfigVersion (sample_version "c" 5)
    (insertConfigVersion (sample_version "b" 7)
      (insertConfigVersion (sample_version "a" 7) empty_table).2).2).2.

Lemma config_pages_complete_witness :
  NoDup (version_id <$> all_pages 4 version_id (λ tok, listConfigVersions
    {| q_statuses := []; q_since_millis := 0; q_limit := 1; q_page_token := tok |}
    sample_table) "") ∧
  version_id <$> all_pages 4 version_id (λ tok, listConfigVersions
    {| q_statuses := []; q_since_millis := 0; q_limit := 1; q_page_token := tok |}
    sample_table) "" = ["b"; "a"; "c"].
Proof.
  assert (keyed sample_table) as Hk.
  { intros id r. unfold sample_table.
    intros Hr%(elem_of_map_to_list (M := gmap string)). revert Hr.
    vm_compute map_to_list. set_solver. }
  split; [|by vm_compute].
  destruct (config_pages_complete sample_table [] 0 1 4 Hk) as (_ & H & _);
    [vm_compute; lia|exact H].
Defined.

End MemoryConfigStore.
