(* ===== verification/Ulid.v ===== *)
(** * Ulid: time-ordered identifiers

    Models [src/src/control_plane/ulid.cpp]: a 48-bit millisecond timestamp in
    ten Crockford base-32 characters followed by 80 random bits in sixteen.
    The random engine is [std::mt19937_64]; its two draws are arguments. *)
From S2P Require Import Prelude.
Local Open Scope Z_scope.

Module Ulid.

Definition kAlphabet : string := "0123456789ABCDEFGHJKMNPQRSTVWXYZ".

(** [kAlphabet[i]] for [0 <= i < 32]. *)
Definition alpha (i : Z) : ascii :=
  default "0"%char (String.get (Z.to_nat i) kAlphabet).

(** [encodeFixed]: [count] characters, the least significant digit last. *)
Fixpoint encodeFixed (count : nat) (value : Z) : string :=
  match count with
  | O => ""
  | S n => encodeFixed n (Z.shiftr value 5) +:+ String (alpha (Z.land value 0x1F)) ""
  end.

(** [decodeChar]: the index of a character in the alphabet, -1 when there is
    none. *)
Fixpoint index_of (c : ascii) (s : string) (i : Z) : Z :=
  match s with
  | "" => -1
  | String d s => if decide (d = c) then i else index_of c s (i + 1)
  end.

Definition decodeChar (c : ascii) : Z := index_of c kAlphabet 0.

(** The sixteen-step loop over the 128-bit register [hi64:lo64]. *)
Fixpoint encodeRandom (n : nat) (hi64 lo64 : Z) : string :=
  match n with
  | O => ""
  | S n =>
      let chunk := Z.land (Z.shiftr hi64 59) 0x1F in
      String (alpha chunk)
        (encodeRandom n (Z.lor (u64 (Z.shiftl hi64 5)) (Z.shiftr lo64 59))
                        (u64 (Z.shiftl lo64 5)))
  end.

(** [generateAt], with the engine's two draws. *)
Definition generateAt (unix_millis r1 r2 : Z) : string :=
  let ts := Z.land (u64 unix_millis) 0xFFFFFFFFFFFF in
  encodeFixed 10 ts +:+
  encodeRandom 16 r1 (u64 (Z.shiftl (Z.land r2 0xFFFF) 48)).

(** The loop of [decodeTimestamp] over the first ten characters. *)
Fixpoint decodeLoop (n : nat) (id : string) (ts : Z) : option Z :=
  match n, id with
  | O, _ => Some ts
  | S n, String c id =>
      let v := decodeChar c in
      if v <? 0 then None else decodeLoop n id (u64 (Z.lor (u64 (Z.shiftl ts 5)) v))
  | S _, "" => None
  end.

Definition decodeTimestamp (id : string) : option Z :=
  if decide (String.length id = 26%nat) then decodeLoop 10 id 0 else None.

(** ** Lemmas *)

Lemma land_31 v : Z.land v 0x1F = v mod 32.
Proof. apply (Z.land_ones v 5). lia. Qed.

Lemma shiftr_5 v : Z.shiftr v 5 = v / 32.
Proof. by rw Z.shiftr_div_pow2. Qed.

(** The alphabet is in increasing character order. *)
Lemma alpha_mono i j :
  0 <= i < 32 → 0 <= j < 32 → Ascii.compare (alpha i) (alpha j) = (i ?= j).
Proof.
  intros Hi Hj.
  assert (∀ i j, (i < 32)%nat → (j < 32)%nat →
    Ascii.compare (alpha (Z.of_nat i)) (alpha (Z.of_nat j)) = (Z.of_nat i ?= Z.of_nat j))
    as Hall.
  { intros a b Ha Hb.
    do 32 (destruct a as [|a]; [do 32 (destruct b as [|b]; [reflexivity|]); lia|]). lia. }
  rw -(Z2Nat.id i); [|lia]. rw -(Z2Nat.id j); [|lia]. apply Hall; lia.
Qed.

Lemma decode_alpha i : 0 <= i < 32 → decodeChar (alpha i) = i.
Proof.
  intros Hi. assert (∀ i, (i < 32)%nat → decodeChar (alpha (Z.of_nat i)) = Z.of_nat i) as Hall.
  { intros a Ha. do 32 (destruct a as [|a]; [reflexivity|]). lia. }
  rw -{1}(Z2Nat.id i); [|lia]. rw Hall; lia.
Qed.

Lemma length_encodeFixed n v : String.length (encodeFixed n v) = n.
Proof. revert v. induction n as [|n IH]; intros v; simpl; [done|]. rw string_length_app IH /=. lia. Qed.

Lemma length_encodeRandom n hi lo : String.length (encodeRandom n hi lo) = n.
Proof. revert hi lo. induction n as [|n IH]; intros hi lo; simpl; [done|]. by rw IH. Qed.

Lemma encodeFixed_S n v :
  encodeFixed (S n) v = encodeFixed n (v / 32) +:+ String (alpha (v mod 32)) "".
Proof. by rw -land_31 -shiftr_5. Qed.

(** The most significant digit first. *)
Lemma encodeFixed_cons n v :
  0 <= v < 32 ^ Z.of_nat (S n) →
  encodeFixed (S n) v =
    String (alpha (v / 32 ^ Z.of_nat n)) (encodeFixed n (v mod 32 ^ Z.of_nat n)).
Proof.
  revert v. induction n as [|n IH]; intros v Hv.
  - simpl in *. rw land_31 Z.mod_small ?Z.div_1_r; [done|lia].
  - assert (32 ^ Z.of_nat (S (S n)) = 32 * 32 ^ Z.of_nat (S n)) as E1
      by (rw -Z.pow_succ_r; [f_equal; lia|lia]).
    assert (32 ^ Z.of_nat (S n) = 32 * 32 ^ Z.of_nat n) as E2
      by (rw -Z.pow_succ_r; [f_equal; lia|lia]).
    assert (0 < 32 ^ Z.of_nat n) as Hpos by (apply Z.pow_pos_nonneg; lia).
    rw (encodeFixed_S (S n) v).
    rw (IH (v / 32)); [|split; [apply Z.div_pos; lia|apply Z.div_lt_upper_bound; lia]].
    rw string_cons_app (encodeFixed_S n (v mod _)) Z.div_div; [|lia..]. rw -E2.
    assert (v mod 32 ^ Z.of_nat (S n) / 32 = (v / 32) mod 32 ^ Z.of_nat n) as ->.
    { rw E2. rw (Z.rem_mul_r v 32 (32 ^ Z.of_nat n)); [|lia..].
      rw Z.add_comm Z.mul_comm Z.div_add_l; [|lia].
      rw (Z.div_small (v mod 32)); [lia|]. apply Z.mod_pos_bound; lia. }
    assert ((v mod 32 ^ Z.of_nat (S n)) mod 32 = v mod 32) as ->; [|done].
    rw E2. rw (Z.rem_mul_r v 32 (32 ^ Z.of_nat n)); [|lia..].
    rw (Z.mul_comm 32) Z.mod_add ?Z.mod_mod //; lia.
Qed.

Lemma lor_disjoint_add a b k :
  0 <= k → 0 <= b < 2 ^ k → Z.lor (a * 2 ^ k) b = a * 2 ^ k + b.
Proof.
  intros Hk Hb. rw -Z.lxor_lor -?Z.add_nocarry_lxor //;
    apply Z.bits_inj'; intros i Hi; rw Z.land_spec Z.bits_0 -Z.shiftl_mul_pow2 //.
  all: destruct (Z.lt_ge_cases i k) as [?|?];
    [by rw Z.shiftl_spec_low|].
  all: destruct (Z.eq_dec b 0) as [->|]; [by rw Z.bits_0 andb_false_r|].
  all: rw (Z.bits_above_log2 b i) ?andb_false_r //; [lia|].
  all: apply Z.log2_lt_pow2; [lia|]; eapply Z.lt_le_trans; [apply Hb|].
  all: apply Z.pow_le_mono_r; lia.
Qed.

(** One step of the shift register, as a 128-bit shift. *)
Lemma register_step hi lo :
  0 <= hi < 2 ^ 64 → 0 <= lo < 2 ^ 64 →
  let hi' := Z.lor (u64 (Z.shiftl hi 5)) (Z.shiftr lo 59) in
  let lo' := u64 (Z.shiftl lo 5) in
  0 <= hi' < 2 ^ 64 ∧ 0 <= lo' < 2 ^ 64 ∧
  hi' * 2 ^ 64 + lo' = ((hi * 2 ^ 64 + lo) * 32) mod 2 ^ 128.
Proof.
  intros Hhi Hlo hi' lo'.
  assert (0 <= lo / 2 ^ 59 < 2 ^ 5) as Hc.
  { split; [apply Z.div_pos; lia|]. apply Z.div_lt_upper_bound; lia. }
  assert (hi' = (hi mod 2 ^ 59) * 2 ^ 5 + lo / 2 ^ 59) as Ehi.
  { subst hi'. unfold u64. rw Z.shiftl_mul_pow2 // Z.shiftr_div_pow2 //.
    rw (_ : 2 ^ 64 = 2 ^ 59 * 2 ^ 5) // Z.mul_mod_distr_r //.
    by rw lor_disjoint_add. }
  assert (lo' = (lo mod 2 ^ 59) * 2 ^ 5) as Elo.
  { subst lo'. unfold u64. rw Z.shiftl_mul_pow2 //.
    rw (_ : 2 ^ 64 = 2 ^ 59 * 2 ^ 5) // Z.mul_mod_distr_r //. }
  pose proof (Z.mod_pos_bound hi (2 ^ 59) ltac:(lia)).
  pose proof (Z.mod_pos_bound lo (2 ^ 59) ltac:(lia)).
  split_and!; [lia..|].
  rw (_ : 2 ^ 128 = 2 ^ 123 * 32) // Z.mul_mod_distr_r //.
  pose proof (Z.div_mod hi (2 ^ 59) ltac:(done)).
  pose proof (Z.div_mod lo (2 ^ 59) ltac:(done)).
  rw (_ : hi * 2 ^ 64 + lo =
          (hi mod 2 ^ 59 * 2 ^ 64 + lo) + (hi / 2 ^ 59) * 2 ^ 123); [|lia].
  rw Z.mod_add // Z.mod_small; [lia|]. lia.
Qed.

(** The random characters are the base-32 digits of the register's top
    bits. *)
Lemma encodeRandom_fixed n v hi lo :
  (n <= 16)%nat → 0 <= v < 32 ^ Z.of_nat n →
  0 <= hi < 2 ^ 64 → 0 <= lo < 2 ^ 64 →
  hi * 2 ^ 64 + lo = v * 2 ^ (128 - 5 * Z.of_nat n) →
  encodeRandom n hi lo = encodeFixed n v.
Proof.
  revert v hi lo. induction n as [|n IH]; intros v hi lo Hn Hv Hhi Hlo Heq; [done|].
  rw encodeFixed_cons //. simpl.
  set (P := 32 ^ Z.of_nat n) in *.
  assert (P = 2 ^ (5 * Z.of_nat n)) as EP by (subst P; by rw (Z.pow_mul_r 2 5); [|lia..]).
  assert (0 < P) by (rw EP; apply Z.pow_pos_nonneg; lia).
  assert (32 ^ Z.of_nat (S n) = 32 * P) as ES
    by (subst P; rw -Z.pow_succ_r; [f_equal; lia|lia]).
  assert (2 ^ 123 = P * 2 ^ (128 - 5 * Z.of_nat (S n))) as E123.
  { rw EP -Z.pow_add_r; [f_equal; lia|lia..]. }
  set (K := 2 ^ (128 - 5 * Z.of_nat (S n))) in *.
  assert (0 < K) by (apply Z.pow_pos_nonneg; lia).
  destruct (register_step hi lo Hhi Hlo) as (Hhi' & Hlo' & Hstep).
  f_equal.
  - f_equal. rw land_31 Z.shiftr_div_pow2 //.
    rw Z.mod_small; [|split; [apply Z.div_pos; lia|apply Z.div_lt_upper_bound; lia]].
    assert (hi / 2 ^ 59 = (hi * 2 ^ 64 + lo) / (2 ^ 64 * 2 ^ 59)) as ->.
    { rw -Z.div_div // Z.div_add_l // (Z.div_small lo) //. by rw Z.add_0_r. }
    rw Heq (_ : 2 ^ 64 * 2 ^ 59 = 2 ^ 123) // E123 Z.div_mul_cancel_r //; lia.
  - apply IH; [lia| |done|done|].
    + apply Z.mod_pos_bound. lia.
    + rw Hstep Heq.
      assert (2 ^ (128 - 5 * Z.of_nat n) = 32 * K) as ->.
      { subst K. rw (_ : 32 = 2 ^ 5) // -Z.pow_add_r; [f_equal; lia|lia..]. }
      rw (_ : 2 ^ 128 = P * (32 * K)); [|lia].
      rw -Z.mul_mod_distr_r; [f_equal; lia|lia..].
Qed.

(** The 80 random bits of two draws. *)
Definition randomness (r1 r2 : Z) : Z := r1 * 2 ^ 16 + r2 mod 2 ^ 16.

Lemma generateAt_digits ms r1 r2 :
  0 <= r1 < 2 ^ 64 →
  generateAt ms r1 r2 =
    encodeFixed 10 (ms mod 2 ^ 48) +:+ encodeFixed 16 (randomness r1 r2).
Proof.
  intros Hr. unfold generateAt. cbv zeta.
  pose proof (Z.mod_pos_bound r2 (2 ^ 16) ltac:(done)).
  rw (Z.land_ones (u64 ms) 48) // (Z.land_ones r2 16) //. f_equal.
  - f_equal. unfold u64. rw (_ : 2 ^ 64 = 2 ^ 48 * 2 ^ 16) //.
    rw Z.rem_mul_r // Z.mul_comm Z.mod_add // Z.mod_mod //.
  - assert (u64 (Z.shiftl (r2 mod 2 ^ 16) 48) = r2 mod 2 ^ 16 * 2 ^ 48) as E.
    { rw u64_id Z.shiftl_mul_pow2 //; lia. }
    apply encodeRandom_fixed; rw ?E; unfold randomness; [lia..|].
    change (128 - 5 * Z.of_nat 16) with 48. lia.
Qed.

Lemma compare_encodeFixed n a b :
  0 <= a < 32 ^ Z.of_nat n → 0 <= b < 32 ^ Z.of_nat n →
  String.compare (encodeFixed n a) (encodeFixed n b) = (a ?= b).
Proof.
  revert a b. induction n as [|n IH]; intros a b Ha Hb.
  - simpl in *. assert (a = b) as -> by lia. by rw Z.compare_refl.
  - rw !encodeFixed_S str_compare_app ?length_encodeFixed //.
    assert (32 ^ Z.of_nat (S n) = 32 * 32 ^ Z.of_nat n) as E
      by (rw -Z.pow_succ_r; [f_equal; lia|lia]).
    pose proof (Z.mod_pos_bound a 32 ltac:(done)).
    pose proof (Z.mod_pos_bound b 32 ltac:(done)).
    pose proof (Z.div_mod a 32 ltac:(done)). pose proof (Z.div_mod b 32 ltac:(done)).
    rw IH; [|split; [apply Z.div_pos|apply Z.div_lt_upper_bound]; lia..].
    simpl. rw alpha_mono //.
    destruct (Z.compare_spec (a / 32) (b / 32)) as [Hq|Hq|Hq];
      [destruct (Z.compare_spec (a mod 32) (b mod 32))|..]; symmetry;
      first [apply Z.compare_eq_iff | apply Z.compare_lt_iff | apply Z.compare_gt_iff]; lia.
Qed.

Lemma decodeLoop_cons n v rest acc :
  0 <= v < 32 ^ Z.of_nat n → 0 <= acc → acc * 32 ^ Z.of_nat n + v < 2 ^ 59 →
  decodeLoop n (encodeFixed n v +:+ rest) acc = Some (acc * 32 ^ Z.of_nat n + v).
Proof.
  revert v acc. induction n as [|n IH]; intros v acc Hv Hacc Hlim.
  - simpl in *. f_equal. lia.
  - assert (32 ^ Z.of_nat (S n) = 32 * 32 ^ Z.of_nat n) as E
      by (rw -Z.pow_succ_r; [f_equal; lia|lia]).
    set (P := 32 ^ Z.of_nat n) in *. assert (0 < P) by (apply Z.pow_pos_nonneg; lia).
    rw encodeFixed_cons // string_cons_app. fold P.
    pose proof (Z.mod_pos_bound v P ltac:(lia)).
    pose proof (Z.div_mod v P ltac:(lia)).
    assert (0 <= v / P < 32) as Hd
      by (split; [apply Z.div_pos; lia|apply Z.div_lt_upper_bound; lia]).
    cbn [decodeLoop]. rw decode_alpha //.
    destruct (Z.ltb_spec (v / P) 0); [lia|].
    rw Z.shiftl_mul_pow2 // (u64_id (acc * 2 ^ 5)); [|nia].
    rw lor_disjoint_add // u64_id; [|nia].
    rw IH; [f_equal; nia|done|lia|nia].
Qed.
Lemma length_generateAt ms r1 r2 : String.length (generateAt ms r1 r2) = 26%nat.
Proof.
  unfold generateAt. by rw string_length_app length_encodeFixed length_encodeRandom.
Qed.

(** ** Properties *)

(** Identifiers compare as (48-bit millisecond timestamp, 80 random
    bits): lexicographic order is time order, ties are broken by the
    randomness, and two identifiers are equal only when both agree. *)
Theorem ulid_order ms ms' r1 r2 r1' r2' :
  0 <= r1 < 2 ^ 64 → 0 <= r1' < 2 ^ 64 →
  String.compare (generateAt ms r1 r2) (generateAt ms' r1' r2') =
    match ms mod 2 ^ 48 ?= ms' mod 2 ^ 48 with
    | Eq => randomness r1 r2 ?= randomness r1' r2'
    | c => c
    end.
Proof.
  intros Hr Hr'. rw !generateAt_digits // str_compare_app ?length_encodeFixed //.
  pose proof (Z.mod_pos_bound ms (2 ^ 48) ltac:(done)).
  pose proof (Z.mod_pos_bound ms' (2 ^ 48) ltac:(done)).
  pose proof (Z.mod_pos_bound r2 (2 ^ 16) ltac:(done)).
  pose proof (Z.mod_pos_bound r2' (2 ^ 16) ltac:(done)).
  rw !compare_encodeFixed //; unfold randomness; lia.
Qed.

Lemma ulid_order_witness :
  str_ltb (generateAt 1700000000000 (2 ^ 64 - 1) 5) (generateAt 1700000000001 0 0) = true.
Proof.
  unfold str_ltb, String.ltb.
  by rw (ulid_order 1700000000000 1700000000001 (2 ^ 64 - 1) 5 0 0).
Defined.

(** Decoding an identifier gives back the low 48 bits of the
    millisecond time it was generated at. *)
Theorem ulid_timestamp_roundtrip ms r1 r2 :
  0 <= r1 < 2 ^ 64 →
  decodeTimestamp (generateAt ms r1 r2) = Some (ms mod 2 ^ 48).
Proof.
  intros Hr. unfold decodeTimestamp. rw length_generateAt decide_True_pi //.
  pose proof (Z.mod_pos_bound ms (2 ^ 48) ltac:(done)).
  rw generateAt_digits // decodeLoop_cons //; lia.
Qed.

Lemma ulid_timestamp_roundtrip_witness :
  decodeTimestamp (generateAt 1700000000000 123456789 42) = Some 1700000000000.
Proof. by rw (ulid_timestamp_roundtrip 1700000000000 123456789 42). Defined.

End Ulid.
