(* ===== verification/Diff.v ===== *)
(** * Diff: line diffs between configuration versions

    Models [src/src/control_plane/diff_engine.cpp]: header stripping of the
    external [diff -u] output, the fallback line diff and the choice between
    them.  The external process is a parameter: its exit code and output. *)
From S2P Require Import Prelude.

Module Diff.

Definition newline : ascii := "010"%char.

(** The newline-terminated pieces of a text with what they hold; a last
    unterminated piece is reported only when it is not empty.  [cur] is the
    piece being read. *)
Fixpoint pieces (cur s : string) : list (string * bool) :=
  match s with
  | "" => if str_empty cur then [] else [(cur, false)]
  | String c s =>
      if decide (c = newline) then (cur, true) :: pieces "" s
      else pieces (cur +:+ String c "") s
  end.

(** The [split] lambda of [naiveDiff]. *)
Definition split (s : string) : list string := fst <$> pieces "" s.

(** [rfind(p, 0) == 0]. *)
Definition starts_with (p s : string) : bool := String.prefix p s.

(** The loop of [stripDiffHeaders]: drop the first header line of each kind,
    in order. *)
Fixpoint strip_loop (ls : list (string * bool)) (stripped : nat) : string :=
  match ls with
  | [] => ""
  | (line, eol) :: ls =>
      let is_header := (stripped <? 2)%nat &&
        ((starts_with "--- " line && (stripped =? 0)%nat) ||
         (starts_with "+++ " line && (stripped =? 1)%nat)) in
      if is_header then strip_loop ls (S stripped)
      else line +:+ (if eol then String newline "" else "") +:+ strip_loop ls stripped
  end.

Definition stripDiffHeaders (raw : string) : string := strip_loop (pieces "" raw) 0.

(** [runSystemDiff]: [None] when the pipe could not be opened; any exit code
    but 1 discards the output. *)
Definition runSystemDiff (diff : string → string → option (Z * string))
    (from to : string) : string :=
  let raw := match diff from to with
             | Some (exit_code, out) => if decide (exit_code = 1%Z) then out else ""
             | None => ""
             end in
  stripDiffHeaders raw.

(** The two-index loop of [naiveDiff] over what remains of both sides. *)
Fixpoint naive_loop (fuel : nat) (a b : list string) : string :=
  match fuel with
  | O => ""
  | S fuel =>
      match a, b with
      | [], [] => ""
      | x :: a', y :: b' =>
          if decide (x = y)
          then " " +:+ x +:+ String newline "" +:+ naive_loop fuel a' b'
          else "-" +:+ x +:+ String newline "" +:+ naive_loop fuel a' b
      | x :: a', [] => "-" +:+ x +:+ String newline "" +:+ naive_loop fuel a' []
      | [], y :: b' => "+" +:+ y +:+ String newline "" +:+ naive_loop fuel [] b'
      end
  end.

Definition naiveDiff (from to : string) : string :=
  let a := split from in
  let b := split to in
  naive_loop (S (length a + length b)) a b.

Definition unifiedDiff (diff : string → string → option (Z * string))
    (from to : string) : string :=
  if decide (from = to) then ""
  else
    let system_out := runSystemDiff diff from to in
    if negb (str_empty system_out) then system_out else naiveDiff from to.

(** ** What a diff says *)

(** The lines of a diff that carry one of two markers, without the marker. *)
Fixpoint side (m1 m2 : ascii) (ls : list string) : list string :=
  match ls with
  | [] => []
  | String c l :: ls => if decide (c = m1 ∨ c = m2) then l :: side m1 m2 ls
                        else side m1 m2 ls
  | "" :: ls => side m1 m2 ls
  end.

Definition old_side := side " "%char "-"%char.
Definition new_side := side " "%char "+"%char.

(** ** Lemmas *)

Definition one_line (s : string) : Prop := newline ∉ String.list_ascii_of_string s.

Lemma one_line_cons c s : one_line (String c s) ↔ c ≠ newline ∧ one_line s.
Proof. unfold one_line. simpl. rw not_elem_of_cons. naive_solver. Qed.

Lemma one_line_snoc s c : one_line s → c ≠ newline → one_line (s +:+ String c "").
Proof.
  induction s as [|d s IH]; intros Hs Hc.
  - by apply one_line_cons.
  - apply one_line_cons in Hs as [??]. apply one_line_cons. auto.
Qed.

Lemma pieces_one_line cur s : one_line cur → Forall one_line (pieces cur s).*1.
Proof.
  revert cur. induction s as [|c s IH]; intros cur Hcur; simpl.
  - destruct (str_empty cur); simpl; auto.
  - case_decide; simpl.
    + constructor; [done|]. apply IH. by apply not_elem_of_nil.
    + apply IH. by apply one_line_snoc.
Qed.

Lemma split_one_line s : Forall one_line (split s).
Proof. apply pieces_one_line. apply not_elem_of_nil. Qed.

Lemma pieces_line cur l rest :
  one_line l → pieces cur (l +:+ String newline "" +:+ rest) = (cur +:+ l, true) :: pieces "" rest.
Proof.
  revert cur. induction l as [|c l IH]; intros cur Hl.
  - change (pieces cur (String newline rest) = (cur +:+ "", true) :: pieces "" rest).
    simpl. by rw string_app_nil_r.
  - apply one_line_cons in Hl as [Hc Hl].
    change (pieces cur (String c (l +:+ String newline "" +:+ rest)) =
            (cur +:+ String c l, true) :: pieces "" rest).
    simpl. case_decide; [done|]. rw IH // string_app_assoc //.
Qed.

Lemma split_marked m l rest :
  m ≠ newline → one_line l →
  split (String m (l +:+ String newline "" +:+ rest)) = String m l :: split rest.
Proof.
  intros Hm Hl. unfold split.
  change (String m (l +:+ String newline "" +:+ rest)) with
    (String m l +:+ String newline "" +:+ rest).
  by rw pieces_line; [|apply one_line_cons].
Qed.

Lemma naive_loop_sides fuel a b :
  Forall one_line a → Forall one_line b → (length a + length b < fuel)%nat →
  old_side (split (naive_loop fuel a b)) = a ∧
  new_side (split (naive_loop fuel a b)) = b.
Proof.
  revert a b. induction fuel as [|fuel IH]; intros a b Ha Hb Hf; [lia|].
  unfold old_side, new_side in *.
  destruct Ha as [|x a Hx Ha], Hb as [|y b Hy Hb]; cbn [naive_loop length] in *; [done|..].
  - change ("+" +:+ ?s) with (String "+"%char s). rw split_marked //.
    destruct (IH [] b) as [IH1 IH2]; [auto|auto|simpl; lia|]. by rw /= IH1 IH2.
  - change ("-" +:+ ?s) with (String "-"%char s). rw split_marked //.
    destruct (IH a []) as [IH1 IH2]; [auto|auto|simpl; lia|]. by rw /= IH1 IH2.
  - case_decide as E; [subst y|].
    + change (" " +:+ ?s) with (String " "%char s). rw split_marked //.
      destruct (IH a b) as [IH1 IH2]; [auto|auto|simpl; lia|]. by rw /= IH1 IH2.
    + change ("-" +:+ ?s) with (String "-"%char s). rw split_marked //.
      destruct (IH a (y :: b)) as [IH1 IH2]; [auto|auto|simpl; lia|]. by rw /= IH1 IH2.
Qed.

(** The fallback diff is a lossless edit script: its context and
    deletion lines are exactly the old text's lines in order, its context and
    insertion lines exactly the new text's. *)
Theorem naiveDiff_sides from to :
  old_side (split (naiveDiff from to)) = split from ∧
  new_side (split (naiveDiff from to)) = split to.
Proof. apply naive_loop_sides; [apply split_one_line..|lia]. Qed.

(** The two header lines of [diff -u] never reach the caller. *)
Lemma stripDiffHeaders_spec h1 h2 body :
  one_line h1 → one_line h2 → starts_with "--- " h1 = true →
  starts_with "+++ " h2 = true →
  stripDiffHeaders (h1 +:+ String newline "" +:+ h2 +:+ String newline "" +:+ body) =
    strip_loop (pieces "" body) 2.
Proof.
  intros H1 H2 E1 E2. unfold stripDiffHeaders. rw pieces_line //= pieces_line //=.
  change ("" +:+ h1) with h1. change ("" +:+ h2) with h2. rw E1 E2.
  by destruct (starts_with "--- " h2).
Qed.

End Diff.
