(* ===== verification/Scanner.v ===== *)
(** * Scanner: the secret scanner of submitted configurations

    Models [SensitiveScanner::scan] of
    [src/src/control_plane/sensitive_scanner.cpp].  The regular-expression
    engine (RE2) is a parameter: for a pattern, whether it compiles, and the
    capture of the leftmost match of a text as an offset and the captured
    field.  The scanner's own loop, its positions and its ordering are
    modelled. *)
From S2P Require Import Prelude.
Local Open Scope Z_scope.

Module Scanner.

(** [struct SensitiveFinding]. *)
Record SensitiveFinding := {
  f_line : Z;
  f_column : Z;
  f_field_name : string;
  f_rule_id : string;
}.

(** [RE2::ok] and [RE2::PartialMatch] with one capture. *)
Record RegexEngine := {
  re_ok : string → bool;
  re_partialMatch : string → string → option (nat * string);
}.

(** [struct Pattern]. *)
Record Pattern := {
  rule_id : string;
  regex : string;
}.

(** The double quote, for the character classes of the patterns. *)
Definition dq : string := String "034" "".

(** The table of rules, in order, with the text of each regular expression. *)
Definition kPatterns : list Pattern :=
  [{| rule_id := "api_key";
      regex := "(?im)^[ \t]*(api[_-]?key)\s*:\s*[" +:+ dq +:+
        "']?(?:sk-[A-Za-z0-9_-]{10,}|sess-[A-Za-z0-9]{10,}|[A-Za-z0-9]{32,})[" +:+ dq +:+
        "']?\s*$" |};
   {| rule_id := "license_key";
      regex := "(?im)^[ \t]*(license[_-]?key)\s*:\s*[" +:+ dq +:+
        "']?[A-Za-z0-9+/=]{20,}[" +:+ dq +:+ "']?\s*$" |};
   {| rule_id := "jwt_secret";
      regex := "(?im)^[ \t]*(jwt[_-]?secret)\s*:\s*[" +:+ dq +:+ "']?[^\s" +:+ dq +:+
        "'$][^\s" +:+ dq +:+ "']{15,}[" +:+ dq +:+ "']?\s*$" |};
   {| rule_id := "password";
      regex := "(?im)^[ \t]*(password)\s*:\s*[" +:+ dq +:+ "']?[^\s" +:+ dq +:+
        "'#${][^\s" +:+ dq +:+ "'#]{2,}[" +:+ dq +:+ "']?\s*$" |}].

Definition newline : ascii := "010"%char.

(** The line and column of an offset, both from 1. *)
Fixpoint line_col (n : nat) (s : string) (line col : Z) : Z * Z :=
  match n, s with
  | O, _ | _, "" => (line, col)
  | S n, String c s =>
      if decide (c = newline) then line_col n s (line + 1) 1
      else line_col n s line (col + 1)
  end.

(** [find('\n', pos)] on a text. *)
Fixpoint find_nl (s : string) : option nat :=
  match s with
  | "" => None
  | String c s => if decide (c = newline) then Some O else S <$> find_nl s
  end.

Fixpoint string_drop (n : nat) (s : string) : string :=
  match n, s with
  | O, _ => s
  | S n, String _ s => string_drop n s
  | S _, "" => ""
  end.

(** The [while (true)] loop of one pattern, from [search_pos]. *)
Fixpoint scan_pattern (fuel : nat) (re : RegexEngine) (pat : Pattern) (text : string)
    (search_pos : nat) : list SensitiveFinding :=
  match fuel with
  | O => []
  | S fuel =>
      let rest := string_drop search_pos text in
      match re_partialMatch re (regex pat) rest with
      | None => []
      | Some (off, field) =>
          let abs_off := (search_pos + off)%nat in
          let '(line, col) := line_col abs_off text 1 1 in
          let f := {| f_line := line; f_column := col; f_field_name := field;
                      f_rule_id := rule_id pat |} in
          match find_nl (string_drop abs_off text) with
          | None => [f]
          | Some d => f :: scan_pattern fuel re pat text (abs_off + d + 1)
          end
      end
  end.

(** The comparator: by line, then by column. *)
Definition by_position (a b : SensitiveFinding) : bool :=
  if bool_decide (f_line a ≠ f_line b) then f_line a <? f_line b
  else f_column a <? f_column b.

(** The unsorted findings of every pattern that compiles. *)
Definition scan_all (re : RegexEngine) (text : string) : list SensitiveFinding :=
  p ← kPatterns;
  if re_ok re (regex p) then scan_pattern (S (S (String.length text))) re p text 0 else [].

Definition scan (re : RegexEngine) (yaml_text : string) : list SensitiveFinding :=
  std_sort by_position (scan_all re yaml_text).

(** ** Lemmas *)

(** RE2 reports a capture inside the searched text. *)
Definition capture_in_text (re : RegexEngine) : Prop :=
  ∀ pattern text off field,
    re_partialMatch re pattern text = Some (off, field) →
    (off <= String.length text)%nat.

#[export] Instance by_position_order : SortOrder by_position.
Proof.
  assert (∀ a b, by_position a b = false ↔
    f_line b < f_line a ∨ (f_line a = f_line b ∧ f_column b <= f_column a)) as Hf.
  { intros a b. unfold by_position. case_bool_decide; rw Z.ltb_ge; naive_solver lia. }
  split.
  - intros a b. unfold by_position at 1. rw Hf.
    case_bool_decide; rw Z.ltb_lt; naive_solver lia.
  - intros a b c. rw !Hf. naive_solver lia.
Qed.

Lemma string_drop_app n s :
  (n <= String.length s)%nat → ∃ p, String.length p = n ∧ s = p +:+ string_drop n s.
Proof.
  revert s. induction n as [|n IH]; intros s Hn; [by exists ""|].
  destruct s as [|c s]; simpl in *; [lia|].
  destruct (IH s) as (p & Hp & Hs); [lia|]. exists (String c p). split; [simpl; lia|].
  change (String c s = String c (p +:+ string_drop n s)). by rw -Hs.
Qed.

Lemma find_nl_length s d : find_nl s = Some d → (d < String.length s)%nat.
Proof.
  revert d. induction s as [|c s IH]; intros d; simpl; [done|].
  case_decide; [intros; simplify_eq; lia|].
  destruct (find_nl s) as [e|] eqn:E; [|done].
  intros; simplify_eq/=. specialize (IH e eq_refl). lia.
Qed.

Lemma string_drop_drop m n s : string_drop m (string_drop n s) = string_drop (n + m) s.
Proof.
  revert s. induction n as [|n IH]; intros s; [done|].
  destruct s as [|c s]; simpl; [by destruct m|apply IH].
Qed.

Lemma length_string_drop n s :
  String.length (string_drop n s) = (String.length s - n)%nat.
Proof.
  revert s. induction n as [|n IH]; intros s; simpl; [lia|].
  destruct s as [|c s]; simpl; [done|]. apply IH.
Qed.

(** The line number of an offset never decreases, and grows across a
    newline. *)
Lemma line_col_mono n m s line col :
  (line_col n s line col).1 <= (line_col (n + m) s line col).1.
Proof.
  assert (∀ k s line col, line <= (line_col k s line col).1) as Hge.
  { intros k. induction k as [|k IH]; intros [|c s'] l c'; simpl; try lia.
    case_decide; [specialize (IH s' (l + 1) 1); lia|apply IH]. }
  revert s line col. induction n as [|n IH]; intros s line col; simpl.
  - destruct s; simpl; apply Hge.
  - destruct s as [|c s]; simpl; [lia|]. case_decide; apply IH.
Qed.

Lemma line_col_newline n m s line col :
  find_nl (string_drop n s) = Some m →
  (line_col n s line col).1 < (line_col (n + m + 1) s line col).1.
Proof.
  revert s line col. induction n as [|n IH]; intros s line col Hnl.
  - simpl in *. revert s line col Hnl. induction m as [|m IHm]; intros [|c s] line col; simpl; try done.
    + case_decide; intros; simplify_eq/=; [destruct s; simpl; lia|].
      by destruct (find_nl s).
    + case_decide; [done|]. destruct (find_nl s) as [e|] eqn:E; [|done].
      intros; simplify_eq/=. rw (_ : (m + 1)%nat = S m); [|lia].
      specialize (IHm s line (col + 1) E).
      rw (_ : (m + 1)%nat = S m) in IHm; [|lia]. destruct s; simpl in *; [done|]. lia.
  - destruct s as [|c s]; simpl in *; [done|].
    case_decide; by apply IH.
Qed.

Section engine.
Context (re : RegexEngine) (Hre : capture_in_text re) (pat : Pattern) (text : string).

(** The position strictly advances: the loop ends within the text's length. *)
Lemma scan_advance pos off field d :
  (pos <= String.length text)%nat →
  re_partialMatch re (regex pat) (string_drop pos text) = Some (off, field) →
  find_nl (string_drop (pos + off) text) = Some d →
  (pos < pos + off + d + 1 <= String.length text)%nat.
Proof.
  intros Hp Hm%Hre Hd%find_nl_length. rw !length_string_drop in Hm Hd. lia.
Qed.

Lemma scan_pattern_fuel fuel fuel' pos :
  (pos <= String.length text)%nat →
  (String.length text - pos < fuel)%nat → (String.length text - pos < fuel')%nat →
  scan_pattern fuel re pat text pos = scan_pattern fuel' re pat text pos.
Proof.
  revert fuel' pos. induction fuel as [|fuel IH]; intros [|fuel'] pos Hp Hf Hf'; [lia..|].
  simpl. destruct (re_partialMatch _ _ _) as [[off field]|] eqn:Hm; [|done].
  destruct (line_col _ _ _ _) as [l c].
  destruct (find_nl _) as [d|] eqn:Hd; [|done].
  pose proof (scan_advance _ _ _ _ Hp Hm Hd). f_equal. apply IH; lia.
Qed.

(** One pattern reports lines in strictly increasing order. *)
Lemma scan_pattern_lines fuel pos :
  (pos <= String.length text)%nat →
  StronglySorted Z.lt (f_line <$> scan_pattern fuel re pat text pos) ∧
  Forall (λ f, (line_col pos text 1 1).1 <= f_line f ∧ f_rule_id f = rule_id pat)
    (scan_pattern fuel re pat text pos).
Proof.
  revert pos. induction fuel as [|fuel IH]; intros pos Hp; [repeat constructor|].
  simpl. destruct (re_partialMatch _ _ _) as [[off field]|] eqn:Hm; [|repeat constructor].
  pose proof (line_col_mono pos off text 1 1) as Hmono.
  destruct (line_col (pos + off) text 1 1) as [l c] eqn:Elc. simpl in Hmono.
  destruct (find_nl _) as [d|] eqn:Hd; [|repeat constructor; simpl; lia].
  pose proof (scan_advance _ _ _ _ Hp Hm Hd) as Hadv.
  pose proof (line_col_newline _ _ _ 1 1 Hd) as Hlt. rw Elc /= in Hlt.
  destruct (IH (pos + off + d + 1)%nat) as [IH1 IH2]; [lia|]. simpl. split.
  - constructor; [done|]. apply Forall_fmap. eapply Forall_impl; [done|].
    simpl. intros f [??]. lia.
  - constructor; [done|]. eapply Forall_impl; [done|]. simpl. intros f [??]. split; [lia|done].
Qed.
End engine.

Lemma scan_all_NoDup re text :
  capture_in_text re → NoDup ((λ f, (f_rule_id f, f_line f)) <$> scan_all re text).
Proof.
  intros Hre. unfold scan_all.
  assert (NoDup (rule_id <$> kPatterns)) as Hnd
    by (apply (bool_decide_unpack _); by vm_compute).
  induction kPatterns as [|p ps IH]; [constructor|].
  apply NoDup_cons in Hnd as [Hp Hnd]. specialize (IH Hnd).
  rw bind_cons fmap_app. apply NoDup_app. split_and!; [|..|done].
  - destruct (re_ok re (regex p)); [|constructor].
    destruct (scan_pattern_lines re Hre p text (S (S (String.length text))) 0) as [Hs _]; [lia|].
    apply (NoDup_fmap_1 snd). rw -list_fmap_compose /compose /=.
    by apply (StronglySorted_irrefl_NoDup Z.lt); [intros x; lia|].
  - intros [r l] (f & [= -> ->] & Hf)%list_elem_of_fmap (g & [= Hr Hl] & Hg)%list_elem_of_fmap.
    destruct (re_ok re (regex p)); [|by apply elem_of_nil in Hf].
    destruct (scan_pattern_lines re Hre p text (S (S (String.length text))) 0) as [_ Hfs]; [lia|].
    eapply Forall_forall in Hfs as [_ Hfr]; [|done].
    apply list_elem_of_bind in Hg as (q & Hgq & Hq).
    destruct (re_ok re (regex q)); [|by apply elem_of_nil in Hgq].
    destruct (scan_pattern_lines re Hre q text (S (S (String.length text))) 0) as [_ Hgs]; [lia|].
    eapply Forall_forall in Hgs as [_ Hgr]; [|done].
    apply Hp. rw -Hfr Hr Hgr. by apply list_elem_of_fmap_2.
Qed.

Lemma scan_empty_iff re text :
  scan re text = [] ↔
  ∀ p, p ∈ kPatterns → re_ok re (regex p) = true →
    re_partialMatch re (regex p) text = None.
Proof.
  assert (scan re text = [] ↔ scan_all re text = []) as ->.
  { unfold scan. pose proof (std_sort_perm by_position (scan_all re text)) as Hp.
    split; intros H; rw H in Hp *; [|done]. by apply Permutation_nil in Hp. }
  unfold scan_all. induction kPatterns as [|p ps IH]; [set_solver|].
  rw bind_cons. split.
  - intros [H1 H2]%app_nil q Hq Hok. apply elem_of_cons in Hq as [->|Hq]; [|by apply IH].
    rw Hok in H1. simpl in H1.
    destruct (re_partialMatch re (regex p) text) as [[off field]|]; [|done].
    destruct (line_col _ _ _ _). by destruct (find_nl _).
  - intros H. apply app_nil. split; [|apply IH; set_solver].
    destruct (re_ok re (regex p)) eqn:Hok; [|done]. simpl. by rw H; [|set_solver|].
Qed.

(** The secret scan is exact and well-behaved: with an engine whose
    captures lie in the searched text, it returns no finding exactly when no
    compiled pattern matches, reports each rule at most once per line, orders
    the findings by position, and its search loop has always ended before the
    fuel does. *)
Theorem scan_spec re text :
  capture_in_text re →
  (scan re text = [] ↔
     ∀ p, p ∈ kPatterns → re_ok re (regex p) = true →
    re_partialMatch re (regex p) text = None) ∧
  NoDup ((λ f, (f_rule_id f, f_line f)) <$> scan re text) ∧
  StronglySorted (no_later by_position) (scan re text) ∧
  (∀ p fuel, (String.length text < fuel)%nat →
     scan_pattern fuel re p text 0 = scan_pattern (S (S (String.length text))) re p text 0).
Proof.
  intros Hre. split_and!.
  - apply scan_empty_iff.
  - unfold scan. rw std_sort_perm. by apply scan_all_NoDup.
  - apply std_sort_sorted, _.
  - intros p fuel Hf. apply scan_pattern_fuel; [done|lia..].
Qed.

(** An engine that recognises the literal key [password] at the start of the
    text. *)
Definition toy_engine : RegexEngine :=
  {| re_ok := λ _, true;
     re_partialMatch := λ pattern text,
       if bool_decide (Some pattern = regex <$> kPatterns !! 3%nat) && String.prefix "password" text
       then Some (0%nat, "password") else None |}.

Lemma scan_spec_witness :
  capture_in_text toy_engine ∧ length (scan toy_engine "password: hunter2") = 1%nat ∧
  NoDup ((λ f, (f_rule_id f, f_line f)) <$> scan toy_engine "password: hunter2").
Proof.
  assert (capture_in_text toy_engine) as H.
  { intros pattern text off field. unfold toy_engine, re_partialMatch. destruct (_ && _); [|done].
    intros; simplify_eq; lia. }
  split; [exact H|]. split; [by vm_compute|].
  exact (proj1 (proj2 (scan_spec toy_engine "password: hunter2" H))).
Defined.

End Scanner.
