(* ===== verification/AuditLog.v ===== *)
(** * AuditLog: the hash-chained audit log

    Models [src/src/guardrail/audit.cpp]: the in-memory chain
    ([computeChainHash], [verifyChain], [log]), detail encryption, the bounded
    queue to the persistent store with its writer thread, and [flush]'s
    epochs.  SHA-256 (OpenSSL) and the cipher are parameters.

    [log] takes two mutexes one after the other, so it is two atomic steps:
    [chain_entry] under [mutex_] and [enqueue] under [queue_mutex_]. *)
From S2P Require Import Prelude.
From S2P Require Import Prog.
Local Open Scope Z_scope.

Module Audit.

(** [struct AuditEntry]. *)
Record AuditEntry := {
  request_id : string;
  timestamp : string;
  tenant_id : string;
  action : string;
  stage_name : string;
  detail : string;
  input_hash : string;
  output_hash : string;
  chain_hash : string;
}.

#[global] Instance AuditEntry_eq_dec : EqDecision AuditEntry.
Proof. solve_decision. Defined.

Definition set_chain_hash (h : string) (e : AuditEntry) : AuditEntry :=
  {| request_id := request_id e; timestamp := timestamp e; tenant_id := tenant_id e;
     action := action e; stage_name := stage_name e; detail := detail e;
     input_hash := input_hash e; output_hash := output_hash e; chain_hash := h |}.

Definition set_detail (d : string) (e : AuditEntry) : AuditEntry :=
  {| request_id := request_id e; timestamp := timestamp e; tenant_id := tenant_id e;
     action := action e; stage_name := stage_name e; detail := d;
     input_hash := input_hash e; output_hash := output_hash e;
     chain_hash := chain_hash e |}.

(** The cipher of [src/src/auth/encryption.cpp], with its purpose tag. *)
Record Encryption := {
  enc_isAvailable : bool;
  enc_encrypt : string → string → string;
  enc_decrypt : string → string → option string;
}.

Definition kAuditEncryptionPurpose : string := "audit_log".
Definition kMaxQueueSize : nat := Z.to_nat 10000.
Definition kBatchSize : nat := Z.to_nat 1000.

Lemma kMaxQueueSize_pos : (0 < kMaxQueueSize)%nat.
Proof. unfold kMaxQueueSize. lia. Qed.
Lemma kBatchSize_pos : (0 < kBatchSize)%nat.
Proof. unfold kBatchSize. lia. Qed.
#[global] Opaque kMaxQueueSize kBatchSize.

(** ** The chain *)

(** [entries_], [max_entries_] and [last_chain_hash_], under [mutex_]. *)
Record Chain := {
  entries : list AuditEntry;
  max_entries : nat;
  last_chain_hash : string;
}.

Definition empty_chain (max : nat) : Chain :=
  {| entries := []; max_entries := max; last_chain_hash := "" |}.

Section chain.
Context (sha256 : string → string).

Definition payload (e : AuditEntry) (prev : string) : string :=
  prev +:+ "|" +:+ timestamp e +:+ "|" +:+ request_id e +:+ "|" +:+ tenant_id e +:+
  "|" +:+ stage_name e +:+ "|" +:+ action e +:+ "|" +:+ detail e +:+ "|" +:+ input_hash e.

Definition computeChainHash (e : AuditEntry) (prev_chain_hash : string) : string :=
  sha256 (payload e prev_chain_hash).

Fixpoint verify_from (prev_hash : string) (es : list AuditEntry) : bool :=
  match es with
  | [] => true
  | e :: es =>
      let expected := computeChainHash e prev_hash in
      if decide (chain_hash e = expected) then verify_from (chain_hash e) es else false
  end.

Definition verifyChain (es : list AuditEntry) : bool := verify_from "" es.

(** The first critical section of [log]: chain the entry, rotate, append. *)
Definition chain_entry (e : AuditEntry) (c : Chain) : AuditEntry * Chain :=
  let chained := set_chain_hash (computeChainHash e (last_chain_hash c)) e in
  let es := if (max_entries c <=? length (entries c))%nat
            then tail (entries c) else entries c in
  (chained, {| entries := es ++ [chained]; max_entries := max_entries c;
               last_chain_hash := chain_hash chained |}).

(** [clear] drops the entries and keeps [last_chain_hash_]. *)
Definition clear (c : Chain) : Chain :=
  {| entries := []; max_entries := max_entries c; last_chain_hash := last_chain_hash c |}.

(** The entry the store receives: the detail is encrypted when a cipher is
    available and succeeds. *)
Definition persist_entry (enc : option Encryption) (e : AuditEntry) : AuditEntry :=
  match enc with
  | Some k =>
      if enc_isAvailable k && negb (str_empty (detail e)) then
        let encrypted := enc_encrypt k (detail e) kAuditEncryptionPurpose in
        if str_empty encrypted then e else set_detail encrypted e
      else e
  | None => e
  end.

Definition decryptDetail (stored : string) (enc : option Encryption) : string :=
  match enc with
  | Some k =>
      if str_empty stored || negb (enc_isAvailable k) then stored
      else default stored (enc_decrypt k stored kAuditEncryptionPurpose)
  | None => stored
  end.

(** [logAction] and [process] build the entries they log. *)
Definition action_entry (req now tenant stage act det : string) : AuditEntry :=
  {| request_id := req; timestamp := now; tenant_id := tenant; action := act;
     stage_name := stage; detail := det; input_hash := ""; output_hash := "";
     chain_hash := "" |}.

Definition process_entry (req now tenant : string) (contents : list string) : AuditEntry :=
  {| request_id := req; timestamp := now; tenant_id := tenant;
     action := "request_received"; stage_name := "pipeline"; detail := "";
     input_hash := sha256 (foldl String.app "" contents); output_hash := "";
     chain_hash := "" |}.

End chain.

(** ** The queue and its writer *)

(** Where the writer thread is: at the loop test of [stop_], in the wait of
    the loop body, persisting what is left of a batch, past the loop before
    the final swap, persisting the swapped batch, or gone. *)
Inductive WriterPc :=
| LoopTest
| Waiting
| Draining (batch : list AuditEntry)
| Leaving
| FinalDrain (batch : list AuditEntry)
| Exited.

#[global] Instance WriterPc_eq_dec : EqDecision WriterPc.
Proof. solve_decision. Defined.

(** The state under [queue_mutex_].  A waiter is its target epoch and, as
    history, how many entries had been enqueued when it was registered;
    [resolved] holds the waiters whose promise was set.  [offered] is the
    history of [enqueue]s, [attempted] of [insertAudit] calls, [dropped] the
    entries lost to overflow. *)
Record Queue := {
  pending : list AuditEntry;
  draining : bool;
  stop : bool;
  pc : WriterPc;
  flush_epoch : Z;
  completed_epoch : Z;
  waiters : list (Z * nat);
  resolved : list (Z * nat);
  offered : list AuditEntry;
  attempted : list AuditEntry;
  dropped : list AuditEntry;
}.

Definition empty_queue : Queue :=
  {| pending := []; draining := false; stop := false; pc := LoopTest; flush_epoch := 0;
     completed_epoch := 0; waiters := []; resolved := []; offered := [];
     attempted := []; dropped := [] |}.

(** The second critical section of [log]. *)
Definition enqueue (e : AuditEntry) (q : Queue) : Queue :=
  let full := (kMaxQueueSize <=? length (pending q))%nat in
  {| pending := (if full then tail (pending q) else pending q) ++ [e];
     draining := draining q; stop := stop q; pc := pc q;
     flush_epoch := flush_epoch q; completed_epoch := completed_epoch q;
     waiters := waiters q; resolved := resolved q; offered := offered q ++ [e];
     attempted := attempted q;
     dropped := if full then dropped q ++ take 1 (pending q) else dropped q |}.

(** The critical section of [flush]: [None] when it returns true at once,
    otherwise the target epoch it waits for. *)
Definition flush_register (q : Queue) : option Z * Queue :=
  if bool_decide (pending q = []) && negb (draining q) && bool_decide (waiters q = [])
  then (None, q)
  else
    let target := flush_epoch q + 1 in
    (Some target,
     {| pending := pending q; draining := draining q; stop := stop q; pc := pc q;
        flush_epoch := target; completed_epoch := completed_epoch q;
        waiters := waiters q ++ [(target, length (offered q))];
        resolved := resolved q; offered := offered q; attempted := attempted q;
        dropped := dropped q |}).

(** [notifyFlushWaiters]: one more completed epoch, and every waiter it
    covers is resolved. *)
Definition notifyFlushWaiters (q : Queue) : Queue :=
  match waiters q with
  | [] => q
  | _ =>
      let epoch := completed_epoch q + 1 in
      {| pending := pending q; draining := draining q; stop := stop q; pc := pc q;
         flush_epoch := flush_epoch q; completed_epoch := epoch;
         waiters := base.filter (λ w, ¬ (w.1 <= epoch)) (waiters q);
         resolved := resolved q ++ base.filter (λ w, w.1 <= epoch) (waiters q);
         offered := offered q; attempted := attempted q; dropped := dropped q |}
  end.

(** [shutdown] raises [stop_]. *)
Definition raise_stop (q : Queue) : Queue :=
  {| pending := pending q; draining := draining q; stop := true; pc := pc q;
     flush_epoch := flush_epoch q; completed_epoch := completed_epoch q;
     waiters := waiters q; resolved := resolved q; offered := offered q;
     attempted := attempted q; dropped := dropped q |}.

Definition set_writer (p : list AuditEntry) (d : bool) (w : WriterPc) (att : list AuditEntry)
    (q : Queue) : Queue :=
  {| pending := p; draining := d; stop := stop q; pc := w;
     flush_epoch := flush_epoch q; completed_epoch := completed_epoch q;
     waiters := waiters q; resolved := resolved q; offered := offered q;
     attempted := att; dropped := dropped q |}.

(** One step of [writerLoop]: test [stop_], wake up (and take a batch, or
    notify), persist one entry of [drainBatch], finish a batch, or one of the
    steps after the loop. *)
Definition writer_step (q : Queue) : Queue :=
  let goto w := set_writer (pending q) (draining q) w (attempted q) q in
  match pc q with
  | LoopTest => if stop q then goto Leaving else goto Waiting
  | Waiting =>
      match pending q with
      | [] => notifyFlushWaiters (goto LoopTest)
      | _ =>
          let n := Nat.min (length (pending q)) kBatchSize in
          set_writer (drop n (pending q)) true (Draining (take n (pending q)))
            (attempted q) q
      end
  | Draining (e :: batch) =>
      set_writer (pending q) (draining q) (Draining batch) (attempted q ++ [e]) q
  | Draining [] =>
      let q := set_writer (pending q) false LoopTest (attempted q) q in
      match pending q with [] => notifyFlushWaiters q | _ => q end
  | Leaving => set_writer [] (draining q) (FinalDrain (pending q)) (attempted q) q
  | FinalDrain (e :: batch) =>
      set_writer (pending q) (draining q) (FinalDrain batch) (attempted q ++ [e]) q
  | FinalDrain [] =>
      notifyFlushWaiters (set_writer (pending q) false Exited (attempted q) q)
  | Exited => q
  end.

(** Any interleaving of loggers, flushers, shutdown and the writer. *)
Inductive queue_step : Queue → Queue → Prop :=
| q_enqueue e q : queue_step q (enqueue e q)
| q_flush q : queue_step q (flush_register q).2
| q_stop q : queue_step q (raise_stop q)
| q_writer q : queue_step q (writer_step q).

(** ** The chain verifies *)

(** The hash a list of entries ends on. *)
Definition last_hash (h : string) (es : list AuditEntry) : string :=
  from_option chain_hash h (last es).

(** Logging a sequence of entries. *)
Definition log_all (sha256 : string → string) (es : list AuditEntry) (c : Chain) : Chain :=
  foldl (λ c e, (chain_entry sha256 e c).2) c es.

(** What the caller supplied, without the chain hash. *)
Definition unchained (e : AuditEntry) : AuditEntry := set_chain_hash "" e.

Section chain_lemmas.
Context (sha256 : string → string).

Lemma last_hash_snoc h es e : last_hash h (es ++ [e]) = chain_hash e.
Proof. unfold last_hash. by rw last_snoc. Qed.

Lemma last_hash_cons h x es : last_hash h (x :: es) = last_hash (chain_hash x) es.
Proof. unfold last_hash. rw last_cons. by destruct (last es). Qed.

Lemma payload_set_chain_hash h e prev : payload (set_chain_hash h e) prev = payload e prev.
Proof. done. Qed.

Lemma verify_from_snoc h es e :
  verify_from sha256 h (es ++ [e]) =
  verify_from sha256 h es && bool_decide (chain_hash e = computeChainHash sha256 e (last_hash h es)).
Proof.
  revert h. induction es as [|x es IH]; intros h; simpl.
  - symmetry. case_decide; [by apply bool_decide_eq_true|by apply bool_decide_eq_false].
  - case_decide; [|done]. by rw IH last_hash_cons.
Qed.

(** What [log] maintains: the kept entries are a verified chain from the hash
    of whatever rotated out, ending on [last_chain_hash_]. *)
Definition chain_inv (prev : string) (c : Chain) : Prop :=
  verify_from sha256 prev (entries c) = true ∧
  last_chain_hash c = last_hash prev (entries c).

Lemma chain_entry_inv prev e c :
  chain_inv prev c →
  chain_inv (if (max_entries c <=? length (entries c))%nat
             then last_hash prev (take 1 (entries c)) else prev)
    (chain_entry sha256 e c).2.
Proof.
  intros [Hv Hl]. unfold chain_inv, chain_entry; simpl.
  rw verify_from_snoc last_hash_snoc /=.
  assert (∀ p es, verify_from sha256 p es = true → last_chain_hash c = last_hash p es →
    (verify_from sha256 p es && bool_decide (computeChainHash sha256 e (last_chain_hash c) =
      computeChainHash sha256 (set_chain_hash (computeChainHash sha256 e (last_chain_hash c)) e)
        (last_hash p es))) = true) as Hgen.
  { intros p es -> ->. by apply bool_decide_eq_true. }
  split; [|done]. destruct (max_entries c <=? length (entries c))%nat; [|by apply Hgen].
  destruct (entries c) as [|x es] eqn:E; [by apply Hgen|].
  simpl in Hv. case_decide; [|done]. apply Hgen; [done|].
  by rw Hl !last_hash_cons.
Qed.

Lemma chain_entry_keeps e c :
  unchained <$> entries (chain_entry sha256 e c).2 =
  (if (max_entries c <=? length (entries c))%nat
   then tail (unchained <$> entries c) else unchained <$> entries c) ++ [unchained e].
Proof.
  unfold chain_entry; simpl. rw fmap_app. f_equal.
  destruct (_ <=? _)%nat; [|done]. by destruct (entries c).
Qed.
End chain_lemmas.

(** Two different inputs with the same digest. *)
Definition collision (sha256 : string → string) : Prop :=
  ∃ x y, x ≠ y ∧ sha256 x = sha256 y.

Lemma log_all_snoc sha256 es e c :
  log_all sha256 (es ++ [e]) c = (chain_entry sha256 e (log_all sha256 es c)).2.
Proof. unfold log_all. by rw foldl_app. Qed.

Lemma log_all_max sha256 es c : max_entries (log_all sha256 es c) = max_entries c.
Proof. induction es as [|e es IH] using rev_ind; [done|]. by rw log_all_snoc /= IH. Qed.

Lemma tail_drop {A} k (l : list A) : tail (drop k l) = drop (S k) l.
Proof. revert l. induction k as [|k IH]; intros [|x l]; [done..|]. apply IH. Qed.

Lemma tail_drop_snoc {A} (n max : nat) (l : list A) x :
  (1 <= max)%nat → n = length l →
  (if (max <=? length (drop (n - max) l))%nat then tail (drop (n - max) l)
   else drop (n - max) l) ++ [x] = drop (S n - max) (l ++ [x]).
Proof.
  intros Hmax ->. rw length_drop. destruct (Nat.leb_spec max (length l - (length l - max))).
  - rw tail_drop. rw drop_app_le; [f_equal; f_equal; lia|lia].
  - rw drop_app_le; [f_equal; f_equal; lia|lia].
Qed.

(** The state after logging [es] from empty. *)
Lemma log_all_state sha256 max es :
  (1 <= max)%nat → (∀ x, sha256 x ≠ "") →
  let c := log_all sha256 es (empty_chain max) in
  unchained <$> entries c = drop (length es - max) (unchained <$> es) ∧
  ∃ prev, chain_inv sha256 prev c ∧
    ((length es <= max)%nat → prev = "") ∧ ((max < length es)%nat → prev ≠ "").
Proof.
  intros Hmax Hsha. induction es as [|e es IH] using rev_ind; simpl in *.
  { split; [done|]. exists "". by repeat split; [..|lia]. }
  destruct IH as [Hes (prev & Hinv & Hle & Hgt)]. set (c := log_all sha256 es _) in *.
  rw log_all_snoc -/c.
  assert (max_entries c = max) as Hm by (subst c; by rw log_all_max).
  assert (length (entries c) = Nat.min (length es) max) as Hlen.
  { rw -(length_fmap unchained) Hes length_drop length_fmap. lia. }
  split.
  - rw chain_entry_keeps Hm -(length_fmap unchained (entries c)) Hes fmap_app /= length_app /=.
    rw (Nat.add_comm (length es) 1). apply tail_drop_snoc; [done|by rw length_fmap].
  - eexists. split; [by apply chain_entry_inv|]. rw Hm Hlen length_app /=.
    destruct (Nat.leb_spec max (Nat.min (length es) max)) as [Hfull|Hfull].
    + split; [lia|]. intros _. destruct Hinv as [Hv _].
      destruct (entries c) as [|x xs] eqn:Ee; [simpl in Hlen; lia|].
      unfold last_hash; simpl in *. case_decide as Hx; [|done]. rw Hx. apply Hsha.
    + split; [intros; apply Hle; lia|lia].
Qed.

(** The part of the payload before the first separator is the previous
    hash. *)
Definition no_bar (s : string) : Prop := "|"%char ∉ String.list_ascii_of_string s.

Lemma no_bar_split a b s t :
  no_bar a → no_bar b → a +:+ "|" +:+ s = b +:+ "|" +:+ t → a = b ∧ s = t.
Proof.
  revert b. induction a as [|c a IH]; intros [|d b] Ha Hb H.
  - injection H as H. split; [done|exact H].
  - injection H as <- H. destruct Hb. simpl. set_solver.
  - injection H as -> H. destruct Ha. simpl. set_solver.
  - injection H as -> H. unfold no_bar in *. simpl in *.
    destruct (IH b) as [-> ->]; [set_solver..|done|done].
Qed.

(** The fields the chain hash covers; [output_hash] is not one of them. *)
Definition covered (e : AuditEntry) : list string :=
  [timestamp e; request_id e; tenant_id e; stage_name e; action e; detail e; input_hash e].

Definition clean (e : AuditEntry) : Prop := Forall no_bar (covered e).

Lemma payload_inj e e' prev prev' :
  no_bar prev → no_bar prev' → clean e → clean e' →
  payload e prev = payload e' prev' → prev = prev' ∧ covered e = covered e'.
Proof.
  intros Hp Hp' Hc Hc' H. unfold payload in H.
  apply no_bar_split in H as [-> H]; [|done..].
  unfold clean, covered in *.
  repeat match goal with
  | H : Forall _ (_ :: _) |- _ => apply Forall_cons in H as [? H]
  end.
  do 6 (apply no_bar_split in H as [? H]; [|done..]).
  split; [done|]. congruence.
Qed.

(** A digest is 64 hexadecimal characters: not empty and free of bars. *)
Definition hex_digest (sha256 : string → string) : Prop :=
  ∀ x, sha256 x ≠ "" ∧ no_bar (sha256 x).

Lemma verify_no_bar sha256 es :
  hex_digest sha256 → verifyChain sha256 es = true → no_bar (last_hash "" es).
Proof.
  intros Hh. destruct es as [|e es _] using rev_ind; [intros _; apply not_elem_of_nil|].
  unfold verifyChain. rw verify_from_snoc last_hash_snoc andb_true_iff.
  intros [_ ->%bool_decide_eq_true]. apply Hh.
Qed.

Lemma same_head_same_history sha256 es es' :
  hex_digest sha256 → Forall clean es → Forall clean es' →
  verifyChain sha256 es = true → verifyChain sha256 es' = true →
  last_hash "" es = last_hash "" es' →
  covered <$> es = covered <$> es' ∨ collision sha256.
Proof.
  intros Hh. revert es'. induction es as [|e es IH] using rev_ind; intros es' Hc Hc' Hv Hv' Hl.
  - destruct es' as [|e' es' _] using rev_ind; [by left|].
    unfold verifyChain in Hv'. rw verify_from_snoc andb_true_iff in Hv'.
    destruct Hv' as [_ Hx%bool_decide_eq_true]. rw last_hash_snoc Hx in Hl.
    by destruct (Hh (payload e' (last_hash "" es'))) as [[] _].
  - destruct es' as [|e' es' _] using rev_ind.
    { unfold verifyChain in Hv. rw verify_from_snoc andb_true_iff in Hv.
      destruct Hv as [_ Hx%bool_decide_eq_true]. rw last_hash_snoc Hx in Hl.
      by destruct (Hh (payload e (last_hash "" es))) as [[] _]. }
    unfold verifyChain in Hv, Hv'. rw verify_from_snoc andb_true_iff in Hv.
    rw verify_from_snoc andb_true_iff in Hv'.
    destruct Hv as [Hv Hx%bool_decide_eq_true], Hv' as [Hv' Hx'%bool_decide_eq_true].
    rw !last_hash_snoc Hx Hx' in Hl.
    apply Forall_app in Hc as [Hc Hce], Hc' as [Hc' Hce'].
    rw Forall_singleton in Hce. rw Forall_singleton in Hce'.
    destruct (decide (payload e (last_hash "" es) = payload e' (last_hash "" es'))) as [Hp|Hp];
      [|right; by eexists _, _].
    apply payload_inj in Hp as [Hprev Hcov]; [|by eapply verify_no_bar..|done|done].
    destruct (IH es') as [IH'|]; [done..| |by right].
    left. by rw !fmap_app IH' /= Hcov.
Qed.

(** ** The queue *)

Definition inflight (q : Queue) : list AuditEntry :=
  match pc q with Draining b | FinalDrain b => b | _ => [] end.

(** The writer has not left its loop. *)
Definition in_loop (p : WriterPc) : Prop :=
  match p with LoopTest | Waiting | Draining _ => True | _ => False end.

Record queue_inv (q : Queue) : Prop := {
  qi_sublist : sublist (attempted q ++ inflight q ++ pending q) (offered q);
  qi_perm : offered q ≡ₚ dropped q ++ attempted q ++ inflight q ++ pending q;
  qi_waiters : (waiters q).*1 =
    seqZ (completed_epoch q + 1) (flush_epoch q - completed_epoch q);
  qi_epochs : completed_epoch q <= flush_epoch q;
  qi_marks : Forall (λ w, (w.2 <= length (offered q))%nat) (waiters q ++ resolved q);
  qi_loop : stop q = false → in_loop (pc q);
  qi_drain : in_loop (pc q) → draining q = false → inflight q = [];
  qi_done : in_loop (pc q) → Forall (λ w, ∀ e, e ∈ take w.2 (offered q) →
    e ∈ attempted q ∨ e ∈ dropped q) (resolved q);
}.

(** [notifyFlushWaiters] resolves exactly the oldest waiter. *)
Lemma notify_oldest q w ws :
  queue_inv q → waiters q = w :: ws →
  w.1 = completed_epoch q + 1 ∧
  waiters (notifyFlushWaiters q) = ws ∧
  resolved (notifyFlushWaiters q) = resolved q ++ [w] ∧
  completed_epoch (notifyFlushWaiters q) = completed_epoch q + 1 ∧
  ws.*1 = seqZ (completed_epoch q + 2) (flush_epoch q - (completed_epoch q + 1)).
Proof.
  intros Hq Ew. pose proof (qi_waiters q Hq) as Hseq. pose proof (qi_epochs q Hq).
  rw Ew fmap_cons in Hseq.
  destruct (decide (flush_epoch q - completed_epoch q <= 0)).
  { rw seqZ_nil in Hseq; [done|lia]. }
  rw seqZ_cons in Hseq; [|lia]. injection Hseq as Hw Hws.
  assert (Forall (λ x : Z * nat, ¬ x.1 <= completed_epoch q + 1) ws) as Hgt.
  { apply Forall_forall. intros x Hx. assert (x.1 ∈ ws.*1) as Hin by by apply list_elem_of_fmap_2.
    rw Hws in Hin. apply elem_of_seqZ in Hin. lia. }
  unfold notifyFlushWaiters. rw Ew. simpl.
  assert (base.filter (λ x : Z * nat, ¬ x.1 <= completed_epoch q + 1) (w :: ws) = ws) as E1.
  { rw filter_cons_False; [|lia]. by apply filter_all. }
  assert (base.filter (λ x : Z * nat, x.1 <= completed_epoch q + 1) (w :: ws) = [w]) as E2.
  { rw filter_cons_True; [|lia]. f_equal. by apply filter_none. }
  split_and!; [done|exact E1|by f_equal|done|].
  rw Hws. f_equal; lia.
Qed.

Lemma notify_inv q :
  queue_inv q → (in_loop (pc q) → pending q = [] ∧ inflight q = []) →
  queue_inv (notifyFlushWaiters q).
Proof.
  intros Hq Hempty. destruct (waiters q) as [|w ws] eqn:Ew.
  { unfold notifyFlushWaiters. by rw Ew. }
  destruct (notify_oldest q w ws Hq Ew) as (Hw & Hws & Hres & Hep & Hseq).
  assert (pending (notifyFlushWaiters q) = pending q ∧
    pc (notifyFlushWaiters q) = pc q ∧ stop (notifyFlushWaiters q) = stop q ∧
    draining (notifyFlushWaiters q) = draining q ∧
    offered (notifyFlushWaiters q) = offered q ∧
    attempted (notifyFlushWaiters q) = attempted q ∧
    dropped (notifyFlushWaiters q) = dropped q ∧
    flush_epoch (notifyFlushWaiters q) = flush_epoch q) as (P1&P2&P3&P4&P5&P6&P7&P8).
  { unfold notifyFlushWaiters. by rw Ew. }
  assert (completed_epoch q < flush_epoch q) as Hlt.
  { pose proof (qi_waiters q Hq) as Hs. rw Ew in Hs.
    destruct (decide (flush_epoch q - completed_epoch q <= 0)); [|lia].
    rw seqZ_nil in Hs; [done|lia]. }
  split; unfold inflight in *; rw ?P1 ?P2 ?P3 ?P4 ?P5 ?P6 ?P7 ?P8 ?Hws ?Hres ?Hep.
  - apply Hq.
  - apply Hq.
  - rw Hseq. f_equal; lia.
  - lia.
  - pose proof (qi_marks q Hq) as Hm. rw Ew in Hm.
    apply Forall_app in Hm as [[??]%Forall_cons ?].
    apply Forall_app. split; [done|]. apply Forall_app. by rw Forall_singleton.
  - apply Hq.
  - apply Hq.
  - intros Hloop. destruct (Hempty Hloop) as [Hp Hi].
    apply Forall_app. split; [by apply Hq|]. apply Forall_singleton.
    intros e He%elem_of_take_1. rw (qi_perm q Hq) in He.
    unfold inflight in He. rw Hp Hi in He. set_solver.
Qed.

Lemma qi_done_grow q (att dr : list AuditEntry) :
  queue_inv q → (∀ e, e ∈ attempted q → e ∈ att) → (∀ e, e ∈ dropped q → e ∈ dr) →
  in_loop (pc q) → ∀ off, Forall (λ w, ∀ e, e ∈ take w.2 (offered q ++ off) →
    e ∈ att ∨ e ∈ dr) (resolved q).
Proof.
  intros Hq Ha Hd Hl off. pose proof (qi_done q Hq Hl) as Hdone.
  pose proof (qi_marks q Hq) as [_ Hm]%Forall_app.
  eapply Forall_impl; [apply Forall_and; split; [exact Hdone|exact Hm]|].
  intros w [Hw Hlen] e. rw take_app_le // => He. destruct (Hw e He); auto.
Qed.

Lemma enqueue_inv e q : queue_inv q → queue_inv (enqueue e q).
Proof.
  intros Hq. split; unfold enqueue, inflight; simpl.
  - rw !app_assoc. apply sublist_app; [|done]. rw -!app_assoc.
    etrans; [|apply Hq]. apply sublist_app; [done|]. apply sublist_app; [done|].
    destruct (kMaxQueueSize <=? length (pending q))%nat; [|done]. destruct (pending q); simpl; [done|]. by constructor.
  - rw (qi_perm q Hq) /inflight. destruct (Nat.leb_spec kMaxQueueSize (length (pending q))).
    + destruct (pending q) as [|x p]; [pose proof kMaxQueueSize_pos; simpl in *; lia|].
      rw -!app_assoc /=. apply Permutation_app_head. simpl.
      by rw !app_assoc -Permutation_middle -!app_assoc.
    + by rw -!app_assoc.
  - apply Hq.
  - apply Hq.
  - eapply Forall_impl; [apply Hq|]. intros w. rw length_app /=. lia.
  - apply Hq.
  - apply Hq.
  - intros Hl. apply qi_done_grow; [done|done| |done].
    intros x. destruct (kMaxQueueSize <=? length (pending q))%nat; set_solver.
Qed.

Lemma flush_register_inv q : queue_inv q → queue_inv (flush_register q).2.
Proof.
  intros Hq. unfold flush_register. destruct (_ && _); [done|].
  pose proof (qi_epochs q Hq).
  split; simpl; [apply Hq|apply Hq| |lia| |apply Hq|apply Hq|apply Hq].
  - rw fmap_app /= (qi_waiters q Hq).
    rw (_ : flush_epoch q + 1 - completed_epoch q = (flush_epoch q - completed_epoch q) + 1);
      [|lia].
    rw seqZ_app; [|lia..]. f_equal. rw seqZ_cons // seqZ_nil //. f_equal; lia.
  - pose proof (qi_marks q Hq) as [??]%Forall_app. rw -app_assoc.
    apply Forall_app; split; [done|]. by constructor.
Qed.

Lemma raise_stop_inv q : queue_inv q → queue_inv (raise_stop q).
Proof. intros Hq. split; simpl; try done; apply Hq. Qed.

(** Moving entries from the queue to the batch to the store keeps the
    invariant. *)
Lemma set_writer_inv q p d w att :
  queue_inv q →
  att ++ (match w with Draining b | FinalDrain b => b | _ => [] end) ++ p =
    attempted q ++ inflight q ++ pending q →
  (∃ l, att = attempted q ++ l) →
  (in_loop w → in_loop (pc q)) → (stop q = false → in_loop w) →
  (in_loop w → d = false →
     match w with Draining b | FinalDrain b => b | _ => [] end = []) →
  queue_inv (set_writer p d w att q).
Proof.
  intros Hq Heq [l ->] Hloop Hstop Hd.
  split; unfold set_writer, inflight; simpl; rw ?Heq; try done; try apply Hq.
  intros Hl%Hloop. rw -(app_nil_r (offered q)). apply qi_done_grow; [done|set_solver|done|done].
Qed.

Lemma writer_step_inv q : queue_inv q → queue_inv (writer_step q).
Proof.
  intros Hq. pose proof (qi_loop q Hq) as Hloop. pose proof (qi_drain q Hq) as Hdr.
  assert (∃ l, attempted q = attempted q ++ l) as Hsame by (exists []; by rw app_nil_r).
  unfold writer_step. destruct (pc q) as [| |[|e b]| |[|e b]|] eqn:Epc; unfold inflight in *.
  - destruct (stop q) eqn:Es; apply set_writer_inv; rw /inflight ?Epc ?Es //.
  - destruct (pending q) as [|x p] eqn:Ep.
    + apply notify_inv; [|done]. rw -Ep.
      apply set_writer_inv; rw /inflight ?Epc ?Ep //.
    + apply set_writer_inv; rw /inflight ?Epc ?Ep // take_drop //.
  - set (q' := set_writer _ _ _ _ _).
    assert (queue_inv q') as Hq' by (apply set_writer_inv; rw /inflight ?Epc //).
    change (pending q') with (pending q).
    destruct (pending q) as [|x p] eqn:Ep; [|done]. apply notify_inv; [done|].
    done.
  - apply set_writer_inv; rw /inflight ?Epc -?app_assoc //; [by eexists|].
    intros _ Hf. specialize (Hdr I Hf). by rw Epc in Hdr.
  - apply set_writer_inv; rw /inflight ?Epc ?app_nil_r //.
  - apply notify_inv; [|done]. apply set_writer_inv; rw /inflight ?Epc //.
  - apply set_writer_inv; rw /inflight ?Epc -?app_assoc //. by eexists.
  - done.
Qed.

Lemma queue_reach_inv q : rtc queue_step empty_queue q → queue_inv q.
Proof.
  apply rtc_invariant.
  - by split; simpl; try constructor.
  - intros a b Ha. destruct 1;
      auto using enqueue_inv, flush_register_inv, raise_stop_inv, writer_step_inv.
Qed.

(** A step of a logger, of a flusher or of the writer. *)
Inductive QueueOp := Log (e : AuditEntry) | Flush | Write.

Definition queue_op (op : QueueOp) (q : Queue) : Queue :=
  match op with
  | Log e => enqueue e q
  | Flush => (flush_register q).2
  | Write => writer_step q
  end.

(** The steps in an order. *)
Definition queue_ops (ops : list QueueOp) (q : Queue) : Queue := foldl (flip queue_op) q ops.

Lemma queue_ops_cons op ops q : queue_ops (op :: ops) q = queue_ops ops (queue_op op q).
Proof. done. Qed.

Definition logged (ops : list QueueOp) : nat :=
  length (omap (λ op, match op with Log e => Some e | _ => None end) ops).
Definition written (ops : list QueueOp) : nat :=
  length (omap (λ op, match op with Write => Some op | _ => None end) ops).

(** The waiters up to the target [t]. *)
Definition ahead (t : Z) (q : Queue) : nat := length (base.filter (λ w, w.1 <= t) (waiters q)).

(** How far the writer is from having resolved the waiter of target [t], if
    nothing more is logged. *)
Definition flush_measure (t : Z) (q : Queue) : nat :=
  4 * ahead t q + 4 * length (pending q) +
  match pc q with
  | LoopTest => 2 | Waiting => 1 | Draining b => 3 + length b | _ => 0
  end.

Lemma ahead_set_writer t p d w att q : ahead t (set_writer p d w att q) = ahead t q.
Proof. done. Qed.

Lemma notify_ahead t n q :
  queue_inv q → (t, n) ∈ waiters q →
  (t, n) ∈ resolved (notifyFlushWaiters q) ∨
  (t, n) ∈ waiters (notifyFlushWaiters q) ∧ S (ahead t (notifyFlushWaiters q)) = ahead t q.
Proof.
  intros Hq Hin. destruct (waiters q) as [|w ws] eqn:Ew; [by apply elem_of_nil in Hin|].
  destruct (notify_oldest q w ws Hq Ew) as (Hw & Hws & -> & _ & Hseq). rw Hws.
  apply elem_of_cons in Hin as [<-|Hin]; [left; set_solver|right]. split; [done|].
  unfold ahead. rw Hws Ew filter_cons_True //.
  assert (t ∈ ws.*1) as Ht by by apply (list_elem_of_fmap_2 fst _ _ Hin).
  rw Hseq in Ht. apply elem_of_seqZ in Ht. lia.
Qed.

Lemma notify_frame q :
  pending (notifyFlushWaiters q) = pending q ∧ pc (notifyFlushWaiters q) = pc q ∧
  stop (notifyFlushWaiters q) = stop q.
Proof. unfold notifyFlushWaiters. by destruct (waiters q). Qed.

(** A notification, from the state [q'] that the writer is in. *)
Lemma notify_progress t n q q' :
  queue_inv q' → (t, n) ∈ waiters q → waiters q' = waiters q → pc q' = LoopTest → pending q' = pending q →
  (1 <= match pc q with LoopTest => 2 | Waiting => 1 | Draining b => 3 + length b | _ => 0 end)%nat →
  (t, n) ∈ resolved (notifyFlushWaiters q') ∨
  (t, n) ∈ waiters (notifyFlushWaiters q') ∧
  (flush_measure t (notifyFlushWaiters q') < flush_measure t q)%nat.
Proof.
  intros Hq' Hin Hw Hpc Hp Hm. rw -Hw in Hin.
  destruct (notify_ahead t n q' Hq' Hin) as [?|[? Ha]]; [by left|right]. split; [done|].
  unfold flush_measure. destruct (notify_frame q') as (-> & -> & _).
  assert (ahead t q' = ahead t q) as Heq by (unfold ahead; by rw Hw).
  rw Hpc Hp. lia.
Qed.

Lemma writer_step_progress t n q :
  queue_inv q → stop q = false → (t, n) ∈ waiters q →
  stop (writer_step q) = false ∧
  ((t, n) ∈ resolved (writer_step q) ∨
   (t, n) ∈ waiters (writer_step q) ∧ (flush_measure t (writer_step q) < flush_measure t q)%nat).
Proof.
  intros Hq Hs Hin. pose proof (qi_loop q Hq Hs) as Hl. pose proof kBatchSize_pos.
  assert (∃ l, attempted q = attempted q ++ l) as Hsame by (exists []; by rw app_nil_r).
  unfold writer_step. destruct (pc q) as [| |[|e b]| |[|e b]|] eqn:Epc; try done.
  - rw Hs. split; [done|right]. split; [done|]. unfold flush_measure. rw ahead_set_writer Epc. simpl. lia.
  - destruct (pending q) as [|x p] eqn:Ep.
    + set (q' := set_writer _ _ _ _ _). destruct (notify_frame q') as (_ & _ & ->). split; [done|].
      apply notify_progress; [|done|done|done|by rw Ep|rw Epc /=; lia].
      subst q'. by apply set_writer_inv; rw /inflight ?Epc ?Ep.
    + split; [done|right]. split; [done|]. rw -Ep. unfold flush_measure. rw ahead_set_writer Epc.
      assert (0 < length (pending q))%nat by (rw Ep /=; lia).
      cbn [set_writer pending pc]. rw length_drop length_take. lia.
  - set (q' := set_writer _ _ _ _ _). change (pending q') with (pending q).
    destruct (pending q) as [|x p] eqn:Ep.
    + destruct (notify_frame q') as (_ & _ & ->). split; [done|].
      apply notify_progress; [|done|done|done|by cbn; rw Ep|rw Epc /=; lia].
      subst q'. by apply set_writer_inv; rw /inflight ?Epc ?Ep.
    + split; [done|right]. split; [done|]. unfold flush_measure. rw ahead_set_writer Epc /= Ep. simpl. lia.
  - split; [done|right]. split; [done|]. unfold flush_measure. rw ahead_set_writer Epc /=. lia.
Qed.

Lemma queue_op_inv op q : queue_inv q → queue_inv (queue_op op q).
Proof. destruct op; cbn [queue_op]; auto using enqueue_inv, flush_register_inv, writer_step_inv. Qed.

(** Loggers delay a waiter by at most four steps for an entry, other flushers
    not at all. *)
Lemma queue_op_delay op t n q :
  queue_inv q → op ≠ Write → (t, n) ∈ waiters q →
  (t, n) ∈ waiters (queue_op op q) ∧ stop (queue_op op q) = stop q ∧
  (flush_measure t (queue_op op q) <= flush_measure t q + 4 * logged [op])%nat.
Proof.
  intros Hq Hop Hin. destruct op as [e| |]; [| |done]; cbn [queue_op].
  - split_and!; [done..|]. unfold flush_measure, logged. cbn [omap list_omap].
    assert (ahead t (enqueue e q) = ahead t q) as -> by done. unfold enqueue. set (full := (_ <=? _)%nat).
    assert (length (if full then tail (pending q) else pending q) <= length (pending q))%nat.
    { destruct full; [|done]. destruct (pending q); simpl; lia. }
    cbn [pending pc length]. rw length_app. simpl. lia.
  - unfold flush_register. destruct (_ && _); cbn [snd]; [split_and!; [done..|lia]|].
    split_and!; [set_solver|done|]. unfold flush_measure, ahead. cbn.
    rw filter_app filter_cons_False; [rw app_nil_r; lia|]. cbn.
    assert (t ∈ (waiters q).*1) as Ht by by apply (list_elem_of_fmap_2 fst _ _ Hin).
    rw (qi_waiters q Hq) in Ht. apply elem_of_seqZ in Ht. lia.
Qed.

Lemma notify_resolved w q : w ∈ resolved q → w ∈ resolved (notifyFlushWaiters q).
Proof. unfold notifyFlushWaiters. destruct (waiters q); set_solver. Qed.

Lemma queue_ops_resolved w ops q : w ∈ resolved q → w ∈ resolved (queue_ops ops q).
Proof.
  revert q. induction ops as [|op ops IH]; intros q Hw; [done|]. apply IH. unfold flip.
  destruct op as [e| |]; cbn [queue_op]; [done|by unfold flush_register; destruct (_ && _)|].
  unfold writer_step. destruct (pc q) as [| |[]| |[]|]; [by destruct (stop q)|..]; try done;
    [destruct (pending q); [by apply notify_resolved|done]|by destruct (pending q); [apply notify_resolved|]
    |by apply notify_resolved].
Qed.

Lemma flush_resolved t n ops q :
  queue_inv q → stop q = false → (t, n) ∈ waiters q →
  (flush_measure t q + 4 * logged ops <= written ops)%nat →
  (t, n) ∈ resolved (queue_ops ops q).
Proof.
  revert q. induction ops as [|op ops IH]; intros q Hq Hs Hin Hm.
  { assert (0 < ahead t q)%nat; [|unfold flush_measure, logged, written in *; simpl in *; lia].
    unfold ahead. destruct (base.filter _ _) eqn:Hf; [|simpl; lia].
    assert ((t, n) ∈ base.filter (λ w : Z * nat, w.1 <= t) (waiters q)) as Hx
      by by apply list_elem_of_filter. rw Hf in Hx. by apply elem_of_nil in Hx. }
  change (queue_ops (op :: ops) q) with (queue_ops ops (queue_op op q)).
  pose proof (queue_op_inv op q Hq) as Hq'.
  assert (logged (op :: ops) = logged [op] + logged ops ∧ written (op :: ops) = written [op] + written ops)%nat
    as [Hlog Hwr] by by destruct op.
  assert (op = Write ∨ op ≠ Write) as [->|Hop] by by destruct op; auto.
  - destruct (writer_step_progress t n q Hq Hs Hin) as [Hs' [Hr|[Hin' Hlt]]]; cbn [queue_op] in *.
    + by apply queue_ops_resolved.
    + apply IH; [done..|]. assert (logged [Write] = 0 ∧ written [Write] = 1)%nat as [] by done. lia.
  - destruct (queue_op_delay op t n q Hq Hop Hin) as (Hin' & Hs' & Hle). apply IH; [done|by rw Hs'|done|].
    assert (written [op] = 0%nat) by by destruct op. lia.
Qed.

(** An entry logged whenever the writer has taken its batch keeps a waiter
    waiting: the writer notifies only when it finds the queue empty. *)
Definition busy_round (e : AuditEntry) : list QueueOp := [Write; Write; Log e; Write; Write].

Lemma busy_round_waits e q x :
  pc q = LoopTest → stop q = false → pending q = [x] →
  let q' := queue_ops (busy_round e) q in
  pc q' = LoopTest ∧ stop q' = false ∧ pending q' = [e] ∧ attempted q' = attempted q ++ [x] ∧
  waiters q' = waiters q ∧ resolved q' = resolved q.
Proof.
  intros Hpc Hs Hp.
  pose (shape q := (pc q, stop q, pending q, attempted q, waiters q, resolved q)).
  assert (shape q = (LoopTest, false, [x], attempted q, waiters q, resolved q)) as H0
    by (unfold shape; by rw Hpc Hs Hp).
  generalize dependent q. intros q _ _ _. generalize (attempted q) (waiters q) (resolved q). intros a w r H0.
  assert (shape (writer_step q) = (Waiting, false, [x], a, w, r)) as H1.
  { unfold shape in *. injection H0 as Hpc Hs Hp <- <- <-. unfold writer_step. rw Hpc Hs.
    cbn [set_writer pc stop pending attempted waiters resolved]. by rw Hs Hp. }
  unfold busy_round. rw queue_ops_cons. cbn [queue_op].
  generalize dependent (writer_step q). clear q H0. intros q H1.
  assert (shape (writer_step q) = (Draining [x], false, [], a, w, r)) as H2.
  { unfold shape in *. injection H1 as Hpc Hs Hp <- <- <-. unfold writer_step. rw Hpc Hp.
    assert (Nat.min (length [x]) kBatchSize = 1%nat) as -> by (pose proof kBatchSize_pos; cbn [length]; lia).
    cbn [set_writer pc stop pending attempted waiters resolved]. by rw Hs. }
  rw queue_ops_cons. cbn [queue_op].
  generalize dependent (writer_step q). clear q H1. intros q H2.
  assert (shape (enqueue e q) = (Draining [x], false, [e], a, w, r)) as H3.
  { unfold shape in *. injection H2 as Hpc Hs Hp <- <- <-. unfold enqueue. rw Hp.
    rw (proj2 (Nat.leb_gt kMaxQueueSize (length (@nil AuditEntry)))); [|apply kMaxQueueSize_pos].
    cbn [pc stop pending attempted waiters resolved app]. by rw Hpc Hs. }
  rw queue_ops_cons. cbn [queue_op].
  generalize dependent (enqueue e q). clear q H2. intros q H3.
  assert (shape (writer_step q) = (Draining [], false, [e], a ++ [x], w, r)) as H4.
  { unfold shape in *. injection H3 as Hpc Hs Hp <- <- <-. unfold writer_step. rw Hpc.
    cbn [set_writer pc stop pending attempted waiters resolved]. by rw Hs Hp. }
  rw queue_ops_cons. cbn [queue_op].
  generalize dependent (writer_step q). clear q H3. intros q H4.
  unfold shape in *. injection H4 as Hpc Hs Hp Ha <- <-. rw queue_ops_cons. cbn [queue_op].
  unfold queue_ops. cbn [foldl].
  unfold writer_step. rw Hpc. cbn [set_writer pending]. rw Hp. cbn [set_writer pc stop pending attempted waiters resolved].
  by rw Hs Ha.
Qed.

Lemma flush_starves e n q x :
  pc q = LoopTest → stop q = false → pending q = [x] →
  let q' := Nat.iter (S n) (queue_ops (busy_round e)) q in
  waiters q' = waiters q ∧ resolved q' = resolved q ∧ attempted q' = attempted q ++ x :: replicate n e.
Proof.
  cbv zeta. revert q x. induction n as [|n IH]; intros q x Hpc Hs Hp; rw Nat.iter_succ_r;
    destruct (busy_round_waits e q x Hpc Hs Hp) as (Hpc' & Hs' & Hp' & Ha & Hw & Hr);
    generalize dependent (queue_ops (busy_round e) q); intros q' Hpc' Hs' Hp' Ha Hw Hr.
  - by rw -Ha -Hw -Hr.
  - destruct (IH q' e Hpc' Hs' Hp') as (-> & -> & ->). by rw Hw Hr Ha -app_assoc.
Qed.

(** ** [log] as two critical sections *)

Inductive AuditCmd : Type → Type :=
| AChain (e : AuditEntry) : AuditCmd AuditEntry
| AEnqueue (e : AuditEntry) : AuditCmd unit.

Definition audit_exec (sha256 : string → string) :
    ∀ B, AuditCmd B → Chain * Queue → B * (Chain * Queue) :=
  λ B cmd, match cmd in AuditCmd B return Chain * Queue → B * (Chain * Queue) with
  | AChain e => λ s, let '(r, c) := chain_entry sha256 e s.1 in (r, (c, s.2))
  | AEnqueue e => λ s, (tt, (s.1, enqueue e s.2))
  end.

(** [log]; [has_store] is [store_ != nullptr]. *)
Definition log (has_store : bool) (enc : option Encryption) (e : AuditEntry) :
    prog AuditCmd unit :=
  chained ← call (AChain e);
  when_ has_store (call (AEnqueue (persist_entry enc chained))).

Definition fresh_logger : Chain * Queue := (empty_chain (Z.to_nat 100000), empty_queue).

(** An injective stand-in for the digest: the hexadecimal digits of the
    input after an [x]. *)
Definition nibble (n : N) : ascii :=
  default "0"%char (String.get (N.to_nat n) "0123456789abcdef").
Fixpoint hexed (s : string) : string :=
  match s with
  | "" => ""
  | String c s =>
      String (nibble (N_of_ascii c / 16)) (String (nibble (N_of_ascii c mod 16)) (hexed s))
  end.
Definition toy_digest (s : string) : string := "x" +:+ hexed s.

Lemma nibble_no_bar c n :
  (n = N_of_ascii c / 16 ∨ n = N_of_ascii c mod 16)%N → nibble n ≠ "|"%char.
Proof. destruct c as [[][][][][][][][]]; intros [->| ->]; vm_compute; done. Qed.

Lemma toy_digest_hex : hex_digest toy_digest.
Proof.
  intros s. split; [done|].
  assert (no_bar (hexed s)) as Hs.
  { unfold no_bar. induction s as [|c s IH]; simpl; [apply not_elem_of_nil|].
    rw !not_elem_of_cons. split_and!; [..|done];
      apply not_eq_sym, (nibble_no_bar c); auto. }
  unfold no_bar, toy_digest in *.
  change ("|"%char ∉ "x"%char :: String.list_ascii_of_string (hexed s)).
  by rw not_elem_of_cons.
Qed.

Definition sample_entry (n : string) : AuditEntry :=
  action_entry n "2026-01-01T00:00:00Z" "tenant" "stage" "action" "".

(** ** Properties *)

(** C16. After any sequence of [log] calls the logger holds the most recent
    entries in order, at most [max_entries_] of them, and as long as nothing
    has rotated out [verifyChain] accepts them. *)
Theorem audit_log_verifies sha256 max es :
  (1 <= max)%nat → (∀ x, sha256 x ≠ "") →
  let c := log_all sha256 es (empty_chain max) in
  unchained <$> entries c = drop (length es - max) (unchained <$> es) ∧
  ((length es <= max)%nat → verifyChain sha256 (entries c) = true).
Proof.
  intros Hmax Hsha c. destruct (log_all_state sha256 max es Hmax Hsha)
    as [Hes (prev & [Hv _] & Hp & _)].
  split; [done|]. intros Hle. unfold verifyChain. by rw -(Hp Hle).
Qed.

Lemma audit_log_verifies_witness :
  verifyChain toy_digest (entries (log_all toy_digest
    [sample_entry "a"; sample_entry "b"; sample_entry "c"] (empty_chain 3))) = true.
Proof.
  apply (audit_log_verifies toy_digest 3
    [sample_entry "a"; sample_entry "b"; sample_entry "c"]); [lia|done|simpl; lia].
Defined.

(** C17. The chain is tamper evident: two accepted logs that end on the same
    hash agree on every covered field of every entry, or exhibit a SHA-256
    collision.  The fields must be free of the separator, which the code does
    not check. *)
Theorem audit_tamper_evident sha256 es es' :
  hex_digest sha256 → Forall clean es → Forall clean es' →
  verifyChain sha256 es = true → verifyChain sha256 es' = true →
  last_hash "" es = last_hash "" es' →
  covered <$> es = covered <$> es' ∨ collision sha256.
Proof. apply same_head_same_history. Qed.

Lemma audit_tamper_evident_witness :
  let es := entries (log_all toy_digest [sample_entry "a"; sample_entry "b"] (empty_chain 9)) in
  covered <$> es = covered <$> es ∨ collision toy_digest.
Proof.
  intros es. apply (audit_tamper_evident toy_digest es es);
    [exact toy_digest_hex| | |by vm_compute|by vm_compute|done];
    apply (bool_decide_unpack _); vm_compute; exact I.
Defined.

(** The separator is not escaped and [output_hash] is not covered: moving
    a [|] between the tenant and the stage, or changing the output hash, gives
    a different entry with the same chain hash, whatever the hash function. *)
Theorem audit_field_shift sha256 prev e t x y o :
  let mk tn st out :=
    {| request_id := request_id e; timestamp := timestamp e; tenant_id := tn;
       action := action e; stage_name := st; detail := detail e;
       input_hash := input_hash e; output_hash := out; chain_hash := chain_hash e |} in
  computeChainHash sha256 (mk (t +:+ "|" +:+ x) y (output_hash e)) prev =
  computeChainHash sha256 (mk t (x +:+ "|" +:+ y) o) prev.
Proof.
  intros mk. unfold computeChainHash, payload; simpl. by rw !string_app_assoc.
Qed.

(** Once an entry has rotated out of the bounded in-memory log,
    [verifyChain] no longer accepts it: acceptance would be a SHA-256
    collision, since the check restarts from the empty hash. *)
Theorem audit_rotation_rejected sha256 max es :
  (1 <= max)%nat → (∀ x, sha256 x ≠ "") → (max < length es)%nat →
  verifyChain sha256 (entries (log_all sha256 es (empty_chain max))) = true →
  collision sha256.
Proof.
  intros Hmax Hsha Hlen Hv'. destruct (log_all_state sha256 max es Hmax Hsha)
    as [Hes (prev & [Hv _] & _ & Hp)].
  specialize (Hp Hlen). unfold verifyChain in Hv'.
  destruct (entries (log_all sha256 es (empty_chain max))) as [|e l] eqn:Ee.
  { apply (f_equal length) in Hes. rw /= length_drop length_fmap in Hes. lia. }
  simpl in Hv, Hv'. case_decide as H1; [|done]. case_decide as H2; [|done].
  exists (payload e prev), (payload e ""). split; [|unfold computeChainHash in *; congruence].
  intros Heq%(f_equal String.length). unfold payload in Heq.
  rw (string_length_app prev) (string_length_app "") /= in Heq.
  destruct prev; [done|]. simpl in Heq. lia.
Qed.

Lemma audit_rotation_rejected_witness : collision (λ _, "h").
Proof.
  apply (audit_rotation_rejected (λ _, "h") 1 [sample_entry "a"; sample_entry "b"]);
    [lia|done|simpl; lia|by vm_compute].
Defined.

(** The writer persists in order and [flush] means what it says: in every
    interleaving of loggers, flushers and the writer, the entries handed to
    the store, in flight and queued are in the order they were enqueued (all
    of them, unless the bounded queue overflowed), and as long as shutdown has
    not begun, whatever was enqueued before a resolved [flush] call has been
    handed to the store or was dropped by overflow. *)
Theorem audit_flush_durable q :
  rtc queue_step empty_queue q →
  sublist (attempted q ++ inflight q ++ pending q) (offered q) ∧
  (dropped q = [] → attempted q ++ inflight q ++ pending q = offered q) ∧
  (stop q = false →
   (∀ t n, (t, n) ∈ resolved q →
     ∀ e, e ∈ take n (offered q) → e ∈ attempted q ∨ e ∈ dropped q) ∧
   ((flush_register q).1 = None →
     ∀ e, e ∈ offered q → e ∈ attempted q ∨ e ∈ dropped q)).
Proof.
  intros Hq%queue_reach_inv. split; [apply Hq|]. split.
  - intros Hd. pose proof (qi_perm q Hq) as Hp. rw Hd /= in Hp.
    apply sublist_same_length; [apply Hq|]. by rw Hp.
  - intros Hs. pose proof (qi_loop q Hq Hs) as Hl. split.
    + intros t n Hin. pose proof (qi_done q Hq Hl) as Hdone.
      rw Forall_forall in Hdone. by apply (Hdone (t, n)).
    + unfold flush_register. destruct (_ && _) eqn:Ec; [|done]. intros _ e He.
      apply andb_true_iff in Ec as [[Hp%bool_decide_eq_true Hd%negb_true_iff]%andb_true_iff _].
      rw (qi_perm q Hq) (qi_drain q Hq Hl Hd) Hp in He. set_solver.
Qed.

Lemma audit_flush_durable_witness :
  let q := writer_step (writer_step (writer_step (enqueue (sample_entry "a") empty_queue))) in
  attempted q = [sample_entry "a"] ∧ sublist (attempted q ++ inflight q ++ pending q) (offered q).
Proof.
  split; [by vm_compute|].
  apply audit_flush_durable.
  eapply rtc_l; [apply (q_enqueue (sample_entry "a"))|].
  do 2 (eapply rtc_l; [apply q_writer|]). apply rtc_once, q_writer.
Defined.

(** C27. A flush is resolved once the writer has caught up: in any interleaving
    of loggers, flushers and the writer before shutdown, a registered waiter is
    resolved when the writer has made as many steps as [flush_measure] says,
    by the state the waiter was in, and four more for every entry that was
    logged meanwhile; other flushes do not delay it.  Without a bound on what
    is logged there is none on the wait: [flush_starves] has a waiter that is
    never resolved although all that was logged before it is persisted. *)
Theorem audit_flush_resolves q t n ops :
  rtc queue_step empty_queue q → stop q = false → (t, n) ∈ waiters q →
  (flush_measure t q + 4 * logged ops <= written ops)%nat →
  (t, n) ∈ resolved (queue_ops ops q).
Proof. intros Hq%queue_reach_inv. by apply flush_resolved. Qed.

Lemma audit_flush_resolves_witness :
  let q := (flush_register (enqueue (sample_entry "a") empty_queue)).2 in
  let ops := [Write; Log (sample_entry "b"); Write; Flush] ++ replicate 14 Write in
  (1, 1%nat) ∈ waiters q ∧ (1, 1%nat) ∈ resolved (queue_ops ops q).
Proof.
  intros q ops. assert ((1, 1%nat) ∈ waiters q) as Hin by (vm_compute; by left). split; [exact Hin|].
  apply audit_flush_resolves; [|done|exact Hin|apply (bool_decide_unpack _); by vm_compute].
  eapply rtc_l; [apply (q_enqueue (sample_entry "a"))|]. apply rtc_once, q_flush.
Defined.

(** Shutdown breaks that promise: after the final swap the flag that
    [flush] consults is not set, so a [flush] that races with [shutdown]
    returns true while the last batch has not reached the store. *)
Theorem audit_flush_shutdown_race :
  ∃ q e, rtc queue_step empty_queue q ∧ (flush_register q).1 = None ∧
    e ∈ offered q ∧ e ∉ attempted q ∧ dropped q = [].
Proof.
  exists (writer_step (writer_step (raise_stop (enqueue (sample_entry "a") empty_queue)))),
    (sample_entry "a").
  split; [|by split_and!; [vm_compute|set_solver|apply not_elem_of_nil|]].
  eapply rtc_l; [apply (q_enqueue (sample_entry "a"))|].
  eapply rtc_l; [apply q_stop|]. eapply rtc_l; [apply q_writer|]. apply rtc_once, q_writer.
Qed.

(** The chain and the queue are two critical sections: with two
    concurrent [log] calls the store can receive the entries in the opposite
    order of the chain, and a chain check of what was persisted then fails
    although the in-memory one succeeds. *)
Theorem audit_log_order_race :
  ∃ e1 e2 sched,
    let '(ts, (c, q)) := run_sched (audit_exec toy_digest) sched
      [log true None e1; log true None e2] fresh_logger in
    Forall (λ p, p = Ret tt) ts ∧ verifyChain toy_digest (entries c) = true ∧
    length (pending q) = 2%nat ∧ verifyChain toy_digest (pending q) = false.
Proof.
  exists (sample_entry "a"), (sample_entry "b"), [0; 1; 1; 0]%nat.
  vm_compute. by repeat constructor.
Qed.

End Audit.
