(* ===== verification/Rollout.v ===== *)
(** * Rollout: staged rollouts and their state machine

    Models [src/src/control_plane/rollout/rollout_record.h] (the records and
    the string conversions) and
    [src/src/control_plane/rollout/rollout_state_machine.cpp].  The thresholds
    are C++ [double]s, modelled by the kernel's IEEE-754 binary64 floats. *)
From Corelib Require Import PrimFloat.
From S2P Require Import Prelude.
Local Open Scope Z_scope.

Module Rollout.

Inductive RolloutStatus :=
  PENDING | PROGRESSING | PAUSED | COMPLETED | FAILED | ABORTED.

Inductive PauseReason :=
  UNSPECIFIED | MANUAL | ERROR_RATE | LATENCY_RATIO | AUTO_ROLLBACK.

#[global] Instance RolloutStatus_eq_dec : EqDecision RolloutStatus.
Proof. solve_decision. Defined.
#[global] Instance PauseReason_eq_dec : EqDecision PauseReason.
Proof. solve_decision. Defined.

Record ScopeSelector := {
  tenant_globs : list string;
  regions : list string;
  percentage : Z;
}.

Record ObservationPolicy := {
  min_duration_seconds : Z;
  min_sample_count : Z;
}.

Record AutoPausePolicy := {
  error_rate_gt : float;
  p99_latency_ratio_gt : float;
  absolute_error_rate_gt : float;
  absolute_p99_latency_ms_gt : float;
}.

Record RolloutStageRecord := {
  stage_name : string;
  scope : ScopeSelector;
  observation : ObservationPolicy;
  auto_pause : AutoPausePolicy;
}.

Record RolloutSpec := {
  spec_target_version_id : string;
  stages : list RolloutStageRecord;
  sticky_key : string;
  auto_rollback_on_pause : bool;
  auto_rollback_grace_seconds : Z;
  creator_comment : string;
}.

Record RolloutRecord := {
  rollout_id : string;
  target_version_id : string;
  previous_active_version_id : string;
  spec : RolloutSpec;
  status : RolloutStatus;
  current_stage_index : Z;
  started_at : Z;
  stage_started_at : Z;
  paused_at : Z;
  pause_reason : PauseReason;
  pause_detail : string;
  creator : string;
  last_actor : string;
  completed_at : Z;
  chain_hash : string;
}.

Record RolloutStageEvent := {
  event_id : string;
  ev_rollout_id : string;
  stage_index : Z;
  event_type : string;
  reason : string;
  metrics_json : string;
  at_millis : Z;
  actor : string;
}.

Record RolloutQuery := {
  rq_statuses : list RolloutStatus;
  rq_limit : Z;
  rq_page_token : string;
}.

Definition empty_spec : RolloutSpec :=
  {| spec_target_version_id := ""; stages := []; sticky_key := "tenant_id";
     auto_rollback_on_pause := true; auto_rollback_grace_seconds := 1800;
     creator_comment := "" |}.

(** The default-initialised record. *)
Definition empty_rollout : RolloutRecord :=
  {| rollout_id := ""; target_version_id := ""; previous_active_version_id := "";
     spec := empty_spec; status := PENDING; current_stage_index := 0; started_at := 0;
     stage_started_at := 0; paused_at := 0; pause_reason := UNSPECIFIED;
     pause_detail := ""; creator := ""; last_actor := ""; completed_at := 0;
     chain_hash := "" |}.

Definition rolloutStatusToString (s : RolloutStatus) : string :=
  match s with
  | PENDING => "PENDING"
  | PROGRESSING => "PROGRESSING"
  | PAUSED => "PAUSED"
  | COMPLETED => "COMPLETED"
  | FAILED => "FAILED"
  | ABORTED => "ABORTED"
  end.

Definition rolloutStatusFromString (s : string) : option RolloutStatus :=
  if decide (s = "PENDING") then Some PENDING
  else if decide (s = "PROGRESSING") then Some PROGRESSING
  else if decide (s = "PAUSED") then Some PAUSED
  else if decide (s = "COMPLETED") then Some COMPLETED
  else if decide (s = "FAILED") then Some FAILED
  else if decide (s = "ABORTED") then Some ABORTED
  else None.

Definition pauseReasonToString (r : PauseReason) : string :=
  match r with
  | UNSPECIFIED => "UNSPECIFIED"
  | MANUAL => "MANUAL"
  | ERROR_RATE => "ERROR_RATE"
  | LATENCY_RATIO => "LATENCY_RATIO"
  | AUTO_ROLLBACK => "AUTO_ROLLBACK"
  end.

Definition pauseReasonFromString (s : string) : option PauseReason :=
  if decide (s = "UNSPECIFIED") then Some UNSPECIFIED
  else if decide (s = "MANUAL") then Some MANUAL
  else if decide (s = "ERROR_RATE") then Some ERROR_RATE
  else if decide (s = "LATENCY_RATIO") then Some LATENCY_RATIO
  else if decide (s = "AUTO_ROLLBACK") then Some AUTO_ROLLBACK
  else None.

(** Field assignments of the controller. *)
Definition set_started (s : RolloutStatus) (now : Z) (prev who : string) (r : RolloutRecord) : RolloutRecord :=
  {| rollout_id := rollout_id r;
     target_version_id := target_version_id r;
     previous_active_version_id := prev;
     spec := spec r;
     status := s;
     current_stage_index := current_stage_index r;
     started_at := now;
     stage_started_at := now;
     paused_at := paused_at r;
     pause_reason := pause_reason r;
     pause_detail := pause_detail r;
     creator := creator r;
     last_actor := who;
     completed_at := completed_at r;
     chain_hash := chain_hash r |}.

Definition set_completed (s : RolloutStatus) (now : Z) (r : RolloutRecord) : RolloutRecord :=
  {| rollout_id := rollout_id r;
     target_version_id := target_version_id r;
     previous_active_version_id := previous_active_version_id r;
     spec := spec r;
     status := s;
     current_stage_index := current_stage_index r;
     started_at := started_at r;
     stage_started_at := stage_started_at r;
     paused_at := paused_at r;
     pause_reason := pause_reason r;
     pause_detail := pause_detail r;
     creator := creator r;
     last_actor := last_actor r;
     completed_at := now;
     chain_hash := chain_hash r |}.

Definition set_last_actor (who : string) (r : RolloutRecord) : RolloutRecord :=
  {| rollout_id := rollout_id r;
     target_version_id := target_version_id r;
     previous_active_version_id := previous_active_version_id r;
     spec := spec r;
     status := status r;
     current_stage_index := current_stage_index r;
     started_at := started_at r;
     stage_started_at := stage_started_at r;
     paused_at := paused_at r;
     pause_reason := pause_reason r;
     pause_detail := pause_detail r;
     creator := creator r;
     last_actor := who;
     completed_at := completed_at r;
     chain_hash := chain_hash r |}.

Definition set_stage (s : RolloutStatus) (i now : Z) (r : RolloutRecord) : RolloutRecord :=
  {| rollout_id := rollout_id r;
     target_version_id := target_version_id r;
     previous_active_version_id := previous_active_version_id r;
     spec := spec r;
     status := s;
     current_stage_index := i;
     started_at := started_at r;
     stage_started_at := now;
     paused_at := paused_at r;
     pause_reason := pause_reason r;
     pause_detail := pause_detail r;
     creator := creator r;
     last_actor := last_actor r;
     completed_at := completed_at r;
     chain_hash := chain_hash r |}.

Definition set_paused (s : RolloutStatus) (now : Z) (why : PauseReason) (det : string) (r : RolloutRecord) : RolloutRecord :=
  {| rollout_id := rollout_id r;
     target_version_id := target_version_id r;
     previous_active_version_id := previous_active_version_id r;
     spec := spec r;
     status := s;
     current_stage_index := current_stage_index r;
     started_at := started_at r;
     stage_started_at := stage_started_at r;
     paused_at := now;
     pause_reason := why;
     pause_detail := det;
     creator := creator r;
     last_actor := last_actor r;
     completed_at := completed_at r;
     chain_hash := chain_hash r |}.

Definition set_resumed (s : RolloutStatus) (now : Z) (r : RolloutRecord) : RolloutRecord :=
  {| rollout_id := rollout_id r;
     target_version_id := target_version_id r;
     previous_active_version_id := previous_active_version_id r;
     spec := spec r;
     status := s;
     current_stage_index := current_stage_index r;
     started_at := started_at r;
     stage_started_at := now;
     paused_at := paused_at r;
     pause_reason := UNSPECIFIED;
     pause_detail := "";
     creator := creator r;
     last_actor := last_actor r;
     completed_at := completed_at r;
     chain_hash := chain_hash r |}.

Definition set_pause_reason (why : PauseReason) (r : RolloutRecord) : RolloutRecord :=
  {| rollout_id := rollout_id r;
     target_version_id := target_version_id r;
     previous_active_version_id := previous_active_version_id r;
     spec := spec r;
     status := status r;
     current_stage_index := current_stage_index r;
     started_at := started_at r;
     stage_started_at := stage_started_at r;
     paused_at := paused_at r;
     pause_reason := why;
     pause_detail := pause_detail r;
     creator := creator r;
     last_actor := last_actor r;
     completed_at := completed_at r;
     chain_hash := chain_hash r |}.

(** ** The state machine *)

Inductive RolloutAction :=
  Start | Promote | PauseManual | PauseAuto | Resume | AutoRollback | Abort | Fail_.

#[global] Instance RolloutAction_eq_dec : EqDecision RolloutAction.
Proof. solve_decision. Defined.

Definition rolloutActionToString (a : RolloutAction) : string :=
  match a with
  | Start => "Start"
  | Promote => "Promote"
  | PauseManual => "PauseManual"
  | PauseAuto => "PauseAuto"
  | Resume => "Resume"
  | AutoRollback => "AutoRollback"
  | Abort => "Abort"
  | Fail_ => "Fail"
  end.

Definition attemptRolloutTransition (from : RolloutStatus) (action : RolloutAction)
    (is_last_stage : bool) : option RolloutStatus :=
  match from with
  | PENDING =>
      match action with
      | Start => Some PROGRESSING
      | Abort => Some ABORTED
      | _ => None
      end
  | PROGRESSING =>
      match action with
      | Promote => Some (if is_last_stage then COMPLETED else PROGRESSING)
      | PauseManual => Some PAUSED
      | PauseAuto => Some PAUSED
      | Abort => Some ABORTED
      | Fail_ => Some FAILED
      | _ => None
      end
  | PAUSED =>
      match action with
      | Resume => Some PROGRESSING
      | AutoRollback => Some FAILED
      | Abort => Some ABORTED
      | Fail_ => Some FAILED
      | _ => None
      end
  | COMPLETED | FAILED | ABORTED => None
  end.

(** ** Lemmas *)

Definition terminal (s : RolloutStatus) : Prop :=
  s = COMPLETED ∨ s = FAILED ∨ s = ABORTED.

(** The graph drawn in rollout_record.h, closed under any number of steps. *)
Definition rollout_step (s t : RolloutStatus) : Prop :=
  ∃ a last, attemptRolloutTransition s a last = Some t.

Lemma rolloutStatus_roundtrip s :
  rolloutStatusFromString (rolloutStatusToString s) = Some s.
Proof. by destruct s. Qed.

Lemma pauseReason_roundtrip r :
  pauseReasonFromString (pauseReasonToString r) = Some r.
Proof. by destruct r. Qed.

Lemma terminal_stuck s t : terminal s → rtc rollout_step s t → t = s.
Proof.
  intros Hs Hst. inversion Hst as [|? u ? (a & l & Hu)]; subst; [done|].
  by destruct Hs as [->|[->| ->]].
Qed.

Lemma completed_only_from_progressing s a l :
  attemptRolloutTransition s a l = Some COMPLETED → s = PROGRESSING ∧ a = Promote ∧ l = true.
Proof. by destruct s, a, l. Qed.

(** What a rollout's creation fixes for ever. *)
Definition same_rollout (r r' : RolloutRecord) : Prop :=
  rollout_id r' = rollout_id r ∧ target_version_id r' = target_version_id r ∧
  spec r' = spec r ∧ creator r' = creator r.

#[global] Instance same_rollout_preorder : PreOrder same_rollout.
Proof.
  split.
  - by intros r.
  - intros r1 r2 r3. unfold same_rollout. intuition congruence.
Qed.

End Rollout.
