(* ===== verification/RolloutStore.v ===== *)
(** * RolloutStore: the persistent store's rollouts

    The rollout part of the [PersistentStore] interface as [RolloutStoreOps]
    with the laws its clients rely on, and [MemoryRolloutStore], the
    implementation of [src/src/storage/memory_persistent_store.cpp], which
    discharges them.  The table keeps at most one active rollout per target
    version. *)
From S2P Require Import Prelude.
From S2P Require Import Rollout.
Import Rollout.
Local Open Scope Z_scope.

(** ** Interface *)

(** [isActiveStatus]. *)
Definition isActiveStatus (s : RolloutStatus) : bool :=
  match s with
  | PENDING | PROGRESSING | PAUSED => true
  | COMPLETED | FAILED | ABORTED => false
  end.

Class RolloutStoreOps (S : Type) := {
  rs_insert : RolloutRecord → S → bool * S;
  rs_update : RolloutRecord → S → bool * S;
  rs_get : string → S → option RolloutRecord;
  rs_findActive : string → S → option RolloutRecord;
  rs_list : RolloutQuery → S → list RolloutRecord;
  rs_view : S → gmap string RolloutRecord;
}.

(** No other rollout of the same target is active. *)
Definition sole_active (m : gmap string RolloutRecord) (r : RolloutRecord) : Prop :=
  isActiveStatus (status r) = true → ∀ id r', m !! id = Some r' →
    id ≠ rollout_id r → target_version_id r' = target_version_id r →
    isActiveStatus (status r') = false.

Definition rollout_wanted (q : RolloutQuery) (r : RolloutRecord) : bool :=
  match rq_statuses q with
  | [] => true
  | ss => existsb (λ s, bool_decide (s = status r)) ss
  end.

Class RolloutStoreLaws (S : Type) `{!RolloutStoreOps S} : Prop := {
  rs_insert_true r s s' :
    rs_insert r s = (true, s') →
    rollout_id r ≠ "" ∧ rs_view s !! rollout_id r = None ∧ sole_active (rs_view s) r ∧
    rs_view s' = <[rollout_id r := r]> (rs_view s);
  rs_insert_false r s s' : rs_insert r s = (false, s') → rs_view s' = rs_view s;
  rs_update_true r s s' :
    rs_update r s = (true, s') →
    is_Some (rs_view s !! rollout_id r) ∧ sole_active (rs_view s) r ∧
    rs_view s' = <[rollout_id r := r]> (rs_view s);
  rs_update_false r s s' : rs_update r s = (false, s') → rs_view s' = rs_view s;
  rs_get_view id s : rs_get id s = rs_view s !! id;
  rs_findActive_some t s r :
    rs_findActive t s = Some r →
    (∃ id, rs_view s !! id = Some r) ∧ target_version_id r = t ∧
    isActiveStatus (status r) = true;
  rs_findActive_none t s id r :
    rs_findActive t s = None → rs_view s !! id = Some r →
    target_version_id r = t → isActiveStatus (status r) = false;
  rs_list_sound q s r :
    r ∈ rs_list q s → rollout_wanted q r = true ∧ ∃ id, rs_view s !! id = Some r;
  rs_list_complete q s id r :
    rq_page_token q = "" → 0 < rq_limit q →
    Z.of_nat (length (rs_list q s)) < rq_limit q →
    rs_view s !! id = Some r → rollout_wanted q r = true → r ∈ rs_list q s;
}.

(** At most one active rollout per target. *)
Definition one_active (m : gmap string RolloutRecord) : Prop :=
  ∀ id1 id2 r1 r2, m !! id1 = Some r1 → m !! id2 = Some r2 →
    target_version_id r1 = target_version_id r2 →
    isActiveStatus (status r1) = true → isActiveStatus (status r2) = true → id1 = id2.

Lemma one_active_insert m r :
  one_active m → sole_active m r → one_active (<[rollout_id r := r]> m).
Proof.
  intros Hm Hs id1 id2 r1 r2. rw !lookup_insert_Some.
  intros [[<- <-]|[Hn1 H1]] [[<- <-]|[Hn2 H2]] Ht Ha1 Ha2; [done|..|by eapply Hm].
  - assert (isActiveStatus (status r2) = false); [|congruence]. by eapply Hs.
  - assert (isActiveStatus (status r1) = false); [|congruence]. by eapply Hs.
Qed.

(** ** The in-memory implementation *)

Module MemoryRolloutStore.

(** [initialized_], [rollouts_] and [rollout_events_]. *)
Record RolloutTable := {
  initialized : bool;
  rollouts : gmap string RolloutRecord;
  rollout_events : gmap string (list RolloutStageEvent);
}.

Definition empty_table : RolloutTable :=
  {| initialized := true; rollouts := ∅; rollout_events := ∅ |}.

Definition set_rollouts (m : gmap string RolloutRecord) (t : RolloutTable) :=
  {| initialized := initialized t; rollouts := m; rollout_events := rollout_events t |}.

(** The conflict loops of [insertRollout] and [updateRollout]; the latter
    skips the record's own key. *)
Fixpoint conflict (skip : option string) (target : string)
    (kvs : list (string * RolloutRecord)) : bool :=
  match kvs with
  | [] => false
  | (k, r) :: kvs =>
      if bool_decide (skip = Some k) then conflict skip target kvs
      else if bool_decide (target_version_id r = target) && isActiveStatus (status r)
           then true else conflict skip target kvs
  end.

Definition insertRollout `{UnorderedIter} (rec : RolloutRecord) (t : RolloutTable) :
    bool * RolloutTable :=
  if negb (initialized t) then (false, t)
  else if str_empty (rollout_id rec) then (false, t)
  else match rollouts t !! rollout_id rec with
  | Some _ => (false, t)
  | None =>
      if isActiveStatus (status rec) &&
         conflict None (target_version_id rec) (iter (rollouts t))
      then (false, t)
      else (true, set_rollouts (<[rollout_id rec := rec]> (rollouts t)) t)
  end.

Definition updateRollout `{UnorderedIter} (rec : RolloutRecord) (t : RolloutTable) :
    bool * RolloutTable :=
  if negb (initialized t) then (false, t)
  else match rollouts t !! rollout_id rec with
  | None => (false, t)
  | Some _ =>
      if isActiveStatus (status rec) &&
         conflict (Some (rollout_id rec)) (target_version_id rec) (iter (rollouts t))
      then (false, t)
      else (true, set_rollouts (<[rollout_id rec := rec]> (rollouts t)) t)
  end.

Definition getRollout (id : string) (t : RolloutTable) : option RolloutRecord :=
  rollouts t !! id.

(** The first active rollout of the target that the iteration meets. *)
Fixpoint first_active (target : string) (kvs : list (string * RolloutRecord)) :
    option RolloutRecord :=
  match kvs with
  | [] => None
  | (_, r) :: kvs =>
      if bool_decide (target_version_id r = target) && isActiveStatus (status r)
      then Some r else first_active target kvs
  end.

Definition findActiveRolloutByTarget `{UnorderedIter} (target : string)
    (t : RolloutTable) : option RolloutRecord :=
  first_active target (iter (rollouts t)).

(** The page loop: skip through the cursor, then push until the limit. *)
Fixpoint page_loop (skipping : bool) (token : string) (limit : Z)
    (page : list RolloutRecord) (out : list RolloutRecord) : list RolloutRecord :=
  match out with
  | [] => page
  | r :: out =>
      if skipping
      then page_loop (negb (bool_decide (rollout_id r = token))) token limit page out
      else let page := page ++ [r] in
           if limit <=? Z.of_nat (length page) then page
           else page_loop false token limit page out
  end.

Definition sorted_rollouts `{UnorderedIter} (q : RolloutQuery) (t : RolloutTable) :
    list RolloutRecord :=
  std_sort (desc_by started_at rollout_id)
    (base.filter (λ r, rollout_wanted q r = true) (snd <$> iter (rollouts t))).

Definition listRollouts `{UnorderedIter} (q : RolloutQuery) (t : RolloutTable) :
    list RolloutRecord :=
  let out := sorted_rollouts q t in
  let limit := if 0 <? rq_limit q then rq_limit q else Z.of_nat (length out) in
  page_loop (negb (str_empty (rq_page_token q))) (rq_page_token q) limit [] out.

Definition appendRolloutStageEvent (ev : RolloutStageEvent) (t : RolloutTable) :
    bool * RolloutTable :=
  if negb (initialized t) then (false, t)
  else if str_empty (event_id ev) || str_empty (ev_rollout_id ev) then (false, t)
  else (true, {| initialized := initialized t; rollouts := rollouts t;
                 rollout_events :=
                   <[ev_rollout_id ev :=
                       default [] (rollout_events t !! ev_rollout_id ev) ++ [ev]]>
                     (rollout_events t) |}).

Definition listRolloutStageEvents (rollout_id : string) (t : RolloutTable) :
    list RolloutStageEvent :=
  match rollout_events t !! rollout_id with
  | None => []
  | Some evs => std_sort (asc_by at_millis event_id) evs
  end.

#[global] Instance ops `{UnorderedIter} : RolloutStoreOps RolloutTable := {|
  rs_insert := insertRollout;
  rs_update := updateRollout;
  rs_get := getRollout;
  rs_findActive := findActiveRolloutByTarget;
  rs_list := listRollouts;
  rs_view := rollouts;
|}.

(** ** Lemmas *)

Lemma conflict_false skip target kvs :
  conflict skip target kvs = false ↔
  ∀ k r, (k, r) ∈ kvs → skip ≠ Some k → target_version_id r = target →
    isActiveStatus (status r) = false.
Proof.
  induction kvs as [|[k r] kvs IH]; simpl; [set_solver|].
  case_bool_decide as Hk; [rw IH; set_solver|].
  case_bool_decide as Ht; [destruct (isActiveStatus (status r)) eqn:Ea|]; simpl.
  - split; [done|]. intros H. specialize (H k r). set_solver.
  - rw IH. set_solver.
  - rw IH. set_solver.
Qed.

Lemma first_active_some target kvs r :
  first_active target kvs = Some r →
  (∃ k, (k, r) ∈ kvs) ∧ target_version_id r = target ∧ isActiveStatus (status r) = true.
Proof.
  induction kvs as [|[k r'] kvs IH]; simpl; [done|].
  destruct (_ && _) eqn:E.
  - intros [= <-]. apply andb_true_iff in E as [?%bool_decide_eq_true ?]. set_solver.
  - intros H%IH. set_solver.
Qed.

Lemma first_active_none target kvs k r :
  first_active target kvs = None → (k, r) ∈ kvs → target_version_id r = target →
  isActiveStatus (status r) = false.
Proof.
  induction kvs as [|[k' r'] kvs IH]; simpl; [set_solver|].
  destruct (_ && _) eqn:E; [done|]. intros Hn [Heq|Hin]%elem_of_cons Ht; [|by apply IH].
  simplify_eq. by rw bool_decide_eq_true_2 // in E.
Qed.

Lemma page_loop_take token limit page out :
  Z.of_nat (length page) < limit →
  page_loop false token limit page out =
  page ++ take (Z.to_nat limit - length page) out.
Proof.
  revert page. induction out as [|r out IH]; intros page Hl; simpl.
  { by rw take_nil app_nil_r. }
  rw length_app /=. destruct (Z.leb_spec limit (Z.of_nat (length page + 1))).
  - assert (Z.to_nat limit - length page = 1)%nat as -> by lia. simpl.
    by rw take_0.
  - rw IH; [|rw length_app /=; lia]. rw length_app /= -app_assoc /=.
    assert (Z.to_nat limit - length page = S (Z.to_nat limit - (length page + 1)))%nat as -> by lia.
    done.
Qed.

Lemma page_loop_from_token token limit out :
  0 < limit →
  page_loop (negb (str_empty token)) token limit [] out =
  take (Z.to_nat limit) (from_token rollout_id token out).
Proof.
  intros Hl. unfold from_token. destruct (str_empty token) eqn:Et; simpl.
  { rw page_loop_take /=; [by rw Nat.sub_0_r|lia]. }
  induction out as [|r out IH]; simpl; [by rw take_nil|].
  case_decide; case_bool_decide; simpl; [|done..|done].
  rw page_loop_take /=; [by rw Nat.sub_0_r|lia].
Qed.

Lemma listRollouts_take `{UnorderedIter} q t :
  listRollouts q t =
  take (Z.to_nat (if 0 <? rq_limit q then rq_limit q
                  else Z.of_nat (length (sorted_rollouts q t))))
    (from_token rollout_id (rq_page_token q) (sorted_rollouts q t)).
Proof.
  unfold listRollouts. destruct (Z.ltb_spec 0 (rq_limit q)).
  - by apply page_loop_from_token.
  - destruct (sorted_rollouts q t) as [|r l] eqn:E.
    + unfold from_token. by destruct (str_empty _).
    + apply page_loop_from_token. simpl; lia.
Qed.

Lemma sorted_rollouts_elem `{UnorderedIter} q t r :
  r ∈ sorted_rollouts q t ↔ rollout_wanted q r = true ∧ ∃ id, rollouts t !! id = Some r.
Proof.
  unfold sorted_rollouts. rw std_sort_elem list_elem_of_filter list_elem_of_fmap. split.
  - intros [Hq [[id r'] [-> Hin]]]. apply elem_of_iter in Hin. eauto.
  - intros [Hq [id Hid%elem_of_iter]]. split; [done|]. by exists (id, r).
Qed.

#[global] Instance laws `{UnorderedIter} : RolloutStoreLaws RolloutTable.
Proof.
  split; simpl.
  - intros r t t'. unfold insertRollout. destruct (negb _); [done|].
    destruct (str_empty (rollout_id r)) eqn:Ee; [done|]. apply str_empty_false in Ee.
    destruct (rollouts t !! rollout_id r) eqn:El; [done|].
    destruct (isActiveStatus (status r) && _) eqn:Ec; [done|]. intros [= <-].
    split_and!; [done|done| |done]. intros Ha id r' Hid Hne Ht. rw Ha /= in Ec.
    pose proof (proj1 (conflict_false _ _ _) Ec) as Hc.
    eapply Hc; [by apply elem_of_iter|done|done].
  - intros r t t' H1. unfold insertRollout in H1. branch; done.
  - intros r t t'. unfold updateRollout. destruct (negb _); [done|].
    destruct (rollouts t !! rollout_id r) as [r0|] eqn:El; [|done].
    destruct (isActiveStatus (status r) && _) eqn:Ec; [done|]. intros [= <-].
    split_and!; [by eexists| |done]. intros Ha id r' Hid Hne Ht. rw Ha /= in Ec.
    pose proof (proj1 (conflict_false _ _ _) Ec) as Hc.
    eapply Hc; [by apply elem_of_iter|congruence|done].
  - intros r t t' H1. unfold updateRollout in H1. branch; done.
  - done.
  - intros tg t r ([k Hk%elem_of_iter] & ? & ?)%first_active_some. eauto.
  - intros tg t id r Hn Hid%elem_of_iter Ht. by eapply first_active_none.
  - intros q t r. rw listRollouts_take. intros Hr%elem_of_take_1%elem_of_from_token.
    by apply sorted_rollouts_elem.
  - intros q t id r Htok Hlim. rw listRollouts_take Htok. unfold from_token; simpl.
    assert (0 <? rq_limit q = true) as -> by by apply Z.ltb_lt.
    intros Hlen Hid Hq. rw take_short; [|lia]. apply sorted_rollouts_elem. eauto.
Qed.

End MemoryRolloutStore.
