(* ===== verification/ControlPlane.v ===== *)
(** * ControlPlane: the world the control-plane handlers run in

    The configuration service and the rollout controller share a persistent
    store, an audit logger, clocks, an identifier generator and a few
    callbacks.  [World] is their state, [Cmd] the calls a handler makes, each
    atomic, and [exec] their meaning.  The store is any type with the
    interfaces of ConfigStore and RolloutStore; [PersistentStoreLaws] adds that
    the two parts do not disturb each other.  Also here: the audit bridges of
    [src/src/control_plane/audit_bridge.cpp] and
    [src/src/control_plane/rollout/rollout_audit_bridge.cpp]. *)
From Corelib Require Import PrimFloat.
From S2P Require Import Prelude.
From S2P Require Import Prog.
From S2P Require Import ConfigVersion.
From S2P Require Import ConfigStore.
From S2P Require Import Rollout.
From S2P Require Import RolloutStore.
From S2P Require Import AuditLog.
From S2P Require Import Scanner.
Local Open Scope Z_scope.

(** [struct VersionMetrics]. *)
Record VersionMetrics := {
  sample_count : Z;
  error_rate : float;
  p99_latency_ms : float;
}.

Definition no_metrics : VersionMetrics :=
  {| sample_count := 0; error_rate := 0; p99_latency_ms := 0 |}.

(** A JSON scalar of an audit detail; [dump] of a detail object is the
    library's, [None] when it throws. *)
Inductive JVal :=
| JStr (s : string)
| JInt (z : Z).

(** [Config::ValidationIssue]. *)
Inductive Severity := Warning | Error.
#[global] Instance Severity_eq_dec : EqDecision Severity.
Proof. solve_decision. Defined.
Record ValidationIssue := {
  vi_severity : Severity;
  vi_field : string;
  vi_message : string;
}.

(** The libraries and callbacks the handlers use; [Q] is the state of the
    rate-limit, quota and kill-switch callbacks. *)
Record Env (Q : Type) := {
  env_sha256 : string → string;
  env_dump : list (string * JVal) → option string;
  env_re2 : Scanner.RegexEngine;
  env_loadFromString : string → bool;
  env_diff : string → string → option (Z * string);
  env_rate_limit : string → Q → bool * Q;
  env_check_quota : string → Q → bool * Q;
  env_auto_rollback_enabled : Q → bool * Q;
  env_encryption : option Audit.Encryption;
  env_audit_store : bool;
}.
Arguments env_sha256 {Q} _.
Arguments env_dump {Q} _.
Arguments env_re2 {Q} _.
Arguments env_loadFromString {Q} _.
Arguments env_diff {Q} _.
Arguments env_rate_limit {Q} _.
Arguments env_check_quota {Q} _.
Arguments env_auto_rollback_enabled {Q} _.
Arguments env_encryption {Q} _.
Arguments env_audit_store {Q} _.

(** The store, the audit logger, the service's and the controller's clocks,
    the supply of generated identifiers, the callbacks' state and the metrics
    provider. *)
Record World (S Q : Type) := {
  w_store : S;
  w_audit : Audit.Chain * Audit.Queue;
  w_clock : Z;
  w_wall : Z;
  w_ids : nat → string;
  w_next_id : nat;
  w_quota : Q;
  w_metrics : string → Z → VersionMetrics;
}.
Arguments w_store {S Q} _.
Arguments w_audit {S Q} _.
Arguments w_clock {S Q} _.
Arguments w_wall {S Q} _.
Arguments w_ids {S Q} _.
Arguments w_next_id {S Q} _.
Arguments w_quota {S Q} _.
Arguments w_metrics {S Q} _.

(** The calls a handler makes. *)
Inductive Cmd : Type → Type :=
| Now : Cmd Z
| WallNow : Cmd Z
| GenUlid : Cmd string
| RateLimit (user : string) : Cmd bool
| CheckQuota (user : string) : Cmd bool
| AutoRollbackEnabled : Cmd bool
| ForVersion (version : string) (window : Z) : Cmd VersionMetrics
| CsInsert (r : ConfigVersion.ConfigVersionRecord) : Cmd bool
| CsUpdate (id : string) (s : ConfigVersion.ConfigStatus) (actor comment : string)
    (ts : Z) : Cmd bool
| CsGet (id : string) : Cmd (option ConfigVersion.ConfigVersionRecord)
| CsList (q : ConfigVersion.ConfigVersionQuery) : Cmd (list ConfigVersion.ConfigVersionRecord)
| CsGetActive : Cmd (option ConfigVersion.ConfigVersionRecord)
| CsActivate (id activator : string) (ts : Z) : Cmd bool
| RsInsert (r : Rollout.RolloutRecord) : Cmd bool
| RsUpdate (r : Rollout.RolloutRecord) : Cmd bool
| RsGet (id : string) : Cmd (option Rollout.RolloutRecord)
| RsFindActive (target : string) : Cmd (option Rollout.RolloutRecord)
| RsList (q : Rollout.RolloutQuery) : Cmd (list Rollout.RolloutRecord)
| Aud {B : Type} (c : Audit.AuditCmd B) : Cmd B.

Section exec.
Context {S Q : Type} `{!ConfigStoreOps S} `{!RolloutStoreOps S}.
Context (env : Env Q).

Definition with_store (s : S) (w : World S Q) : World S Q :=
  {| w_store := s; w_audit := w_audit w; w_clock := w_clock w; w_wall := w_wall w;
     w_ids := w_ids w; w_next_id := w_next_id w; w_quota := w_quota w;
     w_metrics := w_metrics w |}.

Definition with_audit (a : Audit.Chain * Audit.Queue) (w : World S Q) : World S Q :=
  {| w_store := w_store w; w_audit := a; w_clock := w_clock w; w_wall := w_wall w;
     w_ids := w_ids w; w_next_id := w_next_id w; w_quota := w_quota w;
     w_metrics := w_metrics w |}.

Definition with_quota (q : Q) (w : World S Q) : World S Q :=
  {| w_store := w_store w; w_audit := w_audit w; w_clock := w_clock w;
     w_wall := w_wall w; w_ids := w_ids w; w_next_id := w_next_id w; w_quota := q;
     w_metrics := w_metrics w |}.

Definition next_id (w : World S Q) : World S Q :=
  {| w_store := w_store w; w_audit := w_audit w; w_clock := w_clock w;
     w_wall := w_wall w; w_ids := w_ids w; w_next_id := Datatypes.S (w_next_id w);
     w_quota := w_quota w; w_metrics := w_metrics w |}.

(** A call on the store: its result and the world with the new store. *)
Definition on_store {A} (r : A * S) (w : World S Q) : A * World S Q :=
  (r.1, with_store r.2 w).

Definition on_quota {A} (r : A * Q) (w : World S Q) : A * World S Q :=
  (r.1, with_quota r.2 w).

Definition exec : ∀ B, Cmd B → World S Q → B * World S Q :=
  λ B cmd, match cmd in Cmd B return World S Q → B * World S Q with
  | Now => λ w, (w_clock w, w)
  | WallNow => λ w, (w_wall w, w)
  | GenUlid => λ w, (w_ids w (w_next_id w), next_id w)
  | RateLimit u => λ w, on_quota (env_rate_limit env u (w_quota w)) w
  | CheckQuota u => λ w, on_quota (env_check_quota env u (w_quota w)) w
  | AutoRollbackEnabled => λ w, on_quota (env_auto_rollback_enabled env (w_quota w)) w
  | ForVersion v n => λ w, (w_metrics w v n, w)
  | CsInsert r => λ w, on_store (cs_insert r (w_store w)) w
  | CsUpdate id s a c ts => λ w, on_store (cs_update id s a c ts (w_store w)) w
  | CsGet id => λ w, (cs_get id (w_store w), w)
  | CsList q => λ w, (cs_list q (w_store w), w)
  | CsGetActive => λ w, (cs_getActive (w_store w), w)
  | CsActivate id a ts => λ w, on_store (cs_activate id a ts (w_store w)) w
  | RsInsert r => λ w, on_store (rs_insert r (w_store w)) w
  | RsUpdate r => λ w, on_store (rs_update r (w_store w)) w
  | RsGet id => λ w, (rs_get id (w_store w), w)
  | RsFindActive t => λ w, (rs_findActive t (w_store w), w)
  | RsList q => λ w, (rs_list q (w_store w), w)
  | Aud c => λ w,
      let '(b, a) := Audit.audit_exec (env_sha256 env) _ c (w_audit w) in (b, with_audit a w)
  end.

End exec.

(** The two parts of a persistent store do not disturb each other. *)
Class PersistentStoreLaws (S : Type) `{!ConfigStoreOps S} `{!RolloutStoreOps S} : Prop := {
  ps_config :: ConfigStoreLaws S;
  ps_rollout :: RolloutStoreLaws S;
  ps_insert_frame r (s : S) : rs_view (cs_insert r s).2 = rs_view s;
  ps_update_frame id st a c ts (s : S) : rs_view (cs_update id st a c ts s).2 = rs_view s;
  ps_activate_frame id a ts (s : S) : rs_view (cs_activate id a ts s).2 = rs_view s;
  ps_rinsert_frame r (s : S) : cs_view (rs_insert r s).2 = cs_view s;
  ps_rupdate_frame r (s : S) : cs_view (rs_update r s).2 = cs_view s;
}.

(** ** The in-memory store *)

(** The configuration and rollout tables of [MemoryPersistentStore]. *)
Record MemoryStore := {
  ms_config : MemoryConfigStore.ConfigTable;
  ms_rollout : MemoryRolloutStore.RolloutTable;
}.

Definition empty_store : MemoryStore :=
  {| ms_config := MemoryConfigStore.empty_table;
     ms_rollout := MemoryRolloutStore.empty_table |}.

Definition on_config {A} (f : MemoryConfigStore.ConfigTable → A * MemoryConfigStore.ConfigTable)
    (s : MemoryStore) : A * MemoryStore :=
  let '(a, t) := f (ms_config s) in (a, {| ms_config := t; ms_rollout := ms_rollout s |}).

Definition on_rollout {A}
    (f : MemoryRolloutStore.RolloutTable → A * MemoryRolloutStore.RolloutTable)
    (s : MemoryStore) : A * MemoryStore :=
  let '(a, t) := f (ms_rollout s) in (a, {| ms_config := ms_config s; ms_rollout := t |}).

#[global] Instance memory_config_ops `{UnorderedIter} : ConfigStoreOps MemoryStore := {|
  cs_insert r := on_config (cs_insert r);
  cs_update id st a c ts := on_config (cs_update id st a c ts);
  cs_get id s := cs_get id (ms_config s);
  cs_list q s := cs_list q (ms_config s);
  cs_getActive s := cs_getActive (ms_config s);
  cs_activate id a ts := on_config (cs_activate id a ts);
  cs_view s := cs_view (ms_config s);
|}.

#[global] Instance memory_rollout_ops `{UnorderedIter} : RolloutStoreOps MemoryStore := {|
  rs_insert r := on_rollout (rs_insert r);
  rs_update r := on_rollout (rs_update r);
  rs_get id s := rs_get id (ms_rollout s);
  rs_findActive t s := rs_findActive t (ms_rollout s);
  rs_list q s := rs_list q (ms_rollout s);
  rs_view s := rs_view (ms_rollout s);
|}.

Lemma on_config_inv {A} (f : MemoryConfigStore.ConfigTable → A * _) s a s' :
  on_config f s = (a, s') → f (ms_config s) = (a, ms_config s') ∧ ms_rollout s' = ms_rollout s.
Proof. unfold on_config. destruct (f (ms_config s)). by intros [= <- <-]. Qed.

Lemma on_rollout_inv {A} (f : MemoryRolloutStore.RolloutTable → A * _) s a s' :
  on_rollout f s = (a, s') → f (ms_rollout s) = (a, ms_rollout s') ∧ ms_config s' = ms_config s.
Proof. unfold on_rollout. destruct (f (ms_rollout s)). by intros [= <- <-]. Qed.

#[global] Instance memory_config_laws `{UnorderedIter} : ConfigStoreLaws MemoryStore.
Proof.
  split; intros *; cbn [cs_insert cs_update cs_get cs_list cs_getActive cs_activate cs_view
    memory_config_ops].
  - intros [H1 _]%on_config_inv. by apply cs_insert_true in H1.
  - intros [H1 _]%on_config_inv. by apply cs_insert_false in H1.
  - intros [H1 _]%on_config_inv. by apply cs_update_true in H1.
  - intros [H1 _]%on_config_inv. by apply cs_update_false in H1.
  - apply cs_get_view.
  - apply cs_getActive_view.
  - intros [H1 _]%on_config_inv. by apply cs_activate_true in H1.
  - intros [H1 _]%on_config_inv. by apply cs_activate_false in H1.
  - apply cs_list_sound.
  - apply cs_list_complete.
Qed.

#[global] Instance memory_rollout_laws `{UnorderedIter} : RolloutStoreLaws MemoryStore.
Proof.
  split; intros *; cbn [rs_insert rs_update rs_get rs_findActive rs_list rs_view
    memory_rollout_ops].
  - intros [H1 _]%on_rollout_inv. by apply rs_insert_true in H1.
  - intros [H1 _]%on_rollout_inv. by apply rs_insert_false in H1.
  - intros [H1 _]%on_rollout_inv. by apply rs_update_true in H1.
  - intros [H1 _]%on_rollout_inv. by apply rs_update_false in H1.
  - apply rs_get_view.
  - apply rs_findActive_some.
  - apply rs_findActive_none.
  - apply rs_list_sound.
  - apply rs_list_complete.
Qed.

#[global] Instance memory_store_laws `{UnorderedIter} : PersistentStoreLaws MemoryStore.
Proof.
  split; try apply _; intros *; simpl.
  - unfold on_config. by destruct (MemoryConfigStore.insertConfigVersion _ _).
  - unfold on_config. by destruct (MemoryConfigStore.updateConfigStatus _ _ _ _ _ _).
  - unfold on_config. by destruct (MemoryConfigStore.activateConfig _ _ _ _).
  - unfold on_rollout. by destruct (MemoryRolloutStore.insertRollout _ _).
  - unfold on_rollout. by destruct (MemoryRolloutStore.updateRollout _ _).
Qed.

(** ** The audit bridges *)

Module AuditBridge.
Import Audit.

(** [dumpJson]: ["{}"] when the library throws. *)
Definition dumpJson {Q} (env : Env Q) (d : list (string * JVal)) : string :=
  default "{}" (env_dump env d).

(** The entry every [record*] logs: a fresh identifier, the control-plane
    stage, the system tenant, and no timestamp. *)
Definition bridge_entry (req act det : string) : AuditEntry :=
  {| request_id := req; timestamp := ""; tenant_id := "system"; action := act;
     stage_name := "control_plane"; detail := det; input_hash := "";
     output_hash := ""; chain_hash := "" |}.

Definition record {Q} (env : Env Q) (act : string) (d : list (string * JVal)) :
    prog Cmd unit :=
  req ← call GenUlid;
  translate (@Aud) (log (env_audit_store env) (env_encryption env)
                      (bridge_entry req act (dumpJson env d))).

Section records.
Context {Q : Type} (env : Env Q).

Definition recordSubmit (rec : ConfigVersion.ConfigVersionRecord) : prog Cmd unit :=
  record env "config.submit"
    [("version_id", JStr (ConfigVersion.version_id rec));
     ("sha256", JStr (ConfigVersion.content_sha256 rec));
     ("size", JInt (ConfigVersion.size_bytes rec));
     ("submitter", JStr (ConfigVersion.submitter rec));
     ("comment", JStr (ConfigVersion.submitter_comment rec))].

Definition recordApprove (version_id reviewer comment : string) : prog Cmd unit :=
  record env "config.approve"
    [("version_id", JStr version_id); ("reviewer", JStr reviewer);
     ("reviewer_comment", JStr comment)].

Definition recordReject (version_id reviewer comment : string) : prog Cmd unit :=
  record env "config.reject"
    [("version_id", JStr version_id); ("reviewer", JStr reviewer);
     ("reviewer_comment", JStr comment)].

Definition recordActivate (version_id activator previous_active : string) : prog Cmd unit :=
  record env "config.activate"
    [("version_id", JStr version_id); ("activator", JStr activator);
     ("previous_active", JStr previous_active)].

Definition recordRollback (target_id actor previous_active comment : string) :
    prog Cmd unit :=
  record env "config.rollback"
    [("target_version_id", JStr target_id); ("actor", JStr actor);
     ("previous_active", JStr previous_active); ("comment", JStr comment)].
End records.
End AuditBridge.

Module RolloutAuditBridge.
Import Rollout.

(** [baseDetail]. *)
Definition baseDetail (r : RolloutRecord) : list (string * JVal) :=
  [("rollout_id", JStr (rollout_id r));
   ("target_version_id", JStr (target_version_id r));
   ("status", JStr (rolloutStatusToString (status r)));
   ("current_stage_index", JInt (current_stage_index r))].

Section records.
Context {Q : Type} (env : Env Q).

Definition recordCreated (r : RolloutRecord) (actor : string) : prog Cmd unit :=
  AuditBridge.record env "rollout.created" (baseDetail r ++ [("actor", JStr actor)]).

Definition recordStarted (r : RolloutRecord) (actor : string) : prog Cmd unit :=
  AuditBridge.record env "rollout.started"
    (baseDetail r ++ [("actor", JStr actor);
      ("previous_active_version_id", JStr (previous_active_version_id r));
      ("started_at", JInt (started_at r))]).

Definition recordStagePromoted (r : RolloutRecord) (from_stage_index to_stage_index : Z)
    (actor : string) : prog Cmd unit :=
  AuditBridge.record env "rollout.stage_promoted"
    (baseDetail r ++ [("actor", JStr actor);
      ("from_stage_index", JInt from_stage_index);
      ("to_stage_index", JInt to_stage_index);
      ("stage_started_at", JInt (stage_started_at r))]).

Definition recordPausedManual (r : RolloutRecord) (actor comment : string) : prog Cmd unit :=
  AuditBridge.record env "rollout.paused_manual"
    (baseDetail r ++ [("actor", JStr actor); ("comment", JStr comment);
      ("paused_at", JInt (paused_at r)); ("reason", JStr (pauseReasonToString MANUAL))]).

Definition recordPausedAuto (r : RolloutRecord) (reason : PauseReason)
    (detail_text : string) : prog Cmd unit :=
  AuditBridge.record env "rollout.paused_auto"
    (baseDetail r ++ [("reason", JStr (pauseReasonToString reason));
      ("detail", JStr detail_text); ("paused_at", JInt (paused_at r))]).

Definition recordResumed (r : RolloutRecord) (actor : string) : prog Cmd unit :=
  AuditBridge.record env "rollout.resumed" (baseDetail r ++ [("actor", JStr actor)]).

Definition recordAutoRollbackTriggered (r : RolloutRecord) (detail_text : string) :
    prog Cmd unit :=
  AuditBridge.record env "rollout.auto_rollback_triggered"
    (baseDetail r ++ [("detail", JStr detail_text)]).

Definition recordAutoRollbackCompleted (r : RolloutRecord)
    (new_active_version_id : string) : prog Cmd unit :=
  AuditBridge.record env "rollout.auto_rollback_completed"
    (baseDetail r ++ [("new_active_version_id", JStr new_active_version_id)]).

Definition recordAborted (r : RolloutRecord) (actor : string) : prog Cmd unit :=
  AuditBridge.record env "rollout.aborted" (baseDetail r ++ [("actor", JStr actor)]).

Definition recordCompleted (r : RolloutRecord) (new_active_version_id : string) :
    prog Cmd unit :=
  AuditBridge.record env "rollout.completed"
    (baseDetail r ++ [("new_active_version_id", JStr new_active_version_id);
      ("completed_at", JInt (completed_at r))]).

Definition recordFailed (r : RolloutRecord) (reason : string) : prog Cmd unit :=
  AuditBridge.record env "rollout.failed" (baseDetail r ++ [("reason", JStr reason)]).
End records.
End RolloutAuditBridge.
