(* ===== verification/ConfigService.v ===== *)
(** * ConfigService: the dual-approval configuration workflow

    Models [src/src/control_plane/config_service_core.cpp]: submission with
    its gates, review, activation, rollback and the read operations, as
    programs over the calls of ControlPlane.  The theorems are proved against
    the store interface, for any store that meets its laws: sequentially every
    handler refines the abstract step relation [cfg_step]; under any
    interleaving of handlers the four-eyes and single-active invariants hold;
    and the interleavings that break more than that are exhibited. *)
From stdpp Require Import pretty.
From S2P Require Import Prelude.
From S2P Require Import Prog.
From S2P Require Import ConfigVersion.
From S2P Require Import ConfigStore.
From S2P Require Import RolloutStore.
From S2P Require Import AuditLog.
From S2P Require Import Scanner.
From S2P Require Import Diff.
From S2P Require Import ControlPlane.
Import ConfigVersion StateMachine.
Local Open Scope Z_scope.

Module ConfigService.

(** [Deps]: which dependencies are present, and the validator. *)
Record Deps := {
  has_store : bool;
  has_audit : bool;
  validator : option (string → list ValidationIssue);
  has_rate_limit : bool;
}.

(** [SubmitResult] and [MutationResult]; [""] is success. *)
Record Result := {
  record : ConfigVersionRecord;
  error_code : string;
  error_message : string;
}.

Record DiffResult := {
  unified_diff : string;
  d_error_code : string;
  d_error_message : string;
}.

Definition kMaxBundleBytes : Z := 1024 * 1024.

Definition ok (r : ConfigVersionRecord) : Result :=
  {| record := r; error_code := ""; error_message := "" |}.
Definition err (r : ConfigVersionRecord) (code msg : string) : Result :=
  {| record := r; error_code := code; error_message := msg |}.

(** The "sensitive field(s) detected" message. *)
Definition finding_text (f : Scanner.SensitiveFinding) : string :=
  Scanner.f_field_name f +:+ " (line " +:+ pretty (Scanner.f_line f) +:+ ")".

Fixpoint join (sep : string) (l : list string) : string :=
  match l with
  | [] => ""
  | [x] => x
  | x :: l => x +:+ sep +:+ join sep l
  end.

(** The errors among the validator's issues, as the message lists them. *)
Definition validation_errors (issues : list ValidationIssue) : list string :=
  (λ i, vi_field i +:+ ": " +:+ vi_message i) <$>
  base.filter (λ i, vi_severity i = Error) issues.

(** The versions a submission is compared with. *)
Definition live_query : ConfigVersionQuery :=
  {| q_statuses := [PENDING; APPROVED; ACTIVE]; q_since_millis := 0; q_limit := 500;
     q_page_token := "" |}.

(** The record as [submit] fills it in. *)
Definition submit_record (version_id sha yaml : string) (status : ConfigStatus)
    (submitter comment : string) (ts size : Z) : ConfigVersionRecord :=
  {| version_id := version_id; content_sha256 := sha; yaml_content := yaml;
     size_bytes := size; status := status; submitter := submitter;
     submitter_comment := comment; submitted_at := ts; reviewer := "";
     reviewer_comment := ""; reviewed_at := 0; activator := ""; activated_at := 0;
     deactivated_at := 0; chain_hash := "" |}.

Section service.
Context {Q : Type} (env : Env Q) (deps : Deps).

(** The gates of [submit] that need no store: the error, if any. *)
Definition submit_gate (yaml : string) : option (string * string) :=
  if kMaxBundleBytes <? Z.of_nat (String.length yaml) then
    Some ("PAYLOAD_TOO_LARGE", "yaml_content exceeds 1 MiB limit")
  else
    let findings := Scanner.scan (env_re2 env) yaml in
    match findings with
    | _ :: _ =>
        Some ("SENSITIVE_FIELD_DETECTED",
              "sensitive field(s) detected: " +:+ join ", " (finding_text <$> findings))
    | [] =>
        if negb (env_loadFromString env yaml) then
          Some ("INVALID_YAML", "yaml_content is not a valid YAML document")
        else
          match validator deps with
          | Some v =>
              match validation_errors (v yaml) with
              | [] => None
              | es => Some ("CONFIG_VALIDATION_FAILED", join "; " es)
              end
          | None => None
          end
    end.

Definition submit (yaml submitter_user_id submitter_comment : string)
    (validate_only : bool) : prog Cmd Result :=
  let size := Z.of_nat (String.length yaml) in
  let r := submit_record "" "" "" PENDING submitter_user_id submitter_comment 0 size in
  match submit_gate yaml with
  | Some (code, msg) => Ret (err r code msg)
  | None =>
      let sha := env_sha256 env yaml in
      let r := submit_record "" sha "" PENDING submitter_user_id submitter_comment 0 size in
      existing ← (if has_store deps then call (CsList live_query) else Ret []);
      match list_find (λ rec, content_sha256 rec = sha) existing with
      | Some (_, rec) =>
          Ret (err r "ALREADY_EXISTS"
            ("a live version with this content already exists: " +:+ version_id rec))
      | None =>
          allowed ← (if has_rate_limit deps then call (RateLimit submitter_user_id)
                     else Ret true);
          if negb allowed
          then Ret (err r "RATE_LIMITED" "too many submissions from this user")
          else
            ts ← call Now;
            let r := submit_record "" sha yaml PENDING submitter_user_id
                       submitter_comment ts size in
            if validate_only : bool then Ret (ok r)
            else
              id ← call GenUlid;
              let rec := submit_record id sha yaml PENDING submitter_user_id
                           submitter_comment ts size in
              stored ← (if has_store deps then call (CsInsert rec) else Ret true);
              if negb stored
              then Ret (err r "INTERNAL" "failed to persist config version")
              else
                when_ (has_audit deps) (AuditBridge.recordSubmit env rec);;
                Ret (ok rec)
      end
  end.

Definition no_store : Result :=
  err empty_record "INTERNAL" "no persistent store configured".

(** [transitionReview]. *)
Definition transitionReview (id reviewer comment : string) (target : ConfigStatus)
    (audit_action : string) : prog Cmd Result :=
  if negb (has_store deps) then Ret no_store
  else
    existing ← call (CsGet id);
    match existing with
    | None => Ret (err empty_record "NOT_FOUND" ("unknown version_id: " +:+ id))
    | Some existing =>
        if bool_decide (submitter existing = reviewer)
        then Ret (err empty_record "PERMISSION_DENIED" "reviewer must differ from submitter")
        else
          let action := if bool_decide (target = APPROVED) then APPROVE else REJECT in
          if negb (bool_decide (next (status existing) action = Some target)) then
            Ret (err empty_record "FAILED_PRECONDITION"
              ("cannot transition from " +:+ configStatusToString (status existing) +:+
               " via " +:+ (if bool_decide (action = APPROVE) then "approve" else "reject")))
          else
            ts ← call Now;
            done ← call (CsUpdate id target reviewer comment ts);
            if negb done
            then Ret (err empty_record "INTERNAL" "failed to persist status transition")
            else
              updated ← call (CsGet id);
              match updated with
              | None =>
                  Ret (err empty_record "INTERNAL" "version disappeared after update")
              | Some updated =>
                  when_ (has_audit deps)
                    (if bool_decide (audit_action = "config.approve")
                     then AuditBridge.recordApprove env id reviewer comment
                     else AuditBridge.recordReject env id reviewer comment);;
                  Ret (ok updated)
              end
    end.

Definition approve (id reviewer comment : string) : prog Cmd Result :=
  transitionReview id reviewer comment APPROVED "config.approve".

Definition reject (id reviewer comment : string) : prog Cmd Result :=
  transitionReview id reviewer comment REJECTED "config.reject".

(** [prev ? prev->version_id : ""]. *)
Definition id_or_empty (r : option ConfigVersionRecord) : string :=
  from_option version_id "" r.

Definition activate (id activator : string) : prog Cmd Result :=
  if negb (has_store deps) then Ret no_store
  else
    existing ← call (CsGet id);
    match existing with
    | None => Ret (err empty_record "NOT_FOUND" ("unknown version_id: " +:+ id))
    | Some existing =>
        if negb (bool_decide (next (status existing) ACTIVATE = Some ACTIVE)) then
          Ret (err empty_record "FAILED_PRECONDITION"
            ("cannot activate from status " +:+ configStatusToString (status existing)))
        else
          prev ← call CsGetActive;
          let previous_id := id_or_empty prev in
          ts ← call Now;
          done ← call (CsActivate id activator ts);
          if negb done then Ret (err empty_record "INTERNAL" "activateConfig failed")
          else
            updated ← call (CsGet id);
            match updated with
            | None =>
                Ret (err empty_record "INTERNAL" "version disappeared after activation")
            | Some updated =>
                when_ (has_audit deps)
                  (AuditBridge.recordActivate env id activator previous_id);;
                Ret (ok updated)
            end
    end.

Definition rollback (id activator comment : string) (emergency : bool) :
    prog Cmd Result :=
  if emergency then
    Ret (err empty_record "EMERGENCY_NOT_IMPLEMENTED"
      "emergency rollback is reserved for Phase 12")
  else if negb (has_store deps) then Ret no_store
  else
    target ← call (CsGet id);
    match target with
    | None => Ret (err empty_record "NOT_FOUND" ("unknown target version_id: " +:+ id))
    | Some target =>
        match next (status target) ROLLBACK_TO with
        | None =>
            Ret (err empty_record "FAILED_PRECONDITION"
              ("target status " +:+ configStatusToString (status target) +:+
               " cannot be rolled back to; use ActivateVersion for " +:+
               "approved-but-not-activated versions"))
        | Some _ =>
            prev ← call CsGetActive;
            let previous_id := id_or_empty prev in
            let finish (r : ConfigVersionRecord) : prog Cmd Result :=
              when_ (has_audit deps)
                (AuditBridge.recordRollback env id activator previous_id comment);;
              Ret (ok r) in
            if bool_decide (status target = ACTIVE) then finish target
            else
              ts ← call Now;
              done ← call (CsActivate id activator ts);
              if negb done
              then Ret (err empty_record "INTERNAL" "activateConfig failed during rollback")
              else
                updated ← call (CsGet id);
                match updated with
                | None =>
                    Ret (err empty_record "INTERNAL" "version disappeared after rollback")
                | Some updated => finish updated
                end
        end
    end.

(** ** Read operations *)

Definition listVersions (q : ConfigVersionQuery) : prog Cmd (list ConfigVersionRecord) :=
  if negb (has_store deps) then Ret []
  else out ← call (CsList q); Ret (map clear_yaml out).

Definition getVersion (id : string) : prog Cmd (option ConfigVersionRecord) :=
  if negb (has_store deps) then Ret None else call (CsGet id).

Definition getActive : prog Cmd (option ConfigVersionRecord) :=
  if negb (has_store deps) then Ret None else call CsGetActive.

Definition diff_err (code msg : string) : DiffResult :=
  {| unified_diff := ""; d_error_code := code; d_error_message := msg |}.

Definition diffVersions (from_id to_id : string) : prog Cmd DiffResult :=
  if negb (has_store deps)
  then Ret (diff_err "INTERNAL" "no persistent store configured")
  else
    from ← call (CsGet from_id);
    to ← call (CsGet to_id);
    match from, to with
    | None, _ => Ret (diff_err "NOT_FOUND" ("unknown from version_id: " +:+ from_id))
    | Some _, None => Ret (diff_err "NOT_FOUND" ("unknown to version_id: " +:+ to_id))
    | Some f, Some t =>
        Ret {| unified_diff := Diff.unifiedDiff (env_diff env) (yaml_content f)
                                  (yaml_content t);
                d_error_code := ""; d_error_message := "" |}
    end.

(** The mutating requests a server accepts. *)
Inductive Request :=
| Submit (yaml submitter comment : string) (validate_only : bool)
| Approve (id reviewer comment : string)
| Reject (id reviewer comment : string)
| Activate (id activator : string)
| Rollback (id activator comment : string) (emergency : bool).

Definition handle (req : Request) : prog Cmd Result :=
  match req with
  | Submit y s c v => submit y s c v
  | Approve id w c => approve id w c
  | Reject id w c => reject id w c
  | Activate id w => activate id w
  | Rollback id w c e => rollback id w c e
  end.

End service.

(** ** Views: what the handlers do to a store *)

(** Versions are never removed and a submission never changes. *)
Definition cfg_grow (v v' : CView) : Prop :=
  ∀ id r, cv_versions v !! id = Some r →
    ∃ r', cv_versions v' !! id = Some r' ∧ same_submission r r'.

#[global] Instance cfg_grow_preorder : PreOrder cfg_grow.
Proof.
  split.
  - intros v id r Hr. by exists r.
  - intros v1 v2 v3 H12 H23 id r Hr.
    destruct (H12 id r Hr) as (r' & Hr' & ?). destruct (H23 id r' Hr') as (r'' & ? & ?).
    exists r''. split; [done|]. by etrans.
Qed.

Lemma review_record_same st a c ts r : same_submission r (review_record st a c ts r).
Proof. unfold review_record. by destruct (_ || _). Qed.

Lemma activate_lookup id who ts v j r' :
  cv_versions (activate_view id who ts v) !! j = Some r' →
  ∃ r, cv_versions v !! j = Some r ∧
    ((j = id ∧ r' = promote_record who ts r) ∨
     (j ≠ id ∧ j = cv_active v ∧ cv_active v ≠ "" ∧ r' = demote_record ts r) ∨
     (j ≠ id ∧ (j ≠ cv_active v ∨ cv_active v = "") ∧ r' = r)).
Proof.
  unfold activate_view; simpl.
  destruct (negb (str_empty (cv_active v)) && bool_decide (cv_active v ≠ id)) eqn:E.
  - apply andb_true_iff in E as [Hne%negb_true_iff Hid%bool_decide_eq_true].
    apply str_empty_false in Hne.
    intros [(<- & x & Hx & ->)|[Hj Hx]]%lookup_alter_Some.
    + rw lookup_alter_ne // in Hx. eauto 10.
    + apply lookup_alter_Some in Hx as [(<- & x & Hx & ->)|[Hj' Hx]]; eauto 10.
  - intros [(<- & x & Hx & ->)|[Hj Hx]]%lookup_alter_Some; [eauto 10|].
    exists r'. split; [done|]. right; right. split_and!; [done| |done].
    apply andb_false_iff in E as [Hne%negb_false_iff|Hid%bool_decide_eq_false].
    + apply str_empty_spec in Hne. by right.
    + left. intros ->. by destruct Hid.
Qed.

Lemma activate_lookup_fwd id who ts v j r :
  cv_versions v !! j = Some r →
  ∃ r', cv_versions (activate_view id who ts v) !! j = Some r' ∧ same_submission r r'.
Proof.
  intros Hr. unfold activate_view; simpl.
  destruct (negb _ && _); rw !lookup_alter;
    repeat case_decide; subst; rw Hr; (eexists; split; [reflexivity|done]).
Qed.

Lemma grow_insert id r v :
  cv_versions v !! id = None →
  cfg_grow v {| cv_versions := <[id := r]> (cv_versions v); cv_active := cv_active v |}.
Proof.
  intros Hn j r0 Hj. exists r0. split; [|done]. simpl.
  rw lookup_insert_ne //. congruence.
Qed.

Lemma grow_review id st a c ts v :
  cfg_grow v {| cv_versions := alter (review_record st a c ts) id (cv_versions v);
                cv_active := cv_active v |}.
Proof.
  intros j r Hj. simpl. rw lookup_alter. case_decide; subst; rw Hj; eexists;
    (split; [reflexivity|]); [apply review_record_same|done].
Qed.

Lemma grow_activate id who ts v : cfg_grow v (activate_view id who ts v).
Proof. intros j r. apply activate_lookup_fwd. Qed.

(** ** Invariant *)

Section invariant.
Context {Q : Type} (env : Env Q) (deps : Deps).

(** A stored version passed the submission gates, carries its content's hash
    and size, and is past PENDING only with a reviewer who is not its
    submitter. *)
Record record_ok (id : string) (r : ConfigVersionRecord) : Prop := {
  ro_id : version_id r = id;
  ro_nonempty : id ≠ "";
  ro_sha : content_sha256 r = env_sha256 env (yaml_content r);
  ro_size : size_bytes r = Z.of_nat (String.length (yaml_content r));
  ro_gate : submit_gate env deps (yaml_content r) = None;
  ro_four_eyes : status r ≠ PENDING → reviewer r ≠ submitter r;
}.

(** At most the version the active pointer names is ACTIVE, and the pointer
    names a reviewed version. *)
Record cfg_inv (v : CView) : Prop := {
  ci_records id r : cv_versions v !! id = Some r → record_ok id r;
  ci_active id r : cv_versions v !! id = Some r → status r = ACTIVE → cv_active v = id;
  ci_pointer : cv_active v ≠ "" →
    ∃ r, cv_versions v !! cv_active v = Some r ∧ status r ≠ PENDING;
}.

Lemma inv_empty : cfg_inv {| cv_versions := ∅; cv_active := "" |}.
Proof. split; simpl; [intros ??; by rw lookup_empty..|done]. Qed.

Lemma inv_insert id r v :
  cfg_inv v → cv_versions v !! id = None → record_ok id r → status r = PENDING →
  cfg_inv {| cv_versions := <[id := r]> (cv_versions v); cv_active := cv_active v |}.
Proof.
  intros Hv Hn Hr Hs. split; simpl.
  - intros j r' [[<- <-]|[? ?]]%lookup_insert_Some; [done|by apply Hv].
  - intros j r' [[<- <-]|[? ?]]%lookup_insert_Some Ha; [congruence|by eapply Hv].
  - intros Hne. destruct (ci_pointer v Hv Hne) as (r' & Hr' & ?). exists r'.
    rw lookup_insert_ne //. congruence.
Qed.

Lemma inv_review id st a c ts r v :
  cfg_inv v → cv_versions v !! id = Some r → st = APPROVED ∨ st = REJECTED →
  a ≠ submitter r →
  cfg_inv {| cv_versions := alter (review_record st a c ts) id (cv_versions v);
             cv_active := cv_active v |}.
Proof.
  intros Hv Hr Hst Ha.
  assert (status (review_record st a c ts r) = st ∧
          reviewer (review_record st a c ts r) = a) as [Hs Hrev].
  { by destruct Hst as [-> | ->]. }
  split; simpl.
  - intros j r' [(<- & x & Hx & ->)|[? Hx]]%lookup_alter_Some; [|by apply Hv].
    assert (x = r) as -> by congruence. destruct (ci_records v Hv _ _ Hx) as [].
    destruct (review_record_same st a c ts r) as (?&?&?&?&?&?&?).
    split; congruence.
  - intros j r' [(<- & x & Hx & ->)|[? Hx]]%lookup_alter_Some; [|by eapply Hv].
    assert (x = r) as -> by congruence. rw Hs. by destruct Hst as [-> | ->].
  - intros Hne. destruct (ci_pointer v Hv Hne) as (x & Hx & ?). rw lookup_alter.
    case_decide as Heq; [|by eexists]. rw Heq Hx. eexists; split; [reflexivity|].
    assert (x = r) as -> by congruence. rw Hs. by destruct Hst as [-> | ->].
Qed.

Lemma inv_activate id who ts r v :
  cfg_inv v → cv_versions v !! id = Some r → status r = APPROVED ∨ status r = SUPERSEDED →
  cfg_inv (activate_view id who ts v).
Proof.
  intros Hv Hr Hst. split.
  - intros j r' (x & Hx & Hcase)%activate_lookup.
    pose proof (ci_records v Hv _ _ Hx) as [].
    destruct Hcase as [(-> & ->)|[(_ & -> & Hne & ->)|(_ & _ & ->)]]; [..|done]; split; try done.
    + intros _. apply ro_four_eyes0. simplify_eq. destruct Hst; congruence.
    + intros _. apply ro_four_eyes0. destruct (ci_pointer v Hv Hne) as (? & ? & ?). by simplify_eq.
  - intros j r' (x & Hx & Hcase)%activate_lookup Ha.
    destruct Hcase as [(-> & ->)|[(_ & -> & _ & ->)|(_ & Hj & ->)]]; [done|done|].
    pose proof (ci_active v Hv _ _ Hx Ha) as Hact.
    pose proof (ro_nonempty _ _ (ci_records v Hv _ _ Hx)). destruct Hj; congruence.
  - intros _. destruct (activate_lookup_fwd id who ts v id r Hr) as (r' & Hr' & _).
    exists r'. split; [done|].
    apply activate_lookup in Hr' as (x & _ & [(_ & ->)|[(? & _)|(? & _)]]); done.
Qed.

End invariant.

(** ** Handlers under interleaving *)

Section concurrent.
Context {S Q : Type} `{!ConfigStoreOps S} `{!RolloutStoreOps S} `{!PersistentStoreLaws S}.
Context (env : Env Q) (deps : Deps).

(** The configuration versions of a world. *)
Definition cview (w : World S Q) : CView := cs_view (w_store w).

(** The calls that can change them. *)
Definition cfg_quiet {B} (e : Cmd B) : bool :=
  match e with CsInsert _ | CsUpdate _ _ _ _ _ | CsActivate _ _ _ => false | _ => true end.

Lemma exec_quiet {B} (e : Cmd B) w : cfg_quiet e = true → cview (exec env B e w).2 = cview w.
Proof.
  destruct e; simpl; intros Hq; try done; unfold cview; simpl.
  - apply ps_rinsert_frame.
  - apply ps_rupdate_frame.
  - by destruct (Audit.audit_exec _ _ _ _).
Qed.

Lemma quiet_record act d : quiet (exec env) cview (AuditBridge.record env act d).
Proof.
  split; [done|]. intros req. split; [intros w; by apply (exec_quiet (Aud _))|].
  intros e. unfold when_. destruct (env_audit_store env); [|done].
  split; [intros w; by apply (exec_quiet (Aud _))|done].
Qed.

Lemma quiet_when (c : bool) p : quiet (exec env) cview p → quiet (exec env) cview (when_ c p).
Proof. by destruct c. Qed.

(** Others may only add versions and move statuses; the invariant is
    [cfg_inv]. *)
Definition Rel (w w' : World S Q) : Prop := cfg_grow (cview w) (cview w').
Definition Inv (w : World S Q) : Prop := cfg_inv env deps (cview w).

#[global] Instance Rel_preorder : PreOrder Rel.
Proof.
  unfold Rel. split; [intros w; reflexivity|intros w1 w2 w3 ??; by etrans].
Qed.

Definition Safe {A} (p : prog Cmd A) (w : World S Q) : Prop :=
  safe (exec env) Rel Rel Inv (λ _ _, True) p w.

Lemma view_rel w1 w2 :
  cview w1 = cview w2 → Rel w1 w2 ∧ Rel w1 w2 ∧ (Inv w1 → Inv w2).
Proof. unfold Rel, Inv. intros ->. split_and!; [reflexivity..|done]. Qed.

Lemma Safe_ret {A} (a : A) w : Safe (Ret a) w.
Proof. by unfold Safe. Qed.

Lemma Safe_quiet {A B} (p : prog Cmd A) (k : A → prog Cmd B) w :
  quiet (exec env) cview p → (∀ a, Safe (k a) w) → Safe (p ≫= k) w.
Proof.
  intros Hq Hk. apply (safe_quiet (exec env) Rel Rel Inv cview); [apply view_rel|done|].
  intros a w' HR _. eapply safe_stable; [apply _|exact HR|apply Hk].
Qed.

(** A call that reads: the caller learns its result in the state it ran in. *)
Lemma Safe_read {A B} (e : Cmd B) (k : B → prog Cmd A) w :
  cfg_quiet e = true →
  (∀ w', Rel w w' → Inv w' → Safe (k (exec env B e w').1) w') → Safe (call e ≫= k) w.
Proof.
  intros Hq Hk w' HR HI. pose proof (exec_quiet e w' Hq) as Hv.
  destruct (view_rel w' (exec env B e w').2 (eq_sym Hv)) as (Hrel & _ & Hinv).
  split_and!; [done|by apply Hinv|]. eapply safe_stable; [apply _|exact Hrel|by apply Hk].
Qed.

Lemma Safe_insert {A} r (k : bool → prog Cmd A) w :
  record_ok env deps (version_id r) r ∨ version_id r = "" → status r = PENDING →
  (∀ b w', Safe (k b) w') → Safe (call (CsInsert r) ≫= k) w.
Proof.
  intros Hr Hs Hk w' HR HI. simpl. unfold on_store.
  destruct (cs_insert r (w_store w')) as [b s'] eqn:E. simpl.
  assert (Rel w' (with_store s' w') ∧ Inv (with_store s' w')) as [??]; [|split_and!; [done..|apply Hk]].
  unfold Rel, Inv, cview in *; simpl. destruct b.
  - apply cs_insert_true in E as (Hne & Hn & ->).
    split; [by apply grow_insert|]. apply inv_insert; [done..| |done]. naive_solver.
  - apply cs_insert_false in E as ->. done.
Qed.

Lemma Safe_update {A} id st who c ts r (k : bool → prog Cmd A) w :
  st = APPROVED ∨ st = REJECTED → cv_versions (cview w) !! id = Some r → submitter r ≠ who →
  (∀ b w', Safe (k b) w') → Safe (call (CsUpdate id st who c ts) ≫= k) w.
Proof.
  intros Hst Hr Hne Hk w' HR HI. simpl. unfold on_store.
  destruct (cs_update id st who c ts (w_store w')) as [b s'] eqn:E. simpl.
  assert (Rel w' (with_store s' w') ∧ Inv (with_store s' w')) as [??]; [|split_and!; [done..|apply Hk]].
  destruct (HR id r Hr) as (r' & Hr' & (?&?&?&?&Hsub&?&?)).
  unfold Rel, Inv, cview in *; simpl. destruct b.
  - apply cs_update_true in E as [_ ->].
    split; [apply grow_review|]. eapply inv_review; [done|done|done|congruence].
  - apply cs_update_false in E as ->. done.
Qed.

Lemma Safe_activate {A} id who ts (k : bool → prog Cmd A) w :
  (∀ b w', Safe (k b) w') → Safe (call (CsActivate id who ts) ≫= k) w.
Proof.
  intros Hk w' HR HI. simpl. unfold on_store.
  destruct (cs_activate id who ts (w_store w')) as [b s'] eqn:E. simpl.
  assert (Rel w' (with_store s' w') ∧ Inv (with_store s' w')) as [??]; [|split_and!; [done..|apply Hk]].
  unfold Rel, Inv, cview in *; simpl. destruct b.
  - apply cs_activate_true in E as (r & Hr & [(_ & _ & ->)|(Hst & ->)]); [done|].
    split; [apply grow_activate|]. by eapply inv_activate.
  - apply cs_activate_false in E as ->. done.
Qed.

Lemma quiet_call {B} (e : Cmd B) : cfg_quiet e = true → quiet (exec env) cview (call e).
Proof. intros Hq. split; [|done]. intros w. by apply exec_quiet. Qed.

End concurrent.

(** Step a handler's proof through its next call. *)
Ltac safe_step :=
  match goal with
  | |- Safe _ _ (Ret _) _ => apply Safe_ret
  | |- Safe _ _ (when_ _ _ ≫= _) _ =>
      apply Safe_quiet; [apply quiet_when;
        repeat match goal with |- context [if ?b then _ else _] => destruct b end;
        apply quiet_record|intros []]
  | |- Safe _ _ (call Now ≫= _) _ => apply Safe_quiet; [by apply quiet_call|intros ?]
  | |- Safe _ _ (call GenUlid ≫= _) _ => apply Safe_quiet; [by apply quiet_call|intros ?]
  | |- Safe _ _ (call (CsGet _) ≫= _) _ => apply Safe_quiet; [by apply quiet_call|intros [?|]]
  | |- Safe _ _ (call CsGetActive ≫= _) _ => apply Safe_quiet; [by apply quiet_call|intros ?]
  | |- Safe _ _ (call (CsActivate _ _ _) ≫= _) _ => apply Safe_activate; intros [] ?
  | |- Safe _ _ (if ?c then _ else _) _ => destruct c eqn:?
  | |- Safe _ _ (match ?c with _ => _ end) _ => destruct c eqn:?
  end.

Section concurrent_handlers.
Context {S Q : Type} `{!ConfigStoreOps S} `{!RolloutStoreOps S} `{!PersistentStoreLaws S}.
Context (env : Env Q) (deps : Deps).

Lemma review_safe id who c st act (w : World S Q) :
  st = APPROVED ∨ st = REJECTED →
  Safe env deps (transitionReview env deps id who c st act) w.
Proof.
  intros Hst. unfold transitionReview. destruct (negb (has_store deps)); [apply Safe_ret|].
  apply Safe_read; [done|]. intros w' _ _.
  change (exec env _ (CsGet id) w').1 with (cs_get id (w_store w')). rw cs_get_view.
  destruct (cv_versions _ !! id) as [r|] eqn:Hr; [|apply Safe_ret].
  destruct (bool_decide (submitter r = who)) eqn:Hsub; [apply Safe_ret|].
  apply bool_decide_eq_false in Hsub. safe_step; [apply Safe_ret|]. safe_step.
  eapply Safe_update; [done|done|done|]. intros [] ?; cbn [negb]; repeat safe_step.
Qed.

Lemma submit_gate_record yaml id who c ts :
  submit_gate env deps yaml = None → id ≠ "" →
  record_ok env deps id (submit_record id (env_sha256 env yaml) yaml PENDING who c ts
    (Z.of_nat (String.length yaml))).
Proof. intros Hg Hid. by split. Qed.

Lemma submit_safe y who c v (w : World S Q) : Safe env deps (submit env deps y who c v) w.
Proof.
  unfold submit. destruct (submit_gate env deps y) as [[code msg]|] eqn:Hg; [apply Safe_ret|].
  apply Safe_quiet; [destruct (has_store deps); [by apply quiet_call|done]|]. intros ex.
  destruct (list_find _ _) as [[]|]; [apply Safe_ret|].
  apply Safe_quiet; [destruct (has_rate_limit deps); [by apply quiet_call|done]|].
  intros []; cbn [negb]; repeat safe_step. destruct (has_store deps).
  - apply Safe_insert; [|done|intros [] ?; cbn [negb]; repeat safe_step].
    match goal with |- record_ok _ _ ?i _ ∨ _ => destruct (decide (i = "")) end; [by right|].
    left. by apply submit_gate_record.
  - apply Safe_quiet; [done|]. intros []; cbn [negb]; repeat safe_step.
Qed.

Lemma handle_safe req (w : World S Q) : Safe env deps (handle env deps req) w.
Proof.
  destruct req as [y who c v|id who c|id who c|id who|id who c []]; cbn [handle].
  - apply submit_safe.
  - apply review_safe. by left.
  - apply review_safe. by right.
  - unfold activate. repeat safe_step.
  - apply Safe_ret.
  - unfold rollback. cbv zeta. repeat safe_step.
Qed.

(** What the environment may do between calls: anything that does not touch
    the configuration versions. *)
Definition env_step (w w' : World S Q) : Prop := cview w' = cview w.

(** A server: any number of requests, each starting at any time. *)
Definition is_request (p : prog Cmd Result) : Prop := ∃ req, p = handle env deps req.

Lemma server_inv ts ts' (w w' : World S Q) :
  Inv env deps w → Forall (λ p, Safe env deps p w) ts →
  rtc (pool_step (exec env) env_step is_request) (ts, w) (ts', w') →
  Inv env deps w' ∧ cfg_grow (cview w) (cview w') ∧ Forall (λ p, Safe env deps p w') ts'.
Proof.
  intros HI Hts Hsteps.
  destruct (pool_safe (exec env) Rel Rel (Inv env deps) (λ _ _, True) env_step is_request
    ts w ts' w') as (HR & HI' & Hts'); [done|intros w1; reflexivity| | |done|done|done|done].
  - intros w1 w2 Hv. destruct (view_rel env deps w1 w2) as (?&?&?); [done|]. auto.
  - intros p w1 [req ->]. apply handle_safe.
Qed.

End concurrent_handlers.

(** ** Sequential refinement *)

(** What a caller sees: an error code, or the record of a success. *)
Definition outcome (r : Result) : string + ConfigVersionRecord :=
  if str_empty (error_code r) then inr (record r) else inl (error_code r).

(** The version a request is about, the action it asks for, and who reviews. *)
Definition request_id (req : Request) : option string :=
  match req with
  | Submit _ _ _ _ => None
  | Approve id _ _ | Reject id _ _ | Activate id _ => Some id
  | Rollback id _ _ emergency => if emergency : bool then None else Some id
  end.
Definition request_action (req : Request) : option ConfigAction :=
  match req with
  | Submit _ _ _ _ => None
  | Approve _ _ _ => Some APPROVE
  | Reject _ _ _ => Some REJECT
  | Activate _ _ => Some ACTIVATE
  | Rollback _ _ _ emergency => if emergency : bool then None else Some ROLLBACK_TO
  end.
Definition review_by (req : Request) : option (string * string) :=
  match req with
  | Approve id who _ | Reject id who _ => Some (id, who)
  | _ => None
  end.

(** What the dependencies answer a request: the store's list of live versions,
    the limiter, the clock, the identifier generator, and whether the store
    carries out the write that is asked of it. *)
Record Answers := {
  an_listed : list ConfigVersionRecord;
  an_allowed : bool;
  an_time : Z;
  an_id : string;
  an_stored : bool;
}.

Section spec.
Context {Q : Type} (env : Env Q) (deps : Deps) (an : Answers).

(** The record of a submission. *)
Definition submission (y s c : string) : ConfigVersionRecord :=
  submit_record (an_id an) (env_sha256 env y) y PENDING s c (an_time an) (Z.of_nat (String.length y)).

(** A submission that passes the gates, is no duplicate and is within the
    limit. *)
Definition submittable (y : string) : Prop :=
  submit_gate env deps y = None ∧
  (∀ r, r ∈ an_listed an → content_sha256 r ≠ env_sha256 env y) ∧
  an_allowed an = true.

(** A request on the version [r] of [id] that the lifecycle allows, and, for a
    review, by someone else than its submitter. *)
Definition permitted (v : CView) (req : Request) (id : string) (r : ConfigVersionRecord) : Prop :=
  request_id req = Some id ∧ cv_versions v !! id = Some r ∧
  (∃ a, request_action req = Some a ∧ is_Some (next (status r) a)) ∧
  ∀ who, review_by req = Some (id, who) → submitter r ≠ who.

(** The contract of the service over the abstract view: the outcome a request
    has, by the view and the answers of the dependencies, and what it does to
    the versions. *)
Inductive cfg_step (v : CView) : Request → string + ConfigVersionRecord → CView → Prop :=
| step_submit_gate y s c o code msg :
    submit_gate env deps y = Some (code, msg) →
    cfg_step v (Submit y s c o) (inl code) v
| step_submit_exists y s c o id r :
    submit_gate env deps y = None → r ∈ an_listed an → cv_versions v !! id = Some r →
    content_sha256 r = env_sha256 env y →
    status r = PENDING ∨ status r = APPROVED ∨ status r = ACTIVE →
    cfg_step v (Submit y s c o) (inl "ALREADY_EXISTS") v
| step_submit_limited y s c o :
    submit_gate env deps y = None →
    (∀ r, r ∈ an_listed an → content_sha256 r ≠ env_sha256 env y) →
    has_rate_limit deps = true → an_allowed an = false →
    cfg_step v (Submit y s c o) (inl "RATE_LIMITED") v
| step_submit_dry y s c :
    submittable y →
    cfg_step v (Submit y s c true)
      (inr (submit_record "" (env_sha256 env y) y PENDING s c (an_time an)
              (Z.of_nat (String.length y)))) v
| step_submit_refused y s c :
    submittable y → an_stored an = false →
    cfg_step v (Submit y s c false) (inl "INTERNAL") v
| step_submit y s c :
    submittable y → an_stored an = true → an_id an ≠ "" → cv_versions v !! an_id an = None →
    cfg_step v (Submit y s c false) (inr (submission y s c))
      {| cv_versions := <[an_id an := submission y s c]> (cv_versions v); cv_active := cv_active v |}
| step_missing req id :
    request_id req = Some id → cv_versions v !! id = None →
    cfg_step v req (inl "NOT_FOUND") v
| step_self_review req id r who :
    cv_versions v !! id = Some r → review_by req = Some (id, who) → submitter r = who →
    cfg_step v req (inl "PERMISSION_DENIED") v
| step_illegal req id r a :
    request_id req = Some id → request_action req = Some a →
    cv_versions v !! id = Some r → next (status r) a = None →
    (∀ who, review_by req = Some (id, who) → submitter r ≠ who) →
    cfg_step v req (inl "FAILED_PRECONDITION") v
| step_emergency id who c :
    cfg_step v (Rollback id who c true) (inl "EMERGENCY_NOT_IMPLEMENTED") v
| step_store_refused req id r :
    permitted v req id r → an_stored an = false →
    (request_action req = Some ROLLBACK_TO → status r ≠ ACTIVE) →
    cfg_step v req (inl "INTERNAL") v
| step_approve id who c r :
    cv_versions v !! id = Some r → submitter r ≠ who → next (status r) APPROVE = Some APPROVED →
    an_stored an = true →
    cfg_step v (Approve id who c) (inr (review_record APPROVED who c (an_time an) r))
      {| cv_versions := alter (review_record APPROVED who c (an_time an)) id (cv_versions v);
         cv_active := cv_active v |}
| step_reject id who c r :
    cv_versions v !! id = Some r → submitter r ≠ who → next (status r) REJECT = Some REJECTED →
    an_stored an = true →
    cfg_step v (Reject id who c) (inr (review_record REJECTED who c (an_time an) r))
      {| cv_versions := alter (review_record REJECTED who c (an_time an)) id (cv_versions v);
         cv_active := cv_active v |}
| step_activate id who r :
    cv_versions v !! id = Some r → next (status r) ACTIVATE = Some ACTIVE → an_stored an = true →
    cfg_step v (Activate id who) (inr (promote_record who (an_time an) r))
      (activate_view id who (an_time an) v)
| step_rollback_noop id who c r :
    cv_versions v !! id = Some r → status r = ACTIVE →
    cfg_step v (Rollback id who c false) (inr r) v
| step_rollback id who c r :
    cv_versions v !! id = Some r → status r = SUPERSEDED → an_stored an = true →
    cfg_step v (Rollback id who c false) (inr (promote_record who (an_time an) r))
      (activate_view id who (an_time an) v).

(** The contract is deterministic: the view and the answers of the
    dependencies fix the outcome. *)
Lemma cfg_step_det v req o1 v1 o2 v2 :
  cfg_step v req o1 v1 → cfg_step v req o2 v2 → o1 = o2 ∧ v1 = v2.
Proof.
  intros H1 H2. destruct H1; inversion H2; simplify_eq/=; try done.
  all: unfold submittable, permitted in *; destruct_and?; simplify_eq/=; try done.
  all: try naive_solver.
  all: try congruence.
  all: try by match goal with H : ∃ a, _ ∧ is_Some _ |- _ => destruct H as (? & ? & [? ?]); congruence end.
  all: try (destruct req as [| | | |? ? ? []]; naive_solver).
  all: destruct (status r) eqn:?; naive_solver congruence.
Qed.
End spec.

Section refinement.
Context {S Q : Type} `{!ConfigStoreOps S} `{!RolloutStoreOps S} `{!PersistentStoreLaws S}.
Context (env : Env Q) (deps : Deps) (Hstore : has_store deps = true).

Lemma submit_gate_code y code msg :
  submit_gate env deps y = Some (code, msg) → str_empty code = false.
Proof. unfold submit_gate. intros H. branch; done. Qed.

Lemma outcome_err r code msg : str_empty code = false → outcome (err r code msg) = inl code.
Proof. unfold outcome; simpl. by intros ->. Qed.

Lemma outcome_ok r : outcome (ok r) = inr r.
Proof. done. Qed.

Lemma activate_view_self id who ts v r :
  cv_versions v !! id = Some r →
  cv_versions (activate_view id who ts v) !! id = Some (promote_record who ts r).
Proof.
  intros Hr. destruct (activate_lookup_fwd id who ts v id r Hr) as (r' & Hr' & _).
  rw Hr'. apply activate_lookup in Hr' as (x & Hx & [(_ & ->)|[(? & _)|(? & _)]]); congruence.
Qed.

(** What the dependencies of a world answer a request. *)
Definition answers (w : World S Q) (req : Request) : Answers :=
  {| an_listed := cs_list live_query (w_store w);
     an_allowed := match req with
                   | Submit _ s _ _ =>
                       if has_rate_limit deps then (env_rate_limit env s (w_quota w)).1 else true
                   | _ => true
                   end;
     an_time := w_clock w;
     an_id := w_ids w (w_next_id w);
     an_stored := match req with
                  | Submit y s c _ =>
                      (cs_insert (submit_record (w_ids w (w_next_id w)) (env_sha256 env y) y PENDING s c
                         (w_clock w) (Z.of_nat (String.length y))) (w_store w)).1
                  | Approve id who c => (cs_update id APPROVED who c (w_clock w) (w_store w)).1
                  | Reject id who c => (cs_update id REJECTED who c (w_clock w) (w_store w)).1
                  | Activate id who | Rollback id who _ _ => (cs_activate id who (w_clock w) (w_store w)).1
                  end |}.

Definition contract (req : Request) (w : World S Q) : string + ConfigVersionRecord → CView → Prop :=
  cfg_step env deps (answers w req) (cview w) req.

(** What a handler's run comes to: its outcome and the versions after it. *)
Definition runs_to (p : prog Cmd Result) (w : World S Q)
    (P : string + ConfigVersionRecord → CView → Prop) : Prop :=
  P (outcome (run (exec env) p w).1) (cview (run (exec env) p w).2).

Lemma runs_to_ret r w P : P (outcome r) (cview w) → runs_to (Ret r) w P.
Proof. done. Qed.

Lemma runs_to_call {B} (e : Cmd B) k w P :
  runs_to (k (exec env B e w).1) (exec env B e w).2 P → runs_to (call e ≫= k) w P.
Proof. unfold runs_to. by rw run_call. Qed.

Lemma runs_to_audit c act d r w P :
  P (outcome r) (cview w) →
  runs_to (when_ c (AuditBridge.record env act d) ≫= λ _, Ret r) w P.
Proof.
  unfold runs_to. destruct (quiet_run_ret (exec env) cview
    (when_ c (AuditBridge.record env act d)) r w) as [-> ->]; [|done].
  apply quiet_when, quiet_record.
Qed.

Lemma review_refines st id who c act w req a :
  (st = APPROVED ∧ a = APPROVE ∧ req = Approve id who c) ∨
  (st = REJECTED ∧ a = REJECT ∧ req = Reject id who c) →
  runs_to (transitionReview env deps id who c st act) w (contract req w).
Proof.
  intros Hst. unfold transitionReview. rw Hstore. cbn [negb].
  apply runs_to_call. change (exec env _ (CsGet id) w) with (cs_get id (w_store w), w).
  cbn [fst snd]. rw cs_get_view. fold (cview w).
  destruct (cv_versions (cview w) !! id) as [r|] eqn:Hr.
  2:{ apply runs_to_ret. eapply step_missing; [|done]. by destruct Hst as [(_&_&->)|(_&_&->)]. }
  destruct (bool_decide (submitter r = who)) eqn:Hsub.
  { apply runs_to_ret. apply bool_decide_eq_true in Hsub.
    eapply step_self_review; [done| |done]. by destruct Hst as [(_&_&->)|(_&_&->)]. }
  apply bool_decide_eq_false in Hsub.
  assert ((if bool_decide (st = APPROVED) then APPROVE else REJECT) = a) as ->.
  { by destruct Hst as [(->&->&_)|(->&->&_)]. }
  destruct (negb (bool_decide (next (status r) a = Some st))) eqn:Hn.
  { apply runs_to_ret. apply negb_true_iff, bool_decide_eq_false in Hn.
    eapply (step_illegal _ _ _ _ _ id r a); [..|done| |].
    - by destruct Hst as [(_&_&->)|(_&_&->)].
    - by destruct Hst as [(_&->&->)|(_&->&->)].
    - destruct Hst as [(->&->&_)|(->&->&_)]; destruct (status r); naive_solver.
    - intros who' Hwho. destruct Hst as [(_&_&->)|(_&_&->)]; naive_solver. }
  apply negb_false_iff, bool_decide_eq_true in Hn.
  apply runs_to_call, runs_to_call. cbn [exec fst snd]. unfold on_store.
  destruct (cs_update id st who c (w_clock w) (w_store w)) as [b s'] eqn:E. pose proof E as Hb.
  cbn [fst snd]. destruct b; cbn [negb].
  2:{ apply cs_update_false in E. apply runs_to_ret. unfold cview; simpl. rw E.
      eapply (step_store_refused _ _ _ _ _ id r).
      - split_and!; [|done|exists a; split; [|by exists st]|]; destruct Hst as [(_&->&->)|(_&->&->)]; naive_solver.
      - destruct Hst as [(->&_&->)|(->&_&->)]; cbn; by rw Hb.
      - destruct Hst as [(_&_&->)|(_&_&->)]; done. }
  apply cs_update_true in E as [_ E]. apply runs_to_call. cbn [exec fst snd with_store w_store].
  rw cs_get_view E. cbn [cv_versions]. fold (cview w). rw lookup_alter_eq Hr. cbn [fmap option_fmap option_map].
  match goal with |- runs_to (when_ _ (if ?b then _ else _) ≫= _) _ _ => destruct b end;
    apply runs_to_audit; unfold cview at 1; cbn [with_store w_store]; rw E; fold (cview w);
    destruct Hst as [(->&->&->)|(->&->&->)];
    first [eapply step_approve|eapply step_reject]; try eassumption; cbn; by rw Hb.
Qed.

Lemma activate_refines id who w :
  runs_to (activate env deps id who) w (contract (Activate id who) w).
Proof.
  unfold activate. rw Hstore. cbn [negb].
  apply runs_to_call. change (exec env _ (CsGet id) w) with (cs_get id (w_store w), w).
  cbn [fst snd]. rw cs_get_view. fold (cview w).
  destruct (cv_versions (cview w) !! id) as [r|] eqn:Hr.
  2:{ apply runs_to_ret. by eapply step_missing. }
  destruct (negb (bool_decide (next (status r) ACTIVATE = Some ACTIVE))) eqn:Hn.
  { apply runs_to_ret. apply negb_true_iff, bool_decide_eq_false in Hn.
    eapply (step_illegal _ _ _ _ _ id r ACTIVATE); [done..| |done].
    destruct (status r); try done; by destruct Hn. }
  apply negb_false_iff, bool_decide_eq_true in Hn.
  do 3 apply runs_to_call. cbn [exec fst snd]. unfold on_store.
  destruct (cs_activate id who (w_clock w) (w_store w)) as [b s'] eqn:E. pose proof E as Hb.
  cbn [fst snd]. destruct b; cbn [negb].
  2:{ apply cs_activate_false in E. apply runs_to_ret. unfold cview; simpl. rw E.
      apply (step_store_refused _ _ _ _ _ id r); [|by cbn; rw Hb|done].
      split_and!; [done..|by exists ACTIVATE|done]. }
  apply cs_activate_true in E as (r' & Hr' & [(Ha & _)|(_ & E)]).
  { fold (cview w) in Hr'. simplify_eq. by rw Ha in Hn. }
  apply runs_to_call. cbn [exec fst snd with_store w_store].
  rw cs_get_view E. fold (cview w). rw (activate_view_self _ _ _ _ r Hr).
  apply runs_to_audit. unfold cview at 1. cbn [with_store w_store]. rw E.
  apply (step_activate _ _ (answers w (Activate id who))); [done..|]. by cbn; rw Hb.
Qed.
Lemma rollback_refines id who c e w :
  runs_to (rollback env deps id who c e) w (contract (Rollback id who c e) w).
Proof.
  unfold rollback. destruct e; [apply runs_to_ret, step_emergency|]. rw Hstore. cbn [negb].
  apply runs_to_call. change (exec env _ (CsGet id) w) with (cs_get id (w_store w), w).
  cbn [fst snd]. rw cs_get_view. fold (cview w).
  destruct (cv_versions (cview w) !! id) as [r|] eqn:Hr.
  2:{ apply runs_to_ret. by eapply step_missing. }
  destruct (next (status r) ROLLBACK_TO) as [n|] eqn:Hn.
  2:{ apply runs_to_ret. by eapply (step_illegal _ _ _ _ _ id r ROLLBACK_TO). }
  apply runs_to_call. cbv zeta. case_bool_decide as Hact.
  { apply runs_to_audit. by apply step_rollback_noop. }
  assert (status r = SUPERSEDED) as Hsup by (destruct (status r); done).
  do 2 apply runs_to_call. cbn [exec fst snd]. unfold on_store.
  destruct (cs_activate id who (w_clock w) (w_store w)) as [b s'] eqn:E. pose proof E as Hb.
  cbn [fst snd]. destruct b; cbn [negb].
  2:{ apply cs_activate_false in E. apply runs_to_ret. unfold cview; simpl. rw E.
      apply (step_store_refused _ _ _ _ _ id r); [|by cbn; rw Hb|done].
      split_and!; [done..| |done]. exists ROLLBACK_TO. split; [done|]. by rw Hn. }
  apply cs_activate_true in E as (r' & Hr' & [(Ha & _)|(_ & E)]).
  { fold (cview w) in Hr'. congruence. }
  apply runs_to_call. cbn [exec fst snd with_store w_store].
  rw cs_get_view E. fold (cview w). rw (activate_view_self _ _ _ _ r Hr).
  apply runs_to_audit. unfold cview at 1. cbn [with_store w_store]. rw E.
  apply (step_rollback _ _ (answers w (Rollback id who c false))); [done..|]. by cbn; rw Hb.
Qed.

Lemma live_query_keeps r :
  query_keeps live_query r = true →
  status r = PENDING ∨ status r = APPROVED ∨ status r = ACTIVE.
Proof.
  unfold query_keeps; simpl. rw andb_true_iff. intros [H _].
  destruct (status r); vm_compute in H; naive_solver.
Qed.

(** The rest of [submit] once the limiter has accepted. *)
Lemma submit_store_refines y s c o w w' :
  let an := answers w (Submit y s c o) in
  submittable env deps an y → cview w' = cview w →
  w_store w' = w_store w → w_clock w' = w_clock w → w_ids w' (w_next_id w') = w_ids w (w_next_id w) →
  runs_to (ts ← call Now;
      let r := submit_record "" (env_sha256 env y) y PENDING s c ts
                 (Z.of_nat (String.length y)) in
      if o then Ret (ok r)
      else id ← call GenUlid;
        let rec := submit_record id (env_sha256 env y) y PENDING s c ts
                     (Z.of_nat (String.length y)) in
        stored ← call (CsInsert rec);
        if negb stored then Ret (err r "INTERNAL" "failed to persist config version")
        else when_ (has_audit deps) (AuditBridge.recordSubmit env rec);; Ret (ok rec)) w'
    (contract (Submit y s c o) w).
Proof.
  intros an Hsub Hv Hs Hc Hi. apply runs_to_call. cbv zeta. cbn [exec fst snd]. destruct o.
  { apply runs_to_ret. rw Hv Hc. by apply (step_submit_dry _ _ an). }
  do 2 apply runs_to_call. cbn [exec fst snd]. unfold on_store.
  change (w_store (next_id w')) with (w_store w'). rw Hc Hi Hs.
  destruct (cs_insert _ _) as [b s'] eqn:E. pose proof E as Hb. cbn [fst snd]. destruct b; cbn [negb].
  - apply cs_insert_true in E as (Hid & Hn & E). apply runs_to_audit.
    unfold cview at 1. cbn [with_store w_store]. rw E.
    apply (step_submit _ _ an); [done| |done|done]. by cbn; rw Hb.
  - apply cs_insert_false in E. apply runs_to_ret. unfold cview at 1; simpl. rw E.
    apply (step_submit_refused _ _ an); [done|]. by cbn; rw Hb.
Qed.

Lemma submit_refines y s c o w :
  runs_to (submit env deps y s c o) w (contract (Submit y s c o) w).
Proof.
  unfold submit. destruct (submit_gate env deps y) as [[code msg]|] eqn:Hg.
  { apply runs_to_ret. rw outcome_err; [by eapply step_submit_gate|].
    by eapply submit_gate_code. }
  rw Hstore. apply runs_to_call. cbn [exec fst snd].
  destruct (list_find _ _) as [[i r]|] eqn:Hf.
  { apply runs_to_ret. apply list_find_Some in Hf as (Hi & Hsha & _).
    apply list_elem_of_lookup_2 in Hi. pose proof (cs_list_sound _ _ _ Hi) as [Hq [id Hid]].
    eapply step_submit_exists; [done|exact Hi|done|done|by apply live_query_keeps]. }
  apply list_find_None in Hf. rw Forall_forall in Hf.
  destruct (has_rate_limit deps) eqn:Hrl.
  - apply runs_to_call. cbn [exec]. unfold on_quota.
    destruct (env_rate_limit env s (w_quota w)) as [b q] eqn:E. cbn [fst snd]. destruct b; cbn [negb].
    + apply submit_store_refines; [|done..]. split_and!; [done|exact Hf|]. cbn. by rw Hrl E.
    + apply runs_to_ret. apply step_submit_limited; [done|exact Hf|done|]. cbn. by rw Hrl E.
  - apply (submit_store_refines y s c o w w); [|done..]. split_and!; [done|exact Hf|]. cbn. by rw Hrl.
Qed.

(** A store that carries out every legal activation. *)
Definition activations_accepted : Prop :=
  ∀ (s : S) id who ts r, cv_versions (cs_view s) !! id = Some r →
    status r = APPROVED ∨ status r = SUPERSEDED → (cs_activate id who ts s).1 = true.

Lemma rollback_succeeds id who c w r :
  activations_accepted → cv_versions (cview w) !! id = Some r →
  status r = ACTIVE ∨ status r = SUPERSEDED →
  error_code (run (exec env) (rollback env deps id who c false) w).1 = "".
Proof.
  intros Hacc Hr Hs. unfold rollback. rw Hstore. cbn [negb].
  rw run_call. change (exec env _ (CsGet id) w) with (cs_get id (w_store w), w).
  cbn [fst snd]. rw cs_get_view. fold (cview w). rw Hr.
  assert (next (status r) ROLLBACK_TO = Some ACTIVE) as -> by by destruct Hs as [-> | ->].
  rw run_call. cbv zeta.
  assert (∀ act d rec w', error_code (run (exec env)
    (when_ (has_audit deps) (AuditBridge.record env act d) ≫= λ _, Ret (ok rec)) w').1 = "") as Hfin.
  { intros act d rec w'. destruct (quiet_run_ret (exec env) cview
      (when_ (has_audit deps) (AuditBridge.record env act d)) (ok rec) w') as [-> _]; [|done].
    apply quiet_when, quiet_record. }
  case_bool_decide as Ha; [apply Hfin|].
  rw !run_call. cbn [exec fst snd]. unfold on_store.
  assert (status r = SUPERSEDED) as Hsup by naive_solver.
  pose proof (Hacc (w_store w) id who (w_clock w) r Hr (or_intror Hsup)) as Hok.
  destruct (cs_activate id who (w_clock w) (w_store w)) as [b s'] eqn:E. simpl in Hok. subst b.
  cbn [fst snd negb]. rw run_call. cbn [exec fst snd with_store w_store].
  apply cs_activate_true in E as (r' & Hr' & [(? & _)|(_ & E)]).
  { change (cs_view (w_store w)) with (cview w) in Hr'. congruence. }
  rw cs_get_view E. change (cs_view (w_store w)) with (cview w).
  rw (activate_view_self _ _ _ _ r Hr). apply Hfin.
Qed.

Lemma handle_refines req w :
  runs_to (handle env deps req) w (contract req w).
Proof.
  destruct req; cbn [handle].
  - apply submit_refines.
  - eapply review_refines. by left.
  - eapply review_refines. by right.
  - apply activate_refines.
  - apply rollback_refines.
Qed.
End refinement.

(** ** Consequences of the contract *)

Section contract.
Context {Q : Type} (env : Env Q) (deps : Deps) (an : Answers).

(** The active pointer names an ACTIVE version. *)
Definition active_wf (v : CView) : Prop :=
  cv_active v ≠ "" →
  ∃ r, cv_versions v !! cv_active v = Some r ∧ status r = ACTIVE.

Lemma cfg_step_inv v req o v' :
  cfg_inv env deps v → cfg_step env deps an v req o v' → cfg_inv env deps v'.
Proof.
  intros Hv Hs. destruct Hs; try done.
  - apply inv_insert; [done|done| |done]. destruct H as (? & _). by split.
  - eapply inv_review; eauto.
  - eapply inv_review; eauto.
  - eapply inv_activate; eauto. destruct (status r); naive_solver.
  - eapply inv_activate; eauto.
Qed.

Lemma cfg_step_active_wf v req o v' :
  cfg_inv env deps v → active_wf v → cfg_step env deps an v req o v' → active_wf v'.
Proof.
  intros Hv Hwf Hs. destruct Hs; try done; unfold active_wf in *; simpl in *.
  - intros Hne. destruct (Hwf Hne) as (x & Hx & ?). exists x.
    rw lookup_insert_ne //. congruence.
  - intros Hne. destruct (Hwf Hne) as (x & Hx & ?). exists x.
    rw lookup_alter_ne //. intros ->. simplify_eq. by destruct (status r).
  - intros Hne. destruct (Hwf Hne) as (x & Hx & ?). exists x.
    rw lookup_alter_ne //. intros ->. simplify_eq. by destruct (status r).
  - intros _. eexists. split; [by apply activate_view_self|done].
  - intros _. eexists. split; [by apply activate_view_self|done].
Qed.

(** A successful activation has moved the pointer to an ACTIVE target. *)
Lemma activate_ok v id who r v' :
  cfg_step env deps an v (Activate id who) (inr r) v' →
  cv_active v' = id ∧
  ∃ c, cv_versions v' !! id = Some c ∧ status c = ACTIVE.
Proof.
  inversion 1; subst. split; [done|].
  eexists. split; [by apply activate_view_self|done].
Qed.

(** A rollback that succeeds leaves the pointer on its target. *)
Lemma rollback_ok v id who c e r v' :
  cfg_inv env deps v → cfg_step env deps an v (Rollback id who c e) (inr r) v' →
  cv_active v' = id.
Proof. intros Hv Hs. inversion Hs; subst; [|done]. by eapply Hv. Qed.

(** Every status change of a step is one of the lifecycle's. *)
Lemma cfg_step_lifecycle v req o v' id r :
  cfg_inv env deps v → active_wf v → cfg_step env deps an v req o v' →
  cv_versions v !! id = Some r →
  ∃ r', cv_versions v' !! id = Some r' ∧
    (status r' = status r ∨ lifecycle (status r) (status r')).
Proof.
  intros Hv Hwf Hs Hr.
  assert (∀ j who ts x, cv_versions v !! j = Some x →
    status x = APPROVED ∨ status x = SUPERSEDED →
    ∃ r', cv_versions (activate_view j who ts v) !! id = Some r' ∧
      (status r' = status r ∨ lifecycle (status r) (status r'))) as Hact.
  { intros j who ts x Hx Hst.
    destruct (activate_lookup_fwd j who ts v id r Hr) as (r' & Hr' & _). exists r'.
    split; [done|].
    apply activate_lookup in Hr' as (y & Hy & [(-> & ->)|[(_ & -> & Hne & ->)|(_ & _ & ->)]]);
      simplify_eq; [..|by left]; right; simpl.
    - destruct Hst as [-> | ->]; [by eapply (lc_action _ ACTIVATE)|by eapply (lc_action _ ROLLBACK_TO)].
    - destruct (Hwf Hne) as (z & Hz & Hact). simplify_eq. rw Hact. constructor. }
  destruct Hs; try (exists r; split; [done|by left]); simpl.
  - exists r. split; [|by left]. rw lookup_insert_ne //. congruence.
  - rw lookup_alter. case_decide; subst; rw Hr; [|eauto].
    eexists; split; [reflexivity|]. right. simplify_eq. by eapply (lc_action _ APPROVE).
  - rw lookup_alter. case_decide; subst; rw Hr; [|eauto].
    eexists; split; [reflexivity|]. right. simplify_eq. by eapply (lc_action _ REJECT).
  - eapply Hact; [done|]. destruct (status r0); naive_solver.
  - eapply Hact; [done|]. by right.
Qed.

End contract.

(** Requests handled one after another. *)
Definition serve {S Q : Type} `{!ConfigStoreOps S} `{!RolloutStoreOps S} (env : Env Q)
    (deps : Deps) (reqs : list Request) (w : World S Q) : World S Q :=
  foldl (λ w req, (run (exec env) (handle env deps req) w).2) w reqs.

Lemma serve_wf {S Q} `{!ConfigStoreOps S} `{!RolloutStoreOps S} `{!PersistentStoreLaws S}
    (env : Env Q) deps reqs (w : World S Q) :
  has_store deps = true → Inv env deps w → active_wf (cview w) →
  Inv env deps (serve env deps reqs w) ∧ active_wf (cview (serve env deps reqs w)).
Proof.
  intros Hst. revert w. induction reqs as [|req reqs IH]; intros w HI Hwf; [done|].
  pose proof (handle_refines env deps Hst req w) as Hr. unfold runs_to in Hr.
  apply IH; [by eapply cfg_step_inv|by eapply cfg_step_active_wf].
Qed.

(** ** A concrete server *)

Definition toy_env : Env unit :=
  {| env_sha256 := Audit.toy_digest; env_dump := λ _, Some "{}";
     env_re2 := Scanner.toy_engine; env_loadFromString := λ _, true;
     env_diff := λ _ _, None; env_rate_limit := λ _ q, (true, q);
     env_check_quota := λ _ q, (true, q); env_auto_rollback_enabled := λ q, (true, q);
     env_encryption := None; env_audit_store := true |}.

Definition toy_deps : Deps :=
  {| has_store := true; has_audit := true; validator := None; has_rate_limit := false |}.

(** An empty in-memory store; the generated identifiers are [a], [aa], ... *)
Fixpoint toy_id (n : nat) : string :=
  match n with O => "a" | S n => String "a" (toy_id n) end.

Definition toy_world : World MemoryStore unit :=
  {| w_store := empty_store; w_audit := Audit.fresh_logger; w_clock := 1000;
     w_wall := 1000; w_ids := toy_id; w_next_id := 0; w_quota := tt;
     w_metrics := λ _ _, no_metrics |}.

Lemma toy_world_inv : Inv toy_env toy_deps toy_world.
Proof. apply inv_empty. Qed.

(** The status of a version, if it exists. *)
Definition status_of {S Q} `{!ConfigStoreOps S} (id : string) (w : World S Q) :
    option ConfigStatus :=
  status <$> cs_get id (w_store w).

(** ** Properties *)

Section properties.
Context {S Q : Type} `{!ConfigStoreOps S} `{!RolloutStoreOps S} `{!PersistentStoreLaws S}.
Context (env : Env Q) (deps : Deps).

(** C2. Four eyes, under any interleaving: starting from an empty store, with
    any number of submit, approve, reject, activate and rollback requests
    running concurrently, no version is ever past PENDING without a reviewer
    different from its submitter. *)
Theorem config_four_eyes ts (w w' : World S Q) id r :
  cview w = {| cv_versions := ∅; cv_active := "" |} →
  rtc (pool_step (exec env) env_step (is_request env deps)) ([], w) (ts, w') →
  cv_versions (cview w') !! id = Some r → status r ≠ PENDING →
  reviewer r ≠ submitter r.
Proof.
  intros Hw Hsteps Hr. destruct (server_inv env deps [] ts w w') as [HI _]; [|done|done|].
  - unfold Inv. rw Hw. apply inv_empty.
  - apply (ci_records env deps _ HI _ _ Hr).
Qed.

(** C8. At most one version is ACTIVE, under any interleaving, and it is the
    one the store's active pointer names. *)
Theorem config_single_active ts (w w' : World S Q) id r :
  cview w = {| cv_versions := ∅; cv_active := "" |} →
  rtc (pool_step (exec env) env_step (is_request env deps)) ([], w) (ts, w') →
  cv_versions (cview w') !! id = Some r → status r = ACTIVE →
  cv_active (cview w') = id ∧
  ∀ id' r', cv_versions (cview w') !! id' = Some r' → status r' = ACTIVE → id' = id.
Proof.
  intros Hw Hsteps Hr Ha. destruct (server_inv env deps [] ts w w') as [HI _]; [|done|done|].
  - unfold Inv. rw Hw. apply inv_empty.
  - pose proof (ci_active env deps _ HI _ _ Hr Ha). split; [done|].
    intros id' r' Hr' Ha'. pose proof (ci_active env deps _ HI _ _ Hr' Ha'). congruence.
Qed.

(** Content integrity, under any interleaving: a stored version passed the
    size, secret, syntax and validation gates, carries the hash and size of
    its content, and once stored it never disappears and none of its
    submission fields ever changes. *)
Theorem config_content_integrity ts1 ts2 (w w1 w2 : World S Q) id r :
  cview w = {| cv_versions := ∅; cv_active := "" |} →
  rtc (pool_step (exec env) env_step (is_request env deps)) ([], w) (ts1, w1) →
  rtc (pool_step (exec env) env_step (is_request env deps)) (ts1, w1) (ts2, w2) →
  cv_versions (cview w1) !! id = Some r →
  submit_gate env deps (yaml_content r) = None ∧
  content_sha256 r = env_sha256 env (yaml_content r) ∧
  size_bytes r = Z.of_nat (String.length (yaml_content r)) ∧
  ∃ r', cv_versions (cview w2) !! id = Some r' ∧ same_submission r r'.
Proof.
  intros Hw H1 H2 Hr. destruct (server_inv env deps [] ts1 w w1) as (HI & _ & Hts); [|done|done|].
  - unfold Inv. rw Hw. apply inv_empty.
  - destruct (server_inv env deps ts1 ts2 w1 w2 HI Hts H2) as (_ & Hgrow & _).
    destruct (ci_records env deps _ HI _ _ Hr) as []. auto.
Qed.

(** C9. Refinement: executed alone, on a configured store, every request
    meets the contract [cfg_step] on the versions and on what the limiter, the
    clock, the identifier generator and the store answer it in this state: each
    error code is returned only in its situation, RATE_LIMITED only when the
    limiter refuses the submitter and INTERNAL only when the store refuses the
    write, and leaves the versions untouched; each success performs exactly the
    documented change and returns the record as stored.  The contract leaves no
    other outcome to the request. *)
Theorem config_refines req (w : World S Q) :
  has_store deps = true →
  ∀ o v', cfg_step env deps (answers env deps w req) (cview w) req o v' ↔
    o = outcome (run (exec env) (handle env deps req) w).1 ∧
    v' = cview (run (exec env) (handle env deps req) w).2.
Proof.
  intros Hst o v'. pose proof (handle_refines env deps Hst req w) as Hr. split.
  - intros Ho. by eapply cfg_step_det.
  - by intros [-> ->].
Qed.

(** Executed one after another, requests keep the active pointer on an
    ACTIVE version and move every version only along the documented
    lifecycle: in particular a REJECTED version stays rejected. *)
Theorem config_sequential_lifecycle reqs (w : World S Q) id r :
  has_store deps = true → Inv env deps w → active_wf (cview w) →
  cv_versions (cview w) !! id = Some r →
  active_wf (cview (serve env deps reqs w)) ∧
  ∃ r', cv_versions (cview (serve env deps reqs w)) !! id = Some r' ∧
    rtc lifecycle (status r) (status r') ∧ (status r = REJECTED → status r' = REJECTED).
Proof.
  intros Hst HI Hwf Hr.
  destruct (serve_wf env deps reqs w Hst HI Hwf) as [_ ?]. split; [done|].
  assert (∃ r', cv_versions (cview (serve env deps reqs w)) !! id = Some r' ∧
    rtc lifecycle (status r) (status r')) as (r' & ? & Hlc).
  { clear -Hst HI Hwf Hr PersistentStoreLaws0. revert w r HI Hwf Hr.
    induction reqs as [|req reqs IH]; intros w r HI Hwf Hr; [by exists r|].
    pose proof (handle_refines env deps Hst req w) as Hs. unfold runs_to in Hs.
    destruct (cfg_step_lifecycle env deps _ _ _ _ _ id r HI Hwf Hs Hr) as (r1 & Hr1 & Hl1).
    destruct (IH (run (exec env) (handle env deps req) w).2 r1) as (r2 & ? & ?);
      [by eapply cfg_step_inv|by eapply cfg_step_active_wf|done|].
    exists r2. split; [done|]. destruct Hl1 as [<-|Hl]; [done|]. by eapply rtc_l. }
  exists r'. split_and!; [done|done|]. intros Hrej. rw Hrej in Hlc.
  by apply lifecycle_rejected.
Qed.

(** Duplicate suppression: a submission that is accepted has content whose
    hash no PENDING, APPROVED or ACTIVE version carries, as long as the store
    lists fewer than 500 live versions. *)
Theorem config_submit_dedupe y s c o (w : World S Q) id r :
  has_store deps = true →
  error_code (run (exec env) (submit env deps y s c o) w).1 = "" →
  Z.of_nat (length (cs_list live_query (w_store w))) < 500 →
  cv_versions (cview w) !! id = Some r →
  status r = PENDING ∨ status r = APPROVED ∨ status r = ACTIVE →
  content_sha256 r ≠ env_sha256 env y.
Proof.
  intros Hst Hok Hlen Hr Hlive Hsha. unfold submit in Hok.
  destruct (submit_gate env deps y) as [[code msg]|] eqn:Hg.
  { apply submit_gate_code in Hg. simpl in Hok. by rw Hok in Hg. }
  rw Hst run_call in Hok. cbn [exec fst snd] in Hok.
  destruct (list_find _ _) as [[i x]|] eqn:Hf; [done|].
  apply list_find_None in Hf. rw Forall_forall in Hf. apply (Hf r); [|done].
  apply (cs_list_complete live_query (w_store w) id r); [done|done|done|done|].
  unfold query_keeps; simpl. destruct Hlive as [->|[->| ->]]; done.
Qed.

End properties.

(** ** Instances and interleavings of the concrete server *)

(** [n] turns of handler [i]; a finished handler ignores them. *)
Definition turns (i n : nat) : list nat := replicate n i.

Definition toy_requests : list Request :=
  [Submit "listen: 8080" "alice" "first" false; Approve "a" "bob" "fine";
   Reject "a" "carol" "no"; Activate "a" "dave"].

Definition toy_run (sched : list nat) : list (prog Cmd Result) * World MemoryStore unit :=
  run_sched (exec toy_env) sched (handle toy_env toy_deps <$> toy_requests) toy_world.

Lemma toy_run_steps sched :
  rtc (pool_step (exec toy_env) env_step (is_request toy_env toy_deps)) ([], toy_world)
    (toy_run sched).
Proof.
  apply run_sched_spawned, Forall_forall. intros p (req & -> & _)%list_elem_of_fmap.
  by exists req.
Qed.

Definition approved_run := toy_run (turns 0 9 ++ turns 1 9).
Definition active_run := toy_run (turns 0 9 ++ turns 1 9 ++ turns 3 9).

Lemma config_four_eyes_witness :
  ∃ r, cv_versions (cview approved_run.2) !! "a" = Some r ∧ status r = APPROVED ∧
    reviewer r ≠ submitter r.
Proof.
  eexists. split; [vm_compute; reflexivity|]. split; [reflexivity|].
  apply (config_four_eyes toy_env toy_deps approved_run.1 toy_world approved_run.2 "a");
    [reflexivity| |vm_compute; reflexivity|discriminate].
  rw -surjective_pairing. apply toy_run_steps.
Defined.

Lemma config_single_active_witness :
  cv_active (cview active_run.2) = "a" ∧
  ∀ id' r', cv_versions (cview active_run.2) !! id' = Some r' → status r' = ACTIVE → id' = "a".
Proof.
  eapply (config_single_active toy_env toy_deps active_run.1 toy_world active_run.2 "a");
    [reflexivity| |vm_compute; reflexivity|reflexivity].
  rw -surjective_pairing. apply toy_run_steps.
Defined.

Lemma config_content_integrity_witness :
  ∃ r, cv_versions (cview approved_run.2) !! "a" = Some r ∧
    content_sha256 r = Audit.toy_digest "listen: 8080".
Proof.
  eexists. split; [vm_compute; reflexivity|].
  eapply (config_content_integrity toy_env toy_deps approved_run.1 approved_run.1 toy_world
    approved_run.2 approved_run.2 "a"); [reflexivity| |reflexivity|vm_compute; reflexivity].
  rw -surjective_pairing. apply toy_run_steps.
Defined.

Lemma config_refines_witness :
  (∃ r, cfg_step toy_env toy_deps
     (answers toy_env toy_deps toy_world (Submit "listen: 8080" "alice" "first" false)) (cview toy_world)
     (Submit "listen: 8080" "alice" "first" false) (inr r)
     {| cv_versions := {["a" := r]}; cv_active := "" |}) ∧
  cfg_step toy_env toy_deps (answers toy_env toy_deps toy_world (Approve "zz" "bob" "")) (cview toy_world)
    (Approve "zz" "bob" "") (inl "NOT_FOUND") (cview toy_world).
Proof.
  split.
  - eexists. eapply (config_refines toy_env toy_deps (Submit "listen: 8080" "alice" "first" false) toy_world);
      [reflexivity|]. split; vm_compute; reflexivity.
  - by apply (config_refines toy_env toy_deps (Approve "zz" "bob" "") toy_world eq_refl).
Defined.

Definition submitted_world : World MemoryStore unit :=
  (run (exec toy_env) (submit toy_env toy_deps "listen: 8080" "alice" "first" false)
     toy_world).2.

Lemma config_sequential_lifecycle_witness :
  ∃ r, cv_versions (cview submitted_world) !! "a" = Some r ∧
  ∃ r', cv_versions (cview (serve toy_env toy_deps
      [Approve "a" "bob" ""; Activate "a" "dave"] submitted_world)) !! "a" = Some r' ∧
    status r' = ACTIVE ∧ rtc lifecycle (status r) (status r').
Proof.
  assert (Inv toy_env toy_deps submitted_world) as HI.
  { eapply cfg_step_inv; [exact toy_world_inv|].
    exact (handle_refines toy_env toy_deps eq_refl
      (Submit "listen: 8080" "alice" "first" false) toy_world). }
  eexists. split; [vm_compute; reflexivity|].
  edestruct (config_sequential_lifecycle toy_env toy_deps
    [Approve "a" "bob" ""; Activate "a" "dave"] submitted_world "a")
    as (_ & r' & Hr' & Hlc & _); [reflexivity|exact HI| |vm_compute; reflexivity|].
  { by intros []. }
  exists r'. split_and!; [exact Hr'| |exact Hlc].
  vm_compute in Hr'. by injection Hr' as <-.
Defined.

Lemma config_submit_dedupe_witness :
  ∃ r, cv_versions (cview submitted_world) !! "a" = Some r ∧
    content_sha256 r ≠ Audit.toy_digest "listen: 9090".
Proof.
  eexists. split; [vm_compute; reflexivity|].
  apply (config_submit_dedupe toy_env toy_deps "listen: 9090" "erin" "" false
    submitted_world "a"); [reflexivity|vm_compute; reflexivity|vm_compute; reflexivity
    |vm_compute; reflexivity|by left].
Defined.

(** Reviews are check-then-act without a lock: with an approval that has
    read the PENDING version, a rejection that completes, and an activation
    after them, a version observed as REJECTED ends up ACTIVE. *)
Theorem config_race_resurrects :
  ∃ sched1 sched2,
    status_of "a" (toy_run sched1).2 = Some REJECTED ∧
    status_of "a" (toy_run (sched1 ++ sched2)).2 = Some ACTIVE.
Proof.
  exists (turns 0 9 ++ turns 1 1 ++ turns 2 9), (turns 1 9 ++ turns 3 9).
  vm_compute. done.
Qed.

(** The same race against an activation leaves the active pointer on a
    REJECTED version: a rejection that read the APPROVED version overwrites
    the status of the version just activated. *)
Theorem config_race_active_rejected :
  ∃ sched r,
    (run (exec toy_env) (getActive toy_deps) (toy_run sched).2).1 = Some r ∧
    status r = REJECTED.
Proof.
  exists (turns 0 9 ++ turns 1 9 ++ turns 2 1 ++ turns 3 9 ++ turns 2 9).
  eexists. split; [vm_compute; reflexivity|done].
Qed.

End ConfigService.
