(* ===== verification/RolloutController.v ===== *)
(** * RolloutController: creating, promoting, pausing and rolling back

    Models [src/src/control_plane/rollout/rollout_controller.cpp]: the
    lifecycle handlers, the metric evaluation that pauses a rollout, the
    automatic rollback and the ticker's pass over the live rollouts, as
    programs over the calls of ControlPlane that call ConfigService for the
    configuration changes. *)
From Corelib Require Import PrimFloat FloatOps SpecFloat.
From stdpp Require Import pretty.
From S2P Require Import Prelude.
From S2P Require Import Prog.
From S2P Require Import ConfigVersion.
From S2P Require Import ConfigStore.
From S2P Require Import Rollout.
From S2P Require Import RolloutStore.
From S2P Require Import AuditLog.
From S2P Require Import ControlPlane.
From S2P Require Import ConfigService.
Import Rollout.
Local Open Scope Z_scope.

Module RolloutController.

(** [std::to_string(double)]: six decimals of the exact binary value, ties
    to even. *)
Definition round_half_even (n d : Z) : Z :=
  let q := n / d in
  let r := n mod d in
  if 2 * r <? d then q
  else if d <? 2 * r then q + 1
  else if Z.even q then q else q + 1.

Fixpoint pad_left (n : nat) (s : string) : string :=
  if (n <=? String.length s)%nat then s
  else match n with O => s | S n => String "0" (pad_left n s) end.

Definition to_string_double (f : float) : string :=
  let sign (s : bool) (t : string) := if s then String "-" t else t in
  match Prim2SF f with
  | S754_zero s => sign s "0.000000"
  | S754_infinity s => sign s "inf"
  | S754_nan => "nan"
  | S754_finite s m e =>
      let num := Z.pos m * 1000000 in
      let q := if 0 <=? e then num * 2 ^ e else round_half_even num (2 ^ (- e)) in
      sign s (pretty (q / 1000000) +:+ "." +:+ pad_left 6 (pretty (q mod 1000000)))
  end.

(** [Deps]: which dependencies are present; [config_core] is the
    configuration service with its own dependencies. *)
Record Deps := {
  d_store : bool;
  d_config_core : option ConfigService.Deps;
  d_metrics : bool;
  d_audit : bool;
  d_check_quota : bool;
  d_auto_rollback_enabled : bool;
  d_pause_cooldown_ms : Z;
  d_system_user_id : string;
}.

Record Result := {
  record : RolloutRecord;
  error_code : string;
  error_message : string;
}.

Definition ok (r : RolloutRecord) : Result :=
  {| record := r; error_code := ""; error_message := "" |}.
Definition makeError (code msg : string) : Result :=
  {| record := empty_rollout; error_code := code; error_message := msg |}.

(** The percentage check of [createRollout]: the first stage outside
    [[0,100]]. *)
Fixpoint bad_percentage (i : nat) (l : list RolloutStageRecord) : option nat :=
  match l with
  | [] => None
  | st :: l =>
      let p := percentage (scope st) in
      if (p <? 0) || (100 <? p) then Some i else bad_percentage (S i) l
  end.

(** [a > b] on doubles. *)
Definition fgt (a b : float) : bool := PrimFloat.ltb b a.

(** The threshold cascade of [evaluateStage]: the first breach with its
    explanation. *)
Definition breach (ap : AutoPausePolicy) (target baseline : VersionMetrics) :
    option (PauseReason * string) :=
  let baseline_unhealthy := (0 <? sample_count baseline) && fgt (error_rate baseline) 0.1 in
  if fgt (absolute_error_rate_gt ap) 0 &&
     fgt (error_rate target) (absolute_error_rate_gt ap) then
    Some (ERROR_RATE,
      "absolute_error_rate=" +:+ to_string_double (error_rate target) +:+ " > " +:+
      to_string_double (absolute_error_rate_gt ap))
  else if fgt (absolute_p99_latency_ms_gt ap) 0 &&
          fgt (p99_latency_ms target) (absolute_p99_latency_ms_gt ap) then
    Some (LATENCY_RATIO,
      "absolute_p99=" +:+ to_string_double (p99_latency_ms target) +:+ " > " +:+
      to_string_double (absolute_p99_latency_ms_gt ap))
  else if negb baseline_unhealthy && fgt (error_rate_gt ap) 0 &&
          (0 <? sample_count baseline) &&
          fgt (error_rate target - error_rate baseline)%float (error_rate_gt ap) then
    Some (ERROR_RATE,
      "error_rate_delta=" +:+
      to_string_double (error_rate target - error_rate baseline)%float +:+ " > " +:+
      to_string_double (error_rate_gt ap))
  else if negb baseline_unhealthy && fgt (p99_latency_ratio_gt ap) 0 &&
          fgt (p99_latency_ms baseline) 0 &&
          fgt (p99_latency_ms target / p99_latency_ms baseline)%float
              (p99_latency_ratio_gt ap) then
    Some (LATENCY_RATIO,
      "latency_ratio=" +:+
      to_string_double (p99_latency_ms target / p99_latency_ms baseline)%float +:+ " > " +:+
      to_string_double (p99_latency_ratio_gt ap))
  else None.

(** The observation window in seconds. *)
Definition window_of (obs : ObservationPolicy) : Z :=
  Z.max 1 (if 0 <? min_duration_seconds obs then min_duration_seconds obs else 60).

Section controller.
Context {Q : Type} (env : Env Q) (deps : Deps).

(** [loadRollout]: an error result, or the record. *)
Definition loadRollout (id : string) : prog Cmd (Result + RolloutRecord) :=
  if str_empty id then Ret (inl (makeError "INVALID_ARGUMENT" "rollout_id is required"))
  else if negb (d_store deps) then Ret (inl (makeError "INTERNAL" "store dep is null"))
  else
    maybe ← call (RsGet id);
    match maybe with
    | None => Ret (inl (makeError "NOT_FOUND" ("rollout not found: " +:+ id)))
    | Some r => Ret (inr r)
    end.

Definition audit (p : prog Cmd unit) : prog Cmd unit := when_ (d_audit deps) p.

Definition createRollout (sp : RolloutSpec) (creator : string) : prog Cmd Result :=
  match d_store deps, d_config_core deps with
  | false, _ | _, None => Ret (makeError "INTERNAL" "store/config_core deps required")
  | true, Some core =>
  if str_empty (spec_target_version_id sp) then
    Ret (makeError "INVALID_ARGUMENT" "target_version_id is required")
  else if bool_decide (length (stages sp) = 0%nat) then
    Ret (makeError "INVALID_ARGUMENT" "at least one stage is required")
  else match bad_percentage 0 (stages sp) with
  | Some i =>
      Ret (makeError "INVALID_ARGUMENT"
        ("stage " +:+ pretty i +:+ ": percentage must be in [0,100]"))
  | None =>
  if str_empty creator then Ret (makeError "INVALID_ARGUMENT" "creator is required")
  else
    allowed ← (if d_check_quota deps then call (CheckQuota creator) else Ret true);
    if negb allowed then
      Ret (makeError "RESOURCE_EXHAUSTED" ("tenant rollout quota exhausted: " +:+ creator))
    else
      v ← ConfigService.getVersion core (spec_target_version_id sp);
      match v with
      | None =>
          Ret (makeError "NOT_FOUND"
            ("target_version_id not found: " +:+ spec_target_version_id sp))
      | Some v =>
          if negb (bool_decide (ConfigVersion.status v = ConfigVersion.APPROVED)) then
            Ret (makeError "FAILED_PRECONDITION" "target_version_id is not APPROVED")
          else
            existing_active ← call (RsFindActive (spec_target_version_id sp));
            match existing_active with
            | Some _ =>
                Ret (makeError "ALREADY_EXISTS"
                  ("active rollout already exists for target: " +:+
                   spec_target_version_id sp))
            | None =>
                id ← call GenUlid;
                let rec :=
                  {| rollout_id := id; target_version_id := spec_target_version_id sp;
                     previous_active_version_id := ""; spec := sp; status := PENDING;
                     current_stage_index := 0; started_at := 0; stage_started_at := 0;
                     paused_at := 0; pause_reason := UNSPECIFIED; pause_detail := "";
                     creator := creator; last_actor := creator; completed_at := 0;
                     chain_hash := "" |} in
                stored ← call (RsInsert rec);
                if negb stored then Ret (makeError "INTERNAL" "insertRollout failed")
                else
                  audit (RolloutAuditBridge.recordCreated env rec creator);;
                  Ret (ok rec)
            end
      end
  end
  end.

Definition cannot (verb : string) (r : RolloutRecord) : Result :=
  makeError "FAILED_PRECONDITION"
    ("cannot " +:+ verb +:+ " in state " +:+ rolloutStatusToString (status r)).

Definition startRollout (id actor : string) : prog Cmd Result :=
  loaded ← loadRollout id;
  match loaded with
  | inl e => Ret e
  | inr r =>
      match attemptRolloutTransition (status r) Start false with
      | None => Ret (cannot "start rollout" r)
      | Some next =>
          active ← match d_config_core deps with
                   | Some core => ConfigService.getActive core
                   | None => Ret None
                   end;
          now ← call WallNow;
          let r := set_started next now (ConfigService.id_or_empty active) actor r in
          stored ← call (RsUpdate r);
          if negb stored then Ret (makeError "INTERNAL" "updateRollout failed")
          else
            audit (RolloutAuditBridge.recordStarted env r actor);;
            Ret (ok r)
      end
  end.

Definition getRollout (id : string) : prog Cmd (option RolloutRecord) :=
  if negb (d_store deps) then Ret None else call (RsGet id).

Definition listRollouts (q : RolloutQuery) : prog Cmd (list RolloutRecord) :=
  if negb (d_store deps) then Ret [] else call (RsList q).

(** The failure arm of [promoteStage]: record FAILED and report. *)
Definition promote_failed (r : RolloutRecord) (now : Z) (mut : ConfigService.Result) :
    prog Cmd Result :=
  match attemptRolloutTransition (status r) Fail_ false with
  | Some next =>
      let r := set_completed next now r in
      call (RsUpdate r);;
      audit (RolloutAuditBridge.recordFailed env r
        ("activate_failed: " +:+ ConfigService.error_code mut +:+ "/" +:+
         ConfigService.error_message mut));;
      Ret (makeError "INTERNAL"
        ("activate failed: " +:+ ConfigService.error_message mut))
  | None =>
      Ret (makeError "INTERNAL"
        ("activate failed: " +:+ ConfigService.error_message mut))
  end.

Definition promoteStage (id actor : string) : prog Cmd Result :=
  loaded ← loadRollout id;
  match loaded with
  | inl e => Ret e
  | inr r =>
      let stage_count := Z.of_nat (length (stages (spec r))) in
      let is_last := stage_count <=? current_stage_index r + 1 in
      match attemptRolloutTransition (status r) Promote is_last with
      | None => Ret (cannot "promote" r)
      | Some next =>
          now ← call WallNow;
          let from_idx := current_stage_index r in
          if is_last then
            mut ← match d_config_core deps with
                  | Some core =>
                      ConfigService.activate env core (target_version_id r) actor
                  | None => Ret (ConfigService.ok ConfigVersion.empty_record)
                  end;
            if negb (str_empty (ConfigService.error_code mut)) then promote_failed r now mut
            else
              let r := set_last_actor actor (set_completed next now r) in
              stored ← call (RsUpdate r);
              if negb stored then
                Ret (makeError "INTERNAL"
                  ("config activated but rollout status persist failed; " +:+
                   "pending onTick reconcile"))
              else
                audit (RolloutAuditBridge.recordCompleted env r (target_version_id r));;
                Ret (ok r)
          else
            let r := set_last_actor actor (set_stage next (from_idx + 1) now r) in
            stored ← call (RsUpdate r);
            if negb stored then Ret (makeError "INTERNAL" "updateRollout failed")
            else
              audit (RolloutAuditBridge.recordStagePromoted env r from_idx
                (current_stage_index r) actor);;
              Ret (ok r)
      end
  end.

Definition pauseRollout (id actor comment : string) : prog Cmd Result :=
  loaded ← loadRollout id;
  match loaded with
  | inl e => Ret e
  | inr r =>
      match attemptRolloutTransition (status r) PauseManual false with
      | None => Ret (cannot "pause" r)
      | Some next =>
          now ← call WallNow;
          let r := set_last_actor actor (set_paused next now MANUAL comment r) in
          stored ← call (RsUpdate r);
          if negb stored then Ret (makeError "INTERNAL" "updateRollout failed")
          else
            audit (RolloutAuditBridge.recordPausedManual env r actor comment);;
            Ret (ok r)
      end
  end.

Definition resumeRollout (id actor : string) : prog Cmd Result :=
  loaded ← loadRollout id;
  match loaded with
  | inl e => Ret e
  | inr r =>
      match attemptRolloutTransition (status r) Resume false with
      | None => Ret (cannot "resume" r)
      | Some next =>
          now ← call WallNow;
          let r := set_last_actor actor (set_resumed next now r) in
          stored ← call (RsUpdate r);
          if negb stored then Ret (makeError "INTERNAL" "updateRollout failed")
          else
            audit (RolloutAuditBridge.recordResumed env r actor);;
            Ret (ok r)
      end
  end.

Definition abortRollout (id actor : string) : prog Cmd Result :=
  loaded ← loadRollout id;
  match loaded with
  | inl e => Ret e
  | inr r =>
      let was_live := bool_decide (status r = PROGRESSING) || bool_decide (status r = PAUSED) in
      match attemptRolloutTransition (status r) Abort false with
      | None => Ret (cannot "abort" r)
      | Some next =>
          now ← call WallNow;
          let r := set_last_actor actor (set_completed next now r) in
          stored ← call (RsUpdate r);
          if negb stored then Ret (makeError "INTERNAL" "updateRollout failed")
          else
            audit (RolloutAuditBridge.recordAborted env r actor);;
            match d_config_core deps with
            | Some core =>
                if was_live && negb (str_empty (previous_active_version_id r)) then
                  mut ← ConfigService.rollback env core (previous_active_version_id r)
                          actor ("rollout aborted: " +:+ rollout_id r) false;
                  when_ (negb (str_empty (ConfigService.error_code mut)))
                    (audit (RolloutAuditBridge.recordFailed env r
                      ("abort_rollback_failed: " +:+ ConfigService.error_code mut +:+
                       "/" +:+ ConfigService.error_message mut)));;
                  Ret (ok r)
                else Ret (ok r)
            | None => Ret (ok r)
            end
      end
  end.

Definition evaluateStage (id : string) (steady_now_ms wall_now_ms : Z) : prog Cmd Result :=
  loaded ← loadRollout id;
  match loaded with
  | inl e => Ret e
  | inr r =>
      if negb (bool_decide (status r = PROGRESSING)) then Ret (ok r)
      else match nth_error (stages (spec r)) (Z.to_nat (current_stage_index r)) with
      | None => Ret (ok r)
      | Some stage =>
      if current_stage_index r <? 0 then Ret (ok r)
      else if (0 <? paused_at r) &&
              (wall_now_ms - paused_at r <? d_pause_cooldown_ms deps) then Ret (ok r)
      else
        let obs := observation stage in
        let elapsed_ms := wall_now_ms - stage_started_at r in
        if elapsed_ms <? min_duration_seconds obs * 1000 then Ret (ok r)
        else if negb (d_metrics deps) then Ret (ok r)
        else
          let window := window_of obs in
          target_metrics ← call (ForVersion (target_version_id r) window);
          if sample_count target_metrics <? min_sample_count obs then Ret (ok r)
          else
            baseline ← (if str_empty (previous_active_version_id r) then Ret no_metrics
                        else call (ForVersion (previous_active_version_id r) window));
            match breach (auto_pause stage) target_metrics baseline with
            | None => Ret (ok r)
            | Some (breach_reason, detail) =>
                match attemptRolloutTransition (status r) PauseAuto false with
                | None => Ret (ok r)
                | Some next =>
                    let r := set_paused next wall_now_ms breach_reason detail r in
                    stored ← call (RsUpdate r);
                    if negb stored then Ret (makeError "INTERNAL" "updateRollout failed")
                    else
                      audit (RolloutAuditBridge.recordPausedAuto env r breach_reason detail);;
                      Ret (ok r)
                end
            end
      end
  end.

Definition evaluateAutoRollback (id : string) (steady_now_ms wall_now_ms : Z) :
    prog Cmd Result :=
  loaded ← loadRollout id;
  match loaded with
  | inl e => Ret e
  | inr r =>
      if negb (bool_decide (status r = PAUSED)) then Ret (ok r)
      else
        enabled ← (if d_auto_rollback_enabled deps then call AutoRollbackEnabled
                   else Ret true);
        if negb enabled then Ret (ok r)
        else if negb (auto_rollback_on_pause (spec r)) then Ret (ok r)
        else if wall_now_ms - paused_at r <? auto_rollback_grace_seconds (spec r) * 1000
        then Ret (ok r)
        else
          audit (RolloutAuditBridge.recordAutoRollbackTriggered env r
            ("grace_seconds=" +:+ pretty (auto_rollback_grace_seconds (spec r)) +:+
             " exceeded; reason=" +:+ pauseReasonToString (pause_reason r)));;
          match attemptRolloutTransition (status r) AutoRollback false with
          | None => Ret (ok r)
          | Some next =>
              let r := set_completed next wall_now_ms (set_pause_reason AUTO_ROLLBACK r) in
              mut ← match d_config_core deps with
                    | Some core =>
                        if str_empty (previous_active_version_id r)
                        then Ret (ConfigService.ok ConfigVersion.empty_record)
                        else ConfigService.rollback env core (previous_active_version_id r)
                               (d_system_user_id deps) "auto_rollback: grace_expired" false
                    | None => Ret (ConfigService.ok ConfigVersion.empty_record)
                    end;
              let rollback_ok := str_empty (ConfigService.error_code mut) in
              stored ← call (RsUpdate r);
              if negb stored then Ret (makeError "INTERNAL" "updateRollout failed")
              else
                audit (if rollback_ok
                       then RolloutAuditBridge.recordAutoRollbackCompleted env r
                              (previous_active_version_id r)
                       else RolloutAuditBridge.recordFailed env r
                              ("auto_rollback_failed: " +:+ ConfigService.error_code mut +:+
                               "/" +:+ ConfigService.error_message mut));;
                Ret (ok r)
          end
  end.

Definition reconcileActivatedRollout (rec : RolloutRecord) (wall_now_ms : Z) :
    prog Cmd bool :=
  match d_config_core deps with
  | None => Ret false
  | Some core =>
      active ← ConfigService.getActive core;
      match active with
      | None => Ret false
      | Some active =>
          if negb (bool_decide (ConfigVersion.version_id active = target_version_id rec))
          then Ret false
          else match attemptRolloutTransition (status rec) Promote true with
          | None => Ret false
          | Some next =>
              let updated := set_completed next wall_now_ms rec in
              stored ← call (RsUpdate updated);
              if negb stored then Ret false
              else
                audit (RolloutAuditBridge.recordCompleted env updated
                  (target_version_id updated));;
                Ret true
          end
      end
  end.

(** The body of [onTick]'s loop for one listed rollout. *)
Definition tick_one (steady_now_ms wall_now_ms : Z) (rec : RolloutRecord) : prog Cmd unit :=
  if bool_decide (status rec = PROGRESSING) then
    reconciled ← reconcileActivatedRollout rec wall_now_ms;
    if (reconciled : bool) then Ret tt
    else evaluateStage (rollout_id rec) steady_now_ms wall_now_ms;; Ret tt
  else if bool_decide (status rec = PAUSED) then
    evaluateAutoRollback (rollout_id rec) steady_now_ms wall_now_ms;; Ret tt
  else Ret tt.

Definition live_rollouts : RolloutQuery :=
  {| rq_statuses := [PROGRESSING; PAUSED]; rq_limit := 500; rq_page_token := "" |}.

Definition onTick (steady_now_ms wall_now_ms : Z) : prog Cmd unit :=
  if negb (d_store deps) then Ret tt
  else
    rollouts ← call (RsList live_rollouts);
    for_each (tick_one steady_now_ms wall_now_ms) rollouts.

(** The requests a rollout server accepts, the ticker included. *)
Inductive Request :=
| Create (sp : RolloutSpec) (creator : string)
| StartR (id actor : string)
| PromoteR (id actor : string)
| PauseR (id actor comment : string)
| ResumeR (id actor : string)
| AbortR (id actor : string)
| EvaluateStage (id : string) (steady_now_ms wall_now_ms : Z)
| EvaluateAutoRollback (id : string) (steady_now_ms wall_now_ms : Z)
| Tick (steady_now_ms wall_now_ms : Z).

Definition discard {A} (p : prog Cmd A) : prog Cmd unit := p ≫= λ _, Ret tt.

Definition handle (req : Request) : prog Cmd unit :=
  match req with
  | Create sp who => discard (createRollout sp who)
  | StartR id who => discard (startRollout id who)
  | PromoteR id who => discard (promoteStage id who)
  | PauseR id who c => discard (pauseRollout id who c)
  | ResumeR id who => discard (resumeRollout id who)
  | AbortR id who => discard (abortRollout id who)
  | EvaluateStage id s n => discard (evaluateStage id s n)
  | EvaluateAutoRollback id s n => discard (evaluateAutoRollback id s n)
  | Tick s n => onTick s n
  end.

End controller.

(** ** Views *)

Section views.
Context {S Q : Type} `{!ConfigStoreOps S} `{!RolloutStoreOps S} `{!PersistentStoreLaws S}.
Context (env : Env Q).

(** The rollouts of a world. *)
Definition rview (w : World S Q) : gmap string RolloutRecord := rs_view (w_store w).

Definition ro_quiet {B} (e : Cmd B) : bool :=
  match e with RsInsert _ | RsUpdate _ => false | _ => true end.

Lemma exec_rquiet {B} (e : Cmd B) w : ro_quiet e = true → rview (exec env B e w).2 = rview w.
Proof.
  destruct e; simpl; intros Hq; try done; unfold rview; simpl.
  - apply ps_insert_frame.
  - apply ps_update_frame.
  - apply ps_activate_frame.
  - by destruct (Audit.audit_exec _ _ _ _).
Qed.

Lemma rquiet_call {B} (e : Cmd B) : ro_quiet e = true → quiet (exec env) rview (call e).
Proof. intros Hq. split; [|done]. intros w. by apply exec_rquiet. Qed.

Lemma rquiet_record act d : quiet (exec env) rview (AuditBridge.record env act d).
Proof.
  split; [done|]. intros req. split; [intros w; by apply (exec_rquiet (Aud _))|].
  intros e. unfold when_. destruct (env_audit_store env); [|done].
  split; [intros w; by apply (exec_rquiet (Aud _))|done].
Qed.

Lemma rquiet_when (c : bool) p : quiet (exec env) rview p → quiet (exec env) rview (when_ c p).
Proof. by destruct c. Qed.
End views.

(** Decide that a program is quiet by walking through it. *)
Ltac quiet_tac :=
  repeat first
    [ exact I
    | apply ConfigService.quiet_record | apply rquiet_record
    | apply ConfigService.quiet_when | apply rquiet_when
    | apply ConfigService.quiet_call; reflexivity | apply rquiet_call; reflexivity
    | apply quiet_bind; [|intros ?]
    | match goal with
      | |- quiet _ _ (match ?x with _ => _ end) => destruct x
      end ].

Section quiet_handlers.
Context {S Q : Type} `{!ConfigStoreOps S} `{!RolloutStoreOps S} `{!PersistentStoreLaws S}.
Context (env : Env Q).

Lemma load_quiet deps id :
  quiet (exec env) (ConfigService.cview (S:=S)) (loadRollout deps id).
Proof. unfold loadRollout. quiet_tac. Qed.

Lemma load_rquiet deps id : quiet (exec env) (rview (S:=S)) (loadRollout deps id).
Proof. unfold loadRollout. quiet_tac. Qed.

Lemma getActive_quiet core :
  quiet (exec env) (ConfigService.cview (S:=S)) (ConfigService.getActive core).
Proof. unfold ConfigService.getActive. quiet_tac. Qed.

Lemma getVersion_quiet core id :
  quiet (exec env) (ConfigService.cview (S:=S)) (ConfigService.getVersion core id).
Proof. unfold ConfigService.getVersion. quiet_tac. Qed.

Lemma getActive_rquiet core : quiet (exec env) (rview (S:=S)) (ConfigService.getActive core).
Proof. unfold ConfigService.getActive. quiet_tac. Qed.

(** The configuration service never touches the rollouts. *)
Lemma config_rquiet core req : quiet (exec env) (rview (S:=S)) (ConfigService.handle env core req).
Proof.
  destruct req; cbn [ConfigService.handle].
  - unfold ConfigService.submit. quiet_tac.
  - unfold ConfigService.approve, ConfigService.transitionReview. quiet_tac.
  - unfold ConfigService.reject, ConfigService.transitionReview. quiet_tac.
  - unfold ConfigService.activate. quiet_tac.
  - unfold ConfigService.rollback. cbv zeta. quiet_tac.
Qed.
End quiet_handlers.

(** ** The configuration invariant, with rollouts running *)

Section config_safety.
Context {S Q : Type} `{!ConfigStoreOps S} `{!RolloutStoreOps S} `{!PersistentStoreLaws S}.
Context (env : Env Q) (deps : Deps) (core : ConfigService.Deps).
Context (Hcore : ∀ c, d_config_core deps = Some c → c = core).

#[local] Notation Safe := (ConfigService.Safe (S:=S) env core).

Lemma Safe_seq {A B} (p : prog Cmd A) (k : A → prog Cmd B) w :
  Safe p w → (∀ a w', Safe (k a) w') → Safe (p ≫= k) w.
Proof.
  intros Hp Hk. unfold ConfigService.Safe in *. apply safe_bind; [apply _|].
  eapply safe_mono; [|exact Hp]. intros a w' _ _. apply Hk.
Qed.

Lemma core_activate_safe id who w : Safe (ConfigService.activate env core id who) w.
Proof. apply (ConfigService.handle_safe env core (ConfigService.Activate id who)). Qed.

Lemma core_rollback_safe id who c e w : Safe (ConfigService.rollback env core id who c e) w.
Proof. apply (ConfigService.handle_safe env core (ConfigService.Rollback id who c e)). Qed.

Lemma core_getActive_safe c w : Safe (ConfigService.getActive c) w.
Proof.
  unfold ConfigService.getActive. destruct (negb _); [apply ConfigService.Safe_ret|].
  by apply (ConfigService.Safe_read env core CsGetActive Ret).
Qed.

Ltac csafe_step :=
  match goal with
  | |- ConfigService.Safe _ _ (ConfigService.getActive _) _ => apply core_getActive_safe
  | H : d_config_core deps = Some ?d |- ConfigService.Safe _ _ (ConfigService.rollback _ ?d _ _ _ _) _ =>
      rewrite (Hcore d eq_refl); apply core_rollback_safe
  | H : d_config_core deps = Some ?d |- ConfigService.Safe _ _ (ConfigService.activate _ ?d _ _) _ =>
      rewrite (Hcore d eq_refl); apply core_activate_safe
  | |- ConfigService.Safe _ _ (Ret _) _ => apply ConfigService.Safe_ret
  | |- ConfigService.Safe _ _ (_ ≫= _) _ =>
      first
        [ apply ConfigService.Safe_quiet;
            [unfold audit; first [apply load_quiet|apply getActive_quiet|apply getVersion_quiet
              |solve [quiet_tac]]|intros ?]
        | apply Safe_seq; [solve [auto using core_activate_safe, core_rollback_safe,
            ConfigService.Safe_ret]|intros ? ?]
        | apply Safe_seq; [|intros ? ?] ]
  | |- ConfigService.Safe _ _ (when_ ?c _) _ => destruct c; unfold when_
  | |- ConfigService.Safe _ _ (match ?x with _ => _ end) _ => destruct x eqn:?
  end.

Lemma promote_failed_safe r now mut w : Safe (promote_failed env deps r now mut) w.
Proof. unfold promote_failed. cbv zeta. repeat csafe_step. Qed.

Lemma tick_one_config_safe s n r w : Safe (tick_one env deps s n r) w.
Proof.
  unfold tick_one, reconcileActivatedRollout, evaluateStage, evaluateAutoRollback. cbv zeta.
  repeat csafe_step.
Qed.

Lemma onTick_config_safe s n w : Safe (onTick env deps s n) w.
Proof.
  unfold onTick. destruct (negb _); [apply ConfigService.Safe_ret|].
  apply ConfigService.Safe_quiet; [quiet_tac|]. intros l. revert w.
  induction l as [|r l IH]; intros w; simpl; [apply ConfigService.Safe_ret|].
  apply Safe_seq; [apply tick_one_config_safe|auto].
Qed.

Lemma handle_config_safe req w : Safe (handle env deps req) w.
Proof.
  destruct req as [sp who|id who|id who|id who c|id who|id who|id s n|id s n|s n];
    cbn [handle]; [..|apply onTick_config_safe]; unfold discard;
    (apply Safe_seq; [|intros; apply ConfigService.Safe_ret]);
    unfold createRollout, startRollout, promoteStage, pauseRollout, resumeRollout,
      abortRollout, evaluateStage, evaluateAutoRollback; cbv zeta;
    repeat first [apply promote_failed_safe | csafe_step].
Qed.
End config_safety.

(** ** The rollout invariant *)

(** A stored rollout is keyed by its identifier, was created by someone for
    its specification's target, has stages with percentages in range and a
    current stage among them. *)
Record rollout_ok (id : string) (r : RolloutRecord) : Prop := {
  rok_id : rollout_id r = id;
  rok_nonempty : id ≠ "";
  rok_target : target_version_id r = spec_target_version_id (spec r);
  rok_percentages : Forall (λ st, 0 <= percentage (scope st) <= 100) (stages (spec r));
  rok_stage : 0 <= current_stage_index r < Z.of_nat (length (stages (spec r)));
  rok_creator : creator r ≠ "";
}.

Record ro_inv (m : gmap string RolloutRecord) : Prop := {
  ri_records id r : m !! id = Some r → rollout_ok id r;
  ri_one_active : one_active m;
}.

Definition ro_grow (m m' : gmap string RolloutRecord) : Prop :=
  ∀ id r, m !! id = Some r → ∃ r', m' !! id = Some r' ∧ same_rollout r r'.

#[global] Instance ro_grow_preorder : PreOrder ro_grow.
Proof.
  split.
  - intros m id r Hr. by exists r.
  - intros m1 m2 m3 H12 H23 id r Hr.
    destruct (H12 id r Hr) as (r' & Hr' & ?). destruct (H23 id r' Hr') as (r'' & ? & ?).
    exists r''. split; [done|]. by etrans.
Qed.

Lemma bad_percentage_none i l :
  bad_percentage i l = None → Forall (λ st, 0 <= percentage (scope st) <= 100) l.
Proof.
  revert i. induction l as [|st l IH]; intros i; simpl; [constructor|].
  destruct (_ || _) eqn:E; [done|]. intros H%IH. constructor; [|done].
  apply orb_false_iff in E as [?%Z.ltb_ge ?%Z.ltb_ge]. lia.
Qed.

Section rollout_safety.
Context {S Q : Type} `{!ConfigStoreOps S} `{!RolloutStoreOps S} `{!PersistentStoreLaws S}.
Context (env : Env Q).

Definition RRel (w w' : World S Q) : Prop := ro_grow (rview w) (rview w').
Definition RInv (w : World S Q) : Prop := ro_inv (rview w).

#[global] Instance RRel_preorder : PreOrder RRel.
Proof. unfold RRel. split; [intros w; reflexivity|intros w1 w2 w3 ??; by etrans]. Qed.

Definition RSafe {A} (p : prog Cmd A) (w : World S Q) : Prop :=
  safe (exec env) RRel RRel RInv (λ _ _, True) p w.

Lemma rview_rel w1 w2 : rview w1 = rview w2 → RRel w1 w2 ∧ RRel w1 w2 ∧ (RInv w1 → RInv w2).
Proof. unfold RRel, RInv. intros ->. split_and!; [reflexivity..|done]. Qed.

Lemma RSafe_ret {A} (a : A) w : RSafe (Ret a) w.
Proof. by unfold RSafe. Qed.

Lemma RSafe_stable {A} (p : prog Cmd A) w w' : RRel w w' → RSafe p w → RSafe p w'.
Proof. intros HR. eapply safe_stable; [apply _|done]. Qed.

Lemma RSafe_seq {A B} (p : prog Cmd A) (k : A → prog Cmd B) w :
  RSafe p w → (∀ a w', RRel w w' → RSafe (k a) w') → RSafe (p ≫= k) w.
Proof.
  unfold RSafe. revert w. induction p as [a|C e q IH]; intros w Hp Hk.
  - apply (Hk a w). reflexivity.
  - intros w' HR HI. destruct (Hp w' HR HI) as (HG & HI' & Hq). split_and!; [done..|].
    apply IH; [done|]. intros a w'' HR'. apply Hk. by do 2 (etrans; [done|]).
Qed.

Lemma RSafe_quiet {A B} (p : prog Cmd A) (k : A → prog Cmd B) w :
  quiet (exec env) rview p → (∀ a w', RRel w w' → RSafe (k a) w') → RSafe (p ≫= k) w.
Proof.
  intros Hq Hk. apply (safe_quiet (exec env) RRel RRel RInv rview); [apply rview_rel|done|].
  intros a w' HR _. by apply Hk.
Qed.

Lemma RSafe_read {A B} (e : Cmd B) (k : B → prog Cmd A) w :
  ro_quiet e = true →
  (∀ w', RRel w w' → RInv w' → RSafe (k (exec env B e w').1) w') → RSafe (call e ≫= k) w.
Proof.
  intros Hq Hk w' HR HI. pose proof (exec_rquiet env e w' Hq) as Hv.
  destruct (rview_rel w' (exec env B e w').2 (eq_sym Hv)) as (Hrel & _ & Hinv).
  split_and!; [done|by apply Hinv|]. eapply safe_stable; [apply _|exact Hrel|by apply Hk].
Qed.

(** What a handler knows of a record it has read, possibly out of date. *)
Definition known (w : World S Q) (r : RolloutRecord) : Prop :=
  rollout_ok (rollout_id r) r ∧
  ∃ r0, rview w !! rollout_id r = Some r0 ∧ same_rollout r0 r.

Lemma known_lookup w id r : RInv w → rview w !! id = Some r → known w r.
Proof.
  intros HI Hr. pose proof (ri_records _ HI _ _ Hr) as Hok.
  pose proof (rok_id _ _ Hok) as Hid. split; [by rw Hid|]. exists r. by rw Hid.
Qed.

Lemma known_stable w w' r : RRel w w' → known w r → known w' r.
Proof.
  intros HR [Hok (r0 & Hr0 & Hs)]. split; [done|].
  destruct (HR _ _ Hr0) as (r1 & Hr1 & Hs1). exists r1. split; [done|].
  unfold same_rollout in *. intuition congruence.
Qed.

Lemma known_edit w r n :
  known w r → same_rollout r n →
  0 <= current_stage_index n < Z.of_nat (length (stages (spec n))) → known w n.
Proof.
  intros [[Hid Hne Ht Hp Hi Hc] (r0 & Hr0 & Hs0)] (E1 & E2 & E3 & E4) Hidx. split.
  - split; rw ?E1 ?E2 ?E3 ?E4 //. by rw -E3.
  - exists r0. rw E1. split; [done|]. unfold same_rollout in *. intuition congruence.
Qed.

Lemma known_keep w r n :
  known w r → same_rollout r n → current_stage_index n = current_stage_index r → known w n.
Proof.
  intros Hk Hs Hi. apply (known_edit w r); [done|done|].
  rw Hi. destruct Hs as (_ & _ & -> & _). apply Hk.
Qed.

Lemma RSafe_update {A} n (k : bool → prog Cmd A) w :
  known w n → (∀ b w', RRel w w' → RSafe (k b) w') → RSafe (call (RsUpdate n) ≫= k) w.
Proof.
  intros Hkn Hk w' HR HI. simpl. unfold on_store.
  destruct (rs_update n (w_store w')) as [b s'] eqn:E. simpl.
  assert (RRel w' (with_store s' w') ∧ RInv (with_store s' w')) as [??].
  { apply (known_stable w w' n HR) in Hkn as [Hok (r0 & Hr0 & Hs0)].
    unfold RRel, RInv, rview in *; simpl. destruct b.
    - apply rs_update_true in E as (_ & Hsole & ->). split.
      + intros id r Hr. destruct (decide (id = rollout_id n)) as [->|Hne].
        * exists n. rw lookup_insert_eq. split; [done|]. by simplify_eq.
        * exists r. rw lookup_insert_ne; [done|]. by apply not_eq_sym.
      + split; [|by apply one_active_insert; [apply HI|]].
        intros id r [[<- <-]|[? ?]]%lookup_insert_Some; [done|by apply HI].
    - apply rs_update_false in E as ->. done. }
  split_and!; [done..|]. apply Hk. by etrans.
Qed.

Lemma RSafe_insert {A} n (k : bool → prog Cmd A) w :
  rollout_id n = "" ∨ rollout_ok (rollout_id n) n →
  (∀ b w', RSafe (k b) w') → RSafe (call (RsInsert n) ≫= k) w.
Proof.
  intros Hn Hk w' HR HI. simpl. unfold on_store.
  destruct (rs_insert n (w_store w')) as [b s'] eqn:E. simpl.
  assert (RRel w' (with_store s' w') ∧ RInv (with_store s' w')) as [??].
  { unfold RRel, RInv, rview in *; simpl. destruct b.
    - apply rs_insert_true in E as (Hne & Hnone & Hsole & ->). destruct Hn as [?|Hok]; [done|]. split.
      + intros id r Hr. exists r. rw lookup_insert_ne //. congruence.
      + split; [|by apply one_active_insert; [apply HI|]].
        intros id r [[<- <-]|[? ?]]%lookup_insert_Some; [done|by apply HI].
    - apply rs_insert_false in E as ->. done. }
  split_and!; [done..|]. apply Hk.
Qed.

Lemma RSafe_load {A} deps id (k : Result + RolloutRecord → prog Cmd A) w :
  (∀ e, RSafe (k (inl e)) w) →
  (∀ r w', RRel w w' → known w' r → RSafe (k (inr r)) w') →
  RSafe (loadRollout deps id ≫= k) w.
Proof.
  intros He Hr. unfold loadRollout. destruct (str_empty id); [apply He|].
  destruct (negb _); [apply He|].
  apply (RSafe_read (RsGet id) (λ m, match m with
    | None => Ret (inl (makeError "NOT_FOUND" ("rollout not found: " +:+ id)))
    | Some r => Ret (inr r) end ≫= k) w); [done|].
  intros w' HR HI. change (exec env _ (RsGet id) w').1 with (rs_get id (w_store w')).
  rw rs_get_view. destruct (rs_view (w_store w') !! id) as [r|] eqn:E.
  - apply Hr; [done|]. by eapply known_lookup.
  - eapply RSafe_stable; [done|]. apply He.
Qed.
End rollout_safety.

(** Step a handler's proof through its next call, carrying what it knows of
    the record it works on. *)
Ltac rquiet :=
  unfold audit;
  repeat match goal with
  | |- quiet _ _ (match ?x with _ => _ end) => destruct x
  end;
  first
    [ apply getActive_rquiet
    | match goal with
      | |- quiet _ _ (ConfigService.activate ?e ?c ?i ?u) =>
          apply (config_rquiet e c (ConfigService.Activate i u))
      | |- quiet _ _ (ConfigService.rollback ?e ?c ?i ?u ?m ?b) =>
          apply (config_rquiet e c (ConfigService.Rollback i u m b))
      | |- quiet _ _ (ConfigService.getVersion _ _) => unfold ConfigService.getVersion
      end
    | idtac ];
  solve [quiet_tac].

Ltac transport :=
  repeat match goal with
  | HR : RRel ?w _, Hk : known ?w _ |- _ => apply (known_stable _ _ _ HR) in Hk
  end.

Ltac known_tac :=
  match goal with
  | Hk : known ?w ?r |- known ?w ?n =>
      solve [ apply (known_keep w r); [exact Hk|by repeat split|done]
            | apply (known_edit w r); [exact Hk|by repeat split|];
              pose proof (rok_stage _ _ (proj1 Hk));
              cbn [current_stage_index spec set_stage set_last_actor];
              match goal with H : (_ <=? _) = false |- _ => apply Z.leb_gt in H end; lia ]
  end.

Ltac rsafe_step :=
  match goal with
  | |- RSafe _ (Ret _) _ => apply RSafe_ret
  | |- RSafe _ (loadRollout _ _ ≫= _) _ =>
      apply RSafe_load; [intros ?; apply RSafe_ret|intros ? ? ? ?]
  | |- RSafe _ (call (RsUpdate _) ≫= _) _ =>
      apply RSafe_update; [known_tac|intros ? ? ?; transport]
  | |- RSafe _ (_ ≫= _) _ => apply RSafe_quiet; [rquiet|intros ? ? ?; transport]
  | |- RSafe _ (match ?x with _ => _ end) _ => destruct x eqn:?
  end.

Section rollout_handlers.
Context {S Q : Type} `{!ConfigStoreOps S} `{!RolloutStoreOps S} `{!PersistentStoreLaws S}.
Context (env : Env Q) (deps : Deps).

#[local] Notation RSafe := (RSafe (S:=S) env).

Lemma promote_failed_rsafe r now mut w : known w r → RSafe (promote_failed env deps r now mut) w.
Proof. intros Hk. unfold promote_failed. cbv zeta. repeat rsafe_step. Qed.

Lemma promote_rsafe id who w : RSafe (promoteStage env deps id who) w.
Proof.
  unfold promoteStage. cbv zeta.
  repeat first [apply promote_failed_rsafe; assumption | rsafe_step].
Qed.

Lemma abort_rsafe id who w : RSafe (abortRollout env deps id who) w.
Proof.
  unfold abortRollout. cbv zeta. repeat rsafe_step.
Qed.

Lemma evaluateStage_rsafe id s n w : RSafe (evaluateStage env deps id s n) w.
Proof. unfold evaluateStage. cbv zeta. repeat rsafe_step. Qed.

Lemma evaluateAutoRollback_rsafe id s n w : RSafe (evaluateAutoRollback env deps id s n) w.
Proof. unfold evaluateAutoRollback. cbv zeta. repeat rsafe_step. Qed.

Lemma create_rsafe sp who w : RSafe (createRollout env deps sp who) w.
Proof.
  unfold createRollout. destruct (d_store deps); [|apply RSafe_ret].
  destruct (d_config_core deps) as [core|]; [|apply RSafe_ret].
  destruct (str_empty (spec_target_version_id sp)) eqn:Ht; [apply RSafe_ret|].
  case_bool_decide as Hst; [apply RSafe_ret|].
  destruct (bad_percentage 0 (stages sp)) eqn:Hp; [apply RSafe_ret|].
  apply bad_percentage_none in Hp.
  destruct (str_empty who) eqn:Hw; [apply RSafe_ret|]. apply str_empty_false in Hw.
  repeat rsafe_step. apply RSafe_insert; [|intros [] ?; cbn [negb]; repeat rsafe_step].
  cbn [rollout_id]. destruct (decide (a2 = "")) as [->|Hne]; [by left|right].
  split; simpl; [done|done|done|done| |done].
  destruct (stages sp); simpl in *; [done|lia].
Qed.

Lemma reconcile_rsafe r n w : known w r → RSafe (reconcileActivatedRollout env deps r n) w.
Proof. intros Hk. unfold reconcileActivatedRollout. cbv zeta. repeat rsafe_step. Qed.

Lemma tick_one_rsafe s n r w : known w r → RSafe (tick_one env deps s n r) w.
Proof.
  intros Hk. unfold tick_one. destruct (bool_decide (status r = PROGRESSING)).
  - apply RSafe_seq; [by apply reconcile_rsafe|]. intros [] w' _; [apply RSafe_ret|].
    apply RSafe_seq; [apply evaluateStage_rsafe|]. intros; apply RSafe_ret.
  - destruct (bool_decide _); [|apply RSafe_ret].
    apply RSafe_seq; [apply evaluateAutoRollback_rsafe|]. intros; apply RSafe_ret.
Qed.

Lemma onTick_rsafe s n w : RSafe (onTick env deps s n) w.
Proof.
  unfold onTick. destruct (negb _); [apply RSafe_ret|].
  apply RSafe_read; [done|]. intros w' _ HI.
  assert (Forall (known w') (exec env _ (RsList live_rollouts) w').1) as Hl.
  { apply Forall_forall. intros r Hr. apply rs_list_sound in Hr as [_ [id Hid]].
    by eapply known_lookup. }
  revert Hl. generalize (exec env _ (RsList live_rollouts) w').1 as l. clear -PersistentStoreLaws0. intros l Hl.
  revert w' Hl. induction l as [|r l IH]; intros w Hl; simpl; [apply RSafe_ret|].
  apply Forall_cons in Hl as [Hr Hl]. apply RSafe_seq; [by apply tick_one_rsafe|].
  intros _ w' HR. apply IH. eapply Forall_impl; [exact Hl|]. intros x. by apply known_stable.
Qed.

Lemma handle_rollout_safe req w : RSafe (handle env deps req) w.
Proof.
  destruct req as [sp who|id who|id who|id who c|id who|id who|id s n|id s n|s n];
    cbn [handle]; [..|apply onTick_rsafe]; unfold discard;
    (apply RSafe_seq; [|intros; apply RSafe_ret]);
    [apply create_rsafe| |apply promote_rsafe| | |apply abort_rsafe
    |apply evaluateStage_rsafe|apply evaluateAutoRollback_rsafe].
  - unfold startRollout. cbv zeta. repeat rsafe_step.
  - unfold pauseRollout. cbv zeta. repeat rsafe_step.
  - unfold resumeRollout. cbv zeta. repeat rsafe_step.
Qed.

(** The control plane as a server: configuration and rollout requests and
    ticks, each starting at any time. *)
Definition is_cp_request (core : ConfigService.Deps) (p : prog Cmd unit) : Prop :=
  (∃ req, p = handle env deps req) ∨
  (∃ req, p = discard (ConfigService.handle env core req)).

Definition cp_env_step (w w' : World S Q) : Prop :=
  ConfigService.cview w' = ConfigService.cview w ∧ rview w' = rview w.

Lemma cp_server_rollouts core ts ts' (w w' : World S Q) :
  RInv w → Forall (λ p, RSafe p w) ts →
  rtc (pool_step (exec env) cp_env_step (is_cp_request core)) (ts, w) (ts', w') →
  RInv w' ∧ ro_grow (rview w) (rview w') ∧ Forall (λ p, RSafe p w') ts'.
Proof.
  intros HI Hts Hsteps.
  destruct (pool_safe (exec env) RRel RRel RInv (λ _ _, True) cp_env_step
    (is_cp_request core) ts w ts' w') as (HR & HI' & Hts');
    [done|intros w1; reflexivity| | |done|done|done|done].
  - intros w1 w2 [_ Hv] ?. destruct (rview_rel w1 w2) as (?&?&?); [done|]. auto.
  - intros p w1 [[req ->]|[req ->]]; [apply handle_rollout_safe|].
    apply RSafe_quiet; [apply config_rquiet|]. intros; apply RSafe_ret.
Qed.

Lemma cp_server_config core ts (w w' : World S Q) :
  (∀ c, d_config_core deps = Some c → c = core) →
  ConfigService.Inv env core w →
  rtc (pool_step (exec env) cp_env_step (is_cp_request core)) ([], w) (ts, w') →
  ConfigService.Inv env core w' ∧
  ConfigService.cfg_grow (ConfigService.cview w) (ConfigService.cview w').
Proof.
  intros Hcore HI Hsteps.
  destruct (pool_safe (exec env) ConfigService.Rel ConfigService.Rel
    (ConfigService.Inv env core) (λ _ _, True) cp_env_step
    (is_cp_request core) [] w ts w') as (HR & HI' & _);
    [done|intros w1; reflexivity| | |done|done|done|done].
  - intros w1 w2 [Hv _] ?. destruct (ConfigService.view_rel env core w1 w2) as (?&?&?); [done|].
    auto.
  - intros p w1 [[req ->]|[req ->]]; [by apply handle_config_safe|].
    apply Safe_seq; [apply ConfigService.handle_safe|]. intros; apply ConfigService.Safe_ret.
Qed.

End rollout_handlers.

(** ** Handlers alone *)

Section sequential.
Context {S Q : Type} `{!ConfigStoreOps S} `{!RolloutStoreOps S} `{!PersistentStoreLaws S}.
Context (env : Env Q).

(** What a handler's run comes to: its result, and the versions and rollouts
    after it. *)
Definition WP {A} (p : prog Cmd A) (w : World S Q)
    (P : A → CView → gmap string RolloutRecord → Prop) : Prop :=
  P (run (exec env) p w).1 (ConfigService.cview (run (exec env) p w).2)
    (rview (run (exec env) p w).2).

Lemma WP_ret {A} (a : A) w P : P a (ConfigService.cview w) (rview w) → WP (Ret a) w P.
Proof. done. Qed.

Lemma WP_bind {A B} (p : prog Cmd A) (k : A → prog Cmd B) w P :
  WP (k (run (exec env) p w).1) (run (exec env) p w).2 P → WP (p ≫= k) w P.
Proof. unfold WP. rw run_bind. by destruct (run (exec env) p w). Qed.

Lemma WP_quiet {A B} (p : prog Cmd A) (k : A → prog Cmd B) w P :
  quiet (exec env) (ConfigService.cview (S:=S)) p → quiet (exec env) (rview (S:=S)) p →
  (∀ a w', ConfigService.cview w' = ConfigService.cview w → rview w' = rview w →
    WP (k a) w' P) →
  WP (p ≫= k) w P.
Proof.
  intros Hc Hr Hk. apply WP_bind.
  apply Hk; [by apply (quiet_run _ _ p)|by apply (quiet_run _ _ p)].
Qed.

Lemma WP_load {A} deps id (k : Result + RolloutRecord → prog Cmd A) w P :
  (∀ e, error_code e ≠ "" → WP (k (inl e)) w P) →
  (∀ r, rview w !! id = Some r → WP (k (inr r)) w P) →
  WP (loadRollout deps id ≫= k) w P.
Proof.
  intros He Hr. unfold loadRollout.
  destruct (str_empty id); [by apply (He (makeError _ _))|].
  destruct (negb _); [by apply (He (makeError _ _))|].
  apply WP_bind. rw run_call.
  change (exec env _ (RsGet id) w) with (rs_get id (w_store w), w). cbn [fst snd].
  rw rs_get_view. fold (rview w).
  destruct (rview w !! id) as [r|] eqn:E; [by apply Hr|by apply (He (makeError _ _))].
Qed.

Lemma WP_update {A} n (k : bool → prog Cmd A) w P :
  (∀ w', ConfigService.cview w' = ConfigService.cview w → rview w' = rview w →
    WP (k false) w' P) →
  (∀ w', ConfigService.cview w' = ConfigService.cview w →
    rview w' = <[rollout_id n := n]> (rview w) → WP (k true) w' P) →
  WP (call (RsUpdate n) ≫= k) w P.
Proof.
  intros Hf Ht. apply WP_bind. change (run (exec env) (call (RsUpdate n)) w)
    with (let '(b, w') := on_store (rs_update n (w_store w)) w in run (exec env) (Ret b) w').
  unfold on_store. destruct (rs_update n (w_store w)) as [b s'] eqn:E. simpl.
  pose proof (ps_rupdate_frame n (w_store w)) as Hc. rw E /= in Hc. destruct b.
  - apply Ht; unfold ConfigService.cview, rview; simpl; [done|]. by apply rs_update_true in E as (_&_&->).
  - apply Hf; unfold ConfigService.cview, rview; simpl; [done|]. by apply rs_update_false in E as ->.
Qed.

Lemma WP_config {A} core req (k : ConfigService.Result → prog Cmd A) w P :
  ConfigService.has_store core = true →
  (∀ res w',
    ConfigService.cfg_step env core (ConfigService.answers env core w req) (ConfigService.cview w) req
      (ConfigService.outcome res)
      (ConfigService.cview w') →
    rview w' = rview w → WP (k res) w' P) →
  WP (ConfigService.handle env core req ≫= k) w P.
Proof.
  intros Hst Hk. apply WP_bind. apply Hk.
  - by apply ConfigService.handle_refines.
  - apply (quiet_run _ _ (ConfigService.handle env core req)), config_rquiet.
Qed.
End sequential.

(** The effect of a handler on the rollouts: none, or one transition of the
    rollout it was asked about. *)
Definition ro_effect (id : string) (m m' : gmap string RolloutRecord) : Prop :=
  m' = m ∨
  ∃ r r', m !! id = Some r ∧ m' = <[id := r']> m ∧ same_rollout r r' ∧
    rollout_step (status r) (status r').

Lemma ro_effect_transition id m r n a last :
  ro_inv m → m !! id = Some r → same_rollout r n →
  attemptRolloutTransition (status r) a last = Some (status n) →
  ro_effect id m (<[rollout_id n := n]> m).
Proof.
  intros Hm Hr Hs Ht. right. exists r, n.
  assert (rollout_id n = id) as ->.
  { destruct Hs as (-> & _). apply (ri_records m Hm id r Hr). }
  split_and!; [done|done|done|]. by exists a, last.
Qed.

Ltac wquiet :=
  apply WP_quiet;
    [unfold audit;
     repeat match goal with |- quiet _ _ (match ?x with _ => _ end) => destruct x end;
     first [apply getActive_quiet|solve [quiet_tac]]
    |rquiet|].

Section effects.
Context {S Q : Type} `{!ConfigStoreOps S} `{!RolloutStoreOps S} `{!PersistentStoreLaws S}.
Context (env : Env Q) (deps : Deps).
Context (Hst : ∀ core, d_config_core deps = Some core → ConfigService.has_store core = true).

(** The rollout a request is about. *)
Definition request_rollout (req : Request) : option string :=
  match req with
  | Create _ _ | Tick _ _ => None
  | StartR id _ | PromoteR id _ | PauseR id _ _ | ResumeR id _ | AbortR id _
  | EvaluateStage id _ _ | EvaluateAutoRollback id _ _ => Some id
  end.

#[local] Notation WP := (WP (S:=S) env).

Ltac weffect :=
  repeat match goal with
  | Hr : rview ?w' = _ |- _ => rewrite Hr
  end;
  first [by left | eapply ro_effect_transition; [eassumption|eassumption|by repeat split|eassumption]].

Ltac wstep :=
  match goal with
  | |- RolloutController.WP _ (Ret _) _ _ => apply WP_ret
  | |- RolloutController.WP _ (loadRollout _ _ ≫= _) _ _ =>
      apply WP_load; [intros ? _; apply WP_ret; by left|intros r Hr]
  | |- RolloutController.WP _ (call (RsUpdate _) ≫= _) _ _ =>
      apply WP_update; intros ? ? ?; cbn [negb]
  | H : d_config_core deps = Some ?c |-
      RolloutController.WP _ (ConfigService.activate _ ?c ?i ?u ≫= _) _ _ =>
      apply (WP_config env c (ConfigService.Activate i u)); [by apply Hst|intros ? ? ? ?]
  | H : d_config_core deps = Some ?c |-
      RolloutController.WP _ (ConfigService.rollback _ ?c ?i ?u ?m ?b ≫= _) _ _ =>
      apply (WP_config env c (ConfigService.Rollback i u m b)); [by apply Hst|intros ? ? ? ?]
  | |- RolloutController.WP _ ((match ?x with _ => _ end) ≫= _) _ _ => destruct x eqn:?
  | |- RolloutController.WP _ (Ret ?a ≫= ?k) _ _ =>
      change (Ret a ≫= k) with (k a); cbv beta
  | |- RolloutController.WP _ (_ ≫= _) _ _ => wquiet; intros ? ? ? ?
  | |- RolloutController.WP _ (match ?x with _ => _ end) _ _ => destruct x eqn:?
  end.

Lemma WP_discard {A} (p : prog Cmd A) w P :
  WP p w (λ _ v m, P v m) → WP (discard p) w (λ _ v m, P v m).
Proof.
  unfold RolloutController.WP, discard. rw run_bind. by destruct (run (exec env) p w).
Qed.

Lemma request_effect req id w :
  RInv w → request_rollout req = Some id →
  WP (handle env deps req) w (λ _ _ m', ro_effect id (rview w) m').
Proof.
  intros HI Hid. destruct req; simplify_eq/=;
    apply (WP_discard _ w (λ _ m', ro_effect id (rview w) m'));
    unfold startRollout, promoteStage, promote_failed, pauseRollout, resumeRollout,
      abortRollout, evaluateStage, evaluateAutoRollback; cbv zeta;
    repeat wstep; weffect.
Qed.

(** A last-stage promotion that reports success has activated the target. *)
Lemma promote_activates id who w r :
  RInv w → rview w !! id = Some r → is_Some (d_config_core deps) →
  WP (promoteStage env deps id who) w (λ res v' m',
    (current_stage_index r + 1 < Z.of_nat (length (stages (spec r))) →
       v' = ConfigService.cview w) ∧
    (Z.of_nat (length (stages (spec r))) <= current_stage_index r + 1 →
     error_code res = "" →
       cv_active v' = target_version_id r ∧
       (∃ c, cv_versions v' !! target_version_id r = Some c ∧
          ConfigVersion.status c = ConfigVersion.ACTIVE) ∧
       (∃ r', m' !! id = Some r' ∧ status r' = COMPLETED))).
Proof.
  intros HI Hr [core Hcore]. pose proof (Hst core Hcore) as Hcs.
  unfold promoteStage. cbv zeta. rw Hcore.
  apply WP_load; [intros e He; by apply WP_ret|]. intros r0 Hr0.
  assert (r0 = r) as -> by congruence. clear Hr0.
  pose proof (rok_id _ _ (ri_records _ HI _ _ Hr)) as Hid.
  destruct (Z.leb_spec (Z.of_nat (length (stages (spec r)))) (current_stage_index r + 1)) as [Hl|Hl].
  - destruct (attemptRolloutTransition (status r) Promote true) as [next|] eqn:Ht;
      [|apply WP_ret; split; [lia|done]].
    assert (next = COMPLETED) as -> by (destruct (status r); simplify_eq/=; done).
    wstep. apply (WP_config env core (ConfigService.Activate (target_version_id r) who));
      [done|]. intros res w1 Hstep Hrv.
    destruct (str_empty (ConfigService.error_code res)) eqn:He; cbn [negb].
    + unfold ConfigService.outcome in Hstep. rw He in Hstep.
      apply ConfigService.activate_ok in Hstep as [Ha Hc].
      apply WP_update; intros w2 Hv2 Hr2; cbn [negb]; [apply WP_ret; split; [lia|done]|].
      wquiet. intros _ w3 Hv3 Hr3. apply WP_ret. split; [lia|]. intros _ _.
      rw Hv3 Hv2 Hr3 Hr2. split_and!; [done|done|].
      exists (set_last_actor who (set_completed COMPLETED a r)). split; [|done].
      change (rollout_id (set_last_actor _ _)) with (rollout_id r). rw Hid. apply lookup_insert_eq.
    + unfold promote_failed. repeat wstep; (split; [lia|done]).
  - destruct (attemptRolloutTransition (status r) Promote false) as [next|] eqn:Ht;
      [|apply WP_ret; split; [done|lia]].
    repeat wstep; (split; [intros _; congruence|lia]).
Qed.

(** Automatic rollback of a paused rollout whose grace has expired. *)
Lemma autorollback_restores id s n w r core c :
  RInv w → ConfigService.Inv env core w → d_config_core deps = Some core →
  ConfigService.activations_accepted (S:=S) →
  d_store deps = true → d_auto_rollback_enabled deps = false →
  rview w !! id = Some r → status r = PAUSED → auto_rollback_on_pause (spec r) = true →
  auto_rollback_grace_seconds (spec r) * 1000 <= n - paused_at r →
  previous_active_version_id r ≠ "" →
  cv_versions (ConfigService.cview w) !! previous_active_version_id r = Some c →
  ConfigVersion.status c = ConfigVersion.ACTIVE ∨
    ConfigVersion.status c = ConfigVersion.SUPERSEDED →
  WP (evaluateAutoRollback env deps id s n) w (λ res v' m',
    cv_active v' = previous_active_version_id r ∧
    (error_code res = "" → ∃ r', m' !! id = Some r' ∧ status r' = FAILED ∧
       pause_reason r' = AUTO_ROLLBACK)).
Proof.
  intros HI HC Hcore Hacc Hs Hen Hr Hp Hopt Hgrace Hprev Hc Hst'.
  pose proof (ri_records _ HI _ _ Hr) as Hok.
  assert (id ≠ "") as Hidne by apply Hok.
  unfold evaluateAutoRollback, loadRollout. cbv zeta.
  rw (proj2 (str_empty_false id) Hidne) Hs. cbn [negb].
  apply WP_bind. rw run_call.
  change (exec env _ (RsGet id) w) with (rs_get id (w_store w), w). cbn [fst snd].
  rw rs_get_view. fold (rview w). rw Hr. cbn [run fst snd].
  rw Hp Hen Hopt bool_decide_eq_true_2 //. cbn [negb].
  change (Ret true ≫= ?k) with (k true). cbv beta. cbn [negb].
  destruct (Z.ltb_spec (n - paused_at r) (auto_rollback_grace_seconds (spec r) * 1000)); [lia|].
  wquiet. intros _ w1 Hv1 Hr1. cbn [attemptRolloutTransition]. rw Hcore.
  change (previous_active_version_id (set_completed _ _ _)) with (previous_active_version_id r).
  rw (proj2 (str_empty_false _) Hprev).
  set (mutp := ConfigService.rollback env core (previous_active_version_id r)
    (d_system_user_id deps) "auto_rollback: grace_expired" false).
  assert (str_empty (ConfigService.error_code (run (exec env) mutp w1).1) = true) as Hsucc.
  { apply str_empty_spec. eapply ConfigService.rollback_succeeds;
      [by apply Hst|done|by rw Hv1|done]. }
  apply WP_bind. rw Hsucc.
  pose proof (ConfigService.handle_refines env core (Hst core Hcore)
    (ConfigService.Rollback (previous_active_version_id r) (d_system_user_id deps)
      "auto_rollback: grace_expired" false) w1) as Hstep.
  unfold ConfigService.runs_to, ConfigService.outcome in Hstep. cbn [ConfigService.handle] in Hstep.
  fold mutp in Hstep. rw Hsucc in Hstep. apply ConfigService.rollback_ok in Hstep; [|by rw Hv1].
  assert (rview (run (exec env) mutp w1).2 = rview w1) as Hr2.
  { apply (quiet_run _ _ mutp), (config_rquiet env core (ConfigService.Rollback _ _ _ _)). }
  apply WP_update; intros w3 Hv3 Hr3; cbn [negb].
  - apply WP_ret. by rw Hv3.
  - wquiet. intros _ w4 Hv4 Hr4. apply WP_ret. rw Hv4 Hv3. split; [done|]. intros _.
    rw Hr4 Hr3. exists (set_completed FAILED n (set_pause_reason AUTO_ROLLBACK r)).
    split; [|done].
    change (rollout_id (set_completed _ _ _)) with (rollout_id r).
    rw (rok_id _ _ Hok). apply lookup_insert_eq.
Qed.

(** A tick completes a progressing rollout whose target is already active. *)
Lemma reconcile_completes n w r core c :
  RInv w → d_config_core deps = Some core →
  rview w !! rollout_id r = Some r → status r = PROGRESSING →
  cs_getActive (w_store w) = Some c →
  ConfigVersion.version_id c = target_version_id r →
  WP (reconcileActivatedRollout env deps r n) w (λ res v' m',
    v' = ConfigService.cview w ∧
    (if res : bool then ∃ r', m' = <[rollout_id r := r']> (rview w) ∧ status r' = COMPLETED
     else m' = rview w)).
Proof.
  intros HI Hcore Hr Hp Ha Hc. unfold reconcileActivatedRollout. rw Hcore.
  unfold ConfigService.getActive. rw (Hst core Hcore). cbn [negb].
  apply WP_bind. change (run (exec env) (call CsGetActive) w) with (cs_getActive (w_store w), w).
  rw Ha. cbn [fst snd]. rw bool_decide_eq_true_2 //. cbn [negb]. rw Hp.
  cbn [attemptRolloutTransition]. cbv zeta.
  apply WP_update; intros w1 Hv1 Hr1; cbn [negb]; [by apply WP_ret|].
  wquiet. intros _ w2 Hv2 Hr2. apply WP_ret. rw Hv2 Hv1 Hr2 Hr1. split; [done|].
  by eexists.
Qed.
End effects.

(** ** Properties *)

Section properties.
Context {S Q : Type} `{!ConfigStoreOps S} `{!RolloutStoreOps S} `{!PersistentStoreLaws S}.
Context (env : Env Q) (deps : Deps) (core : ConfigService.Deps).

(** C10. Rollout invariants, under any interleaving of configuration requests,
    rollout requests and ticks: at most one rollout per target version is
    active, every rollout's current stage exists and its percentages are in
    range, and a rollout once created is never removed and keeps its target
    and specification through whatever the requests in flight and the later
    ones do. *)
Theorem rollout_invariants ts1 ts2 (w w1 w2 : World S Q) id r :
  rview w = ∅ →
  rtc (pool_step (exec env) cp_env_step (is_cp_request env deps core)) ([], w) (ts1, w1) →
  rtc (pool_step (exec env) cp_env_step (is_cp_request env deps core)) (ts1, w1) (ts2, w2) →
  rview w1 !! id = Some r →
  rollout_ok id r ∧
  (∀ id' r', rview w1 !! id' = Some r' → target_version_id r' = target_version_id r →
     isActiveStatus (status r') = true → isActiveStatus (status r) = true → id' = id) ∧
  ∃ r', rview w2 !! id = Some r' ∧ same_rollout r r'.
Proof.
  intros Hw H1 H2 Hr. destruct (cp_server_rollouts env deps core [] ts1 w w1) as (HI & _ & Hts).
  { unfold RInv. rw Hw. split; [intros ??|intros ????]; by rw lookup_empty. }
  { done. }
  { done. }
  destruct (cp_server_rollouts env deps core ts1 ts2 w1 w2 HI Hts H2) as (_ & Hg & _).
  split_and!; [by apply HI| |by apply Hg].
  intros id' r' Hr' Ht Ha' Ha. by eapply (ri_one_active _ HI).
Qed.

(** C11. Rollouts cannot bypass the approval workflow: with rollout requests
    and ticks running concurrently with configuration requests, whatever
    becomes ACTIVE through a promotion or a rollback still has a reviewer
    other than its submitter, and is the only ACTIVE version. *)
Theorem rollout_respects_approval ts (w w' : World S Q) id c :
  (∀ d, d_config_core deps = Some d → d = core) →
  ConfigService.cview w = {| cv_versions := ∅; cv_active := "" |} →
  rtc (pool_step (exec env) cp_env_step (is_cp_request env deps core)) ([], w) (ts, w') →
  cv_versions (ConfigService.cview w') !! id = Some c →
  ConfigVersion.status c = ConfigVersion.ACTIVE →
  ConfigVersion.reviewer c ≠ ConfigVersion.submitter c ∧
  cv_active (ConfigService.cview w') = id.
Proof.
  intros Hcore Hw Hsteps Hc Ha.
  destruct (cp_server_config env deps core ts w w' Hcore) as [HI _]; [|done|].
  { unfold ConfigService.Inv. rw Hw. apply ConfigService.inv_empty. }
  split; [|by eapply HI].
  apply (ConfigService.ci_records _ _ _ HI _ _ Hc). by rw Ha.
Qed.

(** C12. Refinement of the rollout state machine: executed alone, a request
    about a rollout changes no other rollout, and changes its own by at most
    one transition of [attemptRolloutTransition]; a rollout in a terminal
    state is never changed. *)
Theorem rollout_refines_state_machine req id (w : World S Q) :
  (∀ c, d_config_core deps = Some c → ConfigService.has_store c = true) →
  RInv w → request_rollout req = Some id →
  let m' := rview (run (exec env) (handle env deps req) w).2 in
  ro_effect id (rview w) m' ∧
  (∀ r, rview w !! id = Some r → terminal (status r) → m' = rview w).
Proof.
  intros Hst HI Hreq m'. pose proof (request_effect env deps Hst req id w HI Hreq) as He.
  split; [exact He|]. intros r Hr Hterm.
  destruct He as [He|(r0 & r' & Hr0 & _ & _ & (a & l & Ht))]; [exact He|].
  assert (r0 = r) as -> by congruence. by destruct Hterm as [E|[E|E]]; rw E in Ht.
Qed.

(** Promotion activates exactly at the end: before the last stage it does
    not touch the configuration; on the last stage a reported success means
    the target version is ACTIVE, is the active pointer, and the rollout is
    COMPLETED. *)
Theorem rollout_promote_activates id who (w : World S Q) r :
  (∀ c, d_config_core deps = Some c → ConfigService.has_store c = true) →
  RInv w → rview w !! id = Some r → is_Some (d_config_core deps) →
  let res := (run (exec env) (promoteStage env deps id who) w).1 in
  let w' := (run (exec env) (promoteStage env deps id who) w).2 in
  (current_stage_index r + 1 < Z.of_nat (length (stages (spec r))) →
     ConfigService.cview w' = ConfigService.cview w) ∧
  (Z.of_nat (length (stages (spec r))) <= current_stage_index r + 1 →
   error_code res = "" →
     cv_active (ConfigService.cview w') = target_version_id r ∧
     (∃ c, cv_versions (ConfigService.cview w') !! target_version_id r = Some c ∧
        ConfigVersion.status c = ConfigVersion.ACTIVE) ∧
     (∃ r', rview w' !! id = Some r' ∧ status r' = COMPLETED)).
Proof. intros Hst HI Hr Hc. by apply (promote_activates env deps Hst id who w r). Qed.

(** Automatic rollback works: when a rollout has been PAUSED for its
    grace period with rollback enabled, evaluating it makes the version that
    was active before the rollout the active one again and, if the rollout's
    own update is stored, marks the rollout FAILED by automatic rollback. *)
Theorem rollout_auto_rollback id s n (w : World S Q) r c :
  (∀ c, d_config_core deps = Some c → ConfigService.has_store c = true) →
  RInv w → ConfigService.Inv env core w → d_config_core deps = Some core →
  ConfigService.activations_accepted (S:=S) →
  d_store deps = true → d_auto_rollback_enabled deps = false →
  rview w !! id = Some r → status r = PAUSED → auto_rollback_on_pause (spec r) = true →
  auto_rollback_grace_seconds (spec r) * 1000 <= n - paused_at r →
  previous_active_version_id r ≠ "" →
  cv_versions (ConfigService.cview w) !! previous_active_version_id r = Some c →
  ConfigVersion.status c = ConfigVersion.ACTIVE ∨
    ConfigVersion.status c = ConfigVersion.SUPERSEDED →
  let res := (run (exec env) (evaluateAutoRollback env deps id s n) w).1 in
  let w' := (run (exec env) (evaluateAutoRollback env deps id s n) w).2 in
  cv_active (ConfigService.cview w') = previous_active_version_id r ∧
  (error_code res = "" → ∃ r', rview w' !! id = Some r' ∧ status r' = FAILED ∧
     pause_reason r' = AUTO_ROLLBACK).
Proof. intros. by eapply (autorollback_restores env deps). Qed.

(** Reconciliation: when the configuration's active version is already a
    PROGRESSING rollout's target, the ticker's reconciliation either completes
    the rollout or (its update refused) leaves it as it was, and never changes
    the configuration. *)
Theorem rollout_reconcile n (w : World S Q) r c :
  (∀ d, d_config_core deps = Some d → ConfigService.has_store d = true) →
  RInv w → d_config_core deps = Some core →
  rview w !! rollout_id r = Some r → status r = PROGRESSING →
  cs_getActive (w_store w) = Some c → ConfigVersion.version_id c = target_version_id r →
  let res := (run (exec env) (reconcileActivatedRollout env deps r n) w).1 in
  let w' := (run (exec env) (reconcileActivatedRollout env deps r n) w).2 in
  ConfigService.cview w' = ConfigService.cview w ∧
  (if res : bool then ∃ r', rview w' = <[rollout_id r := r']> (rview w) ∧ status r' = COMPLETED
   else rview w' = rview w).
Proof. intros. by eapply (reconcile_completes env deps). Qed.
End properties.

(** ** A concrete control plane *)

Definition toy_core : ConfigService.Deps :=
  {| ConfigService.has_store := true; ConfigService.has_audit := false;
     ConfigService.validator := None; ConfigService.has_rate_limit := false |}.

Definition toy_deps : Deps :=
  {| d_store := true; d_config_core := Some toy_core; d_metrics := true; d_audit := true;
     d_check_quota := true; d_auto_rollback_enabled := false;
     d_pause_cooldown_ms := 300000; d_system_user_id := "system.autorollback" |}.

Definition toy_stage : RolloutStageRecord :=
  {| stage_name := "all";
     scope := {| tenant_globs := []; regions := []; percentage := 100 |};
     observation := {| min_duration_seconds := 0; min_sample_count := 0 |};
     auto_pause := {| error_rate_gt := 0; p99_latency_ratio_gt := 0;
                      absolute_error_rate_gt := 0.05; absolute_p99_latency_ms_gt := 0 |} |}.

Definition toy_spec : RolloutSpec :=
  {| spec_target_version_id := "aa"; stages := [toy_stage]; sticky_key := "tenant_id";
     auto_rollback_on_pause := true; auto_rollback_grace_seconds := 1800;
     creator_comment := "" |}.

(** Version [a] is active, version [aa] is approved and rollout [aaa] to it is
    running its only stage. *)
Definition toy_setup : list (prog Cmd unit) :=
  (λ req, discard (ConfigService.handle ConfigService.toy_env toy_core req)) <$>
    [ConfigService.Submit "listen: 8080" "alice" "" false;
     ConfigService.Approve "a" "bob" ""; ConfigService.Activate "a" "dave";
     ConfigService.Submit "listen: 9090" "alice" "" false;
     ConfigService.Approve "aa" "bob" ""].

Definition toy_rollout : list (prog Cmd unit) :=
  handle ConfigService.toy_env toy_deps <$> [Create toy_spec "erin"; StartR "aaa" "erin"].

(** Handlers [0] to [6] one after another; then promotion [7], pause [8] and
    an evaluation [9] an hour later. *)
Definition toy_handlers : list (prog Cmd unit) :=
  toy_setup ++ toy_rollout ++
  (handle ConfigService.toy_env toy_deps <$>
    [PromoteR "aaa" "frank"; PauseR "aaa" "grace" "wait";
     EvaluateAutoRollback "aaa" 0 3600000]).

Definition toy_go (sched : list nat) : list (prog Cmd unit) * World MemoryStore unit :=
  run_sched (exec ConfigService.toy_env) sched toy_handlers ConfigService.toy_world.

Definition setup_sched : list nat := concat ((λ i, replicate 20 i) <$> seq 0 7).

Lemma toy_go_steps sched :
  rtc (pool_step (exec ConfigService.toy_env) cp_env_step
    (is_cp_request ConfigService.toy_env toy_deps toy_core)) ([], ConfigService.toy_world)
    (toy_go sched).
Proof.
  apply run_sched_spawned. unfold toy_handlers, toy_setup, toy_rollout.
  rw !Forall_app !Forall_fmap. split_and!; apply Forall_forall; intros req _;
    [right|left|left]; by exists req.
Qed.

Definition live_world : World MemoryStore unit := (toy_go setup_sched).2.

Lemma live_world_inv : RInv live_world ∧ ConfigService.Inv ConfigService.toy_env toy_core live_world.
Proof.
  split.
  - eapply (cp_server_rollouts ConfigService.toy_env toy_deps toy_core [] (toy_go setup_sched).1);
      [|done|rw -surjective_pairing; apply toy_go_steps].
    split; [intros ??|intros ????]; by rw lookup_empty.
  - eapply (cp_server_config ConfigService.toy_env toy_deps toy_core (toy_go setup_sched).1);
      [by intros ? [= <-]| |rw -surjective_pairing; apply toy_go_steps].
    apply ConfigService.inv_empty.
Qed.

(** What an observer sees of rollout [aaa] and of the configuration. *)
Definition observe (w : World MemoryStore unit) : option RolloutStatus * option string :=
  (status <$> rs_get "aaa" (w_store w), ConfigVersion.version_id <$> cs_getActive (w_store w)).

(** The controller's read-modify-write is not protected either: a pause
    that read the rollout before a promotion completed overwrites COMPLETED
    with PAUSED, and the automatic rollback then takes the configuration that
    was fully rolled out back to the previous version. *)
Theorem rollout_race_undoes_completion :
  ∃ s1 s2 s3,
    observe (toy_go (setup_sched ++ s1)).2 = (Some COMPLETED, Some "aa") ∧
    observe (toy_go (setup_sched ++ s1 ++ s2)).2 = (Some PAUSED, Some "aa") ∧
    observe (toy_go (setup_sched ++ s1 ++ s2 ++ s3)).2 = (Some FAILED, Some "a").
Proof.
  exists ([8] ++ replicate 20 7)%nat, (replicate 20 8)%nat, (replicate 20 9)%nat.
  vm_compute. done.
Qed.

Lemma memory_activations_accepted :
  ConfigService.activations_accepted (S:=MemoryStore).
Proof.
  intros s id who ts r Hr Hst. simpl in *. unfold on_config, MemoryConfigStore.activateConfig.
  rw Hr. destruct Hst as [-> | ->]; simpl; by repeat case_match.
Qed.

Lemma toy_core_store c : d_config_core toy_deps = Some c → ConfigService.has_store c = true.
Proof. by intros [= <-]. Qed.

(** From the live rollout on: a promotion that completes while a pause that
    has read the rollout is in flight, and then the pause. *)
Definition raced : list (prog Cmd unit) * World MemoryStore unit :=
  run_sched (exec ConfigService.toy_env) ([8] ++ replicate 20 7 ++ replicate 20 8)%nat
    (toy_go setup_sched).1 live_world.

Lemma rollout_invariants_witness :
  ∃ r r', rview live_world !! "aaa" = Some r ∧ rollout_ok "aaa" r ∧ status r = PROGRESSING ∧
    rview raced.2 !! "aaa" = Some r' ∧ same_rollout r r' ∧ status r' = PAUSED.
Proof.
  edestruct (rollout_invariants ConfigService.toy_env toy_deps toy_core (toy_go setup_sched).1 raced.1
    ConfigService.toy_world live_world raced.2 "aaa") as (Hok & _ & r' & Hr' & Hsame).
  - reflexivity.
  - rw -surjective_pairing. apply toy_go_steps.
  - rw -surjective_pairing. apply run_sched_steps.
  - vm_compute. reflexivity.
  - eexists _, r'. split_and!; [vm_compute; reflexivity|exact Hok|reflexivity|exact Hr'|exact Hsame|].
    vm_compute in Hr'. by injection Hr' as <-.
Defined.

Lemma rollout_respects_approval_witness :
  ∃ c, cv_versions (ConfigService.cview live_world) !! "a" = Some c ∧
    ConfigVersion.reviewer c ≠ ConfigVersion.submitter c.
Proof.
  eexists. split; [vm_compute; reflexivity|].
  eapply (rollout_respects_approval ConfigService.toy_env toy_deps toy_core
    (toy_go setup_sched).1 ConfigService.toy_world live_world "a");
    [by intros ? [= <-]|reflexivity| |vm_compute; reflexivity|reflexivity].
  rw -surjective_pairing. apply toy_go_steps.
Defined.

Lemma rollout_refines_state_machine_witness :
  ro_effect "aaa" (rview live_world)
    (rview (run (exec ConfigService.toy_env)
      (handle ConfigService.toy_env toy_deps (PauseR "aaa" "grace" "wait")) live_world).2).
Proof.
  apply (rollout_refines_state_machine ConfigService.toy_env toy_deps
    (PauseR "aaa" "grace" "wait") "aaa" live_world);
    [exact toy_core_store|apply live_world_inv|reflexivity].
Defined.

Lemma rollout_promote_activates_witness :
  cv_active (ConfigService.cview (run (exec ConfigService.toy_env)
    (promoteStage ConfigService.toy_env toy_deps "aaa" "frank") live_world).2) = "aa".
Proof.
  edestruct (rollout_promote_activates ConfigService.toy_env toy_deps "aaa" "frank" live_world)
    as [_ H]; [exact toy_core_store|apply live_world_inv|vm_compute; reflexivity|by eexists|].
  apply H; [simpl; lia|vm_compute; reflexivity].
Defined.

Definition paused_world : World MemoryStore unit :=
  (toy_go (setup_sched ++ replicate 20 8%nat)).2.

Lemma rollout_auto_rollback_witness :
  cv_active (ConfigService.cview (run (exec ConfigService.toy_env)
    (evaluateAutoRollback ConfigService.toy_env toy_deps "aaa" 0 3600000) paused_world).2) = "a".
Proof.
  edestruct (rollout_auto_rollback ConfigService.toy_env toy_deps toy_core "aaa" 0 3600000
    paused_world) as [H _];
    [exact toy_core_store| | |reflexivity|exact memory_activations_accepted|reflexivity
    |reflexivity|vm_compute; reflexivity|reflexivity|reflexivity|vm_compute; discriminate
    |discriminate|vm_compute; reflexivity|by left|exact H].
  - eapply (cp_server_rollouts ConfigService.toy_env toy_deps toy_core []
      (toy_go (setup_sched ++ replicate 20 8%nat)).1);
      [|done|rw -surjective_pairing; apply toy_go_steps].
    split; [intros ??|intros ????]; by rw lookup_empty.
  - eapply (cp_server_config ConfigService.toy_env toy_deps toy_core
      (toy_go (setup_sched ++ replicate 20 8%nat)).1);
      [by intros ? [= <-]| |rw -surjective_pairing; apply toy_go_steps].
    apply ConfigService.inv_empty.
Defined.

(** The target activated directly while the rollout is still PROGRESSING. *)
Definition early_world : World MemoryStore unit :=
  (run (exec ConfigService.toy_env)
     (ConfigService.handle ConfigService.toy_env toy_core (ConfigService.Activate "aa" "dave"))
     live_world).2.

Lemma early_world_rollouts : rview early_world = rview live_world.
Proof. apply (quiet_run _ _ (ConfigService.handle _ _ _)), config_rquiet. Qed.

Lemma rollout_reconcile_witness :
  ∃ r, rview early_world !! "aaa" = Some r ∧
    ConfigService.cview (run (exec ConfigService.toy_env)
      (reconcileActivatedRollout ConfigService.toy_env toy_deps r 5000) early_world).2 =
    ConfigService.cview early_world.
Proof.
  eexists. split; [vm_compute; reflexivity|].
  eapply (rollout_reconcile ConfigService.toy_env toy_deps toy_core 5000 early_world);
    [exact toy_core_store| |reflexivity|vm_compute; reflexivity|reflexivity
    |vm_compute; reflexivity|reflexivity].
  unfold RInv. rw early_world_rollouts. apply live_world_inv.
Defined.

End RolloutController.
