(* ===== verification/Json.v ===== *)
(** * Json: the JSON values the gateway passes around

    [nlohmann::json] keeps an object in a [std::map], so a value is the
    inductive type below with the members of every object in strictly
    increasing key order ([json_wf]).  Text is produced and read by the
    library: [dump] (which throws on a string that is not UTF-8) and [parse]
    are parameters of the components, with the law [JsonText].  [canonicalise]
    is the helper of [src/src/observe/autonomy/approval_proposal.cpp]. *)
From Corelib Require Import PrimFloat FloatOps SpecFloat.
From S2P Require Import Prelude.
Local Open Scope Z_scope.

(** A JSON value.  The library keeps a signed and an unsigned kind of integer;
    the two print the same, compare equal and both answer
    [is_number_integer], so one constructor stands for both. *)
Inductive json :=
| JNull
| JBool (b : bool)
| JInteger (z : Z)
| JFloat (f : float)
| JString (s : string)
| JArray (l : list json)
| JObject (m : list (string * json)).

Module Json.

(** ** [std::map<std::string, T>] as its ordered list of members *)

(** [emplace]: keeps the member already there. *)
Fixpoint map_emplace {A} (k : string) (v : A) (m : list (string * A)) : list (string * A) :=
  match m with
  | [] => [(k, v)]
  | (k', v') :: m' =>
      if str_ltb k k' then (k, v) :: m
      else if decide (k = k') then m
      else (k', v') :: map_emplace k v m'
  end.

(** [m[k] = v]. *)
Fixpoint map_assign {A} (k : string) (v : A) (m : list (string * A)) : list (string * A) :=
  match m with
  | [] => [(k, v)]
  | (k', v') :: m' =>
      if str_ltb k k' then (k, v) :: m
      else if decide (k = k') then (k, v) :: m'
      else (k', v') :: map_assign k v m'
  end.

Fixpoint map_find {A} (k : string) (m : list (string * A)) : option A :=
  match m with
  | [] => None
  | (k', v) :: m => if decide (k = k') then Some v else map_find k m
  end.

(** ** Operations on values *)

(** [j[k] = v]: a null becomes an object, any other non-object throws. *)
Definition json_assign (k : string) (v : json) (j : json) : option json :=
  match j with
  | JObject m => Some (JObject (map_assign k v m))
  | JNull => Some (JObject [(k, v)])
  | _ => None
  end.

(** [j.value(k, std::string{})]: a member of another type throws, and so does
    a value that is not an object. *)
Definition value_string (k : string) (j : json) : option string :=
  match j with
  | JObject m =>
      match map_find k m with
      | None => Some ""
      | Some (JString s) => Some s
      | Some _ => None
      end
  | _ => None
  end.

(** [j.contains(k)] and, where it holds, [j[k]]. *)
Definition json_member (k : string) (j : json) : option json :=
  match j with JObject m => map_find k m | _ => None end.

(** The conversions between [double] and the integers: rounding to nearest,
    truncation. *)
Definition int_to_double (z : Z) : float := SF2Prim (binary_normalize prec emax z 0 false).

Definition double_trunc (f : float) : Z :=
  match Prim2SF f with
  | S754_finite s m e =>
      let n := if 0 <=? e then Z.pos m * 2 ^ e else Z.pos m / 2 ^ (- e) in
      if s then - n else n
  | _ => 0
  end.

(** [j.get<T>()]; [None] is the exception. *)
Definition as_string (j : json) : option string :=
  match j with JString s => Some s | _ => None end.
Definition as_double (j : json) : option float :=
  match j with JInteger z => Some (int_to_double z) | JFloat f => Some f | _ => None end.
Definition as_int (j : json) : option Z :=
  match j with
  | JInteger z => Some (to_int z)
  | JFloat f => Some (to_int (double_trunc f))
  | JBool b => Some (Z.b2z b)
  | _ => None
  end.
Definition as_bool (j : json) : option bool := match j with JBool b => Some b | _ => None end.
Definition as_strings (j : json) : option (list string) :=
  match j with JArray l => mapM as_string l | _ => None end.

(** [j.value(k, d)]: [d] when there is no member [k]; throws on a value that is
    not an object. *)
Definition json_value {A} (get : json → option A) (k : string) (d : A) (j : json) : option A :=
  match j with
  | JObject m => match map_find k m with Some v => get v | None => Some d end
  | _ => None
  end.

(** An object from a braced list of members. *)
Definition json_of_list (l : list (string * json)) : json :=
  JObject (foldl (λ acc kv, map_emplace kv.1 kv.2 acc) [] l).

Definition is_string (v : json) : bool := match v with JString _ => true | _ => false end.
Definition is_object (v : json) : bool := match v with JObject _ => true | _ => false end.

Fixpoint canonicalise (v : json) : json :=
  match v with
  | JObject m =>
      let sorted := foldl (λ acc kv, map_emplace kv.1 kv.2 acc) []
                      (map (λ kv, let '(k, x) := kv in (k, canonicalise x)) m) in
      JObject (foldl (λ acc kv, map_assign kv.1 kv.2 acc) [] sorted)
  | JArray l => JArray (map canonicalise l)
  | _ => v
  end.

(** ** Well-formed values *)

(** The keys of an object, in the order of [std::map]. *)
Definition keys_sorted {A} (m : list (string * A)) : Prop :=
  StronglySorted (λ a b, str_ltb a b = true) m.*1.

Fixpoint json_wf (v : json) : Prop :=
  match v with
  | JObject m => keys_sorted m ∧ foldr and True (map (λ kv, let '(_, x) := kv in json_wf x) m)
  | JArray l => foldr and True (map json_wf l)
  | JInteger z => - 2 ^ 63 <= z < 2 ^ 64
  | JFloat f => PrimFloat.is_finite f = true
  | _ => True
  end.

(** The library's writer and reader agree: what is written, which is never
    empty, is read back, and what is read is well formed. *)
Record JsonText (dump : json → option string) (parse : string → option json) : Prop := {
  dump_nonempty : ∀ v s, dump v = Some s → s ≠ "";
  parse_dump : ∀ v s, json_wf v → dump v = Some s → parse s = Some v;
  parse_wf : ∀ s v, parse s = Some v → json_wf v;
}.

(** A writer and a reader for a table of values and texts, of values without
    floats. *)
Fixpoint json_same (v w : json) : bool :=
  match v, w with
  | JNull, JNull => true
  | JBool a, JBool b => Bool.eqb a b
  | JInteger a, JInteger b => Z.eqb a b
  | JString a, JString b => String.eqb a b
  | JArray l, JArray m =>
      (fix same l m :=
         match l, m with
         | [], [] => true
         | x :: l, y :: m => json_same x y && same l m
         | _, _ => false
         end) l m
  | JObject l, JObject m =>
      (fix same l m :=
         match l, m with
         | [], [] => true
         | (k, x) :: l, (k', y) :: m => String.eqb k k' && json_same x y && same l m
         | _, _ => false
         end) l m
  | _, _ => false
  end.

Fixpoint table_dump (table : list (json * string)) (v : json) : option string :=
  match table with
  | [] => None
  | (w, s) :: table => if json_same v w then Some s else table_dump table v
  end.

Fixpoint table_parse (table : list (json * string)) (s : string) : option json :=
  match table with
  | [] => None
  | (w, t) :: table => if String.eqb s t then Some w else table_parse table s
  end.

(** ** Lemmas *)

(** Induction with the members of arrays and objects. *)
Lemma json_nested_ind (P : json → Prop) :
  P JNull → (∀ b, P (JBool b)) → (∀ z, P (JInteger z)) →
  (∀ f, P (JFloat f)) → (∀ s, P (JString s)) →
  (∀ l, Forall P l → P (JArray l)) →
  (∀ m, Forall P m.*2 → P (JObject m)) → ∀ v, P v.
Proof.
  intros Hn Hb Hi Hf Hs Ha Ho. fix IH 1. intros [| | | | |l|m];
    [apply Hn|apply Hb|apply Hi|apply Hf|apply Hs|..].
  - apply Ha. induction l; constructor; [apply IH|done].
  - apply Ho. induction m as [|[k x]]; constructor; [apply IH|done].
Qed.

Lemma map_put_last {A} (f : string → A → list (string * A) → list (string * A)) k (v : A) m :
  f = map_emplace ∨ f = map_assign →
  Forall (λ a, str_ltb a k = true) m.*1 → f k v m = m ++ [(k, v)].
Proof.
  intros Hf. induction m as [|[k' v'] m IH]; intros Hm.
  - by destruct Hf as [->| ->].
  - apply Forall_cons in Hm as [Hk Hm]. simpl in Hk.
    assert (str_ltb k k' = false) as Hn by by apply str_ltb_asym.
    assert (k ≠ k') as Hne by (intros ->; by rw str_ltb_irrefl in Hk).
    destruct Hf as [->| ->]; simpl; rw Hn decide_False //; rw -IH; auto.
Qed.

Lemma map_find_assign {A} k k' (v : A) m :
  map_find k (map_assign k' v m) = if decide (k = k') then Some v else map_find k m.
Proof.
  induction m as [|[k1 v1] m IH]; simpl; [done|]. destruct (str_ltb k' k1); simpl; [done|].
  destruct (decide (k' = k1)) as [->|]; simpl; [by repeat case_decide|].
  rw IH. by repeat case_decide; simplify_eq.
Qed.

Lemma map_assign_keys {A} k (v : A) m a : a ∈ (map_assign k v m).*1 → a = k ∨ a ∈ m.*1.
Proof.
  induction m as [|[k' v'] m IH]; simpl; [set_solver|].
  destruct (str_ltb k k'); [set_solver|]. case_decide; set_solver.
Qed.

Lemma keys_sorted_assign {A} k (v : A) m : keys_sorted m → keys_sorted (map_assign k v m).
Proof.
  unfold keys_sorted. induction m as [|[k' v'] m IH]; simpl; [by repeat constructor|].
  intros [Hf Hs]%StronglySorted_cons. destruct (str_ltb k k') eqn:Hk.
  - simpl. apply StronglySorted_cons. split; [|by apply StronglySorted_cons]. constructor; [done|].
    eapply Forall_impl; [done|]. intros a. by apply str_ltb_trans.
  - case_decide as Hd; simpl; apply StronglySorted_cons; [by subst|]. split; [|by apply IH].
    apply Forall_forall. intros a [->|Ha]%map_assign_keys; [by apply str_ltb_total|].
    by rw Forall_forall in Hf; apply Hf.
Qed.

(** Objects that are built member by member are well formed. *)
Lemma json_wf_assign k v m : json_wf v → json_wf (JObject m) → json_wf (JObject (map_assign k v m)).
Proof.
  intros Hv [Hs Hm]. split; [by apply keys_sorted_assign|]. clear Hs.
  induction m as [|[k' v'] m IH]; simpl in *; [done|]. destruct Hm as [Hv' Hm].
  destruct (str_ltb k k'); [done|]. case_decide; simpl; split; try done. by apply IH.
Qed.

Lemma json_wf_nil : json_wf (JObject []).
Proof. split; [constructor|done]. Qed.

Lemma json_wf_single k v : json_wf v → json_wf (JObject [(k, v)]).
Proof. intros Hv. exact (json_wf_assign k v [] Hv json_wf_nil). Qed.

(** Copying a sorted map member by member rebuilds it. *)
Lemma foldl_put {A} f (acc m : list (string * A)) :
  f = map_emplace ∨ f = map_assign → keys_sorted (acc ++ m) →
  foldl (λ acc kv, f kv.1 kv.2 acc) acc m = acc ++ m.
Proof.
  intros Hf. revert acc. induction m as [|[k v] m IH]; intros acc Hs; simpl.
  { by rw app_nil_r. }
  rw map_put_last; [|done|].
  - rw IH -?app_assoc //.
  - unfold keys_sorted in Hs. rw fmap_app in Hs.
    apply Forall_forall. intros a Ha.
    apply (StronglySorted_app_1_elem_of _ _ _ a k Hs); [done|by left].
Qed.

Lemma keys_sorted_fmap {A B} (g : A → B) m :
  keys_sorted (map (λ kv, let '(k, x) := kv in (k, g x)) m) ↔ keys_sorted m.
Proof.
  unfold keys_sorted.
  enough ((map (λ kv : string * A, let '(k, x) := kv in (k, g x)) m).*1 = m.*1) as -> by done.
  induction m as [|[k x] m IH]; simpl; [done|by f_equal].
Qed.

(** The members of a [nlohmann::json] object are already in key order, so
    canonicalising changes nothing. *)
Lemma canonicalise_id v : json_wf v → canonicalise v = v.
Proof.
  induction v as [| | | | |l IH|m IH] using json_nested_ind; simpl; try done.
  - intros Hwf. f_equal. induction IH as [|x l Hx _ IHl]; [done|].
    simpl in Hwf. destruct Hwf. simpl. by rw Hx // IHl.
  - intros [Hs Hwf].
    assert (map (λ kv, let '(k, x) := kv in (k, canonicalise x)) m = m) as ->.
    { clear Hs. induction m as [|[k x] m IHm]; [done|].
      apply Forall_cons in IH as [Hx IH]. simpl in *. destruct Hwf. by rw Hx // IHm. }
    rw (foldl_put map_emplace [] m); [|by left|done].
    by rw (foldl_put map_assign [] m); [|by right|].
Qed.

Lemma json_same_eq v w : json_same v w = true → v = w.
Proof.
  revert w. induction v as [|b|z|f|s|l IH|m IH] using json_nested_ind; intros [| | | | |l'|m'];
    simpl; try done.
  - by intros ->%eqb_prop.
  - by intros ->%Z.eqb_eq.
  - by intros ->%String.eqb_eq.
  - intros Hl. f_equal. revert l' Hl. induction IH as [|x l Hx _ IHl]; intros [|y l']; try done.
    by intros [->%Hx ->%IHl]%andb_prop.
  - intros Hm. f_equal. revert m' Hm IH.
    induction m as [|[k x] m IHm]; intros [|[k' y] m'] Hm IH; try done.
    rw fmap_cons in IH. apply Forall_cons in IH as [Hx IH]. simpl in Hx.
    apply andb_prop in Hm as [[->%String.eqb_eq ->%Hx]%andb_prop Hm]. f_equal. by apply IHm.
Qed.

Lemma table_dump_elem table v s : table_dump table v = Some s → (v, s) ∈ table.
Proof.
  induction table as [|[w t] table IH]; simpl; [done|].
  destruct (json_same v w) eqn:Hv; [|intros ?%IH; by right].
  intros [= ->]. apply json_same_eq in Hv as ->. by left.
Qed.

Lemma table_parse_elem table v s : table_parse table s = Some v → (v, s) ∈ table.
Proof.
  induction table as [|[w t] table IH]; simpl; [done|].
  destruct (String.eqb s t) eqn:Hs; [|intros ?%IH; by right].
  intros [= ->]. apply String.eqb_eq in Hs as ->. by left.
Qed.

Lemma table_parse_lookup table v s :
  NoDup table.*2 → (v, s) ∈ table → table_parse table s = Some v.
Proof.
  induction table as [|[w t] table IH]; simpl; [by intros _ ?%not_elem_of_nil|].
  intros [Ht Hnd]%NoDup_cons Hin. apply elem_of_cons in Hin as [[= -> ->]|Hin].
  - by rw String.eqb_refl.
  - rw (proj2 (String.eqb_neq s t)); [by apply IH|]. intros ->. apply Ht.
    by apply (list_elem_of_fmap_2 snd) in Hin.
Qed.

Lemma table_text table :
  NoDup table.*2 → Forall (λ e, json_wf e.1 ∧ e.2 ≠ "") table →
  JsonText (table_dump table) (table_parse table).
Proof.
  intros Hnd Hok. rw Forall_forall in Hok. split.
  - by intros v s [_ ?]%table_dump_elem%Hok.
  - intros v s _ Hv%table_dump_elem. by apply table_parse_lookup.
  - by intros s v [? _]%table_parse_elem%Hok.
Qed.

End Json.
