(* ===== verification/ApprovalQueue.v ===== *)
(** * ApprovalQueue: autonomy proposals and where they are kept

    Models [src/src/observe/autonomy/approval_state.h], [approval_proposal.h]
    and [.cpp] (the proposal, its row, the payload hash, the decision trace),
    the approval table of
    [src/src/storage/memory_persistent_store.cpp], and
    [src/src/observe/autonomy/approval_queue.cpp] (the cache in front of the
    table).  Every access to the cache or the table is one call of a [prog],
    because the code takes the mutex of the one or the other and never both.
    JSON text and SHA-256 are parameters; a function that writes JSON returns
    [None] when the library throws. *)
From S2P Require Import Prelude.
From S2P Require Import Prog.
From S2P Require Import Json.
From S2P Require Import AuditLog.
Import Json.
Local Open Scope Z_scope.

Module ApprovalQueue.

(** ** Data *)

Inductive ApprovalState := PROPOSED | APPROVED | APPLIED | REJECTED | ROLLED_BACK.
Inductive AutonomySource := CostOptimizer | AutoRecovery | BanditRouter | AdaptiveGuard | Workflow.
#[global] Instance ApprovalState_eq_dec : EqDecision ApprovalState.
Proof. solve_decision. Defined.
#[global] Instance AutonomySource_eq_dec : EqDecision AutonomySource.
Proof. solve_decision. Defined.

Definition stateToString (s : ApprovalState) : string :=
  match s with
  | PROPOSED => "PROPOSED"
  | APPROVED => "APPROVED"
  | APPLIED => "APPLIED"
  | REJECTED => "REJECTED"
  | ROLLED_BACK => "ROLLED_BACK"
  end.

Definition approvalStateFromString (s : string) : option ApprovalState :=
  if decide (s = "PROPOSED") then Some PROPOSED
  else if decide (s = "APPROVED") then Some APPROVED
  else if decide (s = "APPLIED") then Some APPLIED
  else if decide (s = "REJECTED") then Some REJECTED
  else if decide (s = "ROLLED_BACK") then Some ROLLED_BACK
  else None.

Definition sourceToString (s : AutonomySource) : string :=
  match s with
  | CostOptimizer => "CostOptimizer"
  | AutoRecovery => "AutoRecovery"
  | BanditRouter => "BanditRouter"
  | AdaptiveGuard => "AdaptiveGuard"
  | Workflow => "Workflow"
  end.

Definition autonomySourceFromString (s : string) : option AutonomySource :=
  if decide (s = "CostOptimizer") then Some CostOptimizer
  else if decide (s = "AutoRecovery") then Some AutoRecovery
  else if decide (s = "BanditRouter") then Some BanditRouter
  else if decide (s = "AdaptiveGuard") then Some AdaptiveGuard
  else if decide (s = "Workflow") then Some Workflow
  else None.

(** [struct ApprovalProposal]. *)
Record ApprovalProposal := {
  ap_id : string;
  ap_source : AutonomySource;
  ap_subject : string;
  ap_payload : json;
  ap_decision_trace : json;
  ap_proposed_at_ms : Z;
  ap_proposer_user_id : string;
  ap_state : ApprovalState;
  ap_reviewer_user_id : string;
  ap_reviewed_at_ms : Z;
  ap_reject_reason : string;
  ap_payload_sha256 : string;
}.

(** [struct ApprovalProposalRecord]: the row, with everything as text. *)
Record ApprovalProposalRecord := {
  row_id : string;
  row_source : string;
  row_subject : string;
  row_payload_json : string;
  row_decision_trace_json : string;
  row_proposed_at_ms : Z;
  row_proposer_user_id : string;
  row_state : string;
  row_reviewer_user_id : string;
  row_reviewed_at_ms : Z;
  row_reject_reason : string;
  row_payload_sha256 : string;
}.

(** [struct ApprovalProposalQuery] and [struct ApprovalQueueQuery]. *)
Record ApprovalProposalQuery := {
  pq_state_filter : string;
  pq_source_filter : string;
  pq_limit : Z;
  pq_offset : Z;
}.
Record ApprovalQueueQuery := {
  qq_state_filter : option ApprovalState;
  qq_source_filter : option AutonomySource;
  qq_limit : Z;
  qq_offset : Z;
}.

(** The assignments the workflow makes to a proposal it has fetched. *)
Definition set_state (st : ApprovalState) (p : ApprovalProposal) : ApprovalProposal :=
  {| ap_id := ap_id p; ap_source := ap_source p; ap_subject := ap_subject p;
     ap_payload := ap_payload p; ap_decision_trace := ap_decision_trace p;
     ap_proposed_at_ms := ap_proposed_at_ms p; ap_proposer_user_id := ap_proposer_user_id p;
     ap_state := st; ap_reviewer_user_id := ap_reviewer_user_id p;
     ap_reviewed_at_ms := ap_reviewed_at_ms p; ap_reject_reason := ap_reject_reason p;
     ap_payload_sha256 := ap_payload_sha256 p |}.

Definition set_review (st : ApprovalState) (who : string) (ts : Z) (reason : string)
    (p : ApprovalProposal) : ApprovalProposal :=
  {| ap_id := ap_id p; ap_source := ap_source p; ap_subject := ap_subject p;
     ap_payload := ap_payload p; ap_decision_trace := ap_decision_trace p;
     ap_proposed_at_ms := ap_proposed_at_ms p; ap_proposer_user_id := ap_proposer_user_id p;
     ap_state := st; ap_reviewer_user_id := who; ap_reviewed_at_ms := ts;
     ap_reject_reason := reason; ap_payload_sha256 := ap_payload_sha256 p |}.

(** ** The proposal and its row *)

Definition kDecisionTraceRequiredFields : list string :=
  ["source_id"; "algorithm_name"; "input_hash_sha256"; "proposed_at_ms"].
Definition kDecisionTraceOptionalNotes : string := "notes".

Record DecisionTraceValidation := {
  dv_ok : bool;
  dv_missing_fields : list string;
  dv_wrong_type_fields : list string;
}.

Definition isStringField (v : json) : bool := is_string v.
Definition isInt64Field (v : json) : bool :=
  match v with JInteger _ => true | _ => false end.

(** What one field adds to [missing_fields] and [wrong_type_fields]. *)
Definition check_field (m : list (string * json)) (required : bool) (good : json → bool)
    (f : string) : list string * list string :=
  match map_find f m with
  | None => (if required then [f] else [], [])
  | Some v => ([], if good v then [] else [f])
  end.

Definition nonempty_string (v : json) : bool :=
  match v with JString s => negb (str_empty s) | _ => false end.

Definition validateDecisionTrace (trace : json) : DecisionTraceValidation :=
  match trace with
  | JObject m =>
      let checks :=
        (check_field m true nonempty_string <$>
           ["source_id"; "algorithm_name"; "input_hash_sha256"]) ++
        [check_field m true isInt64Field "proposed_at_ms";
         check_field m false isStringField kDecisionTraceOptionalNotes] in
      let missing := mjoin checks.*1 in
      let wrong := mjoin checks.*2 in
      {| dv_ok := bool_decide (missing = []) && bool_decide (wrong = []);
         dv_missing_fields := missing; dv_wrong_type_fields := wrong |}
  | _ => {| dv_ok := false; dv_missing_fields := kDecisionTraceRequiredFields;
            dv_wrong_type_fields := [] |}
  end.

(** [mask] is the filter's [PIIFilter::mask]; the workflow always has one. *)
Definition maskDecisionTraceInPlace (mask : string → string) (trace : json) : json :=
  match trace with
  | JObject m =>
      JObject (map (λ kv, let '(k, v) := kv in
        (k, match v with JString s => JString (mask s) | _ => v end)) m)
  | _ => trace
  end.

(** The JSON library and the hash. *)
Record Text := {
  dump : json → option string;
  parse : string → option json;
  sha256 : string → string;
}.

Section text.
Context (T : Text).

Definition toRecord (p : ApprovalProposal) : option ApprovalProposalRecord :=
  payload_json ← dump T (ap_payload p);
  decision_trace_json ← dump T (ap_decision_trace p);
  Some {| row_id := ap_id p; row_source := sourceToString (ap_source p);
          row_subject := ap_subject p; row_payload_json := payload_json;
          row_decision_trace_json := decision_trace_json;
          row_proposed_at_ms := ap_proposed_at_ms p;
          row_proposer_user_id := ap_proposer_user_id p;
          row_state := stateToString (ap_state p);
          row_reviewer_user_id := ap_reviewer_user_id p;
          row_reviewed_at_ms := ap_reviewed_at_ms p;
          row_reject_reason := ap_reject_reason p;
          row_payload_sha256 := ap_payload_sha256 p |}.

(** A column of JSON text; empty means an empty object. *)
Definition parse_column (s : string) : option json :=
  if str_empty s then Some (JObject []) else parse T s.

Definition fromRecord (rec : ApprovalProposalRecord) : option ApprovalProposal :=
  src ← autonomySourceFromString (row_source rec);
  st ← approvalStateFromString (row_state rec);
  payload ← parse_column (row_payload_json rec);
  decision_trace ← parse_column (row_decision_trace_json rec);
  Some {| ap_id := row_id rec; ap_source := src; ap_subject := row_subject rec;
          ap_payload := payload; ap_decision_trace := decision_trace;
          ap_proposed_at_ms := row_proposed_at_ms rec;
          ap_proposer_user_id := row_proposer_user_id rec; ap_state := st;
          ap_reviewer_user_id := row_reviewer_user_id rec;
          ap_reviewed_at_ms := row_reviewed_at_ms rec;
          ap_reject_reason := row_reject_reason rec;
          ap_payload_sha256 := row_payload_sha256 rec |}.

Definition computePayloadSha256 (payload : json) : option string :=
  sha256 T <$> dump T (canonicalise payload).

(** [constantTimeEquals] is equality of the two strings. *)
Definition verifyPayloadSha256 (p : ApprovalProposal) : option bool :=
  if str_empty (ap_payload_sha256 p) then Some false
  else h ← computePayloadSha256 (ap_payload p);
       Some (bool_decide (ap_payload_sha256 p = h)).

End text.

(** ** The table *)

(** [initialized_] and [approval_proposals_]. *)
Record ApprovalTable := {
  at_initialized : bool;
  approval_proposals : gmap string ApprovalProposalRecord;
}.

Definition set_rows (m : gmap string ApprovalProposalRecord) (t : ApprovalTable) :=
  {| at_initialized := at_initialized t; approval_proposals := m |}.

Definition insertApprovalProposal (rec : ApprovalProposalRecord) (t : ApprovalTable) :
    bool * ApprovalTable :=
  if negb (at_initialized t) then (false, t)
  else if str_empty (row_id rec) then (false, t)
  else match approval_proposals t !! row_id rec with
       | Some _ => (false, t)
       | None => (true, set_rows (<[row_id rec := rec]> (approval_proposals t)) t)
       end.

Definition getApprovalProposal (id : string) (t : ApprovalTable) :
    option ApprovalProposalRecord :=
  approval_proposals t !! id.

Definition updateApprovalProposal (rec : ApprovalProposalRecord) (t : ApprovalTable) :
    bool * ApprovalTable :=
  if negb (at_initialized t) then (false, t)
  else match approval_proposals t !! row_id rec with
       | None => (false, t)
       | Some _ => (true, set_rows (<[row_id rec := rec]> (approval_proposals t)) t)
       end.

(** Newest first, identifiers descending on a tie. *)
Definition rows_newest : ApprovalProposalRecord → ApprovalProposalRecord → bool :=
  desc_by row_proposed_at_ms row_id.
Definition proposals_newest : ApprovalProposal → ApprovalProposal → bool :=
  desc_by ap_proposed_at_ms ap_id.

(** The [offset] and [limit] of a listing. *)
Definition page {A} (offset limit : Z) (l : list A) : list A :=
  let size := Z.of_nat (length l) in
  let offset := Z.max 0 offset in
  let limit := if 0 <? limit then limit else size in
  if size <=? offset then []
  else let rest := drop (Z.to_nat offset) l in
       if size <=? offset + limit then rest else take (Z.to_nat limit) rest.

Definition row_kept (q : ApprovalProposalQuery) (rec : ApprovalProposalRecord) : bool :=
  (str_empty (pq_state_filter q) || bool_decide (row_state rec = pq_state_filter q)) &&
  (str_empty (pq_source_filter q) || bool_decide (row_source rec = pq_source_filter q)).

Definition listApprovalProposals `{UnorderedIter} (q : ApprovalProposalQuery)
    (t : ApprovalTable) : list ApprovalProposalRecord :=
  let out := base.filter (λ rec, row_kept q rec = true) (iter (approval_proposals t)).*2 in
  page (pq_offset q) (pq_limit q) (std_sort rows_newest out).

Definition cutoff (now_ms retention_days : Z) : Z := now_ms - retention_days * 86400 * 1000.

(** Erase the entries older than the cutoff and count them. *)
Definition expire {A} (at_ms : A → Z) (cutoff_ms : Z) (m : gmap string A) : Z * gmap string A :=
  let kept := base.filter (λ kv, cutoff_ms <= at_ms kv.2) m in
  (Z.of_nat (size m) - Z.of_nat (size kept), kept).

Definition pruneApprovalProposals (now_ms retention_days : Z) (t : ApprovalTable) :
    Z * ApprovalTable :=
  if negb (at_initialized t) || (retention_days <=? 0) then (0, t)
  else let '(pruned, m) := expire row_proposed_at_ms (cutoff now_ms retention_days)
                             (approval_proposals t) in
       (pruned, set_rows m t).

(** ** The effects *)

(** [IApprovalApplier] over the state [A] it changes: [apply] reports
    success, [None] when it throws; [rollback] whether it returned. *)
Record Applier (A : Type) := {
  apl_apply : ApprovalProposal → A → option bool * A;
  apl_rollback : ApprovalProposal → A → bool * A;
}.
Arguments apl_apply {A} _ _ _.
Arguments apl_rollback {A} _ _ _.

(** The calls of the queue and the workflow.  [StInsert] and [StUpdate] are
    [toRecord] followed by the table's operation; [CacheInsert],
    [CachePut], ... are the sections under the queue's mutex. *)
Inductive Cmd (A : Type) : Type → Type :=
| CheckEnabled : Cmd A bool
| NowMs : Cmd A Z
| CurrentTimestamp : Cmd A string
| GenUlid : Cmd A string
| StInsert (p : ApprovalProposal) : Cmd A (option bool)
| StUpdate (p : ApprovalProposal) : Cmd A (option bool)
| StList (q : ApprovalProposalQuery) : Cmd A (list ApprovalProposalRecord)
| StPrune (retention_days : Z) : Cmd A Z
| CacheInsert (has_store : bool) (p : ApprovalProposal) : Cmd A bool
| CachePut (p : ApprovalProposal) : Cmd A unit
| CacheGet (id : string) : Cmd A (option ApprovalProposal)
| CacheScan (q : ApprovalQueueQuery) : Cmd A (list ApprovalProposal)
| CacheReload (records : list ApprovalProposalRecord) : Cmd A unit
| CacheExpire (cutoff_ms : Z) : Cmd A Z
| RegisterApplier (src : AutonomySource) (a : Applier A) : Cmd A unit
| FindApplier (src : AutonomySource) : Cmd A (option (Applier A))
| RunApply (a : Applier A) (p : ApprovalProposal) : Cmd A (option bool)
| RunRollback (a : Applier A) (p : ApprovalProposal) : Cmd A bool
| Aud {B : Type} (c : Audit.AuditCmd B) : Cmd A B.
Arguments CheckEnabled {A}.
Arguments NowMs {A}.
Arguments CurrentTimestamp {A}.
Arguments GenUlid {A}.
Arguments StInsert {A} p.
Arguments StUpdate {A} p.
Arguments StList {A} q.
Arguments StPrune {A} retention_days.
Arguments CacheInsert {A} has_store p.
Arguments CachePut {A} p.
Arguments CacheGet {A} id.
Arguments CacheScan {A} q.
Arguments CacheReload {A} records.
Arguments CacheExpire {A} cutoff_ms.
Arguments RegisterApplier {A} src a.
Arguments FindApplier {A} src.
Arguments RunApply {A} a p.
Arguments RunRollback {A} a p.
Arguments Aud {A B} c.

(** [w_writes] and [w_applied] are histories: every proposal written to the
    table or the cache, and every proposal handed to an applier's [apply]. *)
Record World (A : Type) := {
  w_enabled : bool;
  w_now : Z;
  w_stamp : string;
  w_ids : nat → string;
  w_next_id : nat;
  w_table : ApprovalTable;
  w_cache : gmap string ApprovalProposal;
  w_appliers : AutonomySource → option (Applier A);
  w_target : A;
  w_audit : Audit.Chain * Audit.Queue;
  w_writes : list ApprovalProposal;
  w_applied : list ApprovalProposal;
}.
Arguments w_enabled {A} _.
Arguments w_now {A} _.
Arguments w_stamp {A} _.
Arguments w_ids {A} _.
Arguments w_next_id {A} _.
Arguments w_table {A} _.
Arguments w_cache {A} _.
Arguments w_appliers {A} _.
Arguments w_target {A} _.
Arguments w_audit {A} _.
Arguments w_writes {A} _.
Arguments w_applied {A} _.

Definition proposal_kept (q : ApprovalQueueQuery) (p : ApprovalProposal) : bool :=
  match qq_state_filter q with
  | Some st => bool_decide (ap_state p = st) | None => true end &&
  match qq_source_filter q with
  | Some src => bool_decide (ap_source p = src) | None => true end.

(** Refill the cache from rows; a row that does not decode is left out. *)
Definition reload_row (T : Text) (cache : gmap string ApprovalProposal)
    (rec : ApprovalProposalRecord) : gmap string ApprovalProposal :=
  match fromRecord T rec with
  | Some p => <[row_id rec := p]> cache
  | None => cache
  end.

Definition reload (T : Text) (records : list ApprovalProposalRecord) :
    gmap string ApprovalProposal :=
  foldl (reload_row T) ∅ records.

Section exec.
Context {A : Type} `{UnorderedIter} (T : Text).

Definition next_id (w : World A) : World A :=
  {| w_enabled := w_enabled w; w_now := w_now w; w_stamp := w_stamp w; w_ids := w_ids w;
     w_next_id := S (w_next_id w); w_table := w_table w; w_cache := w_cache w;
     w_appliers := w_appliers w; w_target := w_target w; w_audit := w_audit w;
     w_writes := w_writes w; w_applied := w_applied w |}.
Definition with_table (t : ApprovalTable) (ps : list ApprovalProposal) (w : World A) : World A :=
  {| w_enabled := w_enabled w; w_now := w_now w; w_stamp := w_stamp w; w_ids := w_ids w;
     w_next_id := w_next_id w; w_table := t; w_cache := w_cache w;
     w_appliers := w_appliers w; w_target := w_target w; w_audit := w_audit w;
     w_writes := w_writes w ++ ps; w_applied := w_applied w |}.
Definition with_cache (c : gmap string ApprovalProposal) (ps : list ApprovalProposal)
    (w : World A) : World A :=
  {| w_enabled := w_enabled w; w_now := w_now w; w_stamp := w_stamp w; w_ids := w_ids w;
     w_next_id := w_next_id w; w_table := w_table w; w_cache := c;
     w_appliers := w_appliers w; w_target := w_target w; w_audit := w_audit w;
     w_writes := w_writes w ++ ps; w_applied := w_applied w |}.
Definition with_appliers (f : AutonomySource → option (Applier A)) (w : World A) : World A :=
  {| w_enabled := w_enabled w; w_now := w_now w; w_stamp := w_stamp w; w_ids := w_ids w;
     w_next_id := w_next_id w; w_table := w_table w; w_cache := w_cache w;
     w_appliers := f; w_target := w_target w; w_audit := w_audit w;
     w_writes := w_writes w; w_applied := w_applied w |}.
Definition with_target (a : A) (ps : list ApprovalProposal) (w : World A) : World A :=
  {| w_enabled := w_enabled w; w_now := w_now w; w_stamp := w_stamp w; w_ids := w_ids w;
     w_next_id := w_next_id w; w_table := w_table w; w_cache := w_cache w;
     w_appliers := w_appliers w; w_target := a; w_audit := w_audit w;
     w_writes := w_writes w; w_applied := w_applied w ++ ps |}.
Definition with_audit (a : Audit.Chain * Audit.Queue) (w : World A) : World A :=
  {| w_enabled := w_enabled w; w_now := w_now w; w_stamp := w_stamp w; w_ids := w_ids w;
     w_next_id := w_next_id w; w_table := w_table w; w_cache := w_cache w;
     w_appliers := w_appliers w; w_target := w_target w; w_audit := a;
     w_writes := w_writes w; w_applied := w_applied w |}.

(** A write of [p]'s row: [None] when [toRecord] throws. *)
Definition write_row (op : ApprovalProposalRecord → ApprovalTable → bool * ApprovalTable)
    (p : ApprovalProposal) (w : World A) : option bool * World A :=
  match toRecord T p with
  | None => (None, w)
  | Some rec =>
      let '(b, t) := op rec (w_table w) in
      (Some b, with_table t (if b then [p] else []) w)
  end.

Definition exec : ∀ B, Cmd A B → World A → B * World A :=
  λ B cmd, match cmd in Cmd _ B return World A → B * World A with
  | CheckEnabled => λ w, (w_enabled w, w)
  | NowMs => λ w, (w_now w, w)
  | CurrentTimestamp => λ w, (w_stamp w, w)
  | GenUlid => λ w, (w_ids w (w_next_id w), next_id w)
  | StInsert p => write_row insertApprovalProposal p
  | StUpdate p => write_row updateApprovalProposal p
  | StList q => λ w, (listApprovalProposals q (w_table w), w)
  | StPrune days => λ w,
      let '(n, t) := pruneApprovalProposals (w_now w) days (w_table w) in
      (n, with_table t [] w)
  | CacheInsert has_store p => λ w,
      match w_cache w !! ap_id p, has_store with
      | Some _, false => (false, w)
      | _, _ => (true, with_cache (<[ap_id p := p]> (w_cache w)) [p] w)
      end
  | CachePut p => λ w, (tt, with_cache (<[ap_id p := p]> (w_cache w)) [p] w)
  | CacheGet id => λ w, (w_cache w !! id, w)
  | CacheScan q => λ w, (base.filter (λ p, proposal_kept q p = true) (iter (w_cache w)).*2, w)
  | CacheReload records => λ w, (tt, with_cache (reload T records) [] w)
  | CacheExpire cutoff_ms => λ w,
      let '(n, c) := expire ap_proposed_at_ms cutoff_ms (w_cache w) in
      (n, with_cache c [] w)
  | RegisterApplier src a => λ w,
      (tt, with_appliers (λ s, if decide (s = src) then Some a else w_appliers w s) w)
  | FindApplier src => λ w, (w_appliers w src, w)
  | RunApply a p => λ w,
      let '(b, t) := apl_apply a p (w_target w) in (b, with_target t [p] w)
  | RunRollback a p => λ w,
      let '(b, t) := apl_rollback a p (w_target w) in (b, with_target t [] w)
  | Aud c => λ w,
      let '(b, a) := Audit.audit_exec (sha256 T) _ c (w_audit w) in (b, with_audit a w)
  end.
End exec.

(** ** The queue *)

(** A call that may throw; [None] is the exception on its way out. *)
Definition or_throw {E X Y} (p : prog E (option X)) (k : X → prog E (option Y)) :
    prog E (option Y) :=
  p ≫= λ r, match r with Some x => k x | None => Ret None end.

Section queue.
Context {A : Type} (has_store : bool).

Definition all_rows : ApprovalProposalQuery :=
  {| pq_state_filter := ""; pq_source_filter := ""; pq_limit := 1000000; pq_offset := 0 |}.

(** [initialize]. *)
Definition queue_initialize : prog (Cmd A) bool :=
  if negb has_store then call (CacheReload []);; Ret true
  else
    records ← call (StList all_rows);
    call (CacheReload records);;
    Ret true.

(** [insert]: the identifier, empty on failure. *)
Definition queue_insert (p : ApprovalProposal) : prog (Cmd A) (option string) :=
  if str_empty (ap_id p) then Ret (Some "")
  else
    or_throw (if has_store then call (StInsert p) else Ret (Some true)) (λ stored,
    if negb stored then Ret (Some "")
    else
      cached ← call (CacheInsert has_store p);
      Ret (Some (if cached : bool then ap_id p else ""))).

(** [update]. *)
Definition queue_update (p : ApprovalProposal) : prog (Cmd A) (option bool) :=
  if str_empty (ap_id p) then Ret (Some false)
  else
    or_throw (if has_store then call (StUpdate p) else Ret (Some true)) (λ stored,
    if negb stored then Ret (Some false)
    else
      call (CachePut p);;
      Ret (Some true)).

(** [get]. *)
Definition queue_get (id : string) : prog (Cmd A) (option ApprovalProposal) :=
  call (CacheGet id).

(** [list]. *)
Definition queue_list (q : ApprovalQueueQuery) : prog (Cmd A) (list ApprovalProposal) :=
  matched ← call (CacheScan q);
  Ret (page (qq_offset q) (qq_limit q) (std_sort proposals_newest matched)).

(** [count]. *)
Definition queue_count (q : ApprovalQueueQuery) : prog (Cmd A) Z :=
  matched ← call (CacheScan q);
  Ret (Z.of_nat (length matched)).

(** [prune]. *)
Definition queue_prune (retention_days : Z) : prog (Cmd A) Z :=
  if retention_days <=? 0 then Ret 0
  else if has_store then
    pruned ← call (StPrune retention_days);
    records ← call (StList all_rows);
    call (CacheReload records);;
    Ret pruned
  else
    now_ms ← call NowMs;
    call (CacheExpire (cutoff now_ms retention_days)).

End queue.

(** ** Lemmas *)

Lemma state_roundtrip s : approvalStateFromString (stateToString s) = Some s.
Proof. by destruct s. Qed.
Lemma source_roundtrip s : autonomySourceFromString (sourceToString s) = Some s.
Proof. by destruct s. Qed.

Definition proposal_wf (p : ApprovalProposal) : Prop :=
  json_wf (ap_payload p) ∧ json_wf (ap_decision_trace p).

Lemma page_all {A} limit (l : list A) :
  Z.of_nat (length l) <= limit → page 0 limit l = l.
Proof.
  intros Hl. unfold page. cbv zeta. rw Z.max_id /=.
  destruct (Z.leb_spec (Z.of_nat (length l)) 0); [by destruct l|].
  destruct (Z.ltb_spec 0 limit); [|lia]. rw Z.add_0_l.
  destruct (Z.leb_spec (Z.of_nat (length l)) limit); [done|lia].
Qed.

Section text_lemmas.
Context (T : Text) (Ht : JsonText (dump T) (parse T)).

(** A row written from a proposal reads back as the proposal. *)
Lemma record_roundtrip p rec :
  proposal_wf p → toRecord T p = Some rec → fromRecord T rec = Some p.
Proof.
  intros [Hp Hd]. unfold toRecord.
  destruct (dump T (ap_payload p)) as [s1|] eqn:E1; simpl; [|done].
  destruct (dump T (ap_decision_trace p)) as [s2|] eqn:E2; simpl; [|done].
  intros [= <-]. unfold fromRecord, parse_column; simpl.
  rw source_roundtrip /= state_roundtrip /=.
  pose proof (dump_nonempty _ _ Ht _ _ E1). pose proof (dump_nonempty _ _ Ht _ _ E2).
  unfold str_empty. rw !bool_decide_eq_false_2 //.
  rw (parse_dump _ _ Ht _ _ Hp E1) /= (parse_dump _ _ Ht _ _ Hd E2) /=. by destruct p.
Qed.

Lemma toRecord_id p rec : toRecord T p = Some rec → row_id rec = ap_id p.
Proof.
  unfold toRecord. intros H.
  repeat match type of H with (dump T ?v ≫= _) = _ => destruct (dump T v); [|done]; simpl in H end.
  by simplify_eq.
Qed.

Lemma reload_lookup_gen (rs : list ApprovalProposalRecord) c id :
  NoDup (row_id <$> rs) →
  foldl (reload_row T) c rs !! id =
  match list_find (λ rec, row_id rec = id) rs with
  | Some (_, rec) => match fromRecord T rec with Some p => Some p | None => c !! id end
  | None => c !! id
  end.
Proof.
  revert c. induction rs as [|rec rs IH]; intros c; simpl; [done|].
  rw NoDup_cons. intros [Hn Hnd]. rw IH //.
  destruct (decide (row_id rec = id)) as [<-|Hne].
  - destruct (list_find _ rs) as [[i rec']|] eqn:Hf.
    + apply list_find_Some in Hf as (Hi & Hid & _). destruct Hn.
      rw -Hid. apply list_elem_of_fmap_2. by eapply list_elem_of_lookup_2.
    + simpl. unfold reload_row. destruct (fromRecord T rec); [by rw lookup_insert_eq|done].
  - destruct (list_find (λ rec, row_id rec = id) rs) as [[i rec']|] eqn:Hf; simpl.
    + destruct (fromRecord T rec'); [done|].
      unfold reload_row. destruct (fromRecord T rec); [by rw lookup_insert_ne|done].
    + unfold reload_row. destruct (fromRecord T rec); [by rw lookup_insert_ne|done].
Qed.

Lemma reload_lookup rs id p :
  NoDup (row_id <$> rs) →
  reload T rs !! id = Some p ↔ ∃ rec, rec ∈ rs ∧ row_id rec = id ∧ fromRecord T rec = Some p.
Proof.
  intros Hnd. unfold reload. rw reload_lookup_gen // lookup_empty. split.
  - destruct (list_find _ rs) as [[i rec]|] eqn:Hf; [|done].
    apply list_find_Some in Hf as (Hi & Hid & _). destruct (fromRecord T rec) eqn:Hr; [|done].
    intros [= ->]. exists rec. split; [by eapply list_elem_of_lookup_2|done].
  - intros (rec & Hrec & Hid & Hr).
    destruct (list_find _ rs) as [[i rec']|] eqn:Hf.
    + apply list_find_Some in Hf as (Hi & Hid' & _).
      assert (rec' = rec) as ->; [|by rw Hr].
      apply list_elem_of_lookup in Hrec as [j Hj].
      assert (i = j) as ->; [|congruence].
      apply (NoDup_lookup _ i j id Hnd); rw list_lookup_fmap ?Hi ?Hj /=; congruence.
    + eapply list_find_None, Forall_forall in Hf; [|done]. done.
Qed.

End text_lemmas.

(** Every row sits under its own identifier. *)
Definition rows_keyed (t : ApprovalTable) : Prop :=
  ∀ id rec, approval_proposals t !! id = Some rec → row_id rec = id.

Lemma all_rows_elem `{UnorderedIter} t :
  (size (approval_proposals t) <= Z.to_nat 1000000)%nat → rows_keyed t →
  NoDup (row_id <$> listApprovalProposals all_rows t) ∧
  ∀ rec, rec ∈ listApprovalProposals all_rows t ↔
         approval_proposals t !! row_id rec = Some rec.
Proof.
  intros Hsize Hk. unfold listApprovalProposals. cbn [pq_offset pq_limit all_rows].
  assert (base.filter (λ rec, row_kept all_rows rec = true) (iter (approval_proposals t)).*2
          = (iter (approval_proposals t)).*2) as ->.
  { clear. induction (iter (approval_proposals t)) as [|[k r] l IH]; [done|].
    rw fmap_cons filter_cons_True //. by rw IH. }
  rw page_all.
  - split.
    + rw std_sort_perm.
      assert (row_id <$> (iter (approval_proposals t)).*2 = (iter (approval_proposals t)).*1) as ->;
        [|apply NoDup_iter].
      rw -list_fmap_compose. apply list_fmap_ext. intros i [k r] Hi%list_elem_of_lookup_2.
      apply elem_of_iter in Hi. by apply Hk in Hi.
    + intros rec. rw std_sort_perm list_elem_of_fmap. split.
      * intros ([k r] & -> & Hi%elem_of_iter). simpl. by rw (Hk _ _ Hi).
      * intros Hr. exists (row_id rec, rec). split; [done|by apply elem_of_iter].
  - rw std_sort_perm length_fmap iter_perm length_map_to_list. lia.
Qed.

(** ** The queue alone *)

Lemma run_or_throw {E W} (ex : ∀ B, E B → W → B * W) {X Y} (p : prog E (option X))
    (k : X → prog E (option Y)) w :
  run ex (or_throw p k) w =
  match run ex p w with
  | (Some x, w') => run ex (k x) w'
  | (None, w') => (None, w')
  end.
Proof.
  unfold or_throw. rw run_bind. destruct (run ex p w) as [[x|] w']; [done|done].
Qed.

Section mirror.
Context {A : Type} `{UnorderedIter} (T : Text) (Ht : JsonText (dump T) (parse T)).
Context (hs : bool).

(** The cache holds each proposal under its identifier, and with a store the
    table holds exactly the rows of the cached proposals. *)
Record queue_ok (w : World A) : Prop := {
  qo_cache : ∀ id p, w_cache w !! id = Some p → ap_id p = id ∧ id ≠ "" ∧ proposal_wf p;
  qo_init : hs = true → at_initialized (w_table w) = true;
  qo_rows : hs = true → approval_proposals (w_table w) = omap (toRecord T) (w_cache w);
  qo_written : hs = true → ∀ id p, w_cache w !! id = Some p → is_Some (toRecord T p);
}.

(** What the queue shows of a world. *)
Definition qview (w : World A) : ApprovalTable * gmap string ApprovalProposal :=
  (w_table w, w_cache w).

Lemma queue_ok_view w w' : qview w' = qview w → queue_ok w → queue_ok w'.
Proof. intros [= Ht' Hc'] []. split; rw ?Ht' ?Hc'; done. Qed.

Lemma ok_rows_keyed w : hs = true → queue_ok w → rows_keyed (w_table w).
Proof.
  intros Hs Hok id rec. rw (qo_rows w Hok Hs) lookup_omap_Some.
  intros (p & Hrec & Hp). apply toRecord_id in Hrec as ->. by apply (qo_cache w Hok).
Qed.

Lemma put_ok p w :
  queue_ok w → ap_id p ≠ "" → proposal_wf p →
  (hs = true → is_Some (toRecord T p)) →
  ∀ w', w_cache w' = <[ap_id p := p]> (w_cache w) →
  (hs = true → ∃ rec, toRecord T p = Some rec ∧
     w_table w' = set_rows (<[ap_id p := rec]> (approval_proposals (w_table w))) (w_table w)) →
  queue_ok w'.
Proof.
  intros Hok Hid Hwf Hrec w' Hc Htab. split; intros *; rw ?Hc.
  - rw lookup_insert_Some. intros [[<- <-]|[_ Hp]]; [done|by apply (qo_cache w Hok)].
  - intros Hs. destruct (Htab Hs) as (rec & _ & ->). by apply (qo_init w Hok).
  - intros Hs. destruct (Htab Hs) as (rec & Hr & ->). simpl.
    rw (qo_rows w Hok Hs). by rw (omap_insert_Some _ _ _ _ _ Hr).
  - intros Hs id q. rw lookup_insert_Some. intros [[_ <-]|[_ Hp]]; [auto|by eapply (qo_written w Hok)].
Qed.

(** An update of a cached proposal always succeeds. *)
Lemma run_update p p0 w :
  queue_ok w → w_cache w !! ap_id p = Some p0 → proposal_wf p →
  (hs = true → is_Some (toRecord T p)) →
  ∃ w', run (exec T) (queue_update hs p) w = (Some true, w') ∧
        w_cache w' = <[ap_id p := p]> (w_cache w) ∧ queue_ok w'.
Proof.
  intros Hok Hp0 Hwf Hrec. destruct (qo_cache w Hok _ _ Hp0) as (_ & Hid & _).
  unfold queue_update. rw (proj2 (str_empty_false _) Hid) run_or_throw.
  destruct hs eqn:Hs.
  - destruct (Hrec eq_refl) as [rec Hr].
    assert (approval_proposals (w_table w) !! ap_id p = toRecord T p0) as Hrow.
    { rw (qo_rows w Hok) // lookup_omap Hp0. done. }
    destruct (qo_written w Hok Hs _ _ Hp0) as [rec0 Hr0].
    exists (with_cache (<[ap_id p := p]> (w_cache w)) [p] (with_table
      (set_rows (<[ap_id p := rec]> (approval_proposals (w_table w))) (w_table w)) [p] w)).
    split_and!; [|done|].
    + cbn [run call exec]. unfold write_row. rw Hr.
      unfold updateApprovalProposal. rw (qo_init w Hok) // (toRecord_id T p rec Hr) Hrow Hr0.
      reflexivity.
    + apply (put_ok p w); [done|done|done|by eexists|done|]. intros _. by exists rec.
  - exists (with_cache (<[ap_id p := p]> (w_cache w)) [p] w).
    split_and!; [reflexivity|done|]. apply (put_ok p w); [done|done|done|congruence|done|congruence].
Qed.

(** An insertion succeeds exactly when the identifier is new and, with a
    store, the row can be written. *)
Lemma run_insert p w :
  queue_ok w → proposal_wf p →
  let fits := negb (str_empty (ap_id p)) && bool_decide (w_cache w !! ap_id p = None) &&
              (negb hs || bool_decide (is_Some (toRecord T p))) in
  ∃ r w', run (exec T) (queue_insert hs p) w = (r, w') ∧ queue_ok w' ∧
    (if fits then r = Some (ap_id p) ∧ w_cache w' = <[ap_id p := p]> (w_cache w)
     else (r = Some "" ∨ r = None) ∧ w_cache w' = w_cache w).
Proof.
  intros Hok Hwf fits. subst fits. unfold queue_insert.
  destruct (str_empty (ap_id p)) eqn:Hid; cbn [negb andb].
  { exists (Some ""), w. naive_solver. }
  apply str_empty_false in Hid. rw run_or_throw.
  destruct hs eqn:Hs; cbn [negb orb].
  - destruct (toRecord T p) as [rec|] eqn:Hr.
    + rw (bool_decide_eq_true_2 (is_Some _)); [|by eexists]. rw andb_true_r.
      cbn [run call exec]. unfold write_row. rw Hr.
      unfold insertApprovalProposal. rw (qo_init w Hok) // (toRecord_id T p rec Hr).
      rw (proj2 (str_empty_false _) Hid) (qo_rows w Hok) // lookup_omap.
      case_bool_decide as Hn.
      * exists (Some (ap_id p)), (with_cache (<[ap_id p := p]> (w_cache w)) [p] (with_table
          (set_rows (<[ap_id p := rec]> (approval_proposals (w_table w))) (w_table w)) [p] w)).
        split_and!; [| |done|done].
        -- rw (qo_rows w Hok) // Hn. cbn. by rw Hn.
        -- apply (put_ok p w); [done|done|done|by eexists|done|]. intros _. by exists rec.
      * destruct (w_cache w !! ap_id p) as [p0|] eqn:Hp0; [|done]. cbn [mbind option_bind].
        destruct (qo_written w Hok Hs _ _ Hp0) as [rec0 Hr0].
        exists (Some ""), (with_table (w_table w) [] w).
        split_and!; [by cbn; rw Hr0|by apply (queue_ok_view w)|by left|done].
    + rw (bool_decide_eq_false_2 (is_Some _)); [|by intros []]. rw andb_false_r.
      cbn [run call exec]. unfold write_row. rw Hr. eexists _, _. naive_solver.
  - rw andb_true_r. cbn [run negb]. rw run_call. cbn [exec].
    case_bool_decide as Hn.
    + exists (Some (ap_id p)), (with_cache (<[ap_id p := p]> (w_cache w)) [p] w).
      split_and!; [by rw Hn| |done|done].
      apply (put_ok p w); [done|done|done|congruence|done|congruence].
    + destruct (w_cache w !! ap_id p) as [p0|] eqn:Hp0; [|done].
      exists (Some ""), w. split_and!; [done|done|by left|done].
Qed.

(** Reading everything back from the table gives the cache again. *)
Lemma reload_ok w :
  hs = true → queue_ok w → (size (w_cache w) <= Z.to_nat 1000000)%nat →
  reload T (listApprovalProposals all_rows (w_table w)) = w_cache w.
Proof.
  intros Hs Hok Hsize. destruct (all_rows_elem (w_table w)) as [Hnd Hel].
  { rw (qo_rows w Hok Hs). etrans; [|exact Hsize]. rw -!size_dom.
    apply subseteq_size. intros id. rw !elem_of_dom lookup_omap. destruct (w_cache w !! id); simpl; [by eexists|by intros []]. }
  { by apply ok_rows_keyed. }
  apply map_eq. intros id. apply option_eq. intros p. rw reload_lookup //. split.
  - intros (rec & Hrec & Hid & Hr). apply Hel in Hrec. rw Hid (qo_rows w Hok Hs) in Hrec.
    apply lookup_omap_Some in Hrec as (q & Hq & Hqid).
    destruct (qo_cache w Hok _ _ Hqid) as (_ & _ & Hwf).
    rw (record_roundtrip T Ht q rec Hwf Hq) in Hr. congruence.
  - intros Hp. destruct (qo_written w Hok Hs _ _ Hp) as [rec Hr].
    destruct (qo_cache w Hok _ _ Hp) as (<- & _ & Hwf). exists rec.
    rw Hel (toRecord_id T p rec Hr) (qo_rows w Hok Hs) lookup_omap Hp /=.
    split_and!; [done|done|]. by apply record_roundtrip.
Qed.

(** A restart, with whatever is left in the cache, finds every proposal
    again; without a store the queue starts empty. *)
Lemma run_initialize w1 w :
  queue_ok w → (size (w_cache w) <= Z.to_nat 1000000)%nat → w_table w1 = w_table w →
  ∃ w', run (exec T) (queue_initialize hs) w1 = (true, w') ∧ queue_ok w' ∧
        w_cache w' = (if hs then w_cache w else ∅).
Proof.
  intros Hok Hsize Htab. unfold queue_initialize. destruct hs eqn:Hs; cbn [negb].
  - exists (with_cache (w_cache w) [] w1).
    split_and!; [cbn; by rw Htab (reload_ok w)| |done].
    apply (queue_ok_view w); [|done]. unfold qview. by rw Htab.
  - exists (with_cache ∅ [] w1). split_and!; [done| |done].
    split; [|congruence..]. intros id p. cbn. by rw lookup_empty.
Qed.

(** The filter of [prune] on proposals. *)
Definition recent (cutoff_ms : Z) (m : gmap string ApprovalProposal) :
    gmap string ApprovalProposal :=
  base.filter (λ kv, cutoff_ms <= ap_proposed_at_ms kv.2) m.

Lemma toRecord_proposed_at p rec :
  toRecord T p = Some rec → row_proposed_at_ms rec = ap_proposed_at_ms p.
Proof.
  unfold toRecord. intros E.
  repeat match type of E with (dump T ?v ≫= _) = _ => destruct (dump T v); [|done]; simpl in E end.
  by simplify_eq.
Qed.

Lemma recent_rows c m :
  base.filter (λ kv, c <= row_proposed_at_ms kv.2) (omap (toRecord T) m) =
  omap (toRecord T) (recent c m).
Proof.
  apply map_eq. intros id. apply option_eq. intros rec.
  rw map_lookup_filter_Some !lookup_omap_Some. unfold recent. simpl. split.
  - intros [(p & Hr & Hp) Hle]. exists p. rw map_lookup_filter_Some /=.
    by rw (toRecord_proposed_at _ _ Hr) in Hle.
  - intros (p & Hr & [Hp Hle]%map_lookup_filter_Some). rw (toRecord_proposed_at _ _ Hr).
    split; [by exists p|done].
Qed.

Lemma recent_ok c w :
  queue_ok w →
  queue_ok (with_cache (recent c (w_cache w)) []
    (with_table (if hs then set_rows (omap (toRecord T) (recent c (w_cache w))) (w_table w)
                 else w_table w) [] w)).
Proof.
  intros Hok. split; cbn.
  - intros id p [Hp _]%map_lookup_filter_Some. by apply (qo_cache w Hok).
  - intros Hs. rw Hs. by apply (qo_init w Hok).
  - intros Hs. by rw Hs.
  - intros Hs id p [Hp _]%map_lookup_filter_Some. by eapply (qo_written w Hok).
Qed.

Lemma exec_prune days w :
  hs = true → queue_ok w → (days <=? 0) = false →
  exec T _ (StPrune days) w =
  (Z.of_nat (size (approval_proposals (w_table w))) -
     Z.of_nat (size (omap (toRecord T) (recent (cutoff (w_now w) days) (w_cache w)))),
   with_table (set_rows (omap (toRecord T) (recent (cutoff (w_now w) days) (w_cache w)))
                 (w_table w)) [] w).
Proof.
  intros Hs Hok Hd. cbn [exec]. unfold pruneApprovalProposals, expire.
  by rw (qo_init w Hok) // Hd (qo_rows w Hok) // recent_rows.
Qed.

Lemma run_prune days w :
  queue_ok w → (size (w_cache w) <= Z.to_nat 1000000)%nat →
  ∃ n w', run (exec T) (queue_prune hs days) w = (n, w') ∧ queue_ok w' ∧
    w_cache w' = if days <=? 0 then w_cache w
                 else recent (cutoff (w_now w) days) (w_cache w).
Proof.
  intros Hok Hsize. unfold queue_prune. destruct (days <=? 0) eqn:Hd; [by exists 0, w|].
  pose proof (recent_ok (cutoff (w_now w) days) w Hok) as Hok'.
  destruct hs eqn:Hs.
  - rw run_call (exec_prune days w Hs Hok Hd). cbn [fst snd]. eexists _, _.
    rw run_call. cbn [exec fst snd]. rw run_call. cbn [exec fst snd w_table with_table].
    split; [reflexivity|]. cbn [with_cache w_cache].
    pose proof (reload_ok _ Hs Hok') as Hrel. cbn [w_table w_cache with_cache with_table] in Hrel.
    rw Hrel; [by split; [apply (queue_ok_view _ _ eq_refl Hok')|]|].
    etrans; [|exact Hsize]. rw -!size_dom. apply subseteq_size.
    unfold recent. apply dom_filter_subseteq.
  - eexists _, _. rw run_call. cbn [exec fst snd]. split; [reflexivity|]. cbn. split; [|done].
    by eapply queue_ok_view; [|exact Hok'].
Qed.

End mirror.

End ApprovalQueue.
