(* ===== verification/ApprovalWorkflow.v ===== *)
(** * ApprovalWorkflow: the life of an autonomy proposal

    Models [src/src/observe/autonomy/approval_workflow.cpp]: [propose],
    [approve], [reject], [apply] and [rollback] over the queue of
    [ApprovalQueue.v], the appliers registered per source and the audit
    logger.  The appliers are parameters: any implementation of
    [IApprovalApplier]. *)
From S2P Require Import Prelude.
From S2P Require Import Prog.
From S2P Require Import Json.
From S2P Require Import AuditLog.
From S2P Require Import ApprovalQueue.
Import Json ApprovalQueue.
Local Open Scope Z_scope.

Module ApprovalWorkflow.

(** The members fixed at construction: whether there is a queue and an audit
    logger, the queue's store, the filter's [mask], and the logger's own
    store and cipher. *)
Record Deps := {
  has_queue : bool;
  has_store : bool;
  has_audit : bool;
  mask : string → string;
  audit_store : bool;
  encryption : option Audit.Encryption;
}.

(** [p.id], [p.proposed_at_ms] and [p.proposer_user_id] are completed, the
    state is set. *)
Definition complete (id : string) (now : Z) (p : ApprovalProposal) : ApprovalProposal :=
  {| ap_id := if str_empty (ap_id p) then id else ap_id p;
     ap_source := ap_source p; ap_subject := ap_subject p;
     ap_payload := ap_payload p; ap_decision_trace := ap_decision_trace p;
     ap_proposed_at_ms := if ap_proposed_at_ms p =? 0 then now else ap_proposed_at_ms p;
     ap_proposer_user_id :=
       if str_empty (ap_proposer_user_id p) then "system" else ap_proposer_user_id p;
     ap_state := PROPOSED; ap_reviewer_user_id := ap_reviewer_user_id p;
     ap_reviewed_at_ms := ap_reviewed_at_ms p; ap_reject_reason := ap_reject_reason p;
     ap_payload_sha256 := ap_payload_sha256 p |}.

(** The masked trace and the pinned hash. *)
Definition pin (trace : json) (sha : string) (p : ApprovalProposal) : ApprovalProposal :=
  {| ap_id := ap_id p; ap_source := ap_source p; ap_subject := ap_subject p;
     ap_payload := ap_payload p; ap_decision_trace := trace;
     ap_proposed_at_ms := ap_proposed_at_ms p; ap_proposer_user_id := ap_proposer_user_id p;
     ap_state := ap_state p; ap_reviewer_user_id := ap_reviewer_user_id p;
     ap_reviewed_at_ms := ap_reviewed_at_ms p; ap_reject_reason := ap_reject_reason p;
     ap_payload_sha256 := sha |}.

Section workflow.
Context {A : Type} (T : Text) (deps : Deps).

(** The detail of an audit entry: the decision trace and the summary of the
    state; [None] when assigning to a value that is not an object, or
    [dump], throws. *)
Definition audit_detail (p : ApprovalProposal) : option string :=
  d ← json_assign "state" (JString (stateToString (ap_state p))) (ap_decision_trace p);
  d ← json_assign "source" (JString (sourceToString (ap_source p))) d;
  d ← json_assign "subject" (JString (ap_subject p)) d;
  d ← json_assign "payload_sha256" (JString (ap_payload_sha256 p)) d;
  d ← json_assign "reviewer_user_id" (JString (ap_reviewer_user_id p)) d;
  d ← (if str_empty (ap_reject_reason p) then Some d
       else json_assign "reject_reason" (JString (ap_reject_reason p)) d);
  dump T d.

Definition auditTransition (p : ApprovalProposal) (action : string) :
    prog (Cmd A) (option unit) :=
  if negb (has_audit deps) then Ret (Some tt)
  else match audit_detail p with
       | None => Ret None
       | Some detail =>
           now ← call CurrentTimestamp;
           translate (@Aud A) (Audit.log (audit_store deps) (encryption deps)
             (Audit.action_entry (ap_id p) now "system" "autonomy" action detail));;
           Ret (Some tt)
       end.

(** Audit, then return [b]. *)
Definition audited {B} (p : ApprovalProposal) (action : string) (b : B) :
    prog (Cmd A) (option B) :=
  or_throw (auditTransition p action) (λ _, Ret (Some b)).

(** [registerApplier]. *)
Definition registerApplier (src : AutonomySource) (a : Applier A) : prog (Cmd A) unit :=
  call (RegisterApplier src a).

(** [propose] from the validation of the trace on. *)
Definition propose_completed (p : ApprovalProposal) : prog (Cmd A) (option string) :=
  if negb (dv_ok (validateDecisionTrace (ap_decision_trace p))) then Ret (Some "")
  else
    let trace := maskDecisionTraceInPlace (mask deps) (ap_decision_trace p) in
    match computePayloadSha256 T (ap_payload p) with
    | None => Ret None
    | Some sha =>
        let p := pin trace sha p in
        or_throw (queue_insert (has_store deps) p) (λ id,
        if str_empty id then Ret (Some "") else audited p "propose" id)
    end.

Definition propose (p : ApprovalProposal) : prog (Cmd A) (option string) :=
  enabled ← call CheckEnabled;
  if negb enabled then Ret (Some "")
  else if negb (has_queue deps) then Ret (Some "")
  else
    id ← (if str_empty (ap_id p) then call GenUlid else Ret (ap_id p));
    now ← (if ap_proposed_at_ms p =? 0 then call NowMs else Ret (ap_proposed_at_ms p));
    propose_completed (complete id now p).

Definition approve (id reviewer_user_id : string) : prog (Cmd A) (option bool) :=
  enabled ← call CheckEnabled;
  if negb enabled then Ret (Some false)
  else if negb (has_queue deps) then Ret (Some false)
  else
    cur ← queue_get id;
    match cur with
    | None => Ret (Some false)
    | Some cur =>
        if decide (ap_state cur = PROPOSED) then
          now ← call NowMs;
          let cur := set_review APPROVED reviewer_user_id now (ap_reject_reason cur) cur in
          or_throw (queue_update (has_store deps) cur) (λ updated,
          if negb updated then Ret (Some false) else audited cur "approve" true)
        else Ret (Some false)
    end.

Definition reject (id reviewer_user_id reason : string) : prog (Cmd A) (option bool) :=
  enabled ← call CheckEnabled;
  if negb enabled then Ret (Some false)
  else if negb (has_queue deps) then Ret (Some false)
  else
    cur ← queue_get id;
    match cur with
    | None => Ret (Some false)
    | Some cur =>
        if decide (ap_state cur = PROPOSED ∨ ap_state cur = APPROVED) then
          now ← call NowMs;
          let cur := set_review REJECTED reviewer_user_id now reason cur in
          or_throw (queue_update (has_store deps) cur) (λ updated,
          if negb updated then Ret (Some false) else audited cur "reject" true)
        else Ret (Some false)
    end.

(** The part of [apply] after the applier has been found. *)
Definition apply_with (applier : Applier A) (cur : ApprovalProposal) :
    prog (Cmd A) (option bool) :=
  or_throw (call (RunApply applier cur)) (λ success,
  if success : bool then
    let cur := set_state APPLIED cur in
    or_throw (queue_update (has_store deps) cur) (λ updated,
    if negb updated then Ret (Some false) else audited cur "apply" true)
  else
    returned ← call (RunRollback applier cur);
    if negb returned then Ret None
    else
      let cur := set_state ROLLED_BACK cur in
      or_throw (queue_update (has_store deps) cur) (λ _,
      audited cur "apply_failed_rolled_back" false)).

Definition apply (id : string) : prog (Cmd A) (option bool) :=
  enabled ← call CheckEnabled;
  if negb enabled then Ret (Some false)
  else if negb (has_queue deps) then Ret (Some false)
  else
    cur ← queue_get id;
    match cur with
    | None => Ret (Some false)
    | Some cur =>
        if decide (ap_state cur = APPROVED) then
          match verifyPayloadSha256 T cur with
          | None => Ret None
          | Some false => audited cur "apply_tampered_rejected" false
          | Some true =>
              applier ← call (FindApplier (ap_source cur));
              match applier with
              | None => audited cur "apply_no_applier" false
              | Some applier => apply_with applier cur
              end
          end
        else Ret (Some false)
    end.

Definition rollback (id : string) : prog (Cmd A) (option bool) :=
  enabled ← call CheckEnabled;
  if negb enabled then Ret (Some false)
  else if negb (has_queue deps) then Ret (Some false)
  else
    cur ← queue_get id;
    match cur with
    | None => Ret (Some false)
    | Some cur =>
        if decide (ap_state cur = APPLIED) then
          applier ← call (FindApplier (ap_source cur));
          match applier with
          | None => audited cur "rollback_no_applier" false
          | Some applier =>
              returned ← call (RunRollback applier cur);
              if negb returned then Ret None
              else
                let cur := set_state ROLLED_BACK cur in
                or_throw (queue_update (has_store deps) cur) (λ updated,
                if negb updated then Ret (Some false) else audited cur "rollback" true)
          end
        else Ret (Some false)
    end.

(** [get], [list] and [count]. *)
Definition get (id : string) : prog (Cmd A) (option ApprovalProposal) :=
  if negb (has_queue deps) then Ret None else queue_get id.

Definition list_proposals (state_filter : option ApprovalState)
    (source_filter : option AutonomySource) (limit offset : Z) :
    prog (Cmd A) (list ApprovalProposal) :=
  if negb (has_queue deps) then Ret []
  else queue_list {| qq_state_filter := state_filter; qq_source_filter := source_filter;
                     qq_limit := limit; qq_offset := offset |}.

Definition count (state_filter : option ApprovalState)
    (source_filter : option AutonomySource) : prog (Cmd A) Z :=
  if negb (has_queue deps) then Ret 0
  else queue_count {| qq_state_filter := state_filter; qq_source_filter := source_filter;
                      qq_limit := 100; qq_offset := 0 |}.

(** The requests that change something, with the outcome as success or not. *)
Inductive Request :=
| Propose (p : ApprovalProposal)
| Approve (id reviewer : string)
| Reject (id reviewer reason : string)
| Apply (id : string)
| Rollback (id : string)
| Register (src : AutonomySource) (a : Applier A)
| Initialize
| Prune (retention_days : Z).

Definition handle (r : Request) : prog (Cmd A) (option bool) :=
  match r with
  | Propose p => or_throw (propose p) (λ id, Ret (Some (negb (str_empty id))))
  | Approve id who => approve id who
  | Reject id who why => reject id who why
  | Apply id => apply id
  | Rollback id => rollback id
  | Register src a => registerApplier src a;; Ret (Some true)
  | Initialize => b ← queue_initialize (has_store deps); Ret (Some b)
  | Prune days => queue_prune (has_store deps) days;; Ret (Some true)
  end.

End workflow.

(** ** The workflow as a state machine *)

Inductive approval_edge : ApprovalState → ApprovalState → Prop :=
| edge_approve : approval_edge PROPOSED APPROVED
| edge_reject_proposed : approval_edge PROPOSED REJECTED
| edge_reject_approved : approval_edge APPROVED REJECTED
| edge_apply : approval_edge APPROVED APPLIED
| edge_apply_failed : approval_edge APPROVED ROLLED_BACK
| edge_rollback : approval_edge APPLIED ROLLED_BACK.

(** What stays as submitted. *)
Definition same_proposal (p p' : ApprovalProposal) : Prop :=
  ap_id p = ap_id p' ∧ ap_source p = ap_source p' ∧ ap_subject p = ap_subject p' ∧
  ap_payload p = ap_payload p' ∧ ap_decision_trace p = ap_decision_trace p' ∧
  ap_proposed_at_ms p = ap_proposed_at_ms p' ∧
  ap_proposer_user_id p = ap_proposer_user_id p' ∧
  ap_payload_sha256 p = ap_payload_sha256 p'.

Section machine.
Context {A : Type} `{UnorderedIter} (T : Text) (deps : Deps).

Definition switched_on (w : World A) : bool := w_enabled w && has_queue deps.

(** The proposal under [id], when it is in one of the states [sts]. *)
Definition in_state (id : string) (sts : list ApprovalState) (w : World A) :
    option ApprovalProposal :=
  p ← w_cache w !! id;
  if switched_on w && bool_decide (ap_state p ∈ sts) then Some p else None.

(** The proposal as [propose] stores it. *)
Definition submitted (p : ApprovalProposal) (w : World A) : option ApprovalProposal :=
  let q := complete (w_ids w (w_next_id w)) (w_now w) p in
  sha ← computePayloadSha256 T (ap_payload p);
  Some (pin (maskDecisionTraceInPlace (mask deps) (ap_decision_trace p)) sha q).

(** The row fits the queue: new, named, and writable. *)
Definition fits (q : ApprovalProposal) (w : World A) : bool :=
  negb (str_empty (ap_id q)) && bool_decide (w_cache w !! ap_id q = None) &&
  (negb (has_store deps) || bool_decide (is_Some (toRecord T q))).

Definition propose_accepts (p : ApprovalProposal) (w : World A) : option ApprovalProposal :=
  q ← submitted p w;
  if switched_on w && dv_ok (validateDecisionTrace (ap_decision_trace p)) && fits q w
  then Some q else None.

(** The approved proposal [apply] runs, with its applier. *)
Definition applicable (id : string) (w : World A) : option (ApprovalProposal * Applier A) :=
  p ← in_state id [APPROVED] w;
  a ← w_appliers w (ap_source p);
  if decide (verifyPayloadSha256 T p = Some true) then Some (p, a) else None.

Definition revertible (id : string) (w : World A) : option (ApprovalProposal * Applier A) :=
  p ← in_state id [APPLIED] w;
  a ← w_appliers w (ap_source p);
  if (apl_rollback a p (w_target w)).1 then Some (p, a) else None.

(** How [apply] ends: the new state, if any. *)
Definition apply_outcome (p : ApprovalProposal) (a : Applier A) (w : World A) :
    option ApprovalState :=
  match apl_apply a p (w_target w) with
  | (Some true, _) => Some APPLIED
  | (Some false, t) => if (apl_rollback a p t).1 then Some ROLLED_BACK else None
  | (None, _) => None
  end.

(** The requests that are carried out. *)
Definition accepted (req : Request (A := A)) (w : World A) : Prop :=
  match req with
  | Propose p => is_Some (propose_accepts p w)
  | Approve id _ => is_Some (in_state id [PROPOSED] w)
  | Reject id _ _ => is_Some (in_state id [PROPOSED; APPROVED] w)
  | Apply id => ∃ p a, applicable id w = Some (p, a) ∧ apply_outcome p a w = Some APPLIED
  | Rollback id => is_Some (revertible id w)
  | Register _ _ | Initialize | Prune _ => True
  end.

(** The queue after a request. *)
Definition next_queue (req : Request (A := A)) (w : World A) : gmap string ApprovalProposal :=
  let c := w_cache w in
  match req with
  | Propose p =>
      match propose_accepts p w with Some q => <[ap_id q := q]> c | None => c end
  | Approve id who =>
      match in_state id [PROPOSED] w with
      | Some p => <[id := set_review APPROVED who (w_now w) (ap_reject_reason p) p]> c
      | None => c
      end
  | Reject id who why =>
      match in_state id [PROPOSED; APPROVED] w with
      | Some p => <[id := set_review REJECTED who (w_now w) why p]> c
      | None => c
      end
  | Apply id =>
      match applicable id w with
      | Some (p, a) =>
          match apply_outcome p a w with
          | Some st => <[id := set_state st p]> c
          | None => c
          end
      | None => c
      end
  | Rollback id =>
      match revertible id w with
      | Some (p, _) => <[id := set_state ROLLED_BACK p]> c
      | None => c
      end
  | Register _ _ => c
  | Initialize => if has_store deps then c else ∅
  | Prune days => if days <=? 0 then c else recent (cutoff (w_now w) days) c
  end.

(** A request as the callers make it: its JSON values are well formed. *)
Definition request_wf (req : Request (A := A)) : Prop :=
  match req with Propose p => proposal_wf p | _ => True end.

(** ** Each handler alone *)

Lemma run_audited {B} p act (b : B) (w : World A) :
  ∃ r w', run (exec T) (audited T deps p act b) w = (r, w') ∧ (r = Some b ∨ r = None) ∧
          qview w' = qview w.
Proof.
  unfold audited, auditTransition. rw run_or_throw.
  destruct (negb (has_audit deps)); [by eexists _, _; split_and!; [|left|]|].
  destruct (audit_detail T p) as [d|]; [|by eexists _, _; split_and!; [|right|]].
  rw run_call run_bind. unfold Audit.log.
  destruct (run (exec T) (translate _ _) _) as [u w'] eqn:E.
  exists (Some b), w'. split_and!; [done|by left|]. revert E. cbn.
  destruct (audit_store deps); cbn; intros E; by simplify_eq.
Qed.

Lemma set_state_wf st p : proposal_wf p → proposal_wf (set_state st p).
Proof. done. Qed.
Lemma set_review_wf st who ts why p : proposal_wf p → proposal_wf (set_review st who ts why p).
Proof. done. Qed.

(** Whether a row can be written depends on its JSON columns only. *)
Lemma toRecord_same p p' :
  ap_payload p' = ap_payload p → ap_decision_trace p' = ap_decision_trace p →
  is_Some (toRecord T p) → is_Some (toRecord T p').
Proof.
  unfold toRecord. intros -> ->.
  destruct (dump T (ap_payload p)); [simpl|by intros []].
  destruct (dump T (ap_decision_trace p)); [by eexists|by intros []].
Qed.

Context (Ht : JsonText (dump T) (parse T)).

(** Store the changed proposal, audit, report. *)
Lemma run_update_audited p p' act b (k : bool → prog (Cmd A) (option bool)) w :
  queue_ok T (has_store deps) w → w_cache w !! ap_id p = Some p →
  same_proposal p p' → k true = audited T deps p' act b →
  ∃ r w', run (exec T) (or_throw (queue_update (has_store deps) p') k) w = (r, w') ∧
          queue_ok T (has_store deps) w' ∧ (r = Some b ∨ r = None) ∧
          w_cache w' = <[ap_id p := p']> (w_cache w).
Proof.
  intros Hok Hp (Hid & _ & _ & Hpay & Htr & _) Hk.
  destruct (qo_cache T _ w Hok _ _ Hp) as (_ & _ & Hwf).
  destruct (run_update T (has_store deps) p' p w) as (w1 & E1 & Hc1 & Hok1); [done|congruence| | |].
  { destruct Hwf. split; congruence. }
  { intros Hs. apply (toRecord_same p); [done..|]. by apply (qo_written T _ w Hok Hs (ap_id p)). }
  destruct (run_audited p' act b w1) as (r & w2 & E2 & Hr & Hv).
  exists r, w2. rw run_or_throw E1 Hk E2. split_and!; [done|by apply (queue_ok_view T _ w1)|done|].
  injection Hv as _ ->. by rw Hc1 Hid.
Qed.

(** A request is served: the queue becomes [next_queue], and the answer is
    positive only if the request was accepted; if it was, it can only be
    missing because auditing it threw. *)
Definition serves (req : Request (A := A)) (w : World A) : Prop :=
  ∃ r w', run (exec T) (handle T deps req) w = (r, w') ∧ queue_ok T (has_store deps) w' ∧
    w_cache w' = next_queue req w ∧ (r = Some true → accepted req w) ∧
    (accepted req w → r = Some true ∨ r = None).

(** A request that is refused without touching the queue. *)
Lemma serves_refused req w w' r :
  run (exec T) (handle T deps req) w = (r, w') → qview w' = qview w →
  queue_ok T (has_store deps) w → ¬ accepted req w → next_queue req w = w_cache w →
  r ≠ Some true → serves req w.
Proof.
  intros E Hv Hok Hn Hq Hr. exists r, w'. injection Hv as ? Hc. rw Hq.
  split_and!; [done|by apply (queue_ok_view T _ w); [unfold qview; congruence|]|done|done|done].
Qed.

Lemma in_state_off id sts w : switched_on w = false → in_state id sts w = None.
Proof. unfold in_state. intros ->. by destruct (w_cache w !! id). Qed.

Lemma in_state_on id sts w :
  switched_on w = true →
  in_state id sts w = p ← w_cache w !! id; if decide (ap_state p ∈ sts) then Some p else None.
Proof.
  unfold in_state. intros ->. destruct (w_cache w !! id) as [p|]; simpl; [|done].
  case_bool_decide; by case_decide.
Qed.

(** The two guards every handler starts with. *)
Lemma run_guards {B} (b : B) (k : prog (Cmd A) (option B)) w :
  run (exec T) (enabled ← call CheckEnabled;
                if negb enabled then Ret (Some b)
                else if negb (has_queue deps) then Ret (Some b) else k) w =
  if switched_on w then run (exec T) k w else (Some b, w).
Proof.
  rw run_call. cbn [exec fst snd]. unfold switched_on.
  destruct (w_enabled w), (has_queue deps); done.
Qed.

(** The kill switch: nothing is accepted and nothing changes. *)
Lemma serves_off req w :
  switched_on w = false → queue_ok T (has_store deps) w →
  match req with Register _ _ | Initialize | Prune _ => False | _ => True end → serves req w.
Proof.
  intros Hoff Hok Hreq. apply (serves_refused req w w (Some false)); try done.
  - destruct req; try done; cbn [handle]; unfold approve, reject, apply, rollback, propose;
      rw ?run_or_throw run_guards Hoff; done.
  - destruct req; try done; cbn; unfold applicable, revertible, propose_accepts;
      rw ?in_state_off // ?Hoff; try by intros [].
    + destruct (submitted p w); by intros [].
    + by intros (?&?&?&?).
  - destruct req; try done; cbn; unfold applicable, revertible, propose_accepts;
      rw ?in_state_off // ?Hoff. by destruct (submitted p w).
Qed.

Lemma review_serves id st who why sts w act req :
  queue_ok T (has_store deps) w → switched_on w = true →
  next_queue req w = match in_state id sts w with
                     | Some p => <[id := set_review st who (w_now w) (why p) p]> (w_cache w)
                     | None => w_cache w end →
  (accepted req w ↔ is_Some (in_state id sts w)) →
  run (exec T) (handle T deps req) w =
    match w_cache w !! id with
    | Some p =>
        if decide (ap_state p ∈ sts) then
          run (exec T) (or_throw (queue_update (has_store deps) (set_review st who (w_now w) (why p) p))
            (λ updated, if negb updated then Ret (Some false)
                        else audited T deps (set_review st who (w_now w) (why p) p) act true)) w
        else (Some false, w)
    | None => (Some false, w)
    end → serves req w.
Proof.
  intros Hok Hon Hq Hacc E. unfold serves. setoid_rewrite Hacc. rw Hq E in_state_on //.
  destruct (w_cache w !! id) as [p|] eqn:Hp; cbn [mbind option_bind].
  2: { exists (Some false), w. split_and!; [done..|by intros []]. }
  case_decide as Hs.
  - destruct (qo_cache T _ w Hok _ _ Hp) as (<- & _).
    destruct (run_update_audited p (set_review st who (w_now w) (why p) p) act true
      (λ updated, if negb updated then Ret (Some false)
                  else audited T deps (set_review st who (w_now w) (why p) p) act true) w)
      as (r & w' & E' & Hok' & Hr & Hc); [done..|].
    exists r, w'. rw E'. split_and!; [done..|by eexists|by destruct Hr; [left|right]].
  - exists (Some false), w. split_and!; [done..|by intros []].
Qed.

Lemma approve_serves id who w : queue_ok T (has_store deps) w → serves (Approve id who) w.
Proof.
  intros Hok. destruct (switched_on w) eqn:Hon; [|by apply serves_off].
  apply (review_serves id APPROVED who ap_reject_reason [PROPOSED] w "approve"); [done..|].
  cbn [handle]. unfold approve, queue_get. rw run_guards Hon run_call. cbn [exec fst snd].
  destruct (w_cache w !! id) as [p|]; [|done].
  destruct (decide (ap_state p = PROPOSED)) as [Hs|Hs].
  - rw run_call decide_True; [done|by rw Hs; left].
  - rw decide_False; [done|set_solver].
Qed.

Lemma reject_serves id who why w : queue_ok T (has_store deps) w → serves (Reject id who why) w.
Proof.
  intros Hok. destruct (switched_on w) eqn:Hon; [|by apply serves_off].
  apply (review_serves id REJECTED who (λ _, why) [PROPOSED; APPROVED] w "reject"); [done..|].
  cbn [handle]. unfold reject, queue_get. rw run_guards Hon run_call. cbn [exec fst snd].
  destruct (w_cache w !! id) as [p|]; [|done].
  destruct (decide (ap_state p = PROPOSED ∨ ap_state p = APPROVED)) as [Hs|Hs].
  - rw run_call decide_True; [done|set_solver].
  - rw decide_False; [done|set_solver].
Qed.

(** A handler that only audits and answers [false]. *)
Lemma serves_audited req p act w :
  queue_ok T (has_store deps) w →
  run (exec T) (handle T deps req) w = run (exec T) (audited T deps p act false) w →
  ¬ accepted req w → next_queue req w = w_cache w → serves req w.
Proof.
  intros Hok E Hn Hq. destruct (run_audited p act false w) as (r & w' & E' & Hr & Hv).
  apply (serves_refused req w w' r); [congruence|done..|]. by destruct Hr as [-> | ->].
Qed.

Lemma with_target_ok t ps (w : World A) :
  queue_ok T (has_store deps) w → queue_ok T (has_store deps) (with_target t ps w).
Proof. by apply queue_ok_view. Qed.

Lemma apply_with_serves id p a w :
  queue_ok T (has_store deps) w → switched_on w = true → applicable id w = Some (p, a) →
  w_cache w !! id = Some p →
  run (exec T) (handle T deps (Apply id)) w = run (exec T) (apply_with T deps a p) w →
  serves (Apply id) w.
Proof.
  intros Hok Hon Happ Hp E. unfold serves. cbn [accepted next_queue].
  rw E Happ. unfold apply_with, apply_outcome. rw run_or_throw. cbn [run call exec].
  destruct (qo_cache T _ w Hok _ _ Hp) as (<- & _).
  destruct (apl_apply a p (w_target w)) as [[[]|] t] eqn:Ea; cbn [fst snd].
  - destruct (run_update_audited p (set_state APPLIED p) "apply" true
      (λ updated, if negb updated then Ret (Some false)
                  else audited T deps (set_state APPLIED p) "apply" true) (with_target t [p] w))
      as (r & w' & E' & Hok' & Hr & Hc); [by apply with_target_ok|done..|].
    exists r, w'. rw E'. split_and!; [done..| |by destruct Hr; [left|right]].
    exists p, a. rw Ea. done.
  - rw run_call. cbn [exec w_target with_target].
    destruct (apl_rollback a p t) as [[] t'] eqn:Er; cbn [fst snd negb].
    + destruct (run_update_audited p (set_state ROLLED_BACK p) "apply_failed_rolled_back" false
        (λ _, audited T deps (set_state ROLLED_BACK p) "apply_failed_rolled_back" false)
        (with_target t' [] (with_target t [p] w)))
        as (r & w' & E' & Hok' & Hr & Hc); [by do 2 apply with_target_ok|done..|].
      exists r, w'. rw E'. split_and!; [done..|by destruct Hr as [-> | ->]|].
      intros (p' & a' & [= <- <-] & Ho). by rw Ea Er in Ho.
    + eexists None, _. split_and!; [done|by do 2 apply with_target_ok|done|done|by right].
  - eexists None, _. split_and!; [done|by apply with_target_ok|done|done|by right].
Qed.

Lemma run_apply id w :
  switched_on w = true →
  run (exec T) (handle T deps (Apply id)) w =
  match w_cache w !! id with
  | None => (Some false, w)
  | Some p =>
      if decide (ap_state p = APPROVED) then
        match verifyPayloadSha256 T p with
        | None => (None, w)
        | Some false => run (exec T) (audited T deps p "apply_tampered_rejected" false) w
        | Some true =>
            match w_appliers w (ap_source p) with
            | None => run (exec T) (audited T deps p "apply_no_applier" false) w
            | Some a => run (exec T) (apply_with T deps a p) w
            end
        end
      else (Some false, w)
  end.
Proof.
  intros Hon. cbn [handle]. unfold apply, queue_get. rw run_guards Hon run_call.
  cbn [exec fst snd]. destruct (w_cache w !! id) as [p|]; [|done]. case_decide; [|done].
  destruct (verifyPayloadSha256 T p) as [[]|]; [|done..]. rw run_call. cbn [exec fst snd].
  by destruct (w_appliers w (ap_source p)).
Qed.

Lemma applicable_on id w :
  switched_on w = true →
  applicable id w =
  p ← w_cache w !! id;
  if decide (ap_state p = APPROVED ∧ verifyPayloadSha256 T p = Some true)
  then (λ a, (p, a)) <$> w_appliers w (ap_source p) else None.
Proof.
  intros Hon. unfold applicable. rw in_state_on //.
  destruct (w_cache w !! id) as [p|]; [cbn|done].
  destruct (decide (ap_state p = APPROVED)) as [Hs|Hs].
  - rw decide_True; [|set_solver]. cbn. destruct (w_appliers w _); cbn;
      repeat case_decide; naive_solver.
  - rw decide_False; [|set_solver]. cbn. rw decide_False; [done|naive_solver].
Qed.

Lemma apply_serves id w : queue_ok T (has_store deps) w → serves (Apply id) w.
Proof.
  intros Hok. destruct (switched_on w) eqn:Hon; [|by apply serves_off].
  pose proof (run_apply id w Hon) as E. pose proof (applicable_on id w Hon) as Happ.
  assert (applicable id w = None → ¬ accepted (Apply id) w ∧ next_queue (Apply id) w = w_cache w)
    as Hno.
  { intros Hn. cbn. rw Hn. split; [by intros (?&?&?&?)|done]. }
  destruct (w_cache w !! id) as [p|] eqn:Hp; cbn [mbind option_bind] in Happ.
  2: { destruct (Hno Happ). by apply (serves_refused _ w w (Some false)). }
  destruct (decide (ap_state p = APPROVED)) as [Hs|Hs].
  2: { rw decide_False in Happ; [|naive_solver]. destruct (Hno Happ).
       by apply (serves_refused _ w w (Some false)). }
  destruct (verifyPayloadSha256 T p) as [[]|] eqn:Hv.
  2: { rw decide_False in Happ; [|naive_solver]. destruct (Hno Happ). by eapply serves_audited. }
  2: { rw decide_False in Happ; [|naive_solver]. destruct (Hno Happ).
       by apply (serves_refused _ w w None). }
  rw decide_True // in Happ.
  destruct (w_appliers w (ap_source p)) as [a|] eqn:Ha.
  - by eapply apply_with_serves.
  - destruct (Hno Happ). by eapply serves_audited.
Qed.

Lemma rollback_serves id w : queue_ok T (has_store deps) w → serves (Rollback id) w.
Proof.
  intros Hok. destruct (switched_on w) eqn:Hon; [|by apply serves_off].
  assert (revertible id w =
    p ← w_cache w !! id; a ← w_appliers w (ap_source p);
    if decide (ap_state p = APPLIED) then
      if (apl_rollback a p (w_target w)).1 then Some (p, a) else None else None) as Hrev.
  { unfold revertible. rw in_state_on //. destruct (w_cache w !! id) as [p|]; [cbn|done].
    destruct (decide (ap_state p = APPLIED)) as [Hs|Hs].
    - rw decide_True; [done|set_solver].
    - rw decide_False; [|set_solver]. by destruct (w_appliers w _). }
  assert (revertible id w = None → ¬ accepted (Rollback id) w ∧
            next_queue (Rollback id) w = w_cache w) as Hno.
  { intros Hn. cbn. rw Hn. split; [by intros []|done]. }
  assert (∃ E, run (exec T) (handle T deps (Rollback id)) w = E ∧
               run (exec T) (rollback T deps id) w = E) as (E & HE0 & HE) by eauto.
  unfold rollback, queue_get in HE.
  rw run_guards Hon run_call in HE. cbn [exec fst snd] in HE.
  destruct (w_cache w !! id) as [p|] eqn:Hp.
  2: { destruct Hno as [??]; [by rw Hrev|]. by apply (serves_refused _ w w (Some false)); [by rw HE0 -HE|..]. }
  case_decide as Hs.
  2: { destruct Hno as [??]; [rw Hrev /=; destruct (w_appliers w _); cbn; [by rw decide_False|done]|].
       by apply (serves_refused _ w w (Some false)); [by rw HE0 -HE|..]. }
  rw run_call in HE. cbn [exec fst snd] in HE.
  destruct (w_appliers w (ap_source p)) as [a|] eqn:Ha.
  2: { destruct Hno as [??]; [by rw Hrev /= Ha|]. apply (serves_audited _ p "rollback_no_applier" w); [done|by rw HE0 -HE|done|done]. }
  rw run_call in HE. cbn [exec] in HE.
  destruct (apl_rollback a p (w_target w)) as [[] t] eqn:Er; cbn [fst snd negb] in HE.
  2: { destruct Hno as [??]; [by rw Hrev /= Ha /= Er; case_match|].
       by apply (serves_refused _ w (with_target t [] w) None); [by rw HE0 -HE|..]. }
  destruct (qo_cache T _ w Hok _ _ Hp) as (Hid & _). subst id.
  destruct (run_update_audited p (set_state ROLLED_BACK p) "rollback" true
      (λ updated, if negb updated then Ret (Some false)
                  else audited T deps (set_state ROLLED_BACK p) "rollback" true)
      (with_target t [] w))
      as (r & w' & E' & Hok' & Hr & Hc); [by apply with_target_ok|done..|].
  exists r, w'. cbn [accepted next_queue]. rw Hrev. cbn [mbind option_bind].
  rw Ha. cbn [mbind option_bind]. rw decide_True // Er. cbn [fst].
  split_and!; [by rw HE0 -HE E'|done|done|by eexists|by destruct Hr; [left|right]].
Qed.

Lemma run_completed p w :
  ∃ w1, qview w1 = qview w ∧
    run (exec T) (propose T deps p) w =
    if switched_on w
    then run (exec T) (propose_completed T deps (complete (w_ids w (w_next_id w)) (w_now w) p)) w1
    else (Some "", w).
Proof.
  exists (if str_empty (ap_id p) then next_id w else w). split; [by destruct (str_empty _)|].
  unfold propose. rw run_guards. destruct (switched_on w); [|done]. rw run_bind.
  unfold complete. destruct (str_empty (ap_id p)), (ap_proposed_at_ms p =? 0); done.
Qed.

Lemma mask_wf f trace : json_wf trace → json_wf (maskDecisionTraceInPlace f trace).
Proof.
  destruct trace as [| | | | | |m]; try done. simpl. intros [Hs Hm]. split.
  - unfold keys_sorted in *.
    assert ((map (λ kv : string * json, let '(k, v) := kv in
      (k, match v with JString s => JString (f s) | _ => v end)) m).*1 = m.*1) as ->; [|done].
    induction m as [|[k v] m IH]; [done|]. simpl in *. f_equal. apply IH.
    + by apply StronglySorted_inv in Hs as [? _].
    + by destruct Hm.
  - clear Hs. induction m as [|[k v] m IH]; [done|]. simpl in *. destruct Hm as [Hv Hm].
    split; [by destruct v|by apply IH].
Qed.

Lemma propose_serves p w :
  proposal_wf p → queue_ok T (has_store deps) w → serves (Propose p) w.
Proof.
  intros [Hwp Hwt] Hok. destruct (switched_on w) eqn:Hon; [|by apply serves_off].
  unfold serves. cbn [handle accepted next_queue]. rw run_or_throw.
  destruct (run_completed p w) as (w1 & Hv1 & ->). rw Hon.
  assert (queue_ok T (has_store deps) w1) as Hok1 by by apply (queue_ok_view T _ w).
  injection Hv1 as Ht1 Hc1.
  unfold propose_accepts, submitted, propose_completed. rw Hon. cbn [andb complete ap_decision_trace ap_payload].
  set (q := complete _ _ p).
  destruct (dv_ok (validateDecisionTrace (ap_decision_trace p))) eqn:Hd; cbn [negb andb].
  2: { exists (Some false), w1.
       destruct (computePayloadSha256 T (ap_payload p)); cbn; split_and!; [done..|by intros []]. }
  destruct (computePayloadSha256 T (ap_payload p)) as [sha|]; cbn [mbind option_bind].
  2: { exists None, w1. split_and!; [done..|by right]. }
  set (q' := pin _ sha q). rw run_or_throw.
  destruct (run_insert T (has_store deps) q' w1 Hok1) as (r & w2 & E & Hok2 & Hif).
  { split; [done|by apply mask_wf]. }
  rw E. unfold fits. rw Hc1 in Hif. destruct (_ && _ && _) eqn:Hfits.
  - destruct Hif as [-> Hc2]. bools. destruct Hfits as [[Hid _] _].
    rw (proj2 (str_empty_false _) Hid).
    destruct (run_audited q' "propose" (ap_id q') w2) as (r & w3 & E3 & Hr & Hv3).
    rw E3. injection Hv3 as Ht3 Hc3. destruct Hr as [-> | ->].
    + exists (Some true), w3. cbn [run]. rw (proj2 (str_empty_false _) Hid). split_and!; [done|..].
      * apply (queue_ok_view T _ w2); [unfold qview; congruence|done].
      * congruence.
      * by eexists.
      * by left.
    + exists None, w3. split_and!; [done|..|by right].
      * apply (queue_ok_view T _ w2); [unfold qview; congruence|done].
      * congruence.
      * done.
  - destruct Hif as [[-> | ->] Hc2].
    + exists (Some false), w2. split_and!; [done|done|congruence|done|by intros []].
    + exists None, w2. split_and!; [done|done|congruence|done|by intros []].
Qed.

Lemma handle_serves req w :
  request_wf req → queue_ok T (has_store deps) w →
  (size (w_cache w) <= Z.to_nat 1000000)%nat → serves req w.
Proof.
  intros Hwf Hok Hsize. destruct req as [p|id who|id who why|id|id|src a| |days].
  - by apply propose_serves.
  - by apply approve_serves.
  - by apply reject_serves.
  - by apply apply_serves.
  - by apply rollback_serves.
  - eexists _, _. split; [reflexivity|]. split_and!; [by apply (queue_ok_view T _ w)|done..|by left].
  - destruct (run_initialize T Ht (has_store deps) w w) as (w' & E & ? & ?); [done..|].
    exists (Some true), w'. cbn [handle]. rw run_bind E. split_and!; [done..|by left].
  - destruct (run_prune T Ht (has_store deps) days w) as (n & w' & E & ? & ?); [done..|].
    exists (Some true), w'. cbn [handle]. rw run_bind E. split_and!; [done..|by left].
Qed.

(** Every proposal in the queue after a request was there unchanged, is a new
    one, or has taken one edge of the state machine. *)
Lemma next_queue_edges req w id p' :
  queue_ok T (has_store deps) w → next_queue req w !! id = Some p' →
  w_cache w !! id = Some p' ∨
  (w_cache w !! id = None ∧ ap_state p' = PROPOSED) ∨
  ∃ p, w_cache w !! id = Some p ∧ approval_edge (ap_state p) (ap_state p') ∧ same_proposal p p'.
Proof.
  intros Hok.
  assert (∀ id' sts p, in_state id' sts w = Some p →
            w_cache w !! id' = Some p ∧ ap_state p ∈ sts) as Hin.
  { intros id' sts p. unfold in_state. destruct (w_cache w !! id') as [q|]; cbn; [|done].
    destruct (switched_on w); cbn; [|done]. case_bool_decide; naive_solver. }
  destruct req as [p|id' who|id' who why|id'|id'|src a| |days]; cbn [next_queue]; [..|by left| |].
  - destruct (propose_accepts p w) as [q|] eqn:Hq; [|by left].
    rw lookup_insert_Some. intros [[<- <-]|[_ ?]]; [|by left]. right; left.
    unfold propose_accepts, submitted in Hq.
    destruct (computePayloadSha256 T (ap_payload p)); cbn in Hq; [|done].
    case_match eqn:Hf; [|done]. simplify_eq. unfold fits in Hf. bools. naive_solver.
  - destruct (in_state id' _ w) as [p|] eqn:Hp; [|by left].
    rw lookup_insert_Some. intros [[<- <-]|[_ ?]]; [|by left]. do 2 right. exists p.
    apply Hin in Hp as [? ->%list_elem_of_singleton]. by split_and!; [|constructor|].
  - destruct (in_state id' _ w) as [p|] eqn:Hp; [|by left].
    rw lookup_insert_Some. intros [[<- <-]|[_ ?]]; [|by left]. do 2 right. exists p.
    apply Hin in Hp as [? Hs]. split_and!; [done| |done]. cbn.
    assert (ap_state p = PROPOSED ∨ ap_state p = APPROVED) as [-> | ->] by set_solver; constructor.
  - destruct (applicable id' w) as [[p a]|] eqn:Hp; [|by left].
    destruct (apply_outcome p a w) as [st|] eqn:Ho; [|by left].
    rw lookup_insert_Some. intros [[<- <-]|[_ ?]]; [|by left]. do 2 right. exists p.
    unfold applicable in Hp. destruct (in_state id' _ w) as [q|] eqn:Hq; cbn in Hp; [|done].
    destruct (w_appliers w _); cbn in Hp; [|done]. case_decide; simplify_eq.
    apply Hin in Hq as [? ->%list_elem_of_singleton]. split_and!; [done| |done]. cbn.
    unfold apply_outcome in Ho. branch; constructor.
  - destruct (revertible id' w) as [[p a]|] eqn:Hp; [|by left].
    rw lookup_insert_Some. intros [[<- <-]|[_ ?]]; [|by left]. do 2 right. exists p.
    unfold revertible in Hp. destruct (in_state id' _ w) as [q|] eqn:Hq; cbn in Hp; [|done].
    destruct (w_appliers w _); cbn in Hp; [|done]. case_match; simplify_eq.
    apply Hin in Hq as [? ->%list_elem_of_singleton]. by split_and!; [|constructor|].
  - destruct (has_store deps); [by left|by rw lookup_empty].
  - destruct (days <=? 0); [by left|]. intros [? _]%map_lookup_filter_Some. by left.
Qed.

End machine.

(** ** Any interleaving *)

Section concurrent.
Context {A : Type} `{UnorderedIter} (T : Text) (deps : Deps).

(** [ws] explains a proposal [id] with hash [sha] in state [st]: it was
    proposed with a payload of that hash, and if it is past review it was
    approved. *)
Definition past_review (st : ApprovalState) : bool :=
  match st with APPROVED | APPLIED | ROLLED_BACK => true | _ => false end.

Definition explains (ws : list ApprovalProposal) (id sha : string) (st : ApprovalState) : Prop :=
  (∃ h, h ∈ ws ∧ ap_state h = PROPOSED ∧ ap_id h = id ∧ ap_payload_sha256 h = sha ∧
        json_wf (ap_payload h) ∧ computePayloadSha256 T (ap_payload h) = Some sha) ∧
  (past_review st = true →
   ∃ h, h ∈ ws ∧ ap_state h = APPROVED ∧ ap_id h = id ∧ ap_payload_sha256 h = sha).

Definition known (ws : list ApprovalProposal) (p : ApprovalProposal) : Prop :=
  explains ws (ap_id p) (ap_payload_sha256 p) (ap_state p) ∧ json_wf (ap_payload p).

Definition known_row (ws : list ApprovalProposal) (r : ApprovalProposalRecord) : Prop :=
  ∀ st, approvalStateFromString (row_state r) = Some st →
        explains ws (row_id r) (row_payload_sha256 r) st.

Record ap_inv (w : World A) : Prop := {
  ai_cache : ∀ id p, w_cache w !! id = Some p → known (w_writes w) p;
  ai_rows : ∀ id r, approval_proposals (w_table w) !! id = Some r → known_row (w_writes w) r;
  ai_applied : ∀ p, p ∈ w_applied w →
    known (w_writes w) p ∧ ap_state p = APPROVED ∧ verifyPayloadSha256 T p = Some true;
}.

Definition Rel (w w' : World A) : Prop := w_writes w `prefix_of` w_writes w'.

#[local] Instance Rel_preorder : PreOrder Rel.
Proof. unfold Rel. split; [intros w; done|intros w1 w2 w3; apply transitivity]. Qed.

Lemma explains_mono ws ws' id sha st :
  ws `prefix_of` ws' → explains ws id sha st → explains ws' id sha st.
Proof.
  intros [l ->] [(h & Hh & ?) Hr]. split.
  - exists h. split; [apply elem_of_app; by left|done].
  - intros Hp. destruct (Hr Hp) as (h' & Hh' & ?). exists h'. split; [apply elem_of_app; by left|done].
Qed.

Lemma known_mono ws ws' p : ws `prefix_of` ws' → known ws p → known ws' p.
Proof. intros ? []. split; [by eapply explains_mono|done]. Qed.
Lemma known_row_mono ws ws' r : ws `prefix_of` ws' → known_row ws r → known_row ws' r.
Proof. intros ? Hk st Hst. eapply explains_mono; [done|by apply Hk]. Qed.

Lemma known_toRecord ws p rec : known ws p → toRecord T p = Some rec → known_row ws rec.
Proof.
  intros [Hk _]. unfold toRecord. intros E.
  repeat match type of E with (dump T ?v ≫= _) = _ => destruct (dump T v); [|done]; simpl in E end.
  simplify_eq. intros st. cbn. rw state_roundtrip. by intros [= <-].
Qed.

Context (Ht : JsonText (dump T) (parse T)).

Lemma known_fromRecord ws rec p : known_row ws rec → fromRecord T rec = Some p → known ws p.
Proof.
  intros Hk. unfold fromRecord. destruct (autonomySourceFromString _); cbn; [|done].
  destruct (approvalStateFromString (row_state rec)) as [st|] eqn:Hst; cbn; [|done].
  destruct (parse_column T (row_payload_json rec)) as [v|] eqn:Hv; cbn; [|done].
  destruct (parse_column T (row_decision_trace_json rec)); cbn; [|done].
  intros [= <-]. split; [by apply Hk|]. cbn. unfold parse_column in Hv.
  destruct (str_empty _); [simplify_eq|by eapply parse_wf]. split; [constructor|done].
Qed.

Lemma reload_known ws rs id p :
  Forall (known_row ws) rs → reload T rs !! id = Some p → known ws p.
Proof.
  intros Hrs. unfold reload.
  assert (∀ c : gmap string ApprovalProposal, (∀ id p, c !! id = Some p → known ws p) →
    ∀ id p, foldl (reload_row T) c rs !! id = Some p → known ws p) as Hg.
  { induction Hrs as [|rec rs Hrec _ IH]; intros c Hc; cbn; [done|]. apply IH.
    intros id' p'. unfold reload_row. destruct (fromRecord T rec) as [q|] eqn:Hq; [|apply Hc].
    rw lookup_insert_Some. intros [[_ <-]|[_ ?]]; [by eapply known_fromRecord|by eapply Hc]. }
  apply Hg. intros id' p'. by rw lookup_empty.
Qed.

Definition Safe {X} (p : prog (Cmd A) X) (w : World A) : Prop :=
  safe (exec T) Rel Rel ap_inv (λ _ _, True) p w.

(** What the invariant reads. *)
Definition iview (w : World A) :=
  (w_table w, w_cache w, w_writes w, w_applied w).

Lemma iview_rel w1 w2 : iview w1 = iview w2 → Rel w1 w2 ∧ Rel w1 w2 ∧ (ap_inv w1 → ap_inv w2).
Proof.
  intros [= Ht' Hc Hw Ha]. unfold Rel. rw Hw. split_and!; [done..|].
  intros []. split; rw -?Ht' -?Hc -?Hw -?Ha; done.
Qed.

Lemma PSafe_ret {X} (x : X) w : Safe (Ret x) w.
Proof. by unfold Safe. Qed.

Lemma PSafe_quiet {X Y} (p : prog (Cmd A) X) (k : X → prog (Cmd A) Y) w :
  quiet (exec T) iview p → (∀ x, Safe (k x) w) → Safe (p ≫= k) w.
Proof.
  intros Hq Hk. apply (safe_quiet (exec T) Rel Rel ap_inv iview); [apply iview_rel|done|].
  intros x w' HR _. eapply safe_stable; [apply _|exact HR|apply Hk].
Qed.

(** A call: its effect keeps the invariant and the rest is safe after it. *)
Lemma PSafe_call {X B} (e : Cmd A B) (k : B → prog (Cmd A) X) w :
  (∀ w', Rel w w' → ap_inv w' →
     Rel w' (exec T _ e w').2 ∧ ap_inv (exec T _ e w').2 ∧
     Safe (k (exec T _ e w').1) (exec T _ e w').2) →
  Safe (call e ≫= k) w.
Proof. intros Hk w' HR HI. by apply Hk. Qed.

(** A write of a proposal that its own history, with itself, explains. *)
Definition writable (w : World A) (p : ApprovalProposal) : Prop := known (w_writes w ++ [p]) p.

Lemma writable_mono w w' p : Rel w w' → writable w p → writable w' p.
Proof.
  intros [l Hl] [Hx Hwf]. split; [|done]. rw Hl. destruct Hx as [(h & Hh & ?) Hr].
  assert (∀ h, h ∈ w_writes w ++ [p] → h ∈ (w_writes w ++ l) ++ [p]) as Hsub.
  { intros h'. rw !elem_of_app. naive_solver. }
  split; [by exists h; auto|]. intros Hp. destruct (Hr Hp) as (h' & Hh' & ?). by exists h'; auto.
Qed.

Lemma inv_write_cache w p :
  ap_inv w → writable w p → ap_inv (with_cache (<[ap_id p := p]> (w_cache w)) [p] w).
Proof.
  intros HI Hw. assert (w_writes w `prefix_of` w_writes w ++ [p]) as Hpre by by eexists.
  split; cbn.
  - intros id q. rw lookup_insert_Some. intros [[_ <-]|[_ Hq]]; [done|].
    eapply known_mono; [done|by eapply (ai_cache w HI)].
  - intros id r Hr. eapply known_row_mono; [done|by eapply (ai_rows w HI)].
  - intros q Hq. destruct (ai_applied w HI q Hq) as (?&?&?). split_and!; [|done..].
    by eapply known_mono.
Qed.

Lemma inv_write_row w p rec m :
  ap_inv w → writable w p → toRecord T p = Some rec →
  ap_inv (with_table (set_rows (<[m := rec]> (approval_proposals (w_table w))) (w_table w)) [p] w).
Proof.
  intros HI Hw Hrec. assert (w_writes w `prefix_of` w_writes w ++ [p]) as Hpre by by eexists.
  split; cbn.
  - intros id q Hq. eapply known_mono; [done|by eapply (ai_cache w HI)].
  - intros id r. rw lookup_insert_Some. intros [[_ <-]|[_ Hq]]; [by eapply known_toRecord|].
    eapply known_row_mono; [done|by eapply (ai_rows w HI)].
  - intros q Hq. destruct (ai_applied w HI q Hq) as (?&?&?). split_and!; [|done..].
    by eapply known_mono.
Qed.

(** A step that only drops entries. *)
Lemma inv_shrink w w' :
  ap_inv w → w_writes w' = w_writes w → w_applied w' = w_applied w →
  (∀ id p, w_cache w' !! id = Some p → w_cache w !! id = Some p) →
  (∀ id r, approval_proposals (w_table w') !! id = Some r →
           ∃ r0, approval_proposals (w_table w) !! id = Some r0 ∧ row_id r0 = row_id r ∧
                 row_state r0 = row_state r ∧ row_payload_sha256 r0 = row_payload_sha256 r) →
  Rel w w' ∧ ap_inv w'.
Proof.
  intros HI Hw Ha Hc Hr. split; [unfold Rel; by rw Hw|]. split; rw ?Hw ?Ha.
  - intros id p Hp. by eapply (ai_cache w HI), Hc.
  - intros id r Hr'. destruct (Hr id r Hr') as (r0 & Hr0 & Hi & Hs & Hh).
    pose proof (ai_rows w HI _ _ Hr0) as Hk. unfold known_row in *. by rw Hi Hs Hh in Hk.
  - apply (ai_applied w HI).
Qed.

Lemma quiet_audited {X} p act (b : X) : quiet (exec T) iview (audited T deps p act b).
Proof.
  unfold audited, or_throw. apply quiet_bind; [|by intros [[]|]]. unfold auditTransition.
  destruct (negb _); [done|]. destruct (audit_detail T p); [|done]. split; [done|]. intros now.
  apply quiet_bind; [|done]. unfold Audit.log. split; [intros w; by cbn|]. intros e. cbn.
  destruct (audit_store deps); [split; [done|done]|done].
Qed.

Lemma PSafe_quiet_end {X} (p : prog (Cmd A) X) w : quiet (exec T) iview p → Safe p w.
Proof.
  unfold Safe. revert w. induction p as [x|B e k IH]; intros w; cbn; [done|].
  intros [He Hk] w' HR HI. destruct (iview_rel w' (exec T B e w').2) as (?&?&?); [done|].
  split_and!; [done|auto|by apply IH].
Qed.

Lemma PSafe_audited {X} p act (b : X) w : Safe (audited T deps p act b) w.
Proof. apply PSafe_quiet_end, quiet_audited. Qed.

Lemma PSafe_then {X Y} (p : prog (Cmd A) X) (k : X → prog (Cmd A) Y) w :
  Safe p w → (∀ x w', Rel w w' → Safe (k x) w') → Safe (p ≫= k) w.
Proof. intros Hp Hk. by apply (safe_then (exec T) Rel Rel ap_inv). Qed.

Lemma PSafe_or_throw {X Y} (p : prog (Cmd A) (option X)) (k : X → prog (Cmd A) (option Y)) w :
  Safe p w → (∀ x w', Rel w w' → Safe (k x) w') → Safe (or_throw p k) w.
Proof.
  intros Hp Hk. apply PSafe_then; [done|]. intros [x|] w' HR; [by apply Hk|apply PSafe_ret].
Qed.

(** The calls that write [p]. *)
Inductive writes (p : ApprovalProposal) : ∀ B, Cmd A B → Prop :=
| writes_st_insert : writes p _ (StInsert p)
| writes_st_update : writes p _ (StUpdate p)
| writes_insert hs : writes p _ (CacheInsert hs p)
| writes_put : writes p _ (CachePut p).

Lemma inv_write p B (e : Cmd A B) w :
  writes p B e → writable w p → ap_inv w → Rel w (exec T B e w).2 ∧ ap_inv (exec T B e w).2.
Proof.
  intros He Hw HI.
  assert (Rel w (with_table (w_table w) [] w)) as Hrel by by eexists.
  assert (∀ t, Rel w (with_table t [p] w)) as Hrel' by (intros t; by eexists).
  assert (ap_inv (with_table (w_table w) [] w)) as HI0.
  { destruct HI. split; cbn; by rw ?app_nil_r. }
  destruct He; cbn [exec]; unfold write_row, insertApprovalProposal, updateApprovalProposal.
  - destruct (toRecord T p) as [rec|] eqn:Hrec; [|done]. destruct (negb _); [done|].
    destruct (str_empty _); [done|]. destruct (_ !! _); [done|].
    split; [apply Hrel'|by apply inv_write_row].
  - destruct (toRecord T p) as [rec|] eqn:Hrec; [|done]. destruct (negb _); [done|].
    destruct (_ !! _); [split; [apply Hrel'|by apply inv_write_row]|done].
  - destruct (w_cache w !! ap_id p), hs; cbn [snd]; try done;
      (split; [by eexists|by apply inv_write_cache]).
  - split; [by eexists|by apply inv_write_cache].
Qed.

Lemma PSafe_write {X B} p (e : Cmd A B) (k : B → prog (Cmd A) X) w :
  writes p B e → writable w p → (∀ r w', Rel w w' → Safe (k r) w') → Safe (call e ≫= k) w.
Proof.
  intros He Hw Hk. apply PSafe_call. intros w' HR HI.
  destruct (inv_write p B e w' He) as [HR' HI']; [by eapply writable_mono|done|].
  split_and!; [done..|]. apply Hk. by etrans.
Qed.

(** The queue's [update] and [insert] write what they are given. *)
Lemma PSafe_update p w : writable w p → Safe (queue_update (has_store deps) p) w.
Proof.
  intros Hw. unfold queue_update. destruct (str_empty (ap_id p)); [apply PSafe_ret|].
  apply PSafe_or_throw.
  - destruct (has_store deps); [|apply PSafe_ret].
    apply (PSafe_write p (StUpdate p) Ret); [constructor|done|intros; apply PSafe_ret].
  - intros [] w' HR; cbn [negb]; [|apply PSafe_ret].
    apply (PSafe_write p); [constructor|by eapply writable_mono|intros; apply PSafe_ret].
Qed.

Lemma PSafe_insert p w : writable w p → Safe (queue_insert (has_store deps) p) w.
Proof.
  intros Hw. unfold queue_insert. destruct (str_empty (ap_id p)); [apply PSafe_ret|].
  apply PSafe_or_throw.
  - destruct (has_store deps); [|apply PSafe_ret].
    apply (PSafe_write p (StInsert p) Ret); [constructor|done|intros; apply PSafe_ret].
  - intros [] w' HR; cbn [negb]; [|apply PSafe_ret].
    apply (PSafe_write p); [constructor|by eapply writable_mono|intros; apply PSafe_ret].
Qed.

(** The rows of a listing come from the table. *)
Lemma list_rows q t r :
  r ∈ listApprovalProposals q t → ∃ id, approval_proposals t !! id = Some r.
Proof.
  unfold listApprovalProposals, page. intros Hr.
  assert (r ∈ std_sort rows_newest (base.filter (λ rec, row_kept q rec = true)
            (iter (approval_proposals t)).*2)) as Hr'.
  { revert Hr. cbv zeta. repeat case_match; rw ?elem_of_nil; try done;
      intros Hr; repeat (apply subseteq_drop in Hr || apply subseteq_take in Hr); done. }
  rw std_sort_perm in Hr'. apply list_elem_of_filter in Hr' as [_ Hr'].
  apply list_elem_of_fmap in Hr' as ([id r'] & -> & Hi%elem_of_iter). by exists id.
Qed.

(** Reload from a listing. *)
Lemma PSafe_reload {X} (k : unit → prog (Cmd A) X) w :
  (∀ w', Rel w w' → Safe (k tt) w') →
  Safe (records ← call (StList all_rows); call (CacheReload records) ≫= k) w.
Proof.
  intros Hk. apply PSafe_call. intros w1 HR1 HI1. cbn [exec fst snd].
  split_and!; [done|done|]. apply PSafe_call. intros w2 HR2 HI2. cbn [exec fst snd].
  assert (Rel w2 (with_cache (reload T (listApprovalProposals all_rows (w_table w1))) [] w2))
    as HR3 by by eexists.
  split_and!; [done| |apply Hk; etrans; [done|by etrans]].
  split; cbn; rw app_nil_r.
  - intros id p. apply reload_known. apply Forall_forall. intros r [id' Hr]%list_rows.
    eapply known_row_mono; [exact HR2|by eapply (ai_rows w1 HI1)].
  - apply (ai_rows w2 HI2).
  - apply (ai_applied w2 HI2).
Qed.

(** A handler that starts with the two guards. *)
Lemma PSafe_guards {B} (b : B) (k : prog (Cmd A) (option B)) w :
  (∀ w', Rel w w' → Safe k w') →
  Safe (enabled ← call CheckEnabled;
        if negb enabled then Ret (Some b)
        else if negb (has_queue deps) then Ret (Some b) else k) w.
Proof.
  intros Hk. apply PSafe_call. intros w' HR HI. cbn [exec fst snd]. split_and!; [done..|].
  destruct (negb _); [apply PSafe_ret|]. destruct (negb _); [apply PSafe_ret|]. by apply Hk.
Qed.

(** What a handler knows of a proposal it has fetched. *)
Lemma PSafe_get {X} id (k : option ApprovalProposal → prog (Cmd A) X) w :
  (∀ w', Rel w w' → Safe (k None) w') →
  (∀ p w', Rel w w' → known (w_writes w') p → Safe (k (Some p)) w') →
  Safe (queue_get id ≫= k) w.
Proof.
  intros Hn Hs. apply PSafe_call. intros w' HR HI. cbn [exec fst snd]. split_and!; [done..|].
  destruct (w_cache w' !! id) as [p|] eqn:Hp; [|by apply Hn].
  apply Hs; [done|by eapply (ai_cache w' HI)].
Qed.

(** Moving a known proposal along the state machine is writable. *)
Lemma known_writable w p p' :
  known (w_writes w) p → ap_id p' = ap_id p → ap_payload_sha256 p' = ap_payload_sha256 p →
  ap_payload p' = ap_payload p →
  (past_review (ap_state p') = true → past_review (ap_state p) = true ∨ ap_state p' = APPROVED) →
  writable w p'.
Proof.
  intros [[(h & Hh & Hst & Hid & Hsha & Hhw & Hhc) Hr] Hwf] Hid' Hsha' Hpay Hpast. split; [|by rw Hpay].
  rw Hid' Hsha'. split.
  - exists h. split_and!; [apply elem_of_app; by left|done..].
  - intros Hp'. destruct (Hpast Hp') as [Hp|Happ].
    + destruct (Hr Hp) as (h' & Hh' & ?). exists h'. split; [apply elem_of_app; by left|done].
    + exists p'. split_and!; [apply elem_of_app; right; by left|done..].
Qed.

Lemma known_rel w w' p : Rel w w' → known (w_writes w) p → known (w_writes w') p.
Proof. by apply known_mono. Qed.

(** [update], then audit and answer. *)
Lemma PSafe_update_audited p act (b c : bool) w :
  writable w p →
  Safe (or_throw (queue_update (has_store deps) p) (λ updated,
    if negb updated then Ret (Some c) else audited T deps p act b)) w.
Proof.
  intros Hw. apply PSafe_or_throw; [by apply PSafe_update|]. intros [] w' HR; cbn [negb].
  - apply PSafe_audited.
  - apply PSafe_ret.
Qed.

Lemma review_proposal_safe id who (why : ApprovalProposal → string) st act (P : ApprovalProposal → Prop)
    `{!∀ p, Decision (P p)} w :
  st = APPROVED ∨ st = REJECTED →
  Safe (enabled ← call CheckEnabled;
    if negb enabled then Ret (Some false)
    else if negb (has_queue deps) then Ret (Some false)
    else
      cur ← queue_get id;
      match cur with
      | None => Ret (Some false)
      | Some cur =>
          if decide (P cur) then
            now ← call NowMs;
            let cur := set_review st who now (why cur) cur in
            or_throw (queue_update (has_store deps) cur) (λ updated,
            if negb updated then Ret (Some false) else audited T deps cur act true)
          else Ret (Some false)
      end) w.
Proof.
  intros Hst. apply PSafe_guards. intros w1 _. apply PSafe_get; [intros; apply PSafe_ret|].
  intros p w2 _ Hk. case_decide; [|apply PSafe_ret].
  apply PSafe_quiet; [by split|]. intros now. apply PSafe_update_audited.
  apply (known_writable _ p); [done..|]. cbn. destruct Hst as [-> | ->]; [by right|done].
Qed.

Lemma PSafe_run_rollback {X} a p (k : bool → prog (Cmd A) X) w :
  (∀ b w', Rel w w' → Safe (k b) w') → Safe (call (RunRollback a p) ≫= k) w.
Proof.
  intros Hk. apply PSafe_call. intros w' HR HI. cbn [exec].
  destruct (apl_rollback a p (w_target w')) as [b t]. cbn [fst snd].
  destruct (inv_shrink w' (with_target t [] w')) as [HR' HI']; [done|done|..].
  - cbn. by rw app_nil_r.
  - done.
  - intros id r Hr. by exists r.
  - split_and!; [done..|]. apply Hk. by etrans.
Qed.

Lemma PSafe_run_apply {X} a p (k : option bool → prog (Cmd A) X) w :
  known (w_writes w) p → ap_state p = APPROVED → verifyPayloadSha256 T p = Some true →
  (∀ b w', Rel w w' → Safe (k b) w') → Safe (call (RunApply a p) ≫= k) w.
Proof.
  intros Hp Hs Hv Hk. apply PSafe_call. intros w' HR HI. cbn [exec].
  destruct (apl_apply a p (w_target w')) as [b t]. cbn [fst snd].
  assert (Rel w' (with_target t [p] w')) as HR' by (unfold Rel; done).
  split_and!; [done| |apply Hk; by etrans]. destruct HI as [Hc Hr Ha]. split; cbn; [done..|].
  intros q [Hq|Hq]%elem_of_app; [by apply Ha|]. apply list_elem_of_singleton in Hq as ->.
  split; [by apply (known_rel w)|done].
Qed.

Lemma apply_safe id w : Safe (apply T deps id) w.
Proof.
  apply PSafe_guards. intros w1 _. apply PSafe_get; [intros; apply PSafe_ret|].
  intros p w2 _ Hk. case_decide as Hs; [|apply PSafe_ret].
  destruct (verifyPayloadSha256 T p) as [[]|] eqn:Hv; [|apply PSafe_audited|apply PSafe_ret].
  apply PSafe_quiet; [by split|]. intros [a|]; [|apply PSafe_audited].
  unfold apply_with, or_throw at 1. apply PSafe_run_apply; [done..|].
  intros [[]|] w3 HR3; [| |apply PSafe_ret].
  - apply PSafe_update_audited. apply (known_writable _ p); [by eapply known_rel|done..|].
    rw Hs. by left.
  - apply PSafe_run_rollback. intros [] w4 HR4; cbn [negb]; [|apply PSafe_ret].
    apply PSafe_or_throw; [|intros; apply PSafe_audited]. apply PSafe_update.
    apply (known_writable _ p); [eapply known_rel; [|done]; by etrans|done..|]. rw Hs. by left.
Qed.

Lemma rollback_safe id w : Safe (rollback T deps id) w.
Proof.
  apply PSafe_guards. intros w1 _. apply PSafe_get; [intros; apply PSafe_ret|].
  intros p w2 _ Hk. case_decide as Hs; [|apply PSafe_ret].
  apply PSafe_quiet; [by split|]. intros [a|]; [|apply PSafe_audited].
  apply PSafe_run_rollback. intros [] w3 HR3; cbn [negb]; [|apply PSafe_ret].
  apply PSafe_update_audited. apply (known_writable _ p); [by eapply known_rel|done..|].
  rw Hs. by left.
Qed.

Lemma propose_safe p w : proposal_wf p → Safe (propose T deps p) w.
Proof.
  intros [Hwf _]. apply PSafe_guards. intros w1 _.
  apply PSafe_quiet; [by destruct (str_empty _)|]. intros id.
  apply PSafe_quiet; [by destruct (_ =? _)|]. intros now. unfold propose_completed.
  destruct (negb _); [apply PSafe_ret|]. cbn [ap_payload complete].
  destruct (computePayloadSha256 T (ap_payload p)) as [sha|] eqn:Hsha; [|apply PSafe_ret].
  apply PSafe_or_throw.
  - apply PSafe_insert. split; [|done]. split; [|done].
    match goal with |- context [w_writes w1 ++ [?q]] => exists q end.
    split_and!; [apply elem_of_app; right; by left|done..].
  - intros x w' _. destruct (str_empty x); [apply PSafe_ret|apply PSafe_audited].
Qed.

Lemma prune_safe days w : Safe (queue_prune (has_store deps) days) w.
Proof.
  unfold queue_prune. destruct (days <=? 0); [apply PSafe_ret|]. destruct (has_store deps).
  - apply PSafe_call. intros w' HR HI. cbn [exec].
    destruct (pruneApprovalProposals (w_now w') days (w_table w')) as [n t] eqn:E. cbn [fst snd].
    destruct (inv_shrink w' (with_table t [] w')) as [HR' HI']; [done| |done|done| |].
    + cbn. by rw app_nil_r.
    + cbn. intros id r Hr. exists r. split; [|done]. revert E.
      unfold pruneApprovalProposals, expire. case_match; intros E; simplify_eq; [done|].
      cbn in Hr. by apply map_lookup_filter_Some in Hr as [? _].
    + split_and!; [done..|]. apply PSafe_reload. intros; apply PSafe_ret.
  - apply PSafe_quiet; [by split|]. intros now. apply (PSafe_call _ Ret). intros w' HR HI.
    cbn [exec]. destruct (expire _ _ _) as [n c] eqn:E. cbn [fst snd].
    destruct (inv_shrink w' (with_cache c [] w')) as [HR' HI']; [done| |done| | |].
    + cbn. by rw app_nil_r.
    + cbn. intros id p Hp. unfold expire in E. simplify_eq.
      by apply map_lookup_filter_Some in Hp as [? _].
    + intros id r Hr. by exists r.
    + split_and!; [done..|apply PSafe_ret].
Qed.

Lemma handle_proposal_safe req w : request_wf req → Safe (handle T deps req) w.
Proof.
  destruct req as [p|id who|id who why|id|id|src a| |days]; cbn [handle request_wf]; intros Hwf.
  - apply PSafe_or_throw; [by apply propose_safe|intros; apply PSafe_ret].
  - apply (review_proposal_safe id who ap_reject_reason APPROVED "approve" (λ p, ap_state p = PROPOSED)).
    by left.
  - apply (review_proposal_safe id who (λ _, why) REJECTED "reject"
      (λ p, ap_state p = PROPOSED ∨ ap_state p = APPROVED)). by right.
  - apply apply_safe.
  - apply rollback_safe.
  - apply PSafe_quiet; [by split|]. intros; apply PSafe_ret.
  - unfold queue_initialize. destruct (has_store deps); cbn [negb].
    + apply PSafe_then; [|intros; apply PSafe_ret]. apply PSafe_reload. intros; apply PSafe_ret.
    + apply PSafe_then; [|intros; apply PSafe_ret].
      apply PSafe_call. intros w' HR HI. cbn [exec fst snd].
      destruct (inv_shrink w' (with_cache (reload T []) [] w')) as [HR' HI']; [done| |done| | |].
      * cbn. by rw app_nil_r.
      * cbn. intros id p. by rw lookup_empty.
      * intros id r Hr. by exists r.
      * split_and!; [done..|apply PSafe_ret].
  - apply PSafe_then; [apply prune_safe|intros; apply PSafe_ret].
Qed.

(** Between two calls, anything outside may move the clock, change the
    appliers or the kill switch, and tamper with the table: delete rows, or
    rewrite any column but the identifier, the state and the hash. *)
Definition tamper (w w' : World A) : Prop :=
  w_writes w' = w_writes w ∧ w_applied w' = w_applied w ∧ w_cache w' = w_cache w ∧
  ∀ id r, approval_proposals (w_table w') !! id = Some r →
    ∃ r0, approval_proposals (w_table w) !! id = Some r0 ∧ row_id r0 = row_id r ∧
          row_state r0 = row_state r ∧ row_payload_sha256 r0 = row_payload_sha256 r.

Definition is_request (p : prog (Cmd A) (option bool)) : Prop :=
  ∃ req, request_wf req ∧ p = handle T deps req.

Lemma workflow_inv ts w w' :
  ap_inv w → rtc (pool_step (exec T) tamper is_request) ([], w) (ts, w') → ap_inv w'.
Proof.
  intros HI Hsteps.
  destruct (pool_safe (exec T) Rel Rel ap_inv (λ _ _, True) tamper is_request [] w ts w')
    as (_ & HI' & _); [done|intros w1; reflexivity| | |done..].
  - intros w1 w2 (Hw & Ha & Hc & Hr) HI1. apply inv_shrink; [done..| |done].
    intros id p. by rw Hc.
  - intros p w1 (req & Hwf & ->). by apply handle_proposal_safe.
Qed.

(** Two payloads with the same pinned hash. *)
Lemma pinned_payload v v' sha :
  json_wf v → json_wf v' → computePayloadSha256 T v = Some sha →
  computePayloadSha256 T v' = Some sha → v = v' ∨ Audit.collision (sha256 T).
Proof.
  unfold computePayloadSha256. intros Hw Hw'. rw !canonicalise_id //.
  intros (s & Hs & Hd)%fmap_Some (s' & Hs' & Hd')%fmap_Some.
  destruct (decide (s = s')) as [<-|Hne]; [left|right; exists s, s'; split; congruence].
  pose proof (parse_dump _ _ Ht v s Hw Hs). pose proof (parse_dump _ _ Ht v' s Hw' Hs').
  congruence.
Qed.

End concurrent.

(** Requests served one after the other. *)
Definition serve_all {A} `{UnorderedIter} (T : Text) (deps : Deps) (reqs : list Request)
    (w : World A) : World A :=
  foldl (λ w req, (run (exec T) (handle T deps req) w).2) w reqs.

Section sequences.
Context {A : Type} `{UnorderedIter} (T : Text) (Ht : JsonText (dump T) (parse T)) (deps : Deps).

Lemma next_queue_size req (w : World A) :
  (size (next_queue T deps req w) <= S (size (w_cache w)))%nat.
Proof.
  assert (∀ id p, (size (<[id := p]> (w_cache w)) <= S (size (w_cache w)))%nat) as Hins.
  { intros id p. rw map_size_insert. destruct (w_cache w !! id); simpl; lia. }
  destruct req; cbn [next_queue]; repeat case_match; try apply Hins; try lia.
  - rw map_size_empty. lia.
  - etrans; [|by apply Nat.le_succ_diag_r]. rw -!size_dom. apply subseteq_size, dom_filter_subseteq.
Qed.

Lemma serve_all_ok reqs (w : World A) :
  Forall request_wf reqs → queue_ok T (has_store deps) w →
  (size (w_cache w) + length reqs <= Z.to_nat 1000000)%nat →
  queue_ok T (has_store deps) (serve_all T deps reqs w) ∧
  (size (w_cache (serve_all T deps reqs w)) <= Z.to_nat 1000000)%nat.
Proof.
  intros Hwf. revert w. induction Hwf as [|req reqs Hreq _ IH]; intros w Hok Hsize.
  { split; [done|]. simpl in *. lia. }
  destruct (handle_serves T deps Ht req w) as (r & w' & E & Hok' & Hc & _); [done|done|lia|].
  pose proof (next_queue_size req w) as Hgrow. simpl in Hsize.
  change (serve_all T deps (req :: reqs) w) with
    (serve_all T deps reqs (run (exec T) (handle T deps req) w).2).
  rw E. apply IH; [done|]. rw Hc. lia.
Qed.

End sequences.

(** An empty queue. *)
Definition fresh {A} (target : A) (ids : nat → string) : World A :=
  {| w_enabled := true; w_now := 5000; w_stamp := "t"; w_ids := ids; w_next_id := 0;
     w_table := {| at_initialized := true; approval_proposals := ∅ |}; w_cache := ∅;
     w_appliers := λ _, None; w_target := target; w_audit := Audit.fresh_logger;
     w_writes := []; w_applied := [] |}.

Lemma fresh_ok {A} T hs (target : A) ids : queue_ok T hs (fresh target ids).
Proof. split; cbn; intros *; rw ?lookup_empty ?omap_empty; done. Qed.

(** ** Properties *)

(** C14. In any interleaving of requests, restarts and prunings, while an
    intruder rewrites the stored payloads, every proposal handed to an
    applier was proposed and approved under the same identifier and hash,
    and carries the payload that was proposed, or SHA-256 has collided. *)
Theorem approval_apply_integrity {A} `{UnorderedIter} T deps (w0 w : World A) ts p :
  JsonText (dump T) (parse T) →
  w_cache w0 = ∅ → approval_proposals (w_table w0) = ∅ → w_applied w0 = [] →
  rtc (pool_step (exec T) tamper (is_request T deps)) ([], w0) (ts, w) →
  p ∈ w_applied w →
  ∃ h0 h1, h0 ∈ w_writes w ∧ h1 ∈ w_writes w ∧
    ap_state h0 = PROPOSED ∧ ap_state h1 = APPROVED ∧
    ap_id h0 = ap_id p ∧ ap_id h1 = ap_id p ∧
    ap_payload_sha256 h0 = ap_payload_sha256 p ∧ ap_payload_sha256 h1 = ap_payload_sha256 p ∧
    (ap_payload p = ap_payload h0 ∨ Audit.collision (sha256 T)).
Proof.
  intros Ht Hc0 Hr0 Ha0 Hsteps Hp.
  assert (ap_inv T w0) as HI0.
  { split; intros *; rw ?Hc0 ?Hr0 ?Ha0 ?lookup_empty ?elem_of_nil; done. }
  pose proof (workflow_inv T deps Ht ts w0 w HI0 Hsteps) as HI.
  destruct (ai_applied T w HI p Hp) as ([[(h & Hh & Hst & Hid & Hsha & Hw & Hc) Hr] Hwf] & Hs & Hv).
  rw Hs in Hr. destruct (Hr eq_refl) as (h' & Hh' & Hst' & Hid' & Hsha').
  exists h, h'. do 8 (split; [done|]). unfold verifyPayloadSha256 in Hv.
  destruct (str_empty _); [done|].
  destruct (computePayloadSha256 T (ap_payload p)) as [s|] eqn:Hcp; [|done].
  simpl in Hv. injection Hv as Heq%bool_decide_eq_true_1.
  apply (pinned_payload T Ht _ _ (ap_payload_sha256 p)); congruence.
Qed.

(** C13. Alone, every request does what the five-state machine says: the
    queue becomes the abstract [next_queue], the cache and the table stay in
    agreement, the answer is positive only for an accepted request (and for
    one it is missing only if auditing threw), and each proposal is
    unchanged, new, or has taken one documented transition with its payload
    and hash kept. *)
Theorem approval_lifecycle {A} `{UnorderedIter} T deps req (w : World A) :
  JsonText (dump T) (parse T) → request_wf req → queue_ok T (has_store deps) w →
  (size (w_cache w) <= Z.to_nat 1000000)%nat →
  let '(r, w') := run (exec T) (handle T deps req) w in
  queue_ok T (has_store deps) w' ∧ w_cache w' = next_queue T deps req w ∧
  (r = Some true → accepted T deps req w) ∧
  (accepted T deps req w → r = Some true ∨ r = None) ∧
  ∀ id p', w_cache w' !! id = Some p' →
    w_cache w !! id = Some p' ∨ (w_cache w !! id = None ∧ ap_state p' = PROPOSED) ∨
    ∃ p, w_cache w !! id = Some p ∧ approval_edge (ap_state p) (ap_state p') ∧
         same_proposal p p'.
Proof.
  intros Ht Hwf Hok Hsize.
  destruct (handle_serves T deps Ht req w) as (r & w' & -> & Hok' & Hc & Hr); [done..|].
  split_and!; [done|done|apply Hr..|]. intros id p'. rw Hc. by apply next_queue_edges.
Qed.

(** Nothing is lost at a restart: after any sequence of up to a million
    requests on a store-backed queue, loading the table into an empty cache
    gives back exactly the proposals the queue held. *)
Theorem approval_restart {A} `{UnorderedIter} T deps reqs (target : A) ids :
  JsonText (dump T) (parse T) → has_store deps = true → Forall request_wf reqs →
  (length reqs <= Z.to_nat 1000000)%nat →
  let w := serve_all T deps reqs (fresh target ids) in
  w_cache (run (exec T) (queue_initialize (has_store deps)) (with_cache ∅ [] w)).2 = w_cache w.
Proof.
  intros Ht Hs Hwf Hlen w.
  destruct (serve_all_ok T Ht deps reqs (fresh target ids)) as [Hok Hsize]; [done|apply fresh_ok|done|].
  destruct (run_initialize T Ht (has_store deps) (with_cache ∅ [] w) w) as (w' & -> & _ & Hc);
    [done..|]. by rw Hc Hs.
Qed.

(** ** A concrete workflow *)

Definition toy_trace : json :=
  JObject [("algorithm_name", JString "ucb"); ("input_hash_sha256", JString "00");
           ("proposed_at_ms", JInteger 4000); ("source_id", JString "bandit-1")].

(** The texts of the two values of the example. *)
Definition toy_table : list (json * string) := [(JObject [], "{}"); (toy_trace, "trace")].
Definition toy_dump : json → option string := table_dump toy_table.
Definition toy_parse : string → option json := table_parse toy_table.

Definition toy_text : Text :=
  {| dump := toy_dump; parse := toy_parse; sha256 := Audit.toy_digest |}.

Lemma toy_trace_wf : json_wf toy_trace.
Proof. split; [|done]. repeat constructor. Qed.

Lemma toy_text_ok : JsonText toy_dump toy_parse.
Proof.
  apply table_text; [apply NoDup_cons; split; [set_solver|apply NoDup_singleton]|].
  repeat constructor; try done; apply toy_trace_wf.
Qed.

(** Counts its runs. *)
Definition toy_applier : Applier nat :=
  {| apl_apply := λ _ n, (Some true, S n); apl_rollback := λ _ n, (true, Nat.pred n) |}.

Definition toy_deps : Deps :=
  {| has_queue := true; has_store := true; has_audit := false; mask := λ s, s;
     audit_store := false; encryption := None |}.

Definition toy_proposal : ApprovalProposal :=
  {| ap_id := "p1"; ap_source := BanditRouter; ap_subject := "shift traffic";
     ap_payload := JObject []; ap_decision_trace := toy_trace; ap_proposed_at_ms := 0;
     ap_proposer_user_id := ""; ap_state := PROPOSED; ap_reviewer_user_id := "";
     ap_reviewed_at_ms := 0; ap_reject_reason := ""; ap_payload_sha256 := "" |}.

Lemma toy_proposal_wf : proposal_wf toy_proposal.
Proof. split; [split; [constructor|done]|apply toy_trace_wf]. Qed.

Definition toy_world : World nat := fresh 0%nat (λ n, "x").

Definition toy_requests : list (Request (A := nat)) :=
  [Register BanditRouter toy_applier; Propose toy_proposal; Approve "p1" "ann";
   Apply "p1"; Apply "p1"].

Definition toy_run (sched : list nat) : list (prog (Cmd nat) (option bool)) * World nat :=
  run_sched (exec toy_text) sched (handle toy_text toy_deps <$> toy_requests) toy_world.

(** Register, propose and approve, one after the other. *)
Definition toy_setup : list nat := replicate 9 0%nat ++ replicate 9 1%nat ++ replicate 9 2%nat.

Lemma toy_requests_wf : Forall request_wf toy_requests.
Proof. repeat constructor; apply toy_trace_wf. Qed.

Lemma toy_steps sched :
  rtc (pool_step (exec toy_text) tamper (is_request toy_text toy_deps)) ([], toy_world)
    (toy_run sched).
Proof.
  apply run_sched_spawned, Forall_forall. intros p (req & -> & Hreq)%list_elem_of_fmap.
  exists req. split; [|done]. by eapply Forall_forall; [apply toy_requests_wf|].
Qed.

Lemma approval_apply_integrity_witness :
  ∃ p, p ∈ w_applied (toy_run (toy_setup ++ replicate 9 3%nat)).2 ∧ ap_state p = APPROVED ∧
  ∃ h0, h0 ∈ w_writes (toy_run (toy_setup ++ replicate 9 3%nat)).2 ∧ ap_state h0 = PROPOSED ∧
        ap_payload_sha256 h0 = ap_payload_sha256 p.
Proof.
  eexists. split; [vm_compute; by left|]. split; [reflexivity|].
  edestruct (approval_apply_integrity toy_text toy_deps toy_world
    (toy_run (toy_setup ++ replicate 9 3%nat)).2 (toy_run (toy_setup ++ replicate 9 3%nat)).1)
    as (h0 & _ & Hin & _ & Hs & _ & _ & _ & Hsha & _);
    [apply toy_text_ok|reflexivity|reflexivity|reflexivity| | |exists h0; split_and!; eassumption].
  - rw -surjective_pairing. apply toy_steps.
  - vm_compute. by left.
Defined.

Lemma approval_lifecycle_witness :
  w_cache (run (exec toy_text) (handle toy_text toy_deps (Propose toy_proposal)) toy_world).2 !! "p1"
    ≠ None ∧
  w_cache (run (exec toy_text) (handle toy_text toy_deps (Propose toy_proposal)) toy_world).2 =
    next_queue toy_text toy_deps (Propose toy_proposal) toy_world.
Proof.
  split; [vm_compute; congruence|].
  pose proof (approval_lifecycle toy_text toy_deps (Propose toy_proposal) toy_world toy_text_ok
    toy_proposal_wf (fresh_ok toy_text true _ _)) as Hl.
  destruct (run _ _ toy_world) as [r w']. apply Hl. cbn. rw map_size_empty. lia.
Defined.

Lemma approval_restart_witness :
  ap_state <$> w_cache (serve_all toy_text toy_deps toy_requests toy_world) !! "p1" = Some APPLIED ∧
  w_cache (run (exec toy_text) (queue_initialize true)
    (with_cache ∅ [] (serve_all toy_text toy_deps toy_requests toy_world))).2 =
  w_cache (serve_all toy_text toy_deps toy_requests toy_world).
Proof.
  split; [by vm_compute|].
  apply (approval_restart toy_text toy_deps toy_requests 0%nat (λ n, "x") toy_text_ok);
    [reflexivity|apply toy_requests_wf|]. cbn. lia.
Defined.

(** Two concurrent [apply] calls on one approved proposal both pass the
    state check and both run the applier: the change is applied twice, and
    both answer [true]. *)
Theorem approval_double_apply :
  let '(ts, w) := toy_run (toy_setup ++ [3; 3; 4; 4]%nat ++ replicate 9 3%nat ++ replicate 9 4%nat) in
  w_target w = 2%nat ∧ length (w_applied w) = 2%nat ∧
  (∃ r3 r4, ts !! 3%nat = Some (Ret r3) ∧ ts !! 4%nat = Some (Ret r4) ∧
            r3 = Some true ∧ r4 = Some true).
Proof. vm_compute. split_and!; [done|done|]. by eexists _, _. Qed.

End ApprovalWorkflow.
