(* ===== verification/Unicode.v ===== *)
(** * Unicode: the inbound normaliser

    Models [src/src/guardrail/inbound/unicode_normalizer.cpp]: the UTF-8
    decoder and encoder, the table of look-alike characters, [normalize],
    [stripZeroWidth] and [hasConfusables].  Text is a list of bytes; a pointer
    into it is the list that remains. *)
From S2P Require Import Prelude.
Local Open Scope Z_scope.

Module Unicode.

(** ** The decoder and the encoder *)

(** The loop over the continuation bytes. *)
Fixpoint decode_rest (remaining : nat) (cp : Z) (p : list Z) : Z * list Z :=
  match remaining with
  | O => (cp, p)
  | S remaining =>
      match p with
      | b :: p' =>
          if negb (Z.land b 0xC0 =? 0x80) then (0xFFFD, p)
          else decode_rest remaining (Z.lor (Z.shiftl cp 6) (Z.land b 0x3F)) p'
      | [] => (0xFFFD, [])
      end
  end.

(** [decodeUtf8] on the bytes [byte :: p]. *)
Definition decodeUtf8 (byte : Z) (p : list Z) : Z * list Z :=
  if byte <? 0x80 then (byte, p)
  else if Z.land byte 0xE0 =? 0xC0 then decode_rest 1 (Z.land byte 0x1F) p
  else if Z.land byte 0xF0 =? 0xE0 then decode_rest 2 (Z.land byte 0x0F) p
  else if Z.land byte 0xF8 =? 0xF0 then decode_rest 3 (Z.land byte 0x07) p
  else (0xFFFD, p).

Definition encodeUtf8 (cp : Z) : list Z :=
  if cp <? 0x80 then [cp]
  else if cp <? 0x800 then
    [Z.lor 0xC0 (Z.shiftr cp 6); Z.lor 0x80 (Z.land cp 0x3F)]
  else if cp <? 0x10000 then
    [Z.lor 0xE0 (Z.shiftr cp 12); Z.lor 0x80 (Z.land (Z.shiftr cp 6) 0x3F);
     Z.lor 0x80 (Z.land cp 0x3F)]
  else if cp <? 0x110000 then
    [Z.lor 0xF0 (Z.shiftr cp 18); Z.lor 0x80 (Z.land (Z.shiftr cp 12) 0x3F);
     Z.lor 0x80 (Z.land (Z.shiftr cp 6) 0x3F); Z.lor 0x80 (Z.land cp 0x3F)]
  else [].

(** ** The tables *)

(** The single entries of the constructor: look-alike and ASCII code. *)
Definition confusable_pairs : list (Z * Z) :=
  [(0x0410, 65); (0x0412, 66); (0x0415, 69); (0x041A, 75); (0x041C, 77); (0x041D, 72);
   (0x041E, 79); (0x0420, 80); (0x0421, 67); (0x0422, 84); (0x0423, 89); (0x0425, 88);
   (0x0430, 97); (0x0435, 101); (0x043E, 111); (0x0440, 112); (0x0441, 99); (0x0443, 121);
   (0x0445, 120);
   (0x0391, 65); (0x0392, 66); (0x0395, 69); (0x0397, 72); (0x0399, 73); (0x039A, 75);
   (0x039C, 77); (0x039D, 78); (0x039F, 79); (0x03A1, 80); (0x03A4, 84); (0x03A5, 89);
   (0x03A7, 88); (0x03B1, 97); (0x03BF, 111)].

(** [mapping_] as the constructor fills it: the fullwidth range, the pairs,
    mathematical bold capitals and small letters. *)
Definition mapping (cp : Z) : option Z :=
  if (0xFF01 <=? cp) && (cp <=? 0xFF5E) then Some (cp - 0xFF01 + 0x21)
  else match list_find (λ e, e.1 = cp) confusable_pairs with
  | Some (_, e) => Some e.2
  | None =>
      if (0x1D400 <=? cp) && (cp <? 0x1D41A) then Some (65 + (cp - 0x1D400))
      else if (0x1D41A <=? cp) && (cp <? 0x1D434) then Some (97 + (cp - 0x1D41A))
      else None
  end.

Definition isZeroWidth (cp : Z) : bool :=
  bool_decide (cp ∈ [0x200B; 0x200C; 0x200D; 0xFEFF; 0x00AD; 0x200E; 0x200F; 0x2060;
                     0x2061; 0x2062; 0x2063; 0x2064]).

Definition isConfusable (cp : Z) : bool :=
  isZeroWidth cp ||
  ((0xFF01 <=? cp) && (cp <=? 0xFF5E)) ||
  bool_decide (cp ∈ [0x0410; 0x0412; 0x0415; 0x041A; 0x041C; 0x041D; 0x041E; 0x0420;
                     0x0421; 0x0422; 0x0423; 0x0425]) ||
  bool_decide (cp ∈ [0x0430; 0x0435; 0x043E; 0x0440; 0x0441; 0x0443; 0x0445]) ||
  bool_decide (cp ∈ [0x0391; 0x0392; 0x0395; 0x0397; 0x0399; 0x039A; 0x039C; 0x039D;
                     0x039F; 0x03A1; 0x03A4; 0x03A5; 0x03A7]) ||
  bool_decide (cp ∈ [0x03B1; 0x03BF]) ||
  ((0x1D400 <=? cp) && (cp <=? 0x1D433)).

Definition mapCodepoint (cp : Z) : Z := default cp (mapping cp).

(** ** The passes *)

(** The [while (p < end)] loop: the code points with the bytes each was read
    from.  Each turn consumes a byte, so the length is fuel enough. *)
Fixpoint decode_loop (fuel : nat) (p : list Z) : list (Z * list Z) :=
  match fuel, p with
  | S fuel, b :: p' =>
      let '(cp, q) := decodeUtf8 b p' in
      (cp, take (length p - length q) p) :: decode_loop fuel q
  | _, _ => []
  end.

Definition decode (p : list Z) : list (Z * list Z) := decode_loop (length p) p.

Definition normalize (input : list Z) : list Z :=
  cps ← decode input;
  if isZeroWidth cps.1 then [] else encodeUtf8 (mapCodepoint cps.1).

(** The number removed and the new text. *)
Definition stripZeroWidth (text : list Z) : nat * list Z :=
  let l := decode text in
  (length (base.filter (λ e, isZeroWidth e.1 = true) l),
   mjoin (base.filter (λ e, isZeroWidth e.1 = false) l).*2).

Definition hasConfusables (text : list Z) : bool :=
  existsb (λ e, isConfusable e.1) (decode text).

(** ** Lemmas *)

(** A property of every byte value below [n], by evaluation. *)
Lemma forallb_below (P : Z → bool) (n : Z) x :
  forallb P (seqZ 0 n) = true → 0 <= x < n → P x = true.
Proof.
  intros Hf Hx. eapply forallb_forall in Hf; [exact Hf|].
  apply list_elem_of_In, elem_of_seqZ. lia.
Qed.

Lemma lor_shift6 a b : 0 <= a → 0 <= b < 64 → Z.lor (Z.shiftl a 6) b = a * 64 + b.
Proof.
  intros Ha Hb. assert (Z.land (Z.shiftl a 6) b = 0) as Hland.
  { apply Z.bits_inj'. intros n Hn. rw Z.land_spec Z.bits_0.
    destruct (decide (n < 6)); [by rw Z.shiftl_spec_low|].
    assert (b = b mod 2 ^ 6) as -> by (rw Z.mod_small; lia).
    rw Z.mod_pow2_bits_high; [by rw andb_false_r|lia]. }
  rw -Z.lxor_lor // -Z.add_nocarry_lxor // Z.shiftl_mul_pow2 //.
Qed.

Lemma low6 x : Z.land x 0x3F = x mod 64.
Proof. apply (Z.land_ones x 6). lia. Qed.

Lemma shr x n : 0 <= n → Z.shiftr x n = x / 2 ^ n.
Proof. apply Z.shiftr_div_pow2. Qed.

(** A continuation byte and the three kinds of lead byte. *)
Lemma cont_byte y :
  0 <= y < 64 → Z.land (Z.lor 0x80 y) 0xC0 = 0x80 ∧ Z.land (Z.lor 0x80 y) 0x3F = y.
Proof.
  intros Hy. pose proof (forallb_below (λ y, (Z.land (Z.lor 0x80 y) 0xC0 =? 0x80) &&
    (Z.land (Z.lor 0x80 y) 0x3F =? y)) 64 y) as H. bools. apply H; [by vm_compute|done].
Qed.

Lemma decode_cont remaining cp y p :
  0 <= cp → 0 <= y < 64 →
  decode_rest (S remaining) cp (Z.lor 0x80 y :: p) = decode_rest remaining (cp * 64 + y) p.
Proof.
  intros Hcp Hy. destruct (cont_byte y Hy) as [H1 H2]. cbn [decode_rest].
  rw H1 H2 Z.eqb_refl. cbn [negb]. by rw lor_shift6.
Qed.

Definition lead_ok (k : nat) (x : Z) : bool :=
  match k with
  | 1%nat => (Z.lor 0xC0 x <? 0x80) || negb (Z.land (Z.lor 0xC0 x) 0xE0 =? 0xC0) ||
       negb (Z.land (Z.lor 0xC0 x) 0x1F =? x)
  | 2%nat => (Z.lor 0xE0 x <? 0x80) || (Z.land (Z.lor 0xE0 x) 0xE0 =? 0xC0) ||
       negb (Z.land (Z.lor 0xE0 x) 0xF0 =? 0xE0) || negb (Z.land (Z.lor 0xE0 x) 0x0F =? x)
  | _ => (Z.lor 0xF0 x <? 0x80) || (Z.land (Z.lor 0xF0 x) 0xE0 =? 0xC0) ||
       (Z.land (Z.lor 0xF0 x) 0xF0 =? 0xE0) || negb (Z.land (Z.lor 0xF0 x) 0xF8 =? 0xF0) ||
       negb (Z.land (Z.lor 0xF0 x) 0x07 =? x)
  end.

Lemma lead1 x p : 0 <= x < 32 → decodeUtf8 (Z.lor 0xC0 x) p = decode_rest 1 x p.
Proof.
  intros Hx. pose proof (forallb_below (λ x, negb (lead_ok 1 x)) 32 x) as H.
  unfold decodeUtf8, lead_ok in *. bools. destruct H as [[? ?] ?]; [by vm_compute|done|].
  rw (proj2 (Z.ltb_ge _ _)) // (proj2 (Z.eqb_eq _ 0xC0)) //. by f_equal.
Qed.

Lemma lead2 x p : 0 <= x < 16 → decodeUtf8 (Z.lor 0xE0 x) p = decode_rest 2 x p.
Proof.
  intros Hx. pose proof (forallb_below (λ x, negb (lead_ok 2 x)) 16 x) as H.
  unfold decodeUtf8, lead_ok in *. bools. destruct H as [[[? ?] ?] ?]; [by vm_compute|done|].
  rw (proj2 (Z.ltb_ge _ _)) // (proj2 (Z.eqb_neq _ 0xC0)) // (proj2 (Z.eqb_eq _ 0xE0)) //.
  by f_equal.
Qed.

Lemma lead3 x p : 0 <= x < 8 → decodeUtf8 (Z.lor 0xF0 x) p = decode_rest 3 x p.
Proof.
  intros Hx. pose proof (forallb_below (λ x, negb (lead_ok 3 x)) 8 x) as H.
  unfold decodeUtf8, lead_ok in *. bools.
  destruct H as [[[[? ?] ?] ?] ?]; [by vm_compute|done|].
  rw (proj2 (Z.ltb_ge _ _)) // (proj2 (Z.eqb_neq _ 0xC0)) // (proj2 (Z.eqb_neq _ 0xE0)) //.
  rw (proj2 (Z.eqb_eq _ 0xF0)) //. by f_equal.
Qed.

(** Encoding a code point and decoding what follows gives it back. *)
Lemma decode_encode cp rest :
  0 <= cp < 0x110000 →
  ∃ b p, encodeUtf8 cp = b :: p ∧ decodeUtf8 b (p ++ rest) = (cp, rest).
Proof.
  intros Hcp. unfold encodeUtf8. rw !low6 !shr //.
  pose proof (Z.mod_pos_bound cp 64). pose proof (Z.mod_pos_bound (cp / 2 ^ 6) 64).
  pose proof (Z.mod_pos_bound (cp / 2 ^ 12) 64).
  destruct (Z.ltb_spec cp 0x80); [|destruct (Z.ltb_spec cp 0x800);
    [|destruct (Z.ltb_spec cp 0x10000); [|destruct (Z.ltb_spec cp 0x110000); [|lia]]]];
    eexists _, _; (split; [reflexivity|]); cbn [app].
  - unfold decodeUtf8. destruct (Z.ltb_spec cp 0x80); [done|lia].
  - rw lead1; [|Z.to_euclidean_division_equations; lia].
    rw decode_cont; [|apply Z.div_pos; lia|lia]. cbn [decode_rest].
    f_equal. Z.to_euclidean_division_equations; lia.
  - rw lead2; [|Z.to_euclidean_division_equations; lia].
    rw decode_cont; [|apply Z.div_pos; lia|lia].
    rw decode_cont; [|Z.to_euclidean_division_equations; lia|lia]. cbn [decode_rest].
    f_equal. Z.to_euclidean_division_equations; lia.
  - rw lead3; [|Z.to_euclidean_division_equations; lia].
    rw decode_cont; [|apply Z.div_pos; lia|lia].
    rw decode_cont; [|Z.to_euclidean_division_equations; lia|lia].
    rw decode_cont; [|Z.to_euclidean_division_equations; lia|lia]. cbn [decode_rest].
    f_equal. Z.to_euclidean_division_equations; lia.
Qed.

(** ** The loop *)

Lemma decode_rest_length n cp p : (length (decode_rest n cp p).2 <= length p)%nat.
Proof.
  revert cp p. induction n as [|n IH]; intros cp p; cbn; [done|].
  destruct p as [|b p]; cbn; [done|]. destruct (negb _); cbn; [lia|]. specialize (IH (Z.lor (Z.shiftl cp 6) (Z.land b 63)) p). lia.
Qed.

Lemma decodeUtf8_length b p : (length (decodeUtf8 b p).2 <= length p)%nat.
Proof.
  unfold decodeUtf8. repeat case_match; try apply decode_rest_length; done.
Qed.

Lemma decode_fuel fuel fuel' p :
  (length p <= fuel)%nat → (length p <= fuel')%nat → decode_loop fuel p = decode_loop fuel' p.
Proof.
  revert fuel' p. induction fuel as [|fuel IH]; intros [|fuel'] [|b p] Hf Hf'; cbn in *; try done; try lia.
  pose proof (decodeUtf8_length b p) as Hl. destruct (decodeUtf8 b p) as [cp q].
  f_equal. apply IH; cbn in *; lia.
Qed.

(** A text made of encoded code points decodes to them. *)
Lemma decode_encoded cps :
  Forall (λ cp, 0 <= cp < 0x110000) cps →
  decode (mjoin (encodeUtf8 <$> cps)) = (λ cp, (cp, encodeUtf8 cp)) <$> cps.
Proof.
  unfold decode. induction 1 as [|cp cps Hcp _ IH]; [done|]. rw !fmap_cons. cbn [mjoin list_join].
  set (rest := mjoin (encodeUtf8 <$> cps)) in *.
  destruct (decode_encode cp rest Hcp) as (b & p & He & Hd). rw He. cbn [app length decode_loop].
  rw Hd. f_equal.
  - f_equal. rw length_app.
    rw (_ : (S (length p + length rest) - length rest)%nat = S (length p)); [|lia].
    cbn. by rw take_app_length.
  - rw -IH. apply decode_fuel; rw ?length_app; lia.
Qed.

Lemma decode_rest_nonneg n cp p : 0 <= cp → 0 <= (decode_rest n cp p).1.
Proof.
  revert cp p. induction n as [|n IH]; intros cp p Hcp; cbn; [done|].
  destruct p as [|b p]; cbn; [done|]. destruct (negb _); cbn; [done|]. apply IH.
  apply Z.lor_nonneg. split; [by apply Z.shiftl_nonneg|]. apply Z.land_nonneg. by right.
Qed.

Lemma decode_nonneg p : Forall (λ b, 0 <= b) p → Forall (λ e, 0 <= e.1) (decode p).
Proof.
  unfold decode. generalize (length p). intros fuel Hp.
  assert (∀ n cp q, Forall (λ b, 0 <= b) q → Forall (λ b, 0 <= b) (decode_rest n cp q).2) as Hrest.
  { intros n. induction n as [|n IH]; intros cp q Hq; cbn; [done|].
    destruct q as [|b q]; cbn; [done|]. destruct (negb _); cbn; [done|].
    apply IH. by apply Forall_cons in Hq as [_ ?]. }
  revert p Hp. induction fuel as [|fuel IH]; intros [|b p] Hp; cbn; try done.
  apply Forall_cons in Hp as [Hb Hp].
  assert (0 <= (decodeUtf8 b p).1 ∧ Forall (λ b, 0 <= b) (decodeUtf8 b p).2) as [H1 H2].
  { assert (∀ n m, 0 <= m → 0 <= (decode_rest n (Z.land b m) p).1) as Hn.
    { intros n m Hm. apply decode_rest_nonneg, Z.land_nonneg. by right. }
    unfold decodeUtf8. repeat case_match; split; try done; by (apply Hn || apply Hrest). }
  destruct (decodeUtf8 b p) as [cp q]. constructor; [done|by apply IH].
Qed.

(** ** The tables agree *)

Lemma confusable_pairs_ascii :
  Forall (λ e, 0x21 <= e.2 <= 0x7E) confusable_pairs.
Proof. repeat (constructor; [cbn; lia|]). constructor. Qed.

Lemma mapping_ascii cp v : mapping cp = Some v → 0x21 <= v <= 0x7E.
Proof.
  unfold mapping. case_match eqn:E1; [bools; intros; simplify_eq; lia|].
  destruct (list_find _ _) as [[i e]|] eqn:Hf.
  - apply list_find_Some in Hf as (Hi & _). intros [= <-].
    by eapply (Forall_lookup_1 _ _ _ _ confusable_pairs_ascii).
  - case_match eqn:E2; [bools; intros; simplify_eq; lia|].
    case_match eqn:E3; [bools; intros; simplify_eq; lia|done].
Qed.

Lemma mapping_pairs cp : cp ∈ confusable_pairs.*1 → mapping cp ≠ None.
Proof.
  unfold mapping. intros Hin. destruct (_ && _); [done|].
  destruct (list_find _ _) as [[i e]|] eqn:Hf; [done|].
  apply list_find_None in Hf. apply list_elem_of_fmap in Hin as (e & -> & He).
  by eapply Forall_forall in Hf.
Qed.

Lemma listed_mapped cp l :
  bool_decide (Forall (λ c, c ∈ confusable_pairs.*1) l) = true → cp ∈ l → mapping cp ≠ None.
Proof.
  intros Hl%bool_decide_eq_true Hcp. apply mapping_pairs. by eapply Forall_forall in Hl.
Qed.

(** Every look-alike is invisible or mapped to ASCII, and nothing in ASCII is
    a look-alike. *)
Lemma confusable_mapped cp :
  isConfusable cp = true → isZeroWidth cp = true ∨ mapping cp ≠ None.
Proof.
  unfold isConfusable. rw !orb_true_iff !bool_decide_eq_true.
  intros [[[[[[?|H]|H]|H]|H]|H]|H]; [by left|right..].
  - unfold mapping. by rw H.
  - eapply listed_mapped; [|exact H]; by vm_compute.
  - eapply listed_mapped; [|exact H]; by vm_compute.
  - eapply listed_mapped; [|exact H]; by vm_compute.
  - eapply listed_mapped; [|exact H]; by vm_compute.
  - unfold mapping. repeat case_match; try done. bools. lia.
Qed.

Lemma ascii_clean cp : 0x21 <= cp <= 0x7E → isConfusable cp = false.
Proof.
  intros Hcp.
  assert ((cp <? 0x21) || negb (isConfusable cp) = true) as H.
  { by apply (forallb_below (λ cp, (cp <? 0x21) || negb (isConfusable cp)) 0x7F); [vm_compute|lia]. }
  apply orb_true_iff in H as [H%Z.ltb_lt|H%negb_true_iff]; [lia|done].
Qed.

Lemma ascii_unmapped cp : 0x21 <= cp <= 0x7E → mapping cp = None.
Proof.
  intros Hcp.
  assert ((cp <? 0x21) || match mapping cp with None => true | _ => false end = true) as H.
  { by apply (forallb_below (λ c, (c <? 0x21) || match mapping c with None => true | _ => false end)
                0x7F); [vm_compute|lia]. }
  apply orb_true_iff in H as [H%Z.ltb_lt|H]; [lia|by destruct (mapping cp)].
Qed.

(** ** Properties *)

(** The code points [normalize] writes. *)
Definition clean (input : list Z) : list Z :=
  base.filter (λ cp, cp < 0x110000)
    (mapCodepoint <$> base.filter (λ cp, isZeroWidth cp = false) (decode input).*1).

Lemma normalize_clean input : normalize input = mjoin (encodeUtf8 <$> clean input).
Proof.
  unfold normalize, clean. induction (decode input) as [|[cp bs] l IH]; [done|].
  rw bind_cons fmap_cons filter_cons IH. cbn [fst].
  destruct (decide (isZeroWidth cp = false)) as [Hz|Hz].
  - rw Hz fmap_cons filter_cons. case_decide; [done|].
    assert (encodeUtf8 (mapCodepoint cp) = []) as ->; [|done].
    unfold encodeUtf8. repeat (case_match; bools; try lia). done.
  - apply not_false_is_true in Hz. by rw Hz.
Qed.

Lemma clean_spec input :
  Forall (λ b, 0 <= b) input →
  Forall (λ cp, 0 <= cp < 0x110000 ∧ isConfusable cp = false ∧ isZeroWidth cp = false ∧
                mapCodepoint cp = cp) (clean input).
Proof.
  intros Hin%decode_nonneg. apply Forall_forall. unfold clean.
  intros cp [Hlt (c & -> & [Hzw Hc]%list_elem_of_filter)%list_elem_of_fmap]%list_elem_of_filter.
  assert (0 <= c) as Hc0.
  { apply list_elem_of_fmap in Hc as (e & -> & He). by eapply Forall_forall in Hin. }
  assert (∀ c, isConfusable c = false → isZeroWidth c = false) as Hzc.
  { intros c'. unfold isConfusable. destruct (isZeroWidth c'); done. }
  unfold mapCodepoint in *. destruct (mapping c) as [v|] eqn:Hm; cbn in *.
  - pose proof (mapping_ascii c v Hm) as Hv. pose proof (ascii_clean v Hv) as Hcl.
    split_and!; [lia|lia|done|by apply Hzc|].
    by rw (ascii_unmapped v Hv).
  - assert (isConfusable c = false) as Hcl.
    { destruct (isConfusable c) eqn:E; [|done]. apply confusable_mapped in E as [?|?]; congruence. }
    by rw Hm.
Qed.

(** Whatever the bytes, well formed or not, [normalize] leaves no
    look-alike and no invisible character behind, and normalising again
    changes nothing: a later stage that normalises sees the text the guards
    scanned. *)
Theorem unicode_normalize_sound input :
  Forall (λ b, 0 <= b < 256) input →
  hasConfusables (normalize input) = false ∧ normalize (normalize input) = normalize input.
Proof.
  intros Hin. assert (Forall (λ b, 0 <= b) input) as Hin'.
  { eapply Forall_impl; [done|]. simpl. lia. }
  pose proof (clean_spec input Hin') as Hc. rw !normalize_clean.
  assert (decode (mjoin (encodeUtf8 <$> clean input)) =
          (λ cp, (cp, encodeUtf8 cp)) <$> clean input) as Hd.
  { apply decode_encoded. eapply Forall_impl; [done|]. by intros cp (?&?). }
  split.
  - unfold hasConfusables. rw Hd. clear Hd. induction Hc as [|cp l (_ & Hcp & _) _ IH]; [done|].
    cbn. by rw Hcp.
  - rw -!normalize_clean. unfold normalize at 1. rw normalize_clean Hd.
    clear Hd. induction Hc as [|cp l (_ & _ & Hz & Hm) _ IH]; [done|].
    rw fmap_cons bind_cons IH /= Hz Hm. done.
Qed.

Lemma unicode_normalize_sound_witness :
  (* A fullwidth [A], a zero-width space inside a truncated sequence. *)
  let input := [0xEF; 0xBC; 0xA1; 0xE2; 0x80; 0xE2; 0x80; 0x8B; 0x8B] in
  hasConfusables input = true ∧ hasConfusables (normalize input) = false ∧
  normalize (normalize input) = normalize input.
Proof.
  split; [by vm_compute|].
  apply (unicode_normalize_sound [0xEF; 0xBC; 0xA1; 0xE2; 0x80; 0xE2; 0x80; 0x8B; 0x8B]).
  repeat (constructor; [lia|]). constructor.
Defined.

(** [stripZeroWidth] can leave an invisible character: removing a
    zero-width space from between the halves of a split one joins them. *)
Theorem unicode_strip_reassembles :
  let '(removed, text) := stripZeroWidth [0xE2; 0x80; 0xE2; 0x80; 0x8B; 0x8B] in
  removed = 1%nat ∧ text = encodeUtf8 0x200B ∧ hasConfusables text = true.
Proof. by vm_compute. Qed.

End Unicode.
