(* ===== verification/Balancer.v ===== *)
(** * Balancer: the smooth weighted round-robin over API keys

    Models [src/src/gateway/balancer.cpp]: [nextKey] with the recovery of
    cooled-down keys, [reportSuccess], [reportFailure] and [healthyCount].
    Times are the values of the steady clock.  The current weights are kept
    as integers: with [n] keys of total weight [t] they stay between [-t] and
    [n t], so the code's [int] holds them for any realistic configuration. *)
From S2P Require Import Prelude.
Local Open Scope Z_scope.

Module Balancer.

(** [struct KeyState]. *)
Record KeyState := {
  key : string;
  weight : Z;
  cw : Z;
  healthy : bool;
  consecutive_failures : Z;
  cooldown_until : Z;
}.

Record Balancer := {
  keys : list KeyState;
  key_index : gmap string nat;
}.

Definition kMaxConsecutiveFailures : Z := 3.
Definition kCooldownSeconds : Z := 30.

(** One second of the steady clock. *)
Definition second : Z := 1000000000.

Definition set_cw (c : Z) (k : KeyState) : KeyState :=
  {| key := key k; weight := weight k; cw := c; healthy := healthy k;
     consecutive_failures := consecutive_failures k; cooldown_until := cooldown_until k |}.

(** ** Operations *)

(** The constructor; of equal keys the index keeps the last. *)
Definition make (ks : list (string * Z)) : Balancer :=
  {| keys := (λ k, {| key := k.1; weight := k.2; cw := 0; healthy := true;
                      consecutive_failures := 0; cooldown_until := 0 |}) <$> ks;
     key_index := foldl (λ m ik, <[ik.2.1 := ik.1]> m) ∅ (imap pair ks) |}.

(** The recovery loop of [nextKey]. *)
Definition recover (now : Z) (k : KeyState) : KeyState :=
  if negb (healthy k) && (cooldown_until k <=? now) then
    {| key := key k; weight := weight k; cw := 0; healthy := true;
       consecutive_failures := 0; cooldown_until := cooldown_until k |}
  else k.

Definition effective_weight (k : KeyState) : Z := if 0 <? weight k then weight k else 1.

(** The selection loop: raise each healthy key's weight, keep the first with
    the largest, and sum what was added. *)
Fixpoint select (i : nat) (l : list KeyState) (best : option (nat * Z)) (total : Z) :
    list KeyState * option (nat * Z) * Z :=
  match l with
  | [] => ([], best, total)
  | k :: l =>
      if negb (healthy k) then
        let '(l', best, total) := select (S i) l best total in (k :: l', best, total)
      else
        let w := effective_weight k in
        let c := cw k + w in
        let best := match best with
                    | Some (_, b) => if b <? c then Some (i, c) else best
                    | None => Some (i, c)
                    end in
        let '(l', best, total) := select (S i) l best (total + w) in
        (set_cw c k :: l', best, total)
  end.

Definition nextKey (now : Z) (b : Balancer) : string * Balancer :=
  let '(ks, best, total) := select 0 (recover now <$> keys b) None 0 in
  match best with
  | None => ("", {| keys := ks; key_index := key_index b |})
  | Some (i, _) =>
      if total =? 0 then ("", {| keys := ks; key_index := key_index b |})
      else
        (default "" (key <$> ks !! i),
         {| keys := alter (λ k, set_cw (cw k - total) k) i ks; key_index := key_index b |})
  end.

Definition reportSuccess (name : string) (b : Balancer) : Balancer :=
  match key_index b !! name with
  | None => b
  | Some i =>
      {| keys := alter (λ k, {| key := key k; weight := weight k; cw := cw k; healthy := true;
                                consecutive_failures := 0;
                                cooldown_until := cooldown_until k |}) i (keys b);
         key_index := key_index b |}
  end.

Definition fail_key (now : Z) (k : KeyState) : KeyState :=
  let n := consecutive_failures k + 1 in
  if kMaxConsecutiveFailures <=? n then
    {| key := key k; weight := weight k; cw := cw k; healthy := false;
       consecutive_failures := n; cooldown_until := now + kCooldownSeconds * second |}
  else
    {| key := key k; weight := weight k; cw := cw k; healthy := healthy k;
       consecutive_failures := n; cooldown_until := cooldown_until k |}.

Definition reportFailure (now : Z) (name : string) (b : Balancer) : Balancer :=
  match key_index b !! name with
  | None => b
  | Some i => {| keys := alter (fail_key now) i (keys b); key_index := key_index b |}
  end.

Definition healthyCount (b : Balancer) : nat :=
  length (base.filter (λ k, healthy k = true) (keys b)).

(** Successive draws, at the given times. *)
Fixpoint draws (nows : list Z) (b : Balancer) : list string * Balancer :=
  match nows with
  | [] => ([], b)
  | now :: nows =>
      let '(k, b) := nextKey now b in
      let '(ks, b) := draws nows b in (k :: ks, b)
  end.

(** ** Lemmas *)

Definition total_weight (l : list KeyState) : Z := foldr Z.add 0 (effective_weight <$> l).
Definition total_cw (l : list KeyState) : Z := foldr Z.add 0 (cw <$> l).

(** Among healthy keys the loop raises every weight and finds a largest. *)
Lemma select_spec i l best total :
  Forall (λ k, healthy k = true) l →
  ∃ best', select i l best total =
    ((λ k, set_cw (cw k + effective_weight k) k) <$> l, best', total + total_weight l) ∧
  (l = [] ∧ best' = best ∨
   ∃ j m, best' = Some (j, m) ∧
     (∀ k, k ∈ l → cw k + effective_weight k <= m) ∧
     (∀ j' m', best = Some (j', m') → m' <= m) ∧
     (best = Some (j, m) ∨
      ∃ d k, j = (i + d)%nat ∧ l !! d = Some k ∧ m = cw k + effective_weight k)).
Proof.
  revert i best total. induction l as [|k l IH]; intros i best total Hh.
  { exists best. cbn. split; [by rw Z.add_0_r|by left]. }
  apply Forall_cons in Hh as [Hk Hl]. cbn [select]. rw Hk. cbn [negb].
  set (b1 := match best with Some (_, b) => _ | None => _ end).
  destruct (IH (S i) b1 (total + effective_weight k) Hl) as (best' & E & Hb).
  exists best'. rw E. split.
  { assert (total + effective_weight k + total_weight l = total + total_weight (k :: l)) as ->;
      [unfold total_weight; cbn; lia|done]. }
  right.
  assert (∃ j m, b1 = Some (j, m) ∧ cw k + effective_weight k <= m ∧
    (∀ j' m', best = Some (j', m') → m' <= m) ∧
    (best = Some (j, m) ∨ (j = i ∧ m = cw k + effective_weight k))) as (j1 & m1 & Hb1 & H1 & H2 & H3).
  { subst b1. destruct best as [[j' m']|].
    - destruct (Z.ltb_spec m' (cw k + effective_weight k)).
      + eexists _, _. split_and!; [done|lia|intros; simplify_eq; lia|by right].
      + eexists _, _. split_and!; [done|lia|intros; simplify_eq; lia|by left].
    - eexists _, _. split_and!; [done|lia|done|by right]. }
  destruct Hb as [[-> ->]|(j & m & -> & Hmax & Hge & Hor)].
  - exists j1, m1. split_and!; [done| |done|].
    + intros k' ->%list_elem_of_singleton. done.
    + destruct H3 as [?|[-> ->]]; [by left|right]. exists 0%nat, k. split_and!; [lia|done|done].
  - exists j, m. pose proof (Hge _ _ Hb1) as Hm. split_and!; [done| | |].
    + intros k' [->|Hk']%elem_of_cons; [lia|by apply Hmax].
    + intros j' m' Hbest. specialize (H2 _ _ Hbest). lia.
    + destruct Hor as [Hb|(d & k' & -> & Hd & ->)].
      * rw Hb1 in Hb. simplify_eq. destruct H3 as [?|[-> ->]]; [by left|right].
        exists 0%nat, k. split_and!; [lia|done|done].
      * right. exists (S d), k'. split_and!; [lia|done|done].
Qed.

Lemma sum_bound (f : KeyState → Z) m l :
  (∀ k, k ∈ l → f k <= m) → foldr Z.add 0 (f <$> l) <= m * Z.of_nat (length l).
Proof.
  induction l as [|k l IH]; intros Hm; [cbn; lia|]. cbn [fmap list_fmap foldr length].
  specialize (Hm k ltac:(by left)) as Hk. specialize (IH (λ k' H, Hm k' ltac:(by right))). cbn in *. lia.
Qed.

Lemma sum_zero (f : KeyState → Z) l :
  (∀ k, k ∈ l → 0 <= f k) → foldr Z.add 0 (f <$> l) = 0 → ∀ k, k ∈ l → f k = 0.
Proof.
  induction l as [|k l IH]; intros Hm Hs k' Hk'; [by apply elem_of_nil in Hk'|].
  pose proof (Hm k ltac:(by left)) as Hk. cbn in Hs.
  assert (0 <= foldr Z.add 0 (f <$> l)) as Hl.
  { clear -Hm. induction l as [|k' l IH]; cbn; [lia|].
    pose proof (Hm k' ltac:(right; by left)). specialize (IH ltac:(intros k0 H0; apply Hm; apply elem_of_cons in H0; set_solver)). cbn in *. lia. }
  cbn in *. apply elem_of_cons in Hk' as [->|Hk']; [lia|]. apply IH; [|lia|done].
  intros k0 Hk0. apply Hm. by right.
Qed.

Lemma effective_weight_pos k : 1 <= effective_weight k.
Proof. unfold effective_weight. destruct (Z.ltb_spec 0 (weight k)); lia. Qed.

Lemma total_weight_pos l : l ≠ [] → 0 < total_weight l.
Proof.
  assert (∀ l, 0 <= total_weight l) as Hn.
  { intros l'. induction l' as [|k l' IH]; cbn; [done|].
    pose proof (effective_weight_pos k). unfold total_weight in IH. cbn in IH. lia. }
  destruct l as [|k l]; [done|]. intros _. pose proof (effective_weight_pos k).
  specialize (Hn l). unfold total_weight in *. cbn in *. lia.
Qed.

Definition raise_cw (k : KeyState) : KeyState := set_cw (cw k + effective_weight k) k.

Lemma total_raise l : total_cw (raise_cw <$> l) = total_cw l + total_weight l.
Proof.
  unfold total_cw, total_weight. induction l as [|k l IH]; cbn in *; [done|]. rw IH. lia.
Qed.

Lemma total_alter (d : Z) i l k :
  l !! i = Some k → total_cw (alter (λ k, set_cw (cw k - d) k) i l) = total_cw l - d.
Proof.
  unfold total_cw. revert i. induction l as [|k' l IH]; intros [|i] Hi; cbn in *; simplify_eq; [lia|].
  specialize (IH i Hi). cbn in IH. rw IH. lia.
Qed.

(** A draw moves current weights and nothing else. *)
Lemma fmap_draw {B} (f : KeyState → B) d (i : nat) (l : list KeyState) :
  (∀ k c, f (set_cw c k) = f k) →
  f <$> alter (λ k, set_cw (cw k - d) k) i (raise_cw <$> l) = f <$> l.
Proof.
  intros Hf. apply list_eq. intros j. rw !list_lookup_fmap list_lookup_alter !list_lookup_fmap.
  case_decide as Hij; [subst j|]; destruct (l !! _); cbn; unfold raise_cw; by rw ?Hf.
Qed.

(** The keys of a rotation: all healthy, the current weights add up to
    nothing and none has fallen a whole round behind. *)
Record rotating (W : Z) (l : list KeyState) : Prop := {
  ro_healthy : Forall (λ k, healthy k = true) l;
  ro_nonempty : l ≠ [];
  ro_weight : total_weight l = W;
  ro_sum : total_cw l = 0;
  ro_low : Forall (λ k, - W < cw k) l;
}.

Lemma recover_healthy now l :
  Forall (λ k, healthy k = true) l → recover now <$> l = l.
Proof.
  induction 1 as [|k l Hk _ IH]; [done|]. cbn. unfold recover at 1. rw Hk. cbn. by rw IH.
Qed.

(** One draw serves a key that is ahead. *)
Lemma draw_step W now b :
  rotating W (keys b) →
  ∃ i k, keys b !! i = Some k ∧
    nextKey now b = (key k, {| keys := alter (λ k, set_cw (cw k - W) k) i (raise_cw <$> keys b);
                               key_index := key_index b |}) ∧
    rotating W (alter (λ k, set_cw (cw k - W) k) i (raise_cw <$> keys b)).
Proof.
  intros [Hh Hne Hw Hs Hlow]. pose proof (total_weight_pos _ Hne) as Hpos.
  unfold nextKey. rw recover_healthy //.
  destruct (select_spec 0 (keys b) None 0 Hh) as (best & E & [[? _]|(j & m & -> & Hmax & _ & Hor)]);
    [done|]. rw E. destruct Hor as [?|(d & k & -> & Hk & Hm)]; [done|]. cbn [Nat.add].
  rw Z.add_0_l Hw (proj2 (Z.eqb_neq _ _)); [|lia].
  exists d, k. split; [done|].
  assert ((raise_cw <$> keys b) !! d = Some (raise_cw k)) as Hd by by rw list_lookup_fmap Hk.
  assert (1 <= m) as Hm1.
  { pose proof (sum_bound (λ k, cw (raise_cw k)) m (keys b) Hmax) as Hb.
    pose proof (total_raise (keys b)) as Ht. unfold total_cw at 1 in Ht.
    rw -list_fmap_compose in Ht. unfold compose in Ht. destruct (decide (1 <= m)); [done|]. nia. }
  split; [by rw Hd|]. split.
  - apply Forall_alter; [|done]. by apply Forall_fmap.
  - intros Hnil. apply (f_equal length) in Hnil. rw length_alter length_fmap in Hnil.
    by destruct (keys b).
  - unfold total_weight. by rw fmap_draw.
  - rw (total_alter _ _ _ _ Hd) total_raise. lia.
  - apply Forall_alter.
    + apply Forall_fmap. eapply Forall_impl; [exact Hlow|]. intros k' Hk'. simpl in Hk'.
      change (- W < cw k' + effective_weight k'). pose proof (effective_weight_pos k'). lia.
    + intros k' Hk' _. rw Hd in Hk'. simplify_eq.
      change (- total_weight (keys b) < cw k + effective_weight k - total_weight (keys b)). lia.
Qed.

(** ** Counting the answers *)

Definition times (name : string) (answers : list string) : Z :=
  Z.of_nat (length (base.filter (λ a, a = name) answers)).

Lemma times_cons name a answers :
  times name (a :: answers) = (if decide (a = name) then 1 else 0) + times name answers.
Proof. unfold times. rw filter_cons. case_decide; cbn [length]; lia. Qed.

Lemma times_app name l1 l2 : times name (l1 ++ l2) = times name l1 + times name l2.
Proof. unfold times. rw filter_app length_app. lia. Qed.

(** After [n] draws, each current weight tells how far the key is ahead. *)
Definition counted (W n : Z) (answers : list string) (l : list KeyState) : Prop :=
  Forall (λ k, cw k = n * effective_weight k - W * times (key k) answers) l.

Lemma counted_step W n answers i k l :
  NoDup (key <$> l) → l !! i = Some k → counted W n answers l →
  counted W (n + 1) (answers ++ [key k]) (alter (λ k, set_cw (cw k - W) k) i (raise_cw <$> l)).
Proof.
  intros Hnd Hi Hc. apply Forall_lookup. intros j k' Hj. rw list_lookup_alter !list_lookup_fmap in Hj.
  assert (∀ k1, l !! j = Some k1 → key k1 = key k → i = j) as Hinj.
  { intros k1 Hk1 Hkey. apply (NoDup_lookup _ i j (key k) Hnd); rw list_lookup_fmap ?Hi ?Hk1 /=; congruence. }
  assert (∀ k1, l !! j = Some k1 → cw k1 = n * effective_weight k1 - W * times (key k1) answers) as Hc'.
  { intros k1 Hk1. by apply (Forall_lookup_1 _ _ _ _ Hc Hk1). }
  case_decide as Hij.
  - subst j. rw Hi /= in Hj. simplify_eq/=. rw times_app times_cons decide_True //.
    specialize (Hc' k Hi). unfold effective_weight in *. cbn in *. unfold times at 2. cbn. lia.
  - destruct (l !! j) as [k1|] eqn:Hk1; [|done]. cbn in Hj. simplify_eq. cbn [set_cw key cw raise_cw].
    rw times_app times_cons decide_False; [|intros Heq; by apply Hij, (Hinj k1)].
    specialize (Hc' k1 eq_refl). unfold effective_weight in *. cbn in *. unfold times at 2. cbn. lia.
Qed.

(** The same keys up to their current weights. *)
Lemma same_keys (l l' : list KeyState) :
  set_cw 0 <$> l = set_cw 0 <$> l' → key <$> l = key <$> l'.
Proof.
  intros Heq. apply (f_equal (fmap key)) in Heq. by rw -!list_fmap_compose in Heq.
Qed.

Lemma draws_counted W nows n b answers :
  rotating W (keys b) → NoDup (key <$> keys b) → counted W n answers (keys b) →
  let '(ks, b') := draws nows b in
  rotating W (keys b') ∧ set_cw 0 <$> keys b' = set_cw 0 <$> keys b ∧
  counted W (n + Z.of_nat (length nows)) (answers ++ ks) (keys b').
Proof.
  revert n b answers. induction nows as [|now nows IH]; intros n b answers Hr Hnd Hc; cbn [draws].
  { split_and!; [done..|]. cbn. by rw Z.add_0_r app_nil_r. }
  destruct (draw_step W now b Hr) as (i & k & Hi & -> & Hr').
  pose proof (fmap_draw (set_cw 0) W i (keys b) (λ _ _, eq_refl)) as Hsame.
  pose proof (counted_step W n answers i k (keys b) Hnd Hi Hc) as Hc'.
  set (l := alter _ i _) in *.
  specialize (IH (n + 1) {| keys := l; key_index := key_index b |} (answers ++ [key k]) Hr').
  cbn [keys] in IH. rw (same_keys _ _ Hsame) in IH. specialize (IH Hnd Hc').
  destruct (draws nows _) as [ks b']. destruct IH as (IH1 & IH2 & IH3).
  split_and!; [done|congruence|]. rw -app_assoc in IH3.
  rw (_ : n + Z.of_nat (length (now :: nows)) = n + 1 + Z.of_nat (length nows)); [done|cbn; lia].
Qed.

Lemma make_rotating ks :
  ks ≠ [] → rotating (total_weight (keys (make ks))) (keys (make ks)) ∧
            counted (total_weight (keys (make ks))) 0 [] (keys (make ks)) ∧
            set_cw 0 <$> keys (make ks) = keys (make ks).
Proof.
  intros Hne.
  assert (Forall (λ k, healthy k = true ∧ cw k = 0) (keys (make ks))) as Hf.
  { cbn. apply Forall_fmap. by apply Forall_forall. }
  assert (keys (make ks) ≠ []) as Hne' by by destruct ks.
  pose proof (total_weight_pos _ Hne') as Hpos. revert Hf Hne' Hpos.
  generalize (keys (make ks)). intros l Hf Hne' Hpos. split_and!.
  - split; [eapply Forall_impl; [exact Hf|by intros k []]|done|done| |
      eapply Forall_impl; [exact Hf|simpl; intros k []; lia]].
    unfold total_cw. clear -Hf. induction Hf as [|k l [_ Hk] _ IH]; cbn in *; [done|]. lia.
  - eapply Forall_impl; [exact Hf|]. simpl. intros k [_ ->]. unfold times. cbn. lia.
  - clear -Hf. induction Hf as [|k l [_ Hk] _ IH]; cbn; [done|]. f_equal; [|done].
    destruct k. by cbn in *; subst.
Qed.

(** ** Properties *)

(** The round-robin is exactly fair: while no key fails, every run of as
    many draws as the weights add up to serves each key its weight (a
    non-positive weight counts as one) and leaves the balancer as it was, so
    the sequence repeats for ever. *)
Theorem balancer_fair ks nows :
  ks ≠ [] → NoDup ks.*1 →
  Z.of_nat (length nows) = total_weight (keys (make ks)) →
  let '(answers, b') := draws nows (make ks) in
  (∀ k, k ∈ keys (make ks) → times (key k) answers = effective_weight k) ∧
  keys b' = keys (make ks).
Proof.
  intros Hne Hnd Hlen. destruct (make_rotating ks Hne) as (Hr & Hc & Hz).
  pose proof (draws_counted _ nows 0 (make ks) [] Hr) as Hd.
  destruct (draws nows (make ks)) as [answers b'].
  destruct Hd as (Hr' & Hsame & Hc'); [by cbn; rw -list_fmap_compose|done|].
  rw Z.add_0_l Hlen app_nil_l in Hc'. rw Hz in Hsame.
  set (W := total_weight (keys (make ks))) in *.
  assert (0 < W) as HW by by apply total_weight_pos; destruct ks.
  assert (∀ k, k ∈ keys b' → cw k = 0) as Hzero.
  { apply sum_zero; [|apply (ro_sum _ _ Hr')]. intros k Hk.
    eapply Forall_forall in Hc'; [|exact Hk]. cbv beta in Hc'.
    pose proof (ro_low _ _ Hr') as Hlow. eapply Forall_forall in Hlow; [|exact Hk].
    cbv beta in Hlow. destruct (decide (0 <= effective_weight k - times (key k) answers)); nia. }
  assert (keys b' = keys (make ks)) as Heq.
  { rw -Hsame. clear -Hzero. induction (keys b') as [|k l IH]; [done|]. cbn. f_equal.
    - pose proof (Hzero k ltac:(by left)). destruct k. cbn in *. by subst.
    - apply IH. intros k' Hk'. apply Hzero. by right. }
  split; [|done]. intros k Hk. rw -Heq in Hk. pose proof (Hzero k Hk) as H0.
  eapply Forall_forall in Hc'; [|exact Hk]. cbv beta in Hc'. nia.
Qed.

Lemma balancer_fair_witness :
  (draws [1; 2; 3; 4; 5; 6; 7] (make [("a", 5); ("b", 1); ("c", 0)])).1 =
    ["a"; "a"; "b"; "a"; "c"; "a"; "a"] ∧
  keys (draws [1; 2; 3; 4; 5; 6; 7] (make [("a", 5); ("b", 1); ("c", 0)])).2 =
    keys (make [("a", 5); ("b", 1); ("c", 0)]).
Proof.
  split; [by vm_compute|].
  pose proof (balancer_fair [("a", 5); ("b", 1); ("c", 0)] [1; 2; 3; 4; 5; 6; 7]) as H.
  destruct (draws _ _) as [answers b']. apply H; [done| |done].
  apply (bool_decide_unpack _). by vm_compute.
Defined.

End Balancer.
