(* ===== verification/CircuitBreaker.v ===== *)
(** * CircuitBreaker: the per-model circuit breaker

    Models [src/src/gateway/circuit_breaker.cpp] without the Redis store: the
    sixteen shards, each an LRU list and a map of circuits, with the idle
    time-to-live and the eviction at capacity, and the three-state circuit.
    [std::hash] is a parameter.  Each operation runs under its shard's mutex;
    it reads the steady clock up to three times, and takes the readings as
    arguments.  The counters are [int]s in the code; fewer than 2^31 failures
    in a row are assumed. *)
From S2P Require Import Prelude.
Local Open Scope Z_scope.

Module CircuitBreaker.

Inductive CircuitState := Closed | Open | HalfOpen.
#[global] Instance CircuitState_eq_dec : EqDecision CircuitState.
Proof. solve_decision. Defined.

(** [struct CircuitConfig]; durations are in seconds. *)
Record CircuitConfig := {
  failure_threshold : Z;
  reset_timeout : Z;
  half_open_max_calls : Z;
  max_circuits : Z;
  circuit_idle_ttl : Z;
}.

Record ModelCircuit := {
  cstate : CircuitState;
  failure_count : Z;
  half_open_calls : Z;
  last_failure : Z;
}.

Record CircuitEntry := {
  circuit : ModelCircuit;
  last_access : Z;
}.

(** [lru] has the least recently used model first. *)
Record Shard := {
  lru : list string;
  circuits : gmap string CircuitEntry;
}.

Definition kNumShards : nat := 16.

(** One second of the steady clock. *)
Definition second : Z := 1000000000.

Definition new_circuit : ModelCircuit :=
  {| cstate := Closed; failure_count := 0; half_open_calls := 0; last_failure := 0 |}.
Definition empty_shard : Shard := {| lru := []; circuits := ∅ |}.
Definition empty_breaker : list Shard := replicate kNumShards empty_shard.

Section breaker.
Context (cfg : CircuitConfig) (hash : string → Z).

Definition per_shard_cap : Z :=
  (Z.max 1 (max_circuits cfg) + Z.of_nat kNumShards - 1) / Z.of_nat kNumShards.

Definition shardFor (model : string) : nat := Z.to_nat (hash model mod Z.of_nat kNumShards).

(** The eviction loop; each turn shortens [lru]. *)
Fixpoint evict (l : list string) (m : gmap string CircuitEntry) :
    list string * gmap string CircuitEntry :=
  if Z.of_nat (size m) <? per_shard_cap then (l, m)
  else match l with
       | [] => ([], m)
       | victim :: l => evict l (delete victim m)
       end.

Definition put_entry (model : string) (c : ModelCircuit) (now : Z) (s : Shard) : Shard :=
  {| lru := lru s; circuits := <[model := {| circuit := c; last_access := now |}]> (circuits s) |}.

(** An entry is stale after [circuit_idle_ttl] without access; 0 disables. *)
Definition expired (now : Z) (e : CircuitEntry) : bool :=
  (0 <? circuit_idle_ttl cfg) && (circuit_idle_ttl cfg * second <? now - last_access e).

(** The insertion at the end of [circuitFor]. *)
Definition insert_circuit (now : Z) (model : string) (s : Shard) : ModelCircuit * Shard :=
  let '(l, m) := evict (lru s) (circuits s) in
  (new_circuit,
   {| lru := l ++ [model];
      circuits := match m !! model with
                  | Some _ => m
                  | None => <[model := {| circuit := new_circuit; last_access := now |}]> m
                  end |}).

(** [circuitFor]: the circuit, and the shard with the entry touched. *)
Definition circuitFor (now : Z) (model : string) (s : Shard) : ModelCircuit * Shard :=
  match circuits s !! model with
  | Some e =>
      if expired now e then
        insert_circuit now model
          {| lru := base.filter (λ m, m ≠ model) (lru s); circuits := delete model (circuits s) |}
      else
        (circuit e,
         put_entry model (circuit e) now
           {| lru := base.filter (λ m, m ≠ model) (lru s) ++ [model]; circuits := circuits s |})
  | None => insert_circuit now model s
  end.

(** Assignments through the reference [circuitFor] returns. *)
Definition store_circuit (model : string) (c : ModelCircuit) (s : Shard) : Shard :=
  {| lru := lru s;
     circuits := alter (λ e, {| circuit := c; last_access := last_access e |}) model
                   (circuits s) |}.

(** The [Open] to [HalfOpen] transition. *)
Definition half_open (now : Z) (c : ModelCircuit) : ModelCircuit :=
  match cstate c with
  | Open =>
      if reset_timeout cfg * second <=? now - last_failure c then
        {| cstate := HalfOpen; failure_count := failure_count c; half_open_calls := 0;
           last_failure := last_failure c |}
      else c
  | _ => c
  end.

Definition evaluateEffectiveState (now now' : Z) (model : string) (s : Shard) :
    ModelCircuit * Shard :=
  let '(c, s) := circuitFor now model s in
  let c := half_open now' c in
  (c, store_circuit model c s).

(** An operation on the model's shard. *)
Definition on_shard {A} (model : string) (f : Shard → A * Shard) (b : list Shard) :
    A * list Shard :=
  let i := shardFor model in
  let s := default empty_shard (b !! i) in
  let '(a, s) := f s in
  (a, <[i := s]> b).

(** The admission decision on a circuit whose state has been evaluated. *)
Definition admit_call (c : ModelCircuit) : bool * ModelCircuit :=
  match cstate c with
  | Open => (false, c)
  | HalfOpen =>
      if half_open_calls c <? half_open_max_calls cfg then
        (true, {| cstate := HalfOpen; failure_count := failure_count c;
                  half_open_calls := half_open_calls c + 1; last_failure := last_failure c |})
      else (false, c)
  | Closed => (true, c)
  end.

Definition allowRequest (now now' : Z) (model : string) : list Shard → bool * list Shard :=
  on_shard model (λ s,
    let '(c, s) := evaluateEffectiveState now now' model s in
    let '(b, c) := admit_call c in
    (b, store_circuit model c s)).

Definition close_circuit (c : ModelCircuit) : ModelCircuit :=
  {| cstate := Closed; failure_count := 0; half_open_calls := half_open_calls c;
     last_failure := last_failure c |}.

Definition recordSuccess (now : Z) (model : string) : list Shard → unit * list Shard :=
  on_shard model (λ s,
    let '(c, s) := circuitFor now model s in
    (tt, store_circuit model (close_circuit c) s)).

Definition fail_circuit (now : Z) (c : ModelCircuit) : ModelCircuit :=
  let n := failure_count c + 1 in
  {| cstate := match cstate c with
               | HalfOpen => Open
               | st => if failure_threshold cfg <=? n then Open else st
               end;
     failure_count := n; half_open_calls := half_open_calls c; last_failure := now |}.

Definition recordFailure (now now' : Z) (model : string) : list Shard → unit * list Shard :=
  on_shard model (λ s,
    let '(c, s) := circuitFor now model s in
    (tt, store_circuit model (fail_circuit now' c) s)).

Definition state (now now' now'' : Z) (model : string) : list Shard → CircuitState * list Shard :=
  on_shard model (λ s,
    match circuits s !! model with
    | None => (Closed, s)
    | Some e =>
        if expired now e then (Closed, s)
        else let '(c, s) := evaluateEffectiveState now' now'' model s in (cstate c, s)
    end).

(** [exportMetrics] on one shard: the effective state of every model, in the
    map's order; [clock] gives the two readings made for a model. *)
Definition export_shard `{UnorderedIter} (clock : string → Z * Z) (s : Shard) :
    list (string * CircuitState) * Shard :=
  foldl (λ acc model,
    let '(out, s) := acc in
    let '(c, s) := evaluateEffectiveState (clock model).1 (clock model).2 model s in
    (out ++ [(model, cstate c)], s)) ([], s) (iter (circuits s)).*1.

Definition exportMetrics `{UnorderedIter} (clock : string → Z * Z) (b : list Shard) :
    list (string * CircuitState) * list Shard :=
  foldl (λ acc s, let '(out, s') := export_shard clock s in
                  (acc.1 ++ out, acc.2 ++ [s'])) ([], []) b.

End breaker.

(** ** The breaker as its callers see it *)

(** What the history of a model says: failures since the last success, when
    the last one was, the calls let through since then, and when the model was
    last used. *)
Record Summary := {
  fails : Z;
  last : Z;
  probes : Z;
  accessed : Z;
}.

Definition no_history : Summary := {| fails := 0; last := 0; probes := 0; accessed := 0 |}.

(** An operation with its clock readings. *)
Inductive Event :=
| EAllow (model : string) (now now' : Z)
| ESuccess (model : string) (now : Z)
| EFailure (model : string) (now now' : Z)
| EState (model : string) (now now' now'' : Z).

Inductive Answer :=
| Allowed (b : bool)
| Recorded
| Reported (s : CircuitState).

Definition event_model (e : Event) : string :=
  match e with
  | EAllow m _ _ | ESuccess m _ | EFailure m _ _ | EState m _ _ _ => m
  end.

Section spec.
Context (cfg : CircuitConfig) (hash : string → Z).

Definition run_event (e : Event) (b : list Shard) : Answer * list Shard :=
  match e with
  | EAllow m t t' => let '(r, b) := allowRequest cfg hash t t' m b in (Allowed r, b)
  | ESuccess m t => let '(_, b) := recordSuccess cfg hash t m b in (Recorded, b)
  | EFailure m t t' => let '(_, b) := recordFailure cfg hash t t' m b in (Recorded, b)
  | EState m t t' t'' => let '(r, b) := state cfg hash t t' t'' m b in (Reported r, b)
  end.

Fixpoint run_events (es : list Event) (b : list Shard) : list Answer :=
  match es with
  | [] => []
  | e :: es => let '(a, b) := run_event e b in a :: run_events es b
  end.

(** The documented policy.  A history is forgotten after [circuit_idle_ttl]
    without use; 0 disables. *)
Definition forgotten (t : Z) (s : Summary) : bool :=
  (0 <? circuit_idle_ttl cfg) && (circuit_idle_ttl cfg * second <? t - accessed s).

Definition access (t : Z) (s : Summary) : Summary :=
  let s := if forgotten t s then no_history else s in
  {| fails := fails s; last := last s; probes := probes s; accessed := t |}.

(** The threshold counts from one failure. *)
Definition threshold : Z := Z.max 1 (failure_threshold cfg).
Definition tripped (s : Summary) : bool := threshold <=? fails s.
Definition waited (t : Z) (s : Summary) : bool := reset_timeout cfg * second <=? t - last s.

Definition spec_allow (t : Z) (s : Summary) : bool * Summary :=
  if negb (tripped s) then (true, s)
  else if waited t s && (probes s <? half_open_max_calls cfg) then
    (true, {| fails := fails s; last := last s; probes := probes s + 1; accessed := accessed s |})
  else (false, s).

Definition spec_success (s : Summary) : Summary :=
  {| fails := 0; last := last s; probes := 0; accessed := accessed s |}.

Definition spec_failure (t : Z) (s : Summary) : Summary :=
  {| fails := fails s + 1; last := t; probes := 0; accessed := accessed s |}.

Definition spec_state (t : Z) (s : Summary) : CircuitState :=
  if negb (tripped s) then Closed else if waited t s then HalfOpen else Open.

Definition spec_op (e : Event) (s : Summary) : Answer * Summary :=
  match e with
  | EAllow _ t t' => let '(b, s) := spec_allow t' (access t s) in (Allowed b, s)
  | ESuccess _ t => (Recorded, spec_success (access t s))
  | EFailure _ t t' => (Recorded, spec_failure t' (access t s))
  | EState _ t t' t'' =>
      if forgotten t s then (Reported Closed, s)
      else let s := access t' s in (Reported (spec_state t'' s), s)
  end.

Fixpoint spec_events (es : list Event) (f : string → Summary) : list Answer :=
  match es with
  | [] => []
  | e :: es =>
      let m := event_model e in
      let '(a, s) := spec_op e (f m) in
      a :: spec_events es (λ m', if decide (m' = m) then s else f m')
  end.

(** ** Refinement *)

(** The entry of a model. *)
Definition current (b : list Shard) (m : string) : option CircuitEntry :=
  circuits (default empty_shard (b !! shardFor hash m)) !! m.

(** The circuit that [circuitFor] gives for it. *)
Definition touched (now : Z) (e : option CircuitEntry) : ModelCircuit :=
  match e with
  | Some e => if expired cfg now e then new_circuit else circuit e
  | None => new_circuit
  end.

(** [M] bounds the models with a circuit. *)
Definition within (M : gset string) (b : list Shard) : Prop :=
  length b = kNumShards ∧ ∀ s, s ∈ b → dom (circuits s) ⊆ M.

(** With room in the shard, [circuitFor] touches one entry. *)
Lemma circuitFor_spec now m s :
  Z.of_nat (size (delete m (circuits s))) < per_shard_cap cfg →
  let c := touched now (circuits s !! m) in
  ∃ l, circuitFor cfg now m s =
    (c, {| lru := l; circuits := <[m := {| circuit := c; last_access := now |}]> (circuits s) |}).
Proof.
  intros Hroom.
  assert (∀ l, evict cfg l (delete m (circuits s)) = (l, delete m (circuits s))) as Hev.
  { intros l. destruct l; cbn; by rw (proj2 (Z.ltb_lt _ _) Hroom). }
  unfold circuitFor. destruct (circuits s !! m) as [e|] eqn:Hm; cbn.
  - destruct (expired cfg now e); [|by eexists].
    unfold insert_circuit. cbn [lru circuits]. rw Hev lookup_delete_eq insert_delete_eq. by eexists.
  - unfold insert_circuit. rw -{1}(delete_id (circuits s) m) // Hev delete_id // Hm. by eexists.
Qed.

Lemma shardFor_lt m : (shardFor hash m < kNumShards)%nat.
Proof. unfold shardFor. pose proof (Z.mod_pos_bound (hash m) (Z.of_nat kNumShards)). unfold kNumShards in *. lia. Qed.

Lemma room (M : gset string) m (cs : gmap string CircuitEntry) :
  dom cs ⊆ M → m ∈ M → (size (delete m cs) < size M)%nat.
Proof.
  intros Hdom Hm. rw -size_dom. apply subset_size. rw dom_delete. split; [set_solver|].
  intros Hsub. specialize (Hsub m Hm). set_solver.
Qed.

(** An operation that changes one circuit by [g]. *)
Lemma touch_spec {A} (M : gset string) now m (g : ModelCircuit → A * ModelCircuit) b :
  within M b → m ∈ M → Z.of_nat (size M) <= per_shard_cap cfg →
  let '(a, c) := g (touched now (current b m)) in
  let '(a', b') := on_shard hash m (λ s,
    let '(c, s) := circuitFor cfg now m s in
    let '(a, c) := g c in (a, store_circuit m c s)) b in
  a' = a ∧ within M b' ∧
  ∀ m', current b' m' = if decide (m' = m) then Some {| circuit := c; last_access := now |} else current b m'.
Proof.
  intros [Hlen Hdom] Hm Hcap. unfold on_shard.
  destruct (lookup_lt_is_Some_2 b (shardFor hash m)) as [s Hs]; [rw Hlen; apply shardFor_lt|].
  pose proof (Hdom s (list_elem_of_lookup_2 _ _ _ Hs)) as Hds.
  unfold current at 1. rw Hs. cbn [default from_option].
  destruct (circuitFor_spec now m s) as (l & E); [pose proof (room M m _ Hds Hm); lia|].
  cbv zeta in E. set (c0 := touched now _) in *. rw E.
  destruct (g c0) as [a c]. split; [done|]. set (s' := store_circuit m c _). split.
  - split; [by rw length_insert|]. intros s1 Hs1. apply list_elem_of_lookup in Hs1 as [j Hj].
    apply list_lookup_insert_Some in Hj as [(_ & <- & _)|[_ Hj]].
    + cbn. rw dom_alter dom_insert. set_solver.
    + by eapply Hdom, list_elem_of_lookup_2.
  - assert (<[shardFor hash m := s']> b !! shardFor hash m = Some s') as Hnew
      by (apply list_lookup_insert_eq; rw Hlen; apply shardFor_lt).
    intros m'. unfold current. case_decide as Hmm.
    + subst m'. rw Hnew. cbn. by rw lookup_alter_eq lookup_insert_eq.
    + destruct (decide (shardFor hash m' = shardFor hash m)) as [Heq|Hne].
      * rw Heq Hnew Hs. cbn. by rw lookup_alter_ne // lookup_insert_ne.
      * by rw list_lookup_insert_ne.
Qed.

(** A circuit agrees with the history of its model at time [T]. *)
Definition agrees (T : Z) (c : ModelCircuit) (s : Summary) : Prop :=
  failure_count c = fails s ∧ 0 <= fails s ∧
  match cstate c with
  | Closed => fails s < threshold
  | Open => threshold <= fails s ∧ last_failure c = last s ∧ probes s = 0
  | HalfOpen =>
      threshold <= fails s ∧ last_failure c = last s ∧
      half_open_calls c = probes s ∧ waited T s = true
  end.

(** The entry of a model and its history. *)
Definition entry_agrees (T : Z) (e : option CircuitEntry) (s : Summary) : Prop :=
  match e with
  | Some e => last_access e = accessed s ∧ agrees T (circuit e) s
  | None => fails s = 0
  end.

Lemma threshold_pos : 1 <= threshold.
Proof using Type. unfold threshold. lia. Qed.

Lemma waited_mono T T' s : T <= T' → waited T s = true → waited T' s = true.
Proof. unfold waited. bools. lia. Qed.

Lemma agrees_mono T T' c s : T <= T' → agrees T c s → agrees T' c s.
Proof.
  intros HT (?&?&H). split_and!; [done..|]. destruct (cstate c); [done|done|].
  destruct H as (?&?&?&?). split_and!; [done..|by eapply waited_mono].
Qed.

Lemma agrees_new T s : fails s = 0 → agrees T new_circuit s.
Proof. intros Hs. pose proof threshold_pos. unfold agrees. cbn. lia. Qed.

Lemma agrees_access T t e s : entry_agrees T e s → agrees T (touched t e) (access t s).
Proof.
  destruct e as [e|]; cbn; unfold access.
  - intros [Ha H]. unfold expired, forgotten. rw Ha. case_match; [by apply agrees_new|done].
  - intros H. apply agrees_new. by destruct (forgotten t s).
Qed.

Lemma tripped_true s : threshold <= fails s → tripped s = true.
Proof. unfold tripped. bools. lia. Qed.
Lemma tripped_false s : fails s < threshold → tripped s = false.
Proof. unfold tripped. bools. lia. Qed.

Lemma agrees_allow T t c s :
  T <= t → agrees T c s →
  let '(b, c') := admit_call cfg (half_open cfg t c) in
  (spec_allow t s).1 = b ∧ agrees t c' (spec_allow t s).2.
Proof.
  intros HT (Hf & H0 & H). unfold half_open, spec_allow, admit_call, agrees.
  destruct (cstate c) eqn:Hc.
  - rw Hc (tripped_false s H). cbn. by rw Hc.
  - destruct H as (Hthr & Hl & Hp). rw (tripped_true s Hthr). cbn [negb].
    unfold waited. rw Hl. destruct (reset_timeout cfg * second <=? t - last s) eqn:Hw; cbn.
    + rw Hp. destruct (0 <? half_open_max_calls cfg); cbn; unfold waited; cbn; naive_solver lia.
    + rw Hc /= Hc. naive_solver.
  - destruct H as (Hthr & Hl & Hp & Hw). rw (tripped_true s Hthr) Hc. cbn [negb].
    rw Hp. pose proof (waited_mono T t s HT Hw) as Hwt. rw Hwt /=.
    destruct (probes s <? half_open_max_calls cfg); cbn; [|rw Hc]; naive_solver.
Qed.

Lemma agrees_state T t c s :
  T <= t → agrees T c s →
  spec_state t s = cstate (half_open cfg t c) ∧ agrees t (half_open cfg t c) s.
Proof.
  intros HT (Hf & H0 & H). unfold half_open, spec_state, agrees.
  destruct (cstate c) eqn:Hc.
  - by rw Hc (tripped_false s H).
  - destruct H as (Hthr & Hl & Hp). rw (tripped_true s Hthr). cbn [negb].
    unfold waited. rw Hl. destruct (reset_timeout cfg * second <=? t - last s) eqn:Hw; cbn; [done|].
    by rw Hc.
  - destruct H as (Hthr & Hl & Hp & Hw). rw (tripped_true s Hthr) Hc. cbn [negb].
    pose proof (waited_mono T t s HT Hw) as Hwt. by rw Hwt.
Qed.

Lemma agrees_failure T t c s : agrees T c s → agrees t (fail_circuit cfg t c) (spec_failure t s).
Proof.
  intros (Hf & H0 & H). pose proof threshold_pos. unfold fail_circuit, agrees, threshold in *. cbn. rw Hf.
  split; [done|]. split; [lia|]. destruct (cstate c).
  - destruct (Z.leb_spec (failure_threshold cfg) (fails s + 1)); [split_and!; [lia|done..]|lia].
  - destruct (Z.leb_spec (failure_threshold cfg) (fails s + 1)); [split_and!; [lia|done..]|lia].
  - split_and!; [lia|done..].
Qed.

Lemma agrees_success T c s : agrees T (close_circuit c) (spec_success s).
Proof. pose proof threshold_pos. unfold agrees. cbn. lia. Qed.

Lemma on_shard_ext {A} m (f g : Shard → A * Shard) b :
  (∀ s, f s = g s) → on_shard hash m f b = on_shard hash m g b.
Proof. intros Hfg. unfold on_shard. by rw Hfg. Qed.

Lemma store_twice m c c' s : store_circuit m c (store_circuit m c' s) = store_circuit m c s.
Proof. 
  unfold store_circuit. cbn. f_equal. apply map_eq. intros i.
  destruct (decide (m = i)) as [<-|]; [|by rw !lookup_alter_ne].
  rw !lookup_alter_eq. by destruct (circuits s !! m).
 Qed.

(** The last reading of an operation. *)
Definition last_reading (e : Event) : Z :=
  match e with
  | EAllow _ _ t | ESuccess _ t | EFailure _ _ t | EState _ _ _ t => t
  end.

(** An operation that touches its model's circuit. *)
Lemma touch_refines {A} (M : gset string) (T : string → Z) now t m (g : ModelCircuit → A * ModelCircuit) b f a s :
  Z.of_nat (size M) <= per_shard_cap cfg → m ∈ M → within M b →
  (∀ m, entry_agrees (T m) (current b m) (f m)) → accessed s = now →
  (agrees (T m) (touched now (current b m)) (access now (f m)) →
   (g (touched now (current b m))).1 = a ∧ agrees t (g (touched now (current b m))).2 s) →
  let '(a', b') := on_shard hash m (λ s,
    let '(c, s) := circuitFor cfg now m s in
    let '(a, c) := g c in (a, store_circuit m c s)) b in
  a' = a ∧ within M b' ∧
  ∀ m', entry_agrees (if decide (m' = m) then t else T m') (current b' m') (if decide (m' = m) then s else f m').
Proof.
  intros Hcap Hm Hb Hf Hs Hg. pose proof (touch_spec M now m g b Hb Hm Hcap) as Ht.
  destruct Hg as [Ha Hag]; [by apply agrees_access|].
  destruct (g (touched now (current b m))) as [a0 c]. destruct (on_shard _ _ _ _) as [a' b'].
  destruct Ht as (-> & Hb' & Hcur). split_and!; [done|done|]. intros m'. rw Hcur.
  case_decide; [done|by apply Hf].
Qed.

(** [state] without an entry that it would touch. *)
Lemma state_untouched t t' t'' m b :
  length b = kNumShards →
  match current b m with Some e => expired cfg t e = true | None => True end →
  state cfg hash t t' t'' m b = (Closed, b).
Proof.
  intros Hlen He. unfold state, on_shard. unfold current in He.
  destruct (lookup_lt_is_Some_2 b (shardFor hash m)) as [s Hs]; [rw Hlen; apply shardFor_lt|].
  rw Hs /= in He |- *. destruct (circuits s !! m) as [e|]; [rw He|]; f_equal; by apply list_insert_id.
Qed.

Lemma state_refines (M : gset string) (T : string → Z) t t' t'' m b f :
  Z.of_nat (size M) <= per_shard_cap cfg → T m <= t'' → m ∈ M → within M b →
  (∀ m, entry_agrees (T m) (current b m) (f m)) →
  let '(a, b') := let '(r, b) := state cfg hash t t' t'' m b in (Reported r, b) in
  let '(a', s) := if forgotten t (f m) then (Reported Closed, f m)
    else let s := access t' (f m) in (Reported (spec_state t'' s), s) in
  a = a' ∧ within M b' ∧
  ∀ m', entry_agrees (if decide (m' = m) then t'' else T m') (current b' m')
         (if decide (m' = m) then s else f m').
Proof.
  intros Hcap HT Hm Hb Hf.
  destruct (current b m) as [e|] eqn:He.
  - destruct (expired cfg t e) eqn:Hx; pose proof (Hf m) as Hfm; rw He in Hfm; destruct Hfm as [Hacc Hag].
    + rw state_untouched; [|by destruct Hb|by rw He].
      assert (forgotten t (f m) = true) as -> by (unfold expired in Hx; unfold forgotten; by rw -Hacc).
      split_and!; [done|done|]. intros m'. case_decide; [|by apply Hf]. subst m'. rw He.
      split; [done|]. by eapply agrees_mono.
    + assert (forgotten t (f m) = false) as -> by (unfold expired in Hx; unfold forgotten; by rw -Hacc).
      cbv zeta. set (s := access t' (f m)).
      pose proof (touch_refines M T t' t'' m (λ c, (cstate (half_open cfg t'' c), half_open cfg t'' c)) b f
        (spec_state t'' s) s) as Ht. cbv beta zeta iota in Ht.
      assert (state cfg hash t t' t'' m b = on_shard hash m (λ s,
        let '(c, s) := circuitFor cfg t' m s in
        (cstate (half_open cfg t'' c), store_circuit m (half_open cfg t'' c) s)) b) as ->.
      { unfold state, on_shard. unfold current in He. rw He Hx. unfold evaluateEffectiveState.
        by destruct (circuitFor cfg t' m _). }
      destruct (on_shard _ _ _ _) as [x' b']. destruct Ht as (-> & Hb' & Hcur); [done..| |done].
      intros Hag'. destruct (agrees_state _ t'' _ _ HT Hag') as [Hst ?]. split; [by symmetry|done].
  - rw state_untouched; [|by destruct Hb|by rw He].
    pose proof (Hf m) as Hfm. rw He /= in Hfm. pose proof threshold_pos.
    destruct (forgotten t (f m)); cbv zeta iota beta.
    + split_and!; [done|done|]. intros m'. case_decide; [subst m'; by rw He|by apply Hf].
    + assert (fails (access t' (f m)) = 0) as H0 by (unfold access; by destruct (forgotten t' (f m))).
      unfold spec_state. rw tripped_false; [|by rw H0; lia].
      split_and!; [done|done|]. intros m'. case_decide; [subst m'; by rw He|by apply Hf].
Qed.

(** Every breaker operation refines its specification. *)
Lemma event_refines (M : gset string) (T : string → Z) e b f :
  Z.of_nat (size M) <= per_shard_cap cfg →
  T (event_model e) <= last_reading e → event_model e ∈ M → within M b →
  (∀ m, entry_agrees (T m) (current b m) (f m)) →
  let '(a, b') := run_event e b in
  let '(a', s) := spec_op e (f (event_model e)) in
  a = a' ∧ within M b' ∧
  ∀ m, entry_agrees (if decide (m = event_model e) then last_reading e else T m) (current b' m)
         (if decide (m = event_model e) then s else f m).
Proof.
  intros Hcap HT Hm Hb Hf.
  destruct e as [m t t'|m t|m t t'|m t t' t'']; cbn [event_model last_reading run_event spec_op] in *.
  - destruct (spec_allow t' (access t (f m))) as [a s] eqn:Hsp.
    pose proof (touch_refines M T t t' m (λ c, admit_call cfg (half_open cfg t' c)) b f a s) as Ht.
    assert (allowRequest cfg hash t t' m b = on_shard hash m (λ s,
      let '(c, s) := circuitFor cfg t m s in
      let '(a, c) := admit_call cfg (half_open cfg t' c) in (a, store_circuit m c s)) b) as ->.
    { apply on_shard_ext. intros s0. unfold evaluateEffectiveState. destruct (circuitFor cfg t m s0).
      destruct (admit_call _ _). by rw store_twice. }
    destruct (on_shard _ _ _ _) as [x' b']. destruct Ht as (-> & Hb' & Hcur); [done..| | |done].
    + unfold spec_allow in Hsp. repeat case_match; by simplify_eq/=.
    + intros Hag. pose proof (agrees_allow _ t' _ _ HT Hag) as Ha. rw Hsp in Ha.
      destruct (admit_call _ _). destruct Ha as [<- Ha]. done.
  - pose proof (touch_refines M T t t m (λ c, (tt, close_circuit c)) b f tt
      (spec_success (access t (f m)))) as Ht. cbv beta iota in Ht.
    unfold recordSuccess. destruct (on_shard _ _ _ _) as [x' b'].
    destruct Ht as (_ & Hb' & Hcur); [done..| |done]. intros _. split; [done|apply agrees_success].
  - pose proof (touch_refines M T t t' m (λ c, (tt, fail_circuit cfg t' c)) b f tt
      (spec_failure t' (access t (f m)))) as Ht. cbv beta iota in Ht.
    unfold recordFailure. destruct (on_shard _ _ _ _) as [x' b'].
    destruct Ht as (_ & Hb' & Hcur); [done..| |done]. intros Hag. split; [done|by eapply agrees_failure].
  - by apply state_refines.
Qed.

(** For every model, its readings go forward. *)
Fixpoint chronological (T : string → Z) (es : list Event) : Prop :=
  match es with
  | [] => True
  | e :: es =>
      T (event_model e) <= last_reading e ∧
      chronological (λ m, if decide (m = event_model e) then last_reading e else T m) es
  end.

Lemma events_refine (M : gset string) T es b f :
  Z.of_nat (size M) <= per_shard_cap cfg →
  chronological T es → Forall (λ e, event_model e ∈ M) es → within M b →
  (∀ m, entry_agrees (T m) (current b m) (f m)) → run_events es b = spec_events es f.
Proof.
  intros Hcap. revert T b f. induction es as [|e es IH]; intros T b f Hch HM Hb Hf; [done|].
  destruct Hch as [HT Hch]. apply Forall_cons in HM as [He HM]. cbn [run_events spec_events].
  pose proof (event_refines M T e b f Hcap HT He Hb Hf) as Hstep.
  destruct (run_event e b) as [a b']. destruct (spec_op e (f (event_model e))) as [a' s].
  destruct Hstep as (-> & Hb' & Hf'). f_equal. by eapply IH.
Qed.

End spec.

(** ** Properties *)

(** C15. Whatever the thresholds and the idle time-to-live, for any sequence of
    [allowRequest], [recordSuccess], [recordFailure] and [state] on no more
    models than a shard holds, in which the clock does not go back for any one
    model (each operation holds the mutex of the model's shard), the breaker
    answers as the documented policy: a model is admitted while it has fewer
    than [failure_threshold] (at least one) failures since its last success;
    otherwise only once [reset_timeout] has passed since the last failure, and
    then for at most [half_open_max_calls] calls until an outcome is recorded;
    and a model not used for longer than [circuit_idle_ttl], where that is not
    0, starts anew. *)
Theorem breaker_refines cfg hash T es :
  chronological T es →
  Z.of_nat (size (list_to_set (event_model <$> es) : gset string)) <= per_shard_cap cfg →
  run_events cfg hash es empty_breaker = spec_events cfg es (λ _, no_history).
Proof.
  intros Hch Hcap.
  apply (events_refine cfg hash (list_to_set (event_model <$> es)) T); [done..| | |].
  - apply Forall_forall. intros e He. apply elem_of_list_to_set. by apply list_elem_of_fmap_2.
  - split; [done|]. intros s Hs. unfold empty_breaker in Hs.
    apply elem_of_replicate in Hs as [-> _]. cbn. by rw dom_empty_L.
  - intros m. assert (current hash empty_breaker m = None) as ->; [|done].
    unfold current, empty_breaker. rw lookup_replicate_2; [done|apply shardFor_lt].
Qed.

Definition sample_config : CircuitConfig :=
  {| failure_threshold := 3; reset_timeout := 30; half_open_max_calls := 1;
     max_circuits := 512; circuit_idle_ttl := 120 |}.

(** Three failures, a call too early, a probe, a second call, a success; and
    three failures that are forgotten. *)
Definition sample_events : list Event :=
  [EFailure "m" 1 1; EFailure "m" 2 2; EFailure "m" 3 3; EAllow "m" 4 4; EAllow "n" 5 5;
   EAllow "m" (31 * second) (31 * second); EAllow "m" (32 * second) (32 * second);
   EState "m" (33 * second) (33 * second) (33 * second); ESuccess "m" (34 * second);
   EAllow "m" (35 * second) (35 * second); EFailure "n" (36 * second) (36 * second);
   EFailure "n" (36 * second) (36 * second); EFailure "n" (36 * second) (36 * second);
   EAllow "n" (37 * second) (37 * second); EAllow "n" (158 * second) (158 * second)].

Lemma breaker_refines_witness :
  run_events sample_config (λ m, Z.of_nat (String.length m)) sample_events empty_breaker =
    spec_events sample_config sample_events (λ _, no_history) ∧
  spec_events sample_config sample_events (λ _, no_history) =
    [Recorded; Recorded; Recorded; Allowed false; Allowed true; Allowed true;
     Allowed false; Reported HalfOpen; Recorded; Allowed true; Recorded; Recorded; Recorded;
     Allowed false; Allowed true].
Proof.
  split; [|by vm_compute].
  apply (breaker_refines sample_config (λ m, Z.of_nat (String.length m)) (λ _, 0)); [|by vm_compute].
  repeat split; vm_compute; discriminate.
Defined.

End CircuitBreaker.
