(* ===== verification/ErrorCodes.v ===== *)
(** * ErrorCodes: the gateway's structured error codes

    Models [src/include/aegisgate/error_codes.h]: the AEGIS-xxxx codes with
    their category, HTTP status and default message, the typed exceptions of
    the upstream path and the mapping of an upstream status. *)
From S2P Require Import Prelude.
From stdpp Require Import pretty.
Local Open Scope Z_scope.

Module ErrorCodes.

Inductive ErrorCode :=
| InvalidApiKey | InsufficientPermissions | InvalidAdminKey | ApiKeyExpired
| ApiKeyRevoked | AccountDisabled | TenantSuspended | CrossTenantDenied | SsoConfigMissing
| SsoCallbackInvalid | SsoTokenInvalid | SsoProviderError | SsoAccountNotMapped
| MfaRequired | MfaInvalidCode | MfaNotSetup | MfaRecoveryUsed | SessionExpired
| SessionNotFound | SessionLimitReached | ScimTokenInvalid | RateLimitExceeded
| QuotaExceeded | AbuseDetected | CostLimitExceeded | ModalityQuotaExceeded
| InjectionDetected | PiiBlocked | TopicViolation | ContentFiltered | EncodingAttack
| NoModelAvailable | CircuitBreakerOpen | UpstreamTimeout | UpstreamError
| ModelNotAllowed | UnsupportedEndpoint | NoHealthyKeys | InvalidRequest | PayloadTooLarge
| MissingRequiredField | TenantNameExists | UsernameExists | BudgetExceeded
| AutonomyDisabled | ApprovalNotFound | ApprovalStateInvalid | PayloadTampered
| NotInitialized | InternalError | CacheUnavailable.
#[global] Instance ErrorCode_eq_dec : EqDecision ErrorCode.
Proof. solve_decision. Defined.

(** The enumerators' values ([static_cast<int>]). *)
Definition code_value (code : ErrorCode) : Z :=
  match code with
  | InvalidApiKey => 1001
  | InsufficientPermissions => 1002
  | InvalidAdminKey => 1003
  | ApiKeyExpired => 1004
  | ApiKeyRevoked => 1005
  | AccountDisabled => 1006
  | TenantSuspended => 1007
  | CrossTenantDenied => 1008
  | SsoConfigMissing => 1010
  | SsoCallbackInvalid => 1011
  | SsoTokenInvalid => 1012
  | SsoProviderError => 1013
  | SsoAccountNotMapped => 1014
  | MfaRequired => 1020
  | MfaInvalidCode => 1021
  | MfaNotSetup => 1022
  | MfaRecoveryUsed => 1023
  | SessionExpired => 1030
  | SessionNotFound => 1031
  | SessionLimitReached => 1032
  | ScimTokenInvalid => 1040
  | RateLimitExceeded => 2001
  | QuotaExceeded => 2002
  | AbuseDetected => 2003
  | CostLimitExceeded => 2004
  | ModalityQuotaExceeded => 2005
  | InjectionDetected => 3001
  | PiiBlocked => 3002
  | TopicViolation => 3003
  | ContentFiltered => 3004
  | EncodingAttack => 3005
  | NoModelAvailable => 4001
  | CircuitBreakerOpen => 4002
  | UpstreamTimeout => 4003
  | UpstreamError => 4004
  | ModelNotAllowed => 4005
  | UnsupportedEndpoint => 4006
  | NoHealthyKeys => 4007
  | InvalidRequest => 5001
  | PayloadTooLarge => 5002
  | MissingRequiredField => 5003
  | TenantNameExists => 5010
  | UsernameExists => 5011
  | BudgetExceeded => 6001
  | AutonomyDisabled => 6002
  | ApprovalNotFound => 6003
  | ApprovalStateInvalid => 6004
  | PayloadTampered => 6005
  | NotInitialized => 9001
  | InternalError => 9002
  | CacheUnavailable => 9003
  end.

(** [std::to_string] on an [int]. *)
Definition to_string (n : Z) : string := pretty n.

Definition toAegisCode (code : ErrorCode) : string := "AEGIS-" +:+ to_string (code_value code).

Definition toErrorType (code : ErrorCode) : string :=
  let category := Z.quot (code_value code) 1000 in
  if category =? 1 then "authentication_error"
  else if category =? 2 then "rate_limit_error"
  else if category =? 3 then "security_error"
  else if category =? 4 then "routing_error"
  else if category =? 5 then "validation_error"
  else if category =? 6 then "autonomy_error"
  else if category =? 9 then "system_error"
  else "unknown_error".

Definition toHttpStatus (code : ErrorCode) : Z :=
  match code with
  | InvalidApiKey => 401
  | InsufficientPermissions => 403
  | InvalidAdminKey => 401
  | ApiKeyExpired => 401
  | ApiKeyRevoked => 401
  | AccountDisabled => 403
  | TenantSuspended => 403
  | CrossTenantDenied => 403
  | SsoConfigMissing => 404
  | SsoCallbackInvalid => 400
  | SsoTokenInvalid => 401
  | SsoProviderError => 502
  | SsoAccountNotMapped => 403
  | MfaRequired => 403
  | MfaInvalidCode => 401
  | MfaNotSetup => 400
  | MfaRecoveryUsed => 410
  | SessionExpired => 401
  | SessionNotFound => 401
  | SessionLimitReached => 429
  | ScimTokenInvalid => 401
  | RateLimitExceeded => 429
  | QuotaExceeded => 429
  | AbuseDetected => 429
  | CostLimitExceeded => 429
  | ModalityQuotaExceeded => 429
  | InjectionDetected => 403
  | PiiBlocked => 403
  | TopicViolation => 403
  | ContentFiltered => 403
  | EncodingAttack => 403
  | NoModelAvailable => 503
  | CircuitBreakerOpen => 503
  | UpstreamTimeout => 504
  | UpstreamError => 502
  | NoHealthyKeys => 503
  | ModelNotAllowed => 403
  | UnsupportedEndpoint => 404
  | InvalidRequest => 400
  | PayloadTooLarge => 413
  | MissingRequiredField => 400
  | TenantNameExists => 409
  | UsernameExists => 409
  | BudgetExceeded => 429
  | AutonomyDisabled => 503
  | ApprovalNotFound => 404
  | ApprovalStateInvalid => 409
  | PayloadTampered => 422
  | NotInitialized => 503
  | InternalError => 500
  | CacheUnavailable => 503
  end.

Definition toDefaultMessage (code : ErrorCode) : string :=
  match code with
  | InvalidApiKey => "Invalid or missing API key"
  | InsufficientPermissions => "Insufficient permissions"
  | InvalidAdminKey => "Invalid or missing admin API key"
  | ApiKeyExpired => "API key has expired"
  | ApiKeyRevoked => "API key has been revoked"
  | AccountDisabled => "User account is disabled"
  | TenantSuspended => "Tenant has been suspended"
  | CrossTenantDenied => "Cross-tenant access denied"
  | SsoConfigMissing => "SSO not configured for this tenant"
  | SsoCallbackInvalid => "Invalid SSO callback parameters"
  | SsoTokenInvalid => "SSO token signature verification failed"
  | SsoProviderError => "SSO identity provider communication error"
  | SsoAccountNotMapped => "External identity not mapped to a local account"
  | MfaRequired => "Multi-factor authentication required"
  | MfaInvalidCode => "Invalid MFA verification code"
  | MfaNotSetup => "MFA has not been set up for this account"
  | MfaRecoveryUsed => "Recovery code already used"
  | SessionExpired => "Session has expired"
  | SessionNotFound => "Session not found"
  | SessionLimitReached => "Maximum concurrent sessions reached"
  | ScimTokenInvalid => "Invalid or expired SCIM token"
  | RateLimitExceeded => "Rate limit exceeded"
  | QuotaExceeded => "Quota exceeded"
  | AbuseDetected => "Temporarily blocked due to repeated security violations"
  | CostLimitExceeded => "Tenant cost limit exceeded"
  | ModalityQuotaExceeded => "Modality quota exceeded"
  | InjectionDetected => "Request blocked: injection attack detected"
  | PiiBlocked => "Request blocked: sensitive information detected"
  | TopicViolation => "Request blocked: topic not allowed"
  | ContentFiltered => "Response blocked by output guardrail"
  | EncodingAttack => "Request blocked: encoding attack detected"
  | NoModelAvailable => "No model available for routing"
  | CircuitBreakerOpen => "Service temporarily unavailable (circuit breaker open)"
  | UpstreamTimeout => "Upstream model request timed out"
  | UpstreamError => "All upstream models failed"
  | NoHealthyKeys => "No healthy API keys available for the selected provider"
  | ModelNotAllowed => "Model not in tenant whitelist"
  | UnsupportedEndpoint => "Endpoint not supported by the target provider"
  | InvalidRequest => "Invalid request body"
  | PayloadTooLarge => "Request body exceeds maximum allowed size"
  | MissingRequiredField => "Required field is missing"
  | TenantNameExists => "Tenant name already exists"
  | UsernameExists => "Username already exists in this tenant"
  | BudgetExceeded => "Tenant budget exceeded; request downgraded to economy tier"
  | AutonomyDisabled => "Autonomy workflow is disabled via kill switch or config"
  | ApprovalNotFound => "Approval proposal not found"
  | ApprovalStateInvalid => "Approval state transition not allowed from current state"
  | PayloadTampered => "Approval payload integrity check failed (SHA-256 mismatch)"
  | NotInitialized => "Gateway not initialized"
  | InternalError => "Internal server error"
  | CacheUnavailable => "Semantic cache is not enabled"
  end.

(** The exceptions of the upstream path; [what] is the message. *)
Inductive Exception :=
| NoHealthyKeysError (what : string)
| UpstreamStatusError (upstream_status : Z) (what : string)
| CircuitBreakerOpenError (what : string)
| RuntimeError (what : string).

Definition what (e : Exception) : string :=
  match e with
  | NoHealthyKeysError w | UpstreamStatusError _ w
  | CircuitBreakerOpenError w | RuntimeError w => w
  end.

Definition mapUpstreamStatus (upstream_status : Z) : Z * ErrorCode :=
  if (upstream_status =? 408) || (upstream_status =? 504) then (504, UpstreamTimeout)
  else if (upstream_status <? 400) || (599 <? upstream_status) then (502, UpstreamError)
  else (upstream_status, UpstreamError).

(** [struct GatewayError]. *)
Record GatewayError := {
  http_status : Z;
  error_code : string;
  error_type : string;
  message : string;
  internal_detail : string;
}.

End ErrorCodes.
