(* ===== verification/Fallback.v ===== *)
(** * Fallback: model fallback on top of the circuit breaker

    Models [src/src/gateway/fallback.cpp], [findByModel] of
    [src/src/gateway/connector/registry.cpp] and the error surfacing of
    [src/src/server/gateway_runtime.cpp].  The manager is written against an
    interface of the breaker ([BreakerOps]), which [CircuitBreaker] implements.
    A connector is its two virtual calls on the state of the upstreams: one
    answers or throws, the other delivers deltas and ends with exactly one of
    [onDone] and [onError]. *)
From S2P Require Import Prelude.
From S2P Require Import CircuitBreaker.
From S2P Require Import ErrorCodes.
Import ErrorCodes.
Local Open Scope Z_scope.

Module Fallback.

(** What the manager uses of its circuit breaker. *)
Class BreakerOps (B : Type) := {
  allow_request : string → B → bool * B;
  record_success : string → B → B;
  record_failure : string → B → B;
}.

(** [struct ChatRequest]: the model and the other fields. *)
Record ChatRequest (R : Type) := mk_request {
  model : string;
  rest : R;
}.
Arguments mk_request {_}.
Arguments model {_}.
Arguments rest {_}.

(** The virtual calls of a [ModelConnector]; [C] is the upstreams' state. *)
Record Connector (R C Resp Delta Usage : Type) := mk_connector {
  supportsModel : string → bool;
  complete : ChatRequest R → C → (Exception + Resp) * C;
  streamComplete : ChatRequest R → C → (list Delta * (GatewayError + Usage)) * C;
}.
Arguments mk_connector {_ _ _ _ _}.
Arguments supportsModel {_ _ _ _ _}.
Arguments complete {_ _ _ _ _}.
Arguments streamComplete {_ _ _ _ _}.

(** [chains_]: the fallbacks of each primary model. *)
Definition Chains := gmap string (list string).

Definition setChain (primary : string) (fallbacks : list string) (chains : Chains) : Chains :=
  <[primary := fallbacks]> chains.

Definition getChain (model : string) (chains : Chains) : list string :=
  default [] (chains !! model).

Definition candidates (chains : Chains) (primary : string) : list string :=
  primary :: match chains !! primary with Some models => models | None => [] end.

(** A callback the client of a stream receives. *)
Inductive Callback (Delta Usage : Type) :=
| OnDelta (d : Delta)
| OnDone (u : Usage)
| OnError (e : GatewayError).
Arguments OnDelta {_ _}.
Arguments OnDone {_ _}.
Arguments OnError {_ _}.

Section fallback.
Context {B R C Resp Delta Usage : Type} {brk : BreakerOps B}.
Context (registry : list (Connector R C Resp Delta Usage)).

Fixpoint findByModel (conns : list (Connector R C Resp Delta Usage)) (m : string) :
    option (Connector R C Resp Delta Usage) :=
  match conns with
  | [] => None
  | c :: conns => if supportsModel c m then Some c else findByModel conns m
  end.

(** The locals of [executeWithFallback]. *)
Record Progress := {
  last_error : string;
  any_attempt : bool;
  all_no_keys : bool;
  any_circuit_open : bool;
  saw_upstream_status : bool;
  last_upstream_status : Z;
}.

Definition no_progress : Progress :=
  {| last_error := ""; any_attempt := false; all_no_keys := true; any_circuit_open := false;
     saw_upstream_status := false; last_upstream_status := 0 |}.

Definition note_skip (p : Progress) : Progress :=
  {| last_error := last_error p; any_attempt := any_attempt p; all_no_keys := all_no_keys p;
     any_circuit_open := true; saw_upstream_status := saw_upstream_status p;
     last_upstream_status := last_upstream_status p |}.

(** The handler of an exception from [complete]. *)
Definition note_failure (e : Exception) (p : Progress) : Progress :=
  {| last_error := what e; any_attempt := true;
     all_no_keys := match e with NoHealthyKeysError _ => all_no_keys p | _ => false end;
     any_circuit_open := any_circuit_open p;
     saw_upstream_status :=
       match e with UpstreamStatusError _ _ => true | _ => saw_upstream_status p end;
     last_upstream_status :=
       match e with UpstreamStatusError s _ => s | _ => last_upstream_status p end |}.

(** What is thrown once the candidates are exhausted. *)
Definition exhausted (primary : string) (p : Progress) : Exception :=
  if any_attempt p && all_no_keys p then
    NoHealthyKeysError (toAegisCode NoHealthyKeys +:+ ": " +:+ toDefaultMessage NoHealthyKeys
                        +:+ ". Last error: " +:+ last_error p)
  else if saw_upstream_status p then
    UpstreamStatusError (last_upstream_status p)
      (toAegisCode UpstreamError +:+ ": upstream returned "
       +:+ to_string (last_upstream_status p) +:+ ". Last error: " +:+ last_error p)
  else if negb (any_attempt p) && any_circuit_open p then
    CircuitBreakerOpenError (toAegisCode CircuitBreakerOpen +:+ ": "
                             +:+ toDefaultMessage CircuitBreakerOpen +:+ " for " +:+ primary)
  else
    RuntimeError (toAegisCode UpstreamError +:+ ": " +:+ toDefaultMessage UpstreamError
                  +:+ ". Last error: " +:+ last_error p).

Fixpoint execute_loop (req : ChatRequest R) (primary : string) (ms : list string)
    (p : Progress) (b : B) (c : C) : (Exception + Resp) * (B * C) :=
  match ms with
  | [] => (inl (exhausted primary p), (b, c))
  | m :: ms =>
      let '(ok, b) := allow_request m b in
      if negb ok then execute_loop req primary ms (note_skip p) b c
      else match findByModel registry m with
           | None => execute_loop req primary ms p b c
           | Some conn =>
               match complete conn (mk_request m (rest req)) c with
               | (inr resp, c) => (inr resp, (record_success m b, c))
               | (inl e, c) =>
                   execute_loop req primary ms (note_failure e p) (record_failure m b) c
               end
           end
  end.

Definition executeWithFallback (chains : Chains) (req : ChatRequest R) (primary : string)
    (b : B) (c : C) : (Exception + Resp) * (B * C) :=
  execute_loop req primary (candidates chains primary) no_progress b c.

(** The mutable fields of [StreamFallbackState]. *)
Record StreamState := {
  chunks_sent : bool;
  stream_attempt : bool;
  stream_circuit_open : bool;
  last_err : GatewayError;
}.

Definition new_stream : StreamState :=
  {| chunks_sent := false; stream_attempt := false; stream_circuit_open := false;
     last_err := {| http_status := 502; error_code := toAegisCode UpstreamError;
                    error_type := toErrorType UpstreamError;
                    message := toDefaultMessage UpstreamError;
                    internal_detail := "All models in fallback chain failed" |} |}.

Definition circuit_open_error : GatewayError :=
  {| http_status := toHttpStatus CircuitBreakerOpen;
     error_code := toAegisCode CircuitBreakerOpen;
     error_type := toErrorType CircuitBreakerOpen;
     message := toDefaultMessage CircuitBreakerOpen;
     internal_detail := "All fallback candidates skipped (circuit breaker open)" |}.

(** [tryStreamModel] on the candidates from [idx] on; the client's callbacks
    are returned in order. *)
Fixpoint tryStreamModel (base_req : ChatRequest R) (ms : list string) (st : StreamState)
    (b : B) (c : C) : list (Callback Delta Usage) * (B * C) :=
  match ms with
  | [] => ([OnError (if negb (stream_attempt st) && stream_circuit_open st
                     then circuit_open_error else last_err st)], (b, c))
  | m :: ms =>
      let '(ok, b) := allow_request m b in
      if negb ok then
        tryStreamModel base_req ms
          {| chunks_sent := chunks_sent st; stream_attempt := stream_attempt st;
             stream_circuit_open := true; last_err := last_err st |} b c
      else match findByModel registry m with
           | None => tryStreamModel base_req ms st b c
           | Some conn =>
               let '(deltas, ending, c) := streamComplete conn (mk_request m (rest base_req)) c in
               let sent := chunks_sent st || negb (bool_decide (deltas = [])) in
               match ending with
               | inr usage => (map OnDelta deltas ++ [OnDone usage], (record_success m b, c))
               | inl err =>
                   let b := record_failure m b in
                   if sent then (map OnDelta deltas ++ [OnError err], (b, c))
                   else
                     let '(out, w) :=
                       tryStreamModel base_req ms
                         {| chunks_sent := sent; stream_attempt := true;
                            stream_circuit_open := stream_circuit_open st; last_err := err |} b c in
                     (map OnDelta deltas ++ out, w)
               end
           end
  end.

Definition streamWithFallback (chains : Chains) (req : ChatRequest R) (primary : string)
    (b : B) (c : C) : list (Callback Delta Usage) * (B * C) :=
  tryStreamModel req (candidates chains primary) new_stream b c.

End fallback.

(** How [processRequest] reports an exception of the fallback manager. *)
Definition surface (e : Exception) : GatewayError :=
  match e with
  | NoHealthyKeysError w =>
      {| http_status := toHttpStatus NoHealthyKeys; error_code := toAegisCode NoHealthyKeys;
         error_type := toErrorType NoHealthyKeys; message := toDefaultMessage NoHealthyKeys;
         internal_detail := w |}
  | CircuitBreakerOpenError w =>
      {| http_status := toHttpStatus CircuitBreakerOpen;
         error_code := toAegisCode CircuitBreakerOpen;
         error_type := toErrorType CircuitBreakerOpen;
         message := toDefaultMessage CircuitBreakerOpen; internal_detail := w |}
  | UpstreamStatusError s w =>
      let '(status, code) := mapUpstreamStatus s in
      {| http_status := status; error_code := toAegisCode code; error_type := toErrorType code;
         message := "Upstream returned " +:+ to_string s; internal_detail := w |}
  | RuntimeError w =>
      {| http_status := 502; error_code := toAegisCode UpstreamError;
         error_type := toErrorType UpstreamError; message := toDefaultMessage UpstreamError;
         internal_detail := w |}
  end.

(** ** The breaker behind the interface *)

(** The breaker with the steady clock's readings; [tick] have been taken. *)
Record TimedBreaker := {
  clock : nat → Z;
  tick : nat;
  shards : list CircuitBreaker.Shard;
}.

#[global] Instance circuit_breaker_ops (cfg : CircuitBreaker.CircuitConfig) (hash : string → Z) :
  BreakerOps TimedBreaker := {
  allow_request m b :=
    let '(r, s) := CircuitBreaker.allowRequest cfg hash (clock b (tick b))
                     (clock b (S (tick b))) m (shards b) in
    (r, {| clock := clock b; tick := 2 + tick b; shards := s |});
  record_success m b :=
    {| clock := clock b; tick := 1 + tick b;
       shards := (CircuitBreaker.recordSuccess cfg hash (clock b (tick b)) m (shards b)).2 |};
  record_failure m b :=
    {| clock := clock b; tick := 2 + tick b;
       shards := (CircuitBreaker.recordFailure cfg hash (clock b (tick b))
                    (clock b (S (tick b))) m (shards b)).2 |};
}.

(** ** What happened to each candidate *)

Inductive Attempt (A : Type) :=
| Skipped
| NotFound
| Tried (a : A).
Arguments Skipped {_}.
Arguments NotFound {_}.
Arguments Tried {_}.

Definition tried {A} (t : Attempt A) : option A :=
  match t with Tried a => Some a | _ => None end.

Definition is_skip {A} (t : Attempt A) : bool :=
  match t with Skipped => true | _ => false end.

Definition failure {A} (a : Exception + A) : option Exception :=
  match a with inl e => Some e | inr _ => None end.

Definition status_of (e : Exception) : option Z :=
  match e with UpstreamStatusError s _ => Some s | _ => None end.

Definition is_no_keys (e : Exception) : bool :=
  match e with NoHealthyKeysError _ => true | _ => false end.

Section outcomes.
Context {B R C Resp Delta Usage : Type} {brk : BreakerOps B}.
Context (registry : list (Connector R C Resp Delta Usage)).

(** One candidate: admitted by the breaker, called, its outcome recorded. *)
Definition attempt {A} (call : Connector R C Resp Delta Usage → ChatRequest R → C → A * C)
    (good : A → bool) (req : ChatRequest R) (m : string) (w : B * C) : Attempt A * (B * C) :=
  let '(ok, b) := allow_request m w.1 in
  match ok, findByModel registry m with
  | false, _ => (Skipped, (b, w.2))
  | true, None => (NotFound, (b, w.2))
  | true, Some conn =>
      let '(a, c) := call conn (mk_request m (rest req)) w.2 in
      (Tried a, (if good a then record_success m b else record_failure m b, c))
  end.

(** The candidates in order, up to and including the first that ends the
    search. *)
Fixpoint attempts {A} (call : Connector R C Resp Delta Usage → ChatRequest R → C → A * C)
    (good stop : A → bool) (req : ChatRequest R) (ms : list string) (w : B * C) :
    list (Attempt A) * (B * C) :=
  match ms with
  | [] => ([], w)
  | m :: ms =>
      let '(t, w) := attempt call good req m w in
      if from_option stop false (tried t) then ([t], w)
      else let '(ts, w) := attempts call good stop req ms w in (t :: ts, w)
  end.

Definition answered (a : Exception + Resp) : bool :=
  match a with inl _ => false | inr _ => true end.

Definition finished (a : list Delta * (GatewayError + Usage)) : bool :=
  match a with (_, inr _) => true | (_, inl _) => false end.

(** A stream is settled once it ended well or the client has seen a delta. *)
Definition settled (a : list Delta * (GatewayError + Usage)) : bool :=
  match a with ([], inl _) => false | _ => true end.

(** The reading of the documentation: which exception the failures [es]
    deserve when nobody answered. *)
Definition verdict (primary : string) (es : list Exception) (skipped : bool) : Exception :=
  let tail := ". Last error: " +:+ default "" (what <$> list.last es) in
  if bool_decide (es ≠ []) && forallb is_no_keys es then
    NoHealthyKeysError (toAegisCode NoHealthyKeys +:+ ": " +:+ toDefaultMessage NoHealthyKeys
                        +:+ tail)
  else match list.last (omap status_of es) with
       | Some s => UpstreamStatusError s (toAegisCode UpstreamError +:+ ": upstream returned "
                                          +:+ to_string s +:+ tail)
       | None =>
           if bool_decide (es = []) && skipped then
             CircuitBreakerOpenError (toAegisCode CircuitBreakerOpen +:+ ": "
               +:+ toDefaultMessage CircuitBreakerOpen +:+ " for " +:+ primary)
           else RuntimeError (toAegisCode UpstreamError +:+ ": "
                              +:+ toDefaultMessage UpstreamError +:+ tail)
       end.

(** The progress record summarises the candidates seen. *)
Definition summarises (p : Progress) (es : list Exception) (skipped : bool) : Prop :=
  last_error p = default "" (what <$> list.last es) ∧
  any_attempt p = bool_decide (es ≠ []) ∧
  all_no_keys p = forallb is_no_keys es ∧
  any_circuit_open p = skipped ∧
  saw_upstream_status p = bool_decide (is_Some (list.last (omap status_of es))) ∧
  (∀ s, list.last (omap status_of es) = Some s → last_upstream_status p = s).

Definition failures (tr : list (Attempt (Exception + Resp))) : list Exception :=
  omap failure (omap tried tr).

Definition stream_errors (tr : list (Attempt (list Delta * (GatewayError + Usage)))) :
    list GatewayError :=
  omap (λ a, match a.2 with inl e => Some e | inr _ => None end) (omap tried tr).

Lemma summarises_failure p es skipped e :
  summarises p es skipped → summarises (note_failure e p) (es ++ [e]) skipped.
Proof.
  intros (He & Ha & Hn & Ho & Hs & Hl). rw /summarises omap_app !last_snoc.
  split_and!; simpl; try done.
  - rw bool_decide_eq_true_2 //. by destruct es.
  - rw forallb_app Hn /=. destruct e; by rw /= ?andb_true_r ?andb_false_r.
  - destruct e; simpl; rw ?app_nil_r ?last_snoc //.
  - destruct e; simpl; rw ?app_nil_r ?last_snoc //. by intros s [= <-].
Qed.

Lemma summarises_skip p es skipped :
  summarises p es skipped → summarises (note_skip p) es true.
Proof. by intros (?&?&?&?&?&?). Qed.

Lemma exhausted_verdict primary p es skipped :
  summarises p es skipped → exhausted primary p = verdict primary es skipped.
Proof.
  intros (He & Ha & Hn & Ho & Hs & Hl). rw /exhausted /verdict He Ha Hn Ho Hs.
  case_match; [done|]. destruct (list.last (omap status_of es)) as [s|] eqn:E.
  - rw bool_decide_eq_true_2 //. by rw (Hl s).
  - rw bool_decide_eq_false_2; [|by intros []]. by destruct es.
Qed.

Lemma execute_loop_attempts req primary ms p es skipped b c :
  summarises p es skipped →
  execute_loop registry req primary ms p b c =
  let '(tr, w) := attempts complete answered answered req ms (b, c) in
  (match list.last tr with
   | Some (Tried (inr r)) => inr r
   | _ => inl (verdict primary (es ++ failures tr) (skipped || existsb is_skip tr))
   end, w).
Proof.
  revert p es skipped b c. induction ms as [|m ms IH]; intros p es skipped b c Hp.
  { by rw /= app_nil_r orb_false_r (exhausted_verdict _ _ _ _ Hp). }
  cbn [execute_loop attempts]. rw /attempt /=.
  destruct (allow_request m b) as [[] b1]; simpl.
  2:{ rw (IH _ es true); [|by eapply summarises_skip].
      destruct (attempts _ _ _ _ _ _) as [tr w]. rw last_cons orb_true_r /=.
      by destruct (list.last tr). }
  destruct (findByModel registry m) as [conn|] eqn:E; simpl.
  2:{ rw (IH _ es skipped) //. destruct (attempts _ _ _ _ _ _) as [tr w].
      rw last_cons /=. by destruct (list.last tr). }
  destruct (complete conn _ c) as [[e|r] c1]; simpl; [|done].
  rw (IH _ (es ++ [e]) skipped); [|by apply summarises_failure].
  destruct (attempts _ _ _ _ _ _) as [tr w]. rw last_cons -assoc /=.
  by destruct (list.last tr).
Qed.

(** The deltas a settled stream sends reach the client; the others sent none. *)
Lemma try_stream_attempts req ms st b c :
  chunks_sent st = false →
  tryStreamModel registry req ms st b c =
  let '(tr, w) := attempts streamComplete finished settled req ms (b, c) in
  (match list.last tr with
   | Some (Tried (ds, inr u)) => map OnDelta ds ++ [OnDone u]
   | Some (Tried (d :: ds, inl e)) => map OnDelta (d :: ds) ++ [OnError e]
   | _ => match list.last (stream_errors tr) with
          | Some e => [OnError e]
          | None => [OnError (if negb (stream_attempt st) &&
                                 (stream_circuit_open st || existsb is_skip tr)
                              then circuit_open_error else last_err st)]
          end
   end, w).
Proof.
  revert st b c. induction ms as [|m ms IH]; intros st b c Hst.
  { by rw /= orb_false_r. }
  cbn [tryStreamModel attempts]. rw /attempt /=.
  destruct (allow_request m b) as [[] b1]; simpl.
  2:{ rw IH //. destruct (attempts _ _ _ _ _ _) as [tr w]. rw last_cons orb_true_r /=.
      by destruct (list.last tr). }
  destruct (findByModel registry m) as [conn|] eqn:E; simpl.
  2:{ rw IH //. destruct (attempts _ _ _ _ _ _) as [tr w]. rw last_cons /=.
      by destruct (list.last tr). }
  destruct (streamComplete conn _ c) as [[[|d ds] [e|u]] c1]; simpl; rw ?Hst; try done.
  rw IH //. destruct (attempts _ _ _ _ _ _) as [tr w].
  rw (_ : stream_errors (Tried ([], inl e) :: tr) = e :: stream_errors tr) // !last_cons.
  destruct (list.last tr) as [[| |[[|??] [?|?]]]|]; try done;
    by destruct (list.last (stream_errors tr)).
Qed.
(** A trace stops at the first candidate that ends the search, and otherwise
    covers every candidate. *)
Definition first_stop {A} (stop : A → bool) (ms : list string) (tr : list (Attempt A)) : Prop :=
  let stops t := from_option stop false (tried t) in
  (Forall (λ t, stops t = false) tr ∧ length tr = length ms) ∨
  (∃ front t, tr = front ++ [t] ∧ Forall (λ t, stops t = false) front ∧ stops t = true ∧
              (length tr ≤ length ms)%nat).

Lemma attempts_first_stop {A}
    (call : Connector R C Resp Delta Usage → ChatRequest R → C → A * C) good stop req ms w :
  first_stop stop ms (attempts call good stop req ms w).1.
Proof.
  revert w. induction ms as [|m ms IH]; intros w; simpl; [by left|].
  destruct (attempt call good req m w) as [t w1].
  destruct (from_option stop false (tried t)) eqn:Et; simpl.
  { right. exists [], t. split_and!; simpl; [done|done|done|lia]. }
  specialize (IH w1). destruct (attempts call good stop req ms w1) as [tr w2]. simpl in *.
  destruct IH as [[H1 H2]|(front & t' & -> & H1 & H2 & H3)].
  - left. split; [by constructor|simpl; lia].
  - right. exists (t :: front), t'. split_and!; [done|by constructor|done|simpl in *; lia].
Qed.

(** The terminal callback a client of the stream receives. *)
Definition terminal (t : Callback Delta Usage) : Prop :=
  match t with OnDelta _ => False | _ => True end.

End outcomes.

Lemma map_upstream_status_range s : 400 ≤ (mapUpstreamStatus s).1 ≤ 599.
Proof. rw /mapUpstreamStatus. repeat case_match; simpl; bools; lia. Qed.

Lemma surface_verdict primary es skipped :
  http_status (surface (verdict primary es skipped)) =
  if bool_decide (es ≠ []) && forallb is_no_keys es then 503
  else match list.last (omap status_of es) with
       | Some s => (mapUpstreamStatus s).1
       | None => if bool_decide (es = []) && skipped then 503 else 502
       end.
Proof.
  rw /verdict /surface. destruct (_ && forallb _ _); [done|].
  destruct (list.last _) as [s|]; [by destruct (mapUpstreamStatus s)|].
  by destruct (_ && skipped).
Qed.

(** C28. The non-streaming fallback calls the primary model and then its chain
    in order, skipping open circuits and unknown models, records every call's
    outcome with the circuit breaker, and stops at the first answer.  When
    nobody answers it has considered every candidate, and the client sees 503
    (no healthy keys) when every call made ran out of keys, else the last
    definite upstream status, mapped into 400..599, else 503 when nothing was
    called and a circuit was open, else 502. *)
Theorem fallback_outcome {B R C Resp Delta Usage} {brk : BreakerOps B}
    (registry : list (Connector R C Resp Delta Usage)) chains req primary b c :
  let ms := candidates chains primary in
  let '(tr, w) := attempts registry complete answered answered req ms (b, c) in
  let es := failures tr in
  first_stop answered ms tr ∧
  (executeWithFallback registry chains req primary b c).2 = w ∧
  match (executeWithFallback registry chains req primary b c).1 with
  | inr r => list.last tr = Some (Tried (inr r))
  | inl e =>
      length tr = length ms ∧ 400 ≤ http_status (surface e) ≤ 599 ∧
      http_status (surface e) =
        if bool_decide (es ≠ []) && forallb is_no_keys es then 503
        else match list.last (omap status_of es) with
             | Some s => (mapUpstreamStatus s).1
             | None => if bool_decide (es = []) && existsb is_skip tr then 503 else 502
             end
  end.
Proof.
  pose proof (attempts_first_stop registry complete answered answered req
                (candidates chains primary) (b, c)) as Hs.
  cbv zeta. rw /executeWithFallback (execute_loop_attempts registry req primary _ no_progress [] false);
    [|by repeat split].
  destruct (attempts _ _ _ _ _ _ _) as [tr w]. cbn [fst snd] in *.
  split; [done|]. split; [done|].
  assert (∀ o, o = surface (verdict primary (failures tr) (existsb is_skip tr)) →
               400 ≤ http_status o ≤ 599) as Hr.
  { intros o ->. rw surface_verdict. repeat case_match; try lia.
    apply map_upstream_status_range. }
  destruct Hs as [[H1 H2]|(front & t & -> & H1 & H2 & H3)].
  - destruct (list.last tr) as [[| |[e|r]]|] eqn:El;
      try (split; [done|]; split; [by apply Hr|apply surface_verdict]).
    apply last_Some_elem_of in El. rw Forall_forall in H1. by specialize (H1 _ El).
  - rw last_snoc. by destruct t as [| |[e|r]].
Qed.

(** The streaming fallback delivers to the client the deltas of one
    candidate only, followed by exactly one terminal callback: it moves on to
    the next candidate only while no delta has been sent, so a client never
    sees output of two models mixed.  The terminal is the settled stream's own;
    when no stream settled it is the last stream error, or, if no stream was
    opened, the circuit-open error when a circuit was open and the generic 502
    otherwise. *)
Theorem stream_fallback_once {B R C Resp Delta Usage} {brk : BreakerOps B}
    (registry : list (Connector R C Resp Delta Usage)) chains req primary b c :
  let ms := candidates chains primary in
  let '(tr, w) := attempts registry streamComplete finished settled req ms (b, c) in
  let out := streamWithFallback registry chains req primary b c in
  first_stop settled ms tr ∧ out.2 = w ∧
  ∃ ds t, out.1 = map OnDelta ds ++ [t] ∧ terminal t ∧
    match list.last tr with
    | Some (Tried (ds', inr u)) => ds = ds' ∧ t = OnDone u
    | Some (Tried (d :: ds', inl e)) => ds = d :: ds' ∧ t = OnError e
    | _ => ds = [] ∧ t = OnError match list.last (stream_errors tr) with
                                 | Some e => e
                                 | None => if existsb is_skip tr then circuit_open_error
                                           else last_err new_stream
                                 end
    end.
Proof.
  pose proof (attempts_first_stop registry streamComplete finished settled req
                (candidates chains primary) (b, c)) as Hs.
  cbv zeta. rw /streamWithFallback (try_stream_attempts registry req _ new_stream) //.
  destruct (attempts _ _ _ _ _ _ _) as [tr w]. cbn [fst snd] in *.
  split; [done|]. split; [done|].
  destruct (list.last tr) as [[| |[[|d ds] [e|u]]]|].
  4-6: eexists _, _; split_and!; [done| |done|done]; done.
  all: destruct (list.last (stream_errors tr)); exists []; eexists;
    (split; [done|]); split; done.
Qed.

(** With a threshold of one failure, the second request no longer calls the
    failed primary: its upstream counts one call, the fallback's two. *)
Definition sample_connectors : list (Connector unit (nat * nat) string string string) :=
  [mk_connector (λ m, bool_decide (m = "a")) (λ _ c, (inl (UpstreamStatusError 503 "down"), (S c.1, c.2)))
     (λ _ c, (([], inl circuit_open_error), c));
   mk_connector (λ m, bool_decide (m = "b")) (λ _ c, (inr "hello", (c.1, S c.2)))
     (λ _ c, ((["x"], inr "u"), c))].

Definition sample_config : CircuitBreaker.CircuitConfig :=
  {| CircuitBreaker.failure_threshold := 1; CircuitBreaker.reset_timeout := 30;
     CircuitBreaker.half_open_max_calls := 1; CircuitBreaker.max_circuits := 100;
     CircuitBreaker.circuit_idle_ttl := 0 |}.

Example fallback_trips_primary :
  let call := @executeWithFallback _ _ _ _ _ _ (circuit_breaker_ops sample_config (λ _, 0))
                sample_connectors (setChain "a" ["b"] ∅) (mk_request "a" tt) "a" in
  let b := {| clock := Z.of_nat; tick := 0; shards := CircuitBreaker.empty_breaker |} in
  let '(r1, (b, c)) := call b (0, 0)%nat in
  let '(r2, (_, c)) := call b c in
  (r1, r2, c) = (inr "hello", inr "hello", (1, 2)%nat).
Proof. vm_compute. reflexivity. Qed.
End Fallback.
