(* ===== verification/ToolSandbox.v ===== *)
(** * ToolSandbox: the tool registry and the guarded execution of tools

    Models [src/src/agent/tool_registry.cpp] and
    [src/src/agent/tool_sandbox.cpp].  The executor is a parameter: it
    answers or throws a [std::exception].  [None] stands for an exception that
    leaves [execute] or [validateCall]: a [required] entry of a schema that is
    not a string makes [get<std::string>] throw. *)
From S2P Require Import Prelude.
From S2P Require Import Json.
Import Json.
Local Open Scope Z_scope.

Module ToolSandbox.

(** [struct ToolDefinition]. *)
Record ToolDefinition := {
  td_id : string;
  td_name : string;
  td_description : string;
  td_version : string;
  parameters_schema : json;
  td_timeout_ms : Z;
  max_concurrent : Z;
  rate_limit_max_calls : Z;
  rate_limit_window_seconds : Z;
  enabled : bool;
  tags : list string;
}.

(** [tools_]. *)
Definition Registry := gmap string ToolDefinition.

Definition registerTool (tool : ToolDefinition) (r : Registry) : bool * Registry :=
  match r !! td_id tool with
  | Some _ => (false, r)
  | None => (true, <[td_id tool := tool]> r)
  end.

Definition unregisterTool (id : string) (r : Registry) : bool * Registry :=
  (bool_decide (is_Some (r !! id)), delete id r).

Definition getTool (id : string) (r : Registry) : option ToolDefinition := r !! id.

(** The filter of [listTools]. *)
Definition listed (tags_filter : list string) (tool : ToolDefinition) : bool :=
  enabled tool &&
  (bool_decide (tags_filter = []) || existsb (λ t, bool_decide (t ∈ tags tool)) tags_filter).

Definition listTools `{UnorderedIter} (tags_filter : list string) (r : Registry) :
    list ToolDefinition :=
  base.filter (λ t, listed tags_filter t = true) (iter r).*2.

(** [arguments.contains(field)]. *)
Definition contains (field : string) (v : json) : bool :=
  match v with JObject m => bool_decide (is_Some (map_find field m)) | _ => false end.

(** The loop over the schema's required fields: the first one missing. *)
Fixpoint check_required (reqs : list json) (arguments : json) : option (bool * string) :=
  match reqs with
  | [] => Some (true, "")
  | JString field :: reqs =>
      if contains field arguments then check_required reqs arguments
      else Some (false, "Missing required field: " +:+ field)
  | _ :: _ => None
  end.

Definition validateCall (tool_id : string) (arguments : json) (r : Registry) :
    option (bool * string) :=
  match r !! tool_id with
  | None => Some (false, "Unknown tool: " +:+ tool_id)
  | Some tool =>
      if negb (enabled tool) then Some (false, "Tool is disabled: " +:+ tool_id)
      else match parameters_schema tool with
           | JObject m =>
               match map_find "required" m with
               | Some (JArray reqs) => check_required reqs arguments
               | _ => Some (true, "")
               end
           | _ => Some (true, "")
           end
  end.

Definition toOpenAITool (tool : ToolDefinition) : json :=
  JObject [("function", JObject [("description", JString (td_description tool));
                                 ("name", JString (td_name tool));
                                 ("parameters", parameters_schema tool)]);
           ("type", JString "function")].

Definition toOpenAITools `{UnorderedIter} (r : Registry) : json :=
  JArray (toOpenAITool <$> base.filter (λ t, enabled t = true) (iter r).*2).

Inductive ToolExecutionStatus := Success | Timeout | Error | Rejected | RateLimited.
#[global] Instance ToolExecutionStatus_eq_dec : EqDecision ToolExecutionStatus.
Proof. solve_decision. Defined.

(** [struct ToolExecutionResult] without the measured duration. *)
Record ToolExecutionResult := {
  tr_tool_id : string;
  tr_status : ToolExecutionStatus;
  tr_output : string;
  tr_error_message : string;
}.

Definition kMaxToolOutputBytes : nat := 1024 * 1024.

(** The sandbox: its registry and its two counters. *)
Record Sandbox := {
  registry : Registry;
  total_executions : Z;
  failed_executions : Z;
}.

Section sandbox.
(** [executor_], when set: an answer, or the message of the exception. *)
Context {C : Type} (executor : option (string → json → C → (string + string) * C)).

Definition failure (tool_id : string) (status : ToolExecutionStatus) (msg : string) :
    ToolExecutionResult :=
  {| tr_tool_id := tool_id; tr_status := status; tr_output := ""; tr_error_message := msg |}.

Definition count (failed : bool) (s : Sandbox) : Sandbox :=
  {| registry := registry s; total_executions := total_executions s + 1;
     failed_executions := failed_executions s + (if failed then 1 else 0) |}.

Definition execute (tool_id : string) (arguments : json) (s : Sandbox) (c : C) :
    option ToolExecutionResult * (Sandbox * C) :=
  let fail status msg := (Some (failure tool_id status msg), (count true s, c)) in
  match executor with
  | None => fail Error "No tool executor configured"
  | Some exec =>
      match getTool tool_id (registry s) with
      | None => fail Error ("Unknown tool: " +:+ tool_id)
      | Some tool =>
          if negb (enabled tool) then fail Rejected ("Tool is disabled: " +:+ tool_id)
          else match validateCall tool_id arguments (registry s) with
               | None => (None, (count false s, c))
               | Some (false, error) => fail Error error
               | Some (true, _) =>
                   match exec tool_id arguments c with
                   | (inl output, c) =>
                       (Some {| tr_tool_id := tool_id; tr_status := Success;
                                tr_output := String.substring 0 kMaxToolOutputBytes output;
                                tr_error_message := "" |}, (count false s, c))
                   | (inr e, c) => (Some (failure tool_id Error e), (count true s, c))
                   end
               end
      end
  end.

End sandbox.
End ToolSandbox.
