(* ===== verification/WorkflowDsl.v ===== *)
(** * WorkflowDsl: workflow descriptions, their JSON form and their checks

    Models [src/src/workflow/workflow_dsl.cpp] (the JSON bridge and the
    canonical hash) and [src/src/workflow/workflow_dsl_parser.cpp] without the
    YAML reader: the structural checks, the cycle check (Kahn's algorithm) and
    the sandbox-bypass check.  JSON text and SHA-256 are parameters. *)
From S2P Require Import Prelude.
From S2P Require Import Json.
From S2P Require Import AuditLog.
From S2P Require Import ToolSandbox.
Import Json.
Local Open Scope Z_scope.

Module WorkflowDsl.

Inductive NodeType := Tool | HumanApproval | Conditional | FanOut | FanIn.
#[global] Instance NodeType_eq_dec : EqDecision NodeType.
Proof. solve_decision. Defined.

Definition nodeTypeToString (t : NodeType) : string :=
  match t with
  | Tool => "tool"
  | HumanApproval => "human_approval"
  | Conditional => "conditional"
  | FanOut => "fan_out"
  | FanIn => "fan_in"
  end.

Definition nodeTypeFromString (s : string) : option NodeType :=
  if decide (s = "tool") then Some Tool
  else if decide (s = "human_approval") then Some HumanApproval
  else if decide (s = "conditional") then Some Conditional
  else if decide (s = "fan_out") then Some FanOut
  else if decide (s = "fan_in") then Some FanIn
  else None.

Record RetryPolicy := {
  max_attempts : Z;
  backoff_ms : Z;
  exponential : bool;
}.

Record NodeSpec := {
  n_id : string;
  n_type : NodeType;
  tool_id : string;
  arguments : json;
  depends_on : list string;
  condition : string;
  retry : RetryPolicy;
  timeout_ms : Z;
  dead_letter_log : string;
}.

Record Dsl := {
  d_id : string;
  d_version : string;
  d_description : string;
  nodes : list NodeSpec;
  metadata : json;
}.

(** The default member initialisers. *)
Definition default_retry : RetryPolicy :=
  {| max_attempts := 1; backoff_ms := 0; exponential := false |}.

(** ** The JSON bridge *)

(** A fresh value filled with [j[k] = v] for each member. *)
Definition make_object (l : list (string * json)) : json :=
  JObject (foldl (λ acc kv, map_assign kv.1 kv.2 acc) [] l).

(** The member [k] of an object, when it is there. *)
Definition member (k : string) (j : json) : option json :=
  match j with JObject m => map_find k m | _ => None end.

(** [if (j.contains(k) && j[k].is_string()) x = j[k].get<std::string>()]. *)
Definition get_string (k : string) (default : string) (j : json) : string :=
  match member k j with Some (JString s) => s | _ => default end.

Definition get_int (k : string) (default : Z) (j : json) : Z :=
  match member k j with Some (JInteger z) => to_int z | _ => default end.

Definition get_bool (k : string) (default : bool) (j : json) : bool :=
  match member k j with Some (JBool b) => b | _ => default end.

Definition retryToJson (r : RetryPolicy) : json :=
  make_object [("max_attempts", JInteger (max_attempts r));
               ("backoff_ms", JInteger (backoff_ms r));
               ("exponential", JBool (exponential r))].

Definition retryFromJson (j : json) : RetryPolicy :=
  {| max_attempts := get_int "max_attempts" 1 j; backoff_ms := get_int "backoff_ms" 0 j;
     exponential := get_bool "exponential" false j |}.

Definition nodeToJson (n : NodeSpec) : json :=
  make_object [("id", JString (n_id n));
               ("type", JString (nodeTypeToString (n_type n)));
               ("tool_id", JString (tool_id n));
               ("arguments", arguments n);
               ("depends_on", JArray (JString <$> depends_on n));
               ("condition", JString (condition n));
               ("retry", retryToJson (retry n));
               ("timeout_ms", JInteger (timeout_ms n));
               ("dead_letter_log", JString (dead_letter_log n))].

Definition nodeFromJson (j : json) : option NodeSpec :=
  match j with
  | JObject _ =>
      let id := get_string "id" "" j in
      if str_empty id then None
      else
        match (match member "type" j with
               | Some (JString s) => nodeTypeFromString s
               | _ => Some Tool
               end) with
        | None => None
        | Some type =>
            Some {| n_id := id; n_type := type; tool_id := get_string "tool_id" "" j;
                    arguments := default (JObject []) (member "arguments" j);
                    depends_on :=
                      match member "depends_on" j with
                      | Some (JArray l) =>
                          omap (λ d, match d with JString s => Some s | _ => None end) l
                      | _ => []
                      end;
                    condition := get_string "condition" "" j;
                    retry := match member "retry" j with
                             | Some r => retryFromJson r
                             | None => default_retry
                             end;
                    timeout_ms := get_int "timeout_ms" 30000 j;
                    dead_letter_log := get_string "dead_letter_log" "" j |}
        end
  | _ => None
  end.

Definition toJson (dsl : Dsl) : json :=
  make_object [("id", JString (d_id dsl)); ("version", JString (d_version dsl));
               ("description", JString (d_description dsl)); ("metadata", metadata dsl);
               ("nodes", JArray (nodeToJson <$> nodes dsl))].

Definition fromJson (j : json) : option Dsl :=
  match j with
  | JObject _ =>
      match (match member "nodes" j with
             | Some (JArray l) => mapM nodeFromJson l
             | _ => Some []
             end) with
      | None => None
      | Some ns =>
          Some {| d_id := get_string "id" "" j; d_version := get_string "version" "" j;
                  d_description := get_string "description" "" j; nodes := ns;
                  metadata := match member "metadata" j with
                              | Some (JObject m) => JObject m
                              | _ => JObject []
                              end |}
      end
  | _ => None
  end.

(** The value that is hashed: description and metadata are left out. *)
Definition canonical (dsl : Dsl) : json :=
  canonicalise (make_object [("id", JString (d_id dsl)); ("version", JString (d_version dsl));
                             ("nodes", JArray (nodeToJson <$> nodes dsl))]).

(** [canonicalHash]; [None] when writing the JSON throws. *)
Definition canonicalHash (dump : json → option string) (sha256 : string → string)
    (dsl : Dsl) : option string :=
  sha256 <$> dump (canonical dsl).

(** ** Structural checks *)

(** First pass: the ids seen, with an error per repeated one. *)
Definition check_ids (ns : list NodeSpec) : gset string * list string :=
  foldl (λ acc n,
    let '(seen, errors) := acc in
    ({[n_id n]} ∪ seen,
     if decide (n_id n ∈ seen) then errors ++ ["duplicate node id '" +:+ n_id n +:+ "'"]
     else errors)) (∅, []) ns.

(** Second pass: an error per dependency on a node that is not there. *)
Definition check_deps (seen : gset string) (ns : list NodeSpec) : list string :=
  n ← ns;
  d ← depends_on n;
  if decide (d ∈ seen) then []
  else ["node '" +:+ n_id n +:+ "' depends on missing node '" +:+ d +:+ "'"].

Definition runStructuralChecks (dsl : Dsl) : list string :=
  let '(seen, errors) := check_ids (nodes dsl) in
  errors ++ check_deps seen (nodes dsl).

(** The errors, or the workflow; [what] is the message of the parser's
    exception. *)
Definition parseWorkflowDslJson (parse : string → option json) (what : string → string)
    (text : string) : list string + Dsl :=
  match parse text with
  | None => inl ["json parse failed: " +:+ what text]
  | Some j =>
      match fromJson j with
      | None => inl ["json shape did not match WorkflowDsl"]
      | Some dsl =>
          match runStructuralChecks dsl with
          | [] => inr dsl
          | errors => inl errors
          end
      end
  end.

(** ** Kahn's algorithm *)

Definition Degrees := gmap string Z.
Definition Successors := gmap string (list string).

Definition degree (deg : Degrees) (id : string) : Z := default 0 (deg !! id).
Definition successors (succ : Successors) (id : string) : list string := default [] (succ !! id).

(** The first loop: [in_degree.emplace(n.id, 0)]. *)
Definition zero_degrees (ns : list NodeSpec) : Degrees :=
  foldl (λ deg n, match deg !! n_id n with
                  | Some _ => deg
                  | None => <[n_id n := 0]> deg
                  end) ∅ ns.

(** One dependency edge. *)
Definition add_edge (d id : string) (g : Degrees * Successors) : Degrees * Successors :=
  (<[id := degree g.1 id + 1]> g.1, <[d := successors g.2 d ++ [id]]> g.2).

(** The dependencies of one node; the id comes back on a self-loop. *)
Fixpoint add_node (id : string) (deps : list string) (g : Degrees * Successors) :
    string + Degrees * Successors :=
  match deps with
  | [] => inr g
  | d :: deps => if decide (d = id) then inl id else add_node id deps (add_edge d id g)
  end.

Fixpoint build_graph (ns : list NodeSpec) (g : Degrees * Successors) :
    string + Degrees * Successors :=
  match ns with
  | [] => inr g
  | n :: ns => match add_node (n_id n) (depends_on n) g with
               | inl id => inl id
               | inr g => build_graph ns g
               end
  end.

(** [if (--in_degree[s] == 0) q.push(s)] for the successors of one node. *)
Fixpoint release (ss : list string) (deg : Degrees) (q : list string) :
    Degrees * list string :=
  match ss with
  | [] => (deg, q)
  | s :: ss =>
      let k := degree deg s - 1 in
      release ss (<[s := k]> deg) (if k =? 0 then q ++ [s] else q)
  end.

(** The [while (!q.empty())] loop. *)
Fixpoint kahn_loop (fuel : nat) (succ : Successors) (deg : Degrees) (q : list string)
    (visited : Z) : Degrees * list string * Z :=
  match fuel, q with
  | _, [] => (deg, [], visited)
  | O, _ => (deg, q, visited)
  | S fuel, cur :: q =>
      let '(deg, q) := release (successors succ cur) deg q in
      kahn_loop fuel succ deg q (visited + 1)
  end.

Definition positive_degree (kv : string * Z) : bool := 0 <? kv.2.

(** What the loop can still visit: what is queued and what has a positive
    degree. *)
Definition kahn_measure (deg : Degrees) (q : list string) : nat :=
  (length q + size (filter (λ kv, positive_degree kv = true) deg))%nat.

(** [None] for [true]; the node reported for [false], empty when none is. *)
Definition validateNoCycle `{UnorderedIter} (dsl : Dsl) : option string :=
  match build_graph (nodes dsl) (zero_degrees (nodes dsl), ∅) with
  | inl id => Some id
  | inr (deg, succ) =>
      let q := (base.filter (λ kv, kv.2 = 0) (iter deg)).*1 in
      let '(deg, _, visited) := kahn_loop (kahn_measure deg q) succ deg q 0 in
      if decide (visited = Z.of_nat (length (nodes dsl))) then None
      else Some (default "" (head (base.filter (λ kv, positive_degree kv = true) (iter deg)).*1))
  end.

(** ** Sandbox bypass *)

(** What is wrong with one node; the pure topology nodes never run a tool. *)
Definition bypasses (registry : option ToolSandbox.Registry) (n : NodeSpec) : bool :=
  match n_type n with
  | FanOut | FanIn | Conditional => false
  | ty =>
      if str_empty (tool_id n) then true
      else match registry with
           | Some r => bool_decide (ty = Tool) && bool_decide (ToolSandbox.getTool (tool_id n) r = None)
           | None => false
           end
  end.

(** The offending nodes; none means [true]. *)
Definition validateNoSandboxBypass (dsl : Dsl) (registry : option ToolSandbox.Registry) :
    list string :=
  n_id <$> base.filter (λ n, bypasses registry n = true) (nodes dsl).

(** ** The cycle check decides schedulability *)

(** The dependency edges, from the dependency to its dependent. *)
Definition edges (ns : list NodeSpec) : list (string * string) :=
  n ← ns; (λ d, (d, n_id n)) <$> depends_on n.

Definition add_edges (es : list (string * string)) (g : Degrees * Successors) :
    Degrees * Successors :=
  foldl (λ g e, add_edge e.1 e.2 g) g es.

Definition occurrences (n : string) (l : list string) : Z :=
  Z.of_nat (length (base.filter (λ x, x = n) l)).

(** How many edges reach [n] from outside [V]. *)
Definition open_edges (E : list (string * string)) (V : list string) (n : string) : Z :=
  Z.of_nat (length (base.filter (λ e, e.2 = n ∧ e.1 ∉ V) E)).

Lemma degree_insert deg i k n :
  degree (<[i := k]> deg) n = if decide (n = i) then k else degree deg n.
Proof.
  unfold degree. case_decide as E; [subst; by rw lookup_insert_eq|by rw lookup_insert_ne].
Qed.

Lemma degree_positive deg n : 0 < degree deg n → is_Some (deg !! n).
Proof. unfold degree. destruct (deg !! n); [eauto|simpl; lia]. Qed.

Lemma add_node_spec id deps g :
  id ∉ deps → add_node id deps g = inr (add_edges ((λ d, (d, id)) <$> deps) g).
Proof.
  revert g. induction deps as [|d deps IH]; intros g Hid; simpl; [done|].
  rw decide_False; [|set_solver]. apply IH. set_solver.
Qed.

Lemma add_node_loop id deps g : id ∈ deps → add_node id deps g = inl id.
Proof.
  revert g. induction deps as [|d deps IH]; intros g Hid; simpl; [by apply elem_of_nil in Hid|].
  case_decide; [done|]. apply IH. set_solver.
Qed.

Lemma add_edges_app l1 l2 g : add_edges (l1 ++ l2) g = add_edges l2 (add_edges l1 g).
Proof. apply foldl_app. Qed.

Lemma build_graph_spec ns g :
  build_graph ns g = inr (add_edges (edges ns) g) ∧ (∀ n, n ∈ ns → n_id n ∉ depends_on n) ∨
  (∃ n, n ∈ ns ∧ n_id n ∈ depends_on n ∧ build_graph ns g = inl (n_id n)).
Proof.
  revert g. induction ns as [|n ns IH]; intros g; simpl.
  { left. split; [done|]. set_solver. }
  destruct (decide (n_id n ∈ depends_on n)) as [Hl|Hl].
  { right. exists n. rw add_node_loop //. set_solver. }
  rw add_node_spec //.
  destruct (IH (add_edges ((λ d, (d, n_id n)) <$> depends_on n) g)) as [[-> Hns]|(m & ? & ? & ->)].
  - left. split; [|set_solver]. by rw -add_edges_app.
  - right. exists m. set_solver.
Qed.

Lemma add_edges_degree es g n :
  degree (add_edges es g).1 n = degree g.1 n + occurrences n es.*2.
Proof.
  revert g. induction es as [|e es IH]; intros g; [unfold occurrences; simpl; lia|].
  change (add_edges (e :: es) g) with (add_edges es (add_edge e.1 e.2 g)).
  rw IH fmap_cons. unfold occurrences, add_edge. cbn [fst]. rw filter_cons degree_insert.
  repeat case_decide; subst; cbn [length]; try congruence; lia.
Qed.

Lemma add_edges_succ es g d :
  successors (add_edges es g).2 d = successors g.2 d ++ (base.filter (λ e, e.1 = d) es).*2.
Proof.
  revert g. induction es as [|e es IH]; intros g; simpl; [by rw app_nil_r|].
  rw IH /= filter_cons. unfold successors. case_decide as E; [subst|].
  - by rw lookup_insert_eq /= -assoc.
  - by rw lookup_insert_ne.
Qed.

Lemma add_edges_dom es g : dom (add_edges es g).1 = dom g.1 ∪ list_to_set es.*2.
Proof.
  revert g. induction es as [|e es IH]; intros g; simpl; [set_solver|].
  rw IH /= dom_insert_L. set_solver.
Qed.

Lemma zero_degrees_spec ns :
  dom (zero_degrees ns) = list_to_set (n_id <$> ns) ∧ ∀ n, degree (zero_degrees ns) n = 0.
Proof.
  unfold zero_degrees. rw -(rev_involutive ns). generalize (rev ns) as l.
  induction l as [|m l [IHd IHz]]; simpl; [split; [set_solver|done]|].
  rw foldl_app /= fmap_app list_to_set_app_L /=. split.
  - destruct (foldl _ _ _ !! n_id m) eqn:E; [|rw dom_insert_L; set_solver].
    apply elem_of_dom_2 in E. set_solver.
  - intros n. destruct (foldl _ _ _ !! n_id m) eqn:E; [done|]. rw degree_insert.
    by case_decide.
Qed.

Section kahn.
Context (E : list (string * string)) (N : gset string).

(** [V] has been visited, [l] is [V] followed by the queue; an entry of [l] is
    preceded by all its dependencies. *)
Record kahn_inv (l : list string) (deg : Degrees) : Prop := {
  ki_nodup : NoDup l;
  ki_zero : ∀ n, n ∈ l ↔ n ∈ N ∧ degree deg n = 0;
  ki_order : ∀ l1 n l2, l = l1 ++ n :: l2 → ∀ d, (d, n) ∈ E → d ∈ l1;
}.

(** The degrees while the successors of a visited node are released: [ss] are
    still to come. *)
Definition degrees_open (V ss : list string) (deg : Degrees) : Prop :=
  ∀ n, n ∈ N → degree deg n = open_edges E V n + occurrences n ss.

Lemma open_edges_zero V n : open_edges E V n = 0 → ∀ d, (d, n) ∈ E → d ∈ V.
Proof.
  unfold open_edges. intros H d Hd. destruct (decide (d ∈ V)) as [|Hv]; [done|].
  assert ((d, n) ∈ base.filter (λ e : string * string, e.2 = n ∧ e.1 ∉ V) E) as Hf.
  { by apply list_elem_of_filter. }
  destruct (base.filter _ _); [by apply elem_of_nil in Hf|simpl in H; lia].
Qed.

Lemma open_edges_closed V n : (∀ d, (d, n) ∈ E → d ∈ V) → open_edges E V n = 0.
Proof.
  intros H. unfold open_edges. rw filter_none //. apply Forall_forall.
  intros [d m] Hd [Hm Hv]. simpl in *. subst. eauto.
Qed.

Lemma open_edges_visit V c n :
  c ∉ V →
  open_edges E V n =
    open_edges E (V ++ [c]) n + occurrences n (base.filter (λ e, e.1 = c) E).*2.
Proof.
  intros Hc. unfold open_edges, occurrences. induction E as [|e es IH]; [done|].
  rw !filter_cons. destruct e as [d m]; cbn [fst snd].
  destruct (decide (d = c)) as [->|Hd].
  - rw (decide_False (P := m = n ∧ c ∉ V ++ [c])); [|set_solver].
    rw fmap_cons filter_cons. cbn [snd]. repeat case_decide; cbn [length]; try tauto; lia.
  - assert (d ∉ V ++ [c] ↔ d ∉ V) as Hv by set_solver.
    repeat case_decide; cbn [length]; try tauto; lia.
Qed.

(** Releasing the successors of a node of [V]; [pre ++ q] are the nodes
    submitted so far. *)
Lemma release_inv V pre ss deg q :
  Forall (λ s, s ∈ N) ss → (∀ x, x ∈ V → x ∈ pre ++ q) →
  kahn_inv (pre ++ q) deg → degrees_open V ss deg →
  let '(deg', q') := release ss deg q in
  kahn_inv (pre ++ q') deg' ∧ degrees_open V [] deg'.
Proof.
  revert deg q. induction ss as [|s ss IH]; intros deg q HN HV Hi Hd; simpl; [done|].
  apply Forall_cons in HN as [Hs HN].
  assert (0 <= open_edges E V s ∧ 0 <= occurrences s ss) as [Hge Hge'].
  { unfold open_edges, occurrences. lia. }
  assert (degree deg s = open_edges E V s + occurrences s ss + 1) as Hdeg.
  { rw (Hd s Hs). unfold occurrences. rw filter_cons_True //. cbn [length]. lia. }
  assert (degrees_open V ss (<[s := degree deg s - 1]> deg)) as Hd'.
  { intros n Hn. rw degree_insert. case_decide as En; [subst; lia|].
    rw (Hd n Hn). unfold occurrences. by rw filter_cons_False. }
  destruct Hi as [Hnd Hz Ho].
  assert (s ∉ pre ++ q) as Hsq by (rw Hz; lia).
  apply IH; [done|case_match; [rw assoc; set_solver|done]| |done].
  case_match eqn:Ek; bools.
  - rw assoc. split.
    + apply NoDup_app. split_and!; [done|set_solver|apply NoDup_singleton].
    + intros n. rw elem_of_app list_elem_of_singleton Hz degree_insert.
      case_decide; [subst|]; intuition lia.
    + intros l1 n l2 Hl d Hdn. destruct l2 as [|x l2 _] using rev_ind.
      * apply app_inj_tail in Hl as [<- <-].
        apply HV, (open_edges_zero V s); [lia|done].
      * rw app_comm_cons assoc in Hl. apply app_inj_tail in Hl as [Hl <-]. by eapply Ho.
  - split; [done| |done]. intros n. rw Hz degree_insert. case_decide; [subst|]; intuition lia.
Qed.

(** The number of keys with a positive degree. *)
Definition live (deg : Degrees) : nat := size (filter (λ kv, positive_degree kv = true) deg).

Lemma live_insert deg s k :
  live (<[s := k]> deg) = (live (delete s deg) + (if (0 <? k)%Z then 1 else 0))%nat.
Proof.
  unfold live. rw -(insert_delete_eq deg s k) map_filter_insert.
  case_decide as Hk; unfold positive_degree in Hk; simpl in Hk.
  - rw Hk map_size_insert_None; [by rw Nat.add_1_r|].
    apply map_lookup_filter_None. left. apply lookup_delete_eq.
  - apply not_true_is_false in Hk. by rw Hk delete_delete_eq Nat.add_0_r.
Qed.

Lemma live_degree deg s :
  live deg = (live (delete s deg) + (if (0 <? degree deg s)%Z then 1 else 0))%nat.
Proof.
  unfold degree. destruct (deg !! s) as [k|] eqn:Ek; simpl.
  - by rw -live_insert insert_id.
  - by rw delete_id // Nat.add_0_r.
Qed.

Lemma release_measure ss deg q :
  let '(deg', q') := release ss deg q in (kahn_measure deg' q' <= kahn_measure deg q)%nat.
Proof.
  revert deg q. induction ss as [|s ss IH]; intros deg q; simpl; [done|].
  specialize (IH (<[s := degree deg s - 1]> deg)
                 (if degree deg s - 1 =? 0 then q ++ [s] else q)).
  destruct (release _ _ _) as [deg' q']. etrans; [done|]. unfold kahn_measure.
  fold (live deg). fold (live (<[s := degree deg s - 1]> deg)).
  rw live_insert (live_degree deg s). destruct (degree deg s - 1 =? 0) eqn:E1;
    destruct (0 <? degree deg s) eqn:E2; destruct (0 <? degree deg s - 1) eqn:E3;
    rw ?length_app; simpl; bools; lia.
Qed.

(** The loop empties the queue within its measure, whatever the graph. *)
Lemma kahn_loop_terminates fuel succ deg q visited :
  (kahn_measure deg q <= fuel)%nat →
  (kahn_loop fuel succ deg q visited).1.2 = [].
Proof.
  revert deg q visited. induction fuel as [|fuel IH]; intros deg [|cur q] v Hm; [done| |done|].
  - unfold kahn_measure in Hm. simpl in Hm. lia.
  - simpl. pose proof (release_measure (successors succ cur) deg q) as Hr.
    destruct (release _ _ _) as [deg' q']. apply IH.
    unfold kahn_measure in *. simpl in *. lia.
Qed.

Lemma kahn_loop_inv fuel succ V deg q :
  (∀ e, e ∈ E → e.2 ∈ N) → (∀ d, successors succ d = (base.filter (λ e, e.1 = d) E).*2) →
  kahn_inv (V ++ q) deg → degrees_open V [] deg →
  let '(deg', q', visited) := kahn_loop fuel succ deg q (Z.of_nat (length V)) in
  ∃ V', visited = Z.of_nat (length V') ∧ kahn_inv (V' ++ q') deg' ∧ degrees_open V' [] deg'.
Proof.
  intros HN Hsucc. revert V deg q. induction fuel as [|fuel IH]; intros V deg [|cur q] Hi Hd;
    simpl; [by exists V..|].
  pose proof (release_inv (V ++ [cur]) (V ++ [cur]) (successors succ cur) deg q) as Hr.
  destruct (release _ _ _) as [deg' q']. destruct Hr as [Hi' Hd'].
  - rw Hsucc. apply Forall_forall. intros s (e & -> & He)%list_elem_of_fmap.
    apply list_elem_of_filter in He as [_ He]. by apply HN.
  - set_solver.
  - by rw -assoc.
  - intros n Hn. rw (Hd n Hn) Hsucc -open_edges_visit; [unfold occurrences; simpl; lia|].
    destruct Hi as [[_ [Hdis _]]%NoDup_app _ _]. intros Hc. by apply (Hdis cur Hc); left.
  - specialize (IH (V ++ [cur]) deg' q' Hi' Hd'). rw length_app /= in IH.
    by replace (Z.of_nat (length V) + 1) with (Z.of_nat (length V + 1)) by lia.
Qed.
End kahn.

(** An execution order: every node once, each after its dependencies. *)
Definition topological (ns : list NodeSpec) (order : list string) : Prop :=
  order ≡ₚ n_id <$> ns ∧
  ∀ l1 n l2, order = l1 ++ n_id n :: l2 → n ∈ ns → ∀ d, d ∈ depends_on n → d ∈ l1.

Lemma elem_of_edges ns d id :
  (d, id) ∈ edges ns ↔ ∃ n, n ∈ ns ∧ n_id n = id ∧ d ∈ depends_on n.
Proof.
  unfold edges. rw list_elem_of_bind. split.
  - intros (n & (d' & [= -> ->] & Hd)%list_elem_of_fmap & Hn). by exists n.
  - intros (n & Hn & <- & Hd). exists n. split; [|done]. apply list_elem_of_fmap. by exists d.
Qed.

(** The graph of nodes without self-loops, at the start of the loop. *)
Lemma graph_inv `{UnorderedIter} ns deg succ :
  add_edges (edges ns) (zero_degrees ns, ∅) = (deg, succ) →
  let N := list_to_set (n_id <$> ns) in
  let q := (base.filter (λ kv, kv.2 = 0) (iter deg)).*1 in
  dom deg = N ∧ (∀ e, e ∈ edges ns → e.2 ∈ N) ∧
  (∀ d, successors succ d = (base.filter (λ e, e.1 = d) (edges ns)).*2) ∧
  kahn_inv (edges ns) N q deg ∧ degrees_open (edges ns) N [] [] deg.
Proof.
  intros Hg N q. destruct (zero_degrees_spec ns) as [Hdom Hz].
  assert (∀ e, e ∈ edges ns → e.2 ∈ N) as HN.
  { intros [d id] (n & Hn & <- & _)%elem_of_edges. unfold N. set_solver. }
  pose proof (add_edges_dom (edges ns) (zero_degrees ns, ∅)) as Hd. rw Hg Hdom /= in Hd.
  assert (dom deg = N) as HdN.
  { rw Hd. apply set_eq. intros x. rw elem_of_union. split; [|by left].
    intros [?|Hx%elem_of_list_to_set]; [done|].
    apply list_elem_of_fmap in Hx as (e & -> & He). by apply HN. }
  assert (∀ n, degree deg n = occurrences n (edges ns).*2) as Hdeg.
  { intros n. pose proof (add_edges_degree (edges ns) (zero_degrees ns, ∅) n) as Ha.
    by rw Hg /= Hz in Ha. }
  assert (degrees_open (edges ns) N [] [] deg) as Ho.
  { intros n _. rw Hdeg. unfold open_edges, occurrences. simpl. rw Z.add_0_r. f_equal.
    generalize (edges ns) as es. induction es as [|e es IH]; [done|].
    rw fmap_cons !filter_cons. repeat case_decide; cbn [length]; try set_solver; congruence. }
  split_and!; [done|done| | |done].
  - intros d. pose proof (add_edges_succ (edges ns) (zero_degrees ns, ∅) d) as Ha.
    by rw Hg in Ha.
  - assert (∀ n, n ∈ q ↔ n ∈ N ∧ degree deg n = 0) as Hq.
    { intros n. unfold q. rw list_elem_of_fmap -HdN elem_of_dom. unfold degree. split.
      - intros ([k v] & -> & [Hv Hi]%list_elem_of_filter). simpl in Hv. subst.
        apply elem_of_iter in Hi. simpl. rw Hi. eauto.
      - intros [[v Hv] H0]. rw Hv /= in H0. subst. exists (n, 0). split; [done|].
        apply list_elem_of_filter. by rw elem_of_iter. }
    split; [|done|].
    + eapply sublist_NoDup; [apply (NoDup_iter deg)|]. apply fmap_sublist, sublist_filter.
    + intros l1 n l2 Hl d Hdn. assert (n ∈ q) as [Hn H0]%Hq by (rw Hl; set_solver).
      rw (Ho n Hn) in H0. unfold occurrences in H0. simpl in H0.
      pose proof (open_edges_zero (edges ns) [] n ltac:(lia) d Hdn). set_solver.
Qed.

(** What the loop leaves behind. *)
Lemma kahn_outcome `{UnorderedIter} ns deg succ :
  add_edges (edges ns) (zero_degrees ns, ∅) = (deg, succ) →
  let q := (base.filter (λ kv, kv.2 = 0) (iter deg)).*1 in
  ∃ V deg', kahn_loop (kahn_measure deg q) succ deg q 0 = (deg', [], Z.of_nat (length V)) ∧
    NoDup V ∧ (∀ id, id ∈ V → id ∈ n_id <$> ns) ∧
    (∀ l1 id l2, V = l1 ++ id :: l2 → ∀ d, (d, id) ∈ edges ns → d ∈ l1) ∧
    (∀ id, id ∈ n_id <$> ns → (∀ d, (d, id) ∈ edges ns → d ∈ V) → id ∈ V).
Proof.
  intros Hg q. destruct (graph_inv ns deg succ Hg) as (HdN & HN & Hs & Hi & Ho).
  pose proof (kahn_loop_inv _ _ (kahn_measure deg q) succ [] deg q HN Hs Hi Ho) as Hl.
  pose proof (kahn_loop_terminates (kahn_measure deg q) succ deg q 0 (le_n _)) as Ht.
  simpl in Hl. destruct (kahn_loop _ _ _ _ _) as [[deg' q'] v]. simpl in Ht. subst q'.
  destruct Hl as (V & -> & [Hnd Hz Hord] & Ho'). rw app_nil_r in Hnd Hz Hord.
  exists V, deg'. split_and!; [done|done| |done|].
  - intros id [Hid _]%Hz. by apply elem_of_list_to_set in Hid.
  - intros id Hid Hd. apply Hz. split; [by apply elem_of_list_to_set|].
    rw Ho'; [|by apply elem_of_list_to_set]. rw open_edges_closed //.
Qed.

(** A set of nodes closed under "all dependencies are in it" holds every node
    of an execution order. *)
Lemma closed_covers ns order (V : list string) :
  topological ns order →
  (∀ id, id ∈ n_id <$> ns → (∀ d, (d, id) ∈ edges ns → d ∈ V) → id ∈ V) →
  ∀ x, x ∈ n_id <$> ns → x ∈ V.
Proof.
  intros [Hp Ho] Hall.
  assert (∀ l1 l2, order = l1 ++ l2 → ∀ x, x ∈ l1 → x ∈ V) as Hin.
  { intros l1. induction l1 as [|y l1 IH] using rev_ind; intros l2 Hl x Hx; [set_solver|].
    rw -assoc in Hl. apply elem_of_app in Hx as [Hx|Hx%list_elem_of_singleton]; [by eapply IH|].
    subst y. apply Hall; [rw -Hp Hl; set_solver|].
    intros d (n & Hn & Hid & Hd)%elem_of_edges. apply (IH _ Hl). subst x. by eapply (Ho l1 n l2). }
  intros x. rw -Hp. apply (Hin order []). by rw app_nil_r.
Qed.

Lemma accepted_order `{UnorderedIter} dsl :
  validateNoCycle dsl = None →
  NoDup (n_id <$> nodes dsl) ∧ ∃ order, topological (nodes dsl) order.
Proof.
  unfold validateNoCycle. set (ns := nodes dsl).
  destruct (build_graph_spec ns (zero_degrees ns, ∅)) as [[-> Hself]|(n & Hn & Hl & ->)]; [|done].
  destruct (add_edges _ _) as [deg succ] eqn:Hg.
  destruct (kahn_outcome ns deg succ Hg) as (V & deg' & -> & Hnd & Hsub & Hord & Hall).
  case_decide as Ev; [intros _|done].
  assert (V ≡ₚ n_id <$> ns) as Hp.
  { apply submseteq_length_Permutation; [by apply NoDup_submseteq|rw length_fmap; lia]. }
  split; [by rw -Hp|]. exists V. split; [done|].
  intros l1 n l2 HV Hn d Hd. apply (Hord l1 (n_id n) l2 HV). apply elem_of_edges. eauto.
Qed.

Lemma order_no_self_loop ns order n :
  NoDup (n_id <$> ns) → topological ns order → n ∈ ns → n_id n ∉ depends_on n.
Proof.
  intros Hnd [Hp Ho] Hn Hl.
  assert (n_id n ∈ order) as (l1 & l2 & ->)%list_elem_of_split.
  { rw Hp. by apply list_elem_of_fmap_2. }
  specialize (Ho l1 n l2 eq_refl Hn _ Hl). rw -Hp in Hnd.
  apply NoDup_app in Hnd as (_ & Hd & _). destruct (Hd _ Ho). by left.
Qed.

Lemma order_accepted `{UnorderedIter} dsl order :
  NoDup (n_id <$> nodes dsl) → topological (nodes dsl) order → validateNoCycle dsl = None.
Proof.
  intros Hids Ht. unfold validateNoCycle. set (ns := nodes dsl) in *.
  destruct (build_graph_spec ns (zero_degrees ns, ∅)) as [[-> Hself]|(n & Hn & Hl & ->)].
  2:{ by destruct (order_no_self_loop ns order n Hids Ht Hn). }
  destruct (add_edges _ _) as [deg succ] eqn:Hg.
  destruct (kahn_outcome ns deg succ Hg) as (V & deg' & -> & Hnd & Hsub & Hord & Hall).
  rw decide_True //. rw -(length_fmap n_id ns). f_equal. apply Permutation_length.
  apply NoDup_Permutation; [done|done|]. intros x. split; [apply Hsub|].
  by apply (closed_covers ns order V Ht Hall).
Qed.

(** C21. The cycle check decides schedulability: it accepts a workflow exactly
    when the node ids are distinct and there is an execution order in which
    every node comes after the nodes it depends on, so that missing nodes,
    duplicate ids, self-loops and cycles are all refused; whatever the order
    in which the hash table is iterated. *)
Theorem cycle_check_exact `{UnorderedIter} dsl :
  validateNoCycle dsl = None ↔
  NoDup (n_id <$> nodes dsl) ∧ ∃ order, topological (nodes dsl) order.
Proof.
  split; [apply accepted_order|]. intros [Hids (order & Ht)]. by eapply order_accepted.
Qed.

(** ** The JSON form keeps a workflow *)

Definition int_range (z : Z) : Prop := - 2 ^ 31 <= z < 2 ^ 31.

(** The values the C++ types allow, with the ids and the metadata object that
    the reader requires. *)
Record node_wf (n : NodeSpec) : Prop := {
  nw_id : n_id n ≠ "";
  nw_arguments : json_wf (arguments n);
  nw_attempts : int_range (max_attempts (retry n));
  nw_backoff : int_range (backoff_ms (retry n));
  nw_timeout : int_range (timeout_ms n);
}.

Record dsl_wf (dsl : Dsl) : Prop := {
  dw_nodes : Forall node_wf (nodes dsl);
  dw_metadata : json_wf (metadata dsl);
  dw_object : is_object (metadata dsl) = true;
}.

Lemma to_int_id z : int_range z → to_int z = z.
Proof. unfold int_range, to_int. intros. rw Z.mod_small; lia. Qed.

Lemma nodeType_roundtrip t : nodeTypeFromString (nodeTypeToString t) = Some t.
Proof. by destruct t. Qed.

Lemma strings_back (l : list string) :
  omap (λ d, match d with JString s => Some s | _ => None end) (JString <$> l) = l.
Proof. induction l as [|x l IH]; [done|]. rw fmap_cons. simpl. f_equal. exact IH. Qed.

(** The objects written, with their members in key order. *)
Lemma retry_members r :
  retryToJson r =
  JObject [("backoff_ms", JInteger (backoff_ms r)); ("exponential", JBool (exponential r));
           ("max_attempts", JInteger (max_attempts r))].
Proof. reflexivity. Qed.

Lemma node_members n :
  nodeToJson n =
  JObject [("arguments", arguments n); ("condition", JString (condition n));
           ("dead_letter_log", JString (dead_letter_log n));
           ("depends_on", JArray (JString <$> depends_on n)); ("id", JString (n_id n));
           ("retry", retryToJson (retry n)); ("timeout_ms", JInteger (timeout_ms n));
           ("tool_id", JString (tool_id n)); ("type", JString (nodeTypeToString (n_type n)))].
Proof. reflexivity. Qed.

Lemma dsl_members dsl :
  toJson dsl =
  JObject [("description", JString (d_description dsl)); ("id", JString (d_id dsl));
           ("metadata", metadata dsl); ("nodes", JArray (nodeToJson <$> nodes dsl));
           ("version", JString (d_version dsl))].
Proof. reflexivity. Qed.

Lemma retry_roundtrip r :
  int_range (max_attempts r) → int_range (backoff_ms r) → retryFromJson (retryToJson r) = r.
Proof.
  destruct r as [ma bo ex]. intros Hma Hbo. rw retry_members.
  change (Build_RetryPolicy (to_int ma) (to_int bo) ex = Build_RetryPolicy ma bo ex).
  by rw !to_int_id.
Qed.

Lemma node_roundtrip n : node_wf n → nodeFromJson (nodeToJson n) = Some n.
Proof.
  destruct n as [id ty tool args deps cond r tmo dlq].
  intros [Hid _ Hma Hbo Htm]. cbn in Hid, Hma, Hbo, Htm. rw node_members.
  change ((if str_empty id then None
           else match nodeTypeFromString (nodeTypeToString ty) with
                | None => None
                | Some ty =>
                    Some (Build_NodeSpec id ty tool args
                            (omap (λ d, match d with JString s => Some s | _ => None end)
                               (JString <$> deps))
                            cond (retryFromJson (retryToJson r)) (to_int tmo) dlq)
                end) = Some (Build_NodeSpec id ty tool args deps cond r tmo dlq)).
  rw (proj2 (str_empty_false id) Hid) nodeType_roundtrip strings_back retry_roundtrip //.
  by rw to_int_id.
Qed.

Lemma nodes_roundtrip ns :
  Forall node_wf ns → mapM nodeFromJson (nodeToJson <$> ns) = Some ns.
Proof.
  intros H. apply mapM_Some. induction H; constructor; [by apply node_roundtrip|done].
Qed.

Lemma dsl_roundtrip dsl : dsl_wf dsl → fromJson (toJson dsl) = Some dsl.
Proof.
  destruct dsl as [id ver desc ns meta]. intros [Hns _ Ho]. cbn in Hns, Ho. rw dsl_members.
  change (match mapM nodeFromJson (nodeToJson <$> ns) with
          | None => None
          | Some ns => Some (Build_Dsl id ver desc ns
                               (match meta with JObject m => JObject m | _ => JObject [] end))
          end = Some (Build_Dsl id ver desc ns meta)).
  rw nodes_roundtrip //. by destruct meta.
Qed.

(** Keys that are literals are compared by computation. *)
Ltac keys_sorted := unfold keys_sorted; repeat constructor.

Lemma strings_wf (l : list string) : foldr and True (map json_wf (JString <$> l)).
Proof. induction l as [|x l IH]; [done|]. rw fmap_cons. split; [done|exact IH]. Qed.

Lemma node_json_wf n : node_wf n → json_wf (nodeToJson n).
Proof.
  intros [_ Ha Hma Hbo Htm]. unfold int_range in *. rw node_members retry_members.
  split; [keys_sorted|]. cbn -[Z.pow fmap].
  split_and!; try done; try lia; [apply strings_wf|keys_sorted].
Qed.

Lemma nodes_json_wf ns :
  Forall node_wf ns → foldr and True (map json_wf (nodeToJson <$> ns)).
Proof.
  induction 1 as [|n ns Hn _ IH]; [done|]. rw fmap_cons. split; [by apply node_json_wf|exact IH].
Qed.

Lemma dsl_json_wf dsl : dsl_wf dsl → json_wf (toJson dsl).
Proof.
  intros [Hns Hm _]. rw dsl_members. split; [keys_sorted|]. cbn -[fmap].
  split_and!; try done. by apply nodes_json_wf.
Qed.

(** The hashed value is already canonical. *)
Lemma canonical_members dsl :
  Forall node_wf (nodes dsl) →
  json_wf (canonical dsl) ∧
  canonical dsl =
  JObject [("id", JString (d_id dsl)); ("nodes", JArray (nodeToJson <$> nodes dsl));
           ("version", JString (d_version dsl))].
Proof.
  intros Hns.
  assert (json_wf (JObject [("id", JString (d_id dsl));
    ("nodes", JArray (nodeToJson <$> nodes dsl)); ("version", JString (d_version dsl))])) as Hw.
  { split; [keys_sorted|]. cbn -[fmap]. split_and!; try done. by apply nodes_json_wf. }
  assert (canonical dsl = JObject [("id", JString (d_id dsl));
    ("nodes", JArray (nodeToJson <$> nodes dsl)); ("version", JString (d_version dsl))]) as ->.
  { unfold canonical. etrans; [|by apply canonicalise_id]. reflexivity. }
  done.
Qed.

Section text.
Context (dump : json → option string) (parse : string → option json) (sha256 : string → string).
Context (Htext : JsonText dump parse).

(** A workflow written to the store is read back unchanged, with its hash. *)
Lemma dsl_text_roundtrip dsl text :
  dsl_wf dsl → dump (toJson dsl) = Some text →
  ∃ j, parse text = Some j ∧ fromJson j = Some dsl.
Proof.
  intros Hw Hd. exists (toJson dsl). split; [|by apply dsl_roundtrip].
  eapply parse_dump; [done|by apply dsl_json_wf|done].
Qed.

(** The hash binds what runs: id, version and nodes. *)
Lemma hash_binds d1 d2 h :
  Forall node_wf (nodes d1) → Forall node_wf (nodes d2) →
  canonicalHash dump sha256 d1 = Some h → canonicalHash dump sha256 d2 = Some h →
  (d_id d1 = d_id d2 ∧ d_version d1 = d_version d2 ∧ nodes d1 = nodes d2) ∨
  Audit.collision sha256.
Proof.
  unfold canonicalHash. intros H1 H2 (t1 & Ht1 & E1)%fmap_Some (t2 & Ht2 & E2)%fmap_Some.
  destruct (decide (t1 = t2)) as [<-|Hne]; [left|right; exists t1, t2; split; congruence].
  destruct (canonical_members d1 H1) as [W1 C1], (canonical_members d2 H2) as [W2 C2].
  pose proof (parse_dump _ _ Htext _ _ W1 Ht1) as P1.
  rw (parse_dump _ _ Htext _ _ W2 Ht2) C1 C2 in P1. injection P1 as Hid Hns Hv.
  split_and!; [done|done|]. apply nodes_roundtrip in H1, H2.
  rw -Hns in H1. congruence.
Qed.
End text.

(** ** Structural checks *)

Lemma check_ids_spec ns :
  (check_ids ns).1 = list_to_set (n_id <$> ns) ∧
  ((check_ids ns).2 = [] ↔ NoDup (n_id <$> ns)).
Proof.
  unfold check_ids. rw -(rev_involutive ns). generalize (rev ns) as l.
  induction l as [|m l [IHs IHe]]; simpl; [split; [done|split; [constructor|done]]|].
  rw foldl_app fmap_app list_to_set_app_L. cbn [foldl].
  destruct (foldl _ _ (rev l)) as [seen errors]. cbn [fst snd] in *. split; [set_solver|].
  rw NoDup_app. case_decide as Hm.
  - split; [by destruct errors|]. intros (_ & Hd & _). destruct (Hd (n_id m)).
    + by rw IHs elem_of_list_to_set in Hm.
    + by left.
  - rw IHe. split; [|by intros (? & _)]. intros Hnd. split_and!; [done| |apply NoDup_singleton].
    intros x Hx ->%list_elem_of_singleton. apply Hm. by rw IHs elem_of_list_to_set.
Qed.

Lemma check_deps_spec seen ns :
  check_deps seen ns = [] ↔ ∀ n d, n ∈ ns → d ∈ depends_on n → d ∈ seen.
Proof.
  unfold check_deps. split.
  - intros He n d Hn Hd. destruct (decide (d ∈ seen)) as [|Hs]; [done|].
    assert (("node '" +:+ n_id n +:+ "' depends on missing node '" +:+ d +:+ "'") ∈ []) as Hin.
    { rw -He. apply list_elem_of_bind. exists n. split; [|done].
      apply list_elem_of_bind. exists d. split; [|done]. rw decide_False //. by left. }
    by apply elem_of_nil in Hin.
  - intros H. apply elem_of_nil_inv. intros x (n & Hx & Hn)%list_elem_of_bind.
    apply list_elem_of_bind in Hx as (d & Hx & Hd). rw decide_True in Hx; [|by eapply H].
    by apply elem_of_nil in Hx.
Qed.

(** The parser's checks accept exactly distinct ids and present dependencies. *)
Lemma structural_checks_spec dsl :
  runStructuralChecks dsl = [] ↔
  NoDup (n_id <$> nodes dsl) ∧
  (∀ n d, n ∈ nodes dsl → d ∈ depends_on n → d ∈ n_id <$> nodes dsl).
Proof.
  unfold runStructuralChecks. destruct (check_ids_spec (nodes dsl)) as [Hs He].
  destruct (check_ids (nodes dsl)) as [seen errors]. simpl in *. subst seen.
  rw -He. split.
  - intros [-> Hd]%app_nil. split; [done|]. rw check_deps_spec in Hd.
    intros n d Hn Hdn. specialize (Hd n d Hn Hdn). by rw elem_of_list_to_set in Hd.
  - intros [-> Hd]. apply check_deps_spec. intros n d Hn Hdn.
    apply elem_of_list_to_set. by eapply Hd.
Qed.

(** What the cycle check accepts passes the structural checks as well. *)
Lemma acyclic_structural `{UnorderedIter} dsl :
  NoDup (n_id <$> nodes dsl) → (∃ order, topological (nodes dsl) order) →
  runStructuralChecks dsl = [].
Proof.
  intros Hnd (order & Hp & Ho). apply structural_checks_spec. split; [done|].
  intros n d Hn Hd. assert (n_id n ∈ order) as (l1 & l2 & Hl)%list_elem_of_split.
  { rw Hp. by apply list_elem_of_fmap_2. }
  rw -Hp Hl. apply elem_of_app. left. by eapply Ho.
Qed.

End WorkflowDsl.
