(* ===== verification/WorkflowStore.v ===== *)
(** * WorkflowStore: runs and node runs of workflows

    [WorkflowStoreOps] is the part of [IWorkflowStateStore]
    ([src/src/workflow/workflow_state_store.h]) that the engine uses, with the
    laws it relies on stated over the two tables; [MemoryWorkflowStore] models
    [src/src/workflow/memory_workflow_state_store.cpp] and discharges them.
    Every operation runs under the store's mutex. *)
From S2P Require Import Prelude.
Local Open Scope Z_scope.

Inductive WorkflowRunStatus :=
| RunPending | RunRunning | RunWaitingForApproval | RunSucceeded | RunFailed | RunCancelled
| RunDeadLetter.
#[global] Instance WorkflowRunStatus_eq_dec : EqDecision WorkflowRunStatus.
Proof. solve_decision. Defined.

Inductive WorkflowNodeStatus :=
| NodePending | NodeRunning | NodeSucceeded | NodeFailed | NodeSkipped
| NodeWaitingForApproval | NodeDeadLetter.
#[global] Instance WorkflowNodeStatus_eq_dec : EqDecision WorkflowNodeStatus.
Proof. solve_decision. Defined.

Definition runStatusToString (s : WorkflowRunStatus) : string :=
  match s with
  | RunPending => "pending"
  | RunRunning => "running"
  | RunWaitingForApproval => "waiting_for_approval"
  | RunSucceeded => "succeeded"
  | RunFailed => "failed"
  | RunCancelled => "cancelled"
  | RunDeadLetter => "dead_letter"
  end.

Definition nodeStatusToString (s : WorkflowNodeStatus) : string :=
  match s with
  | NodePending => "pending"
  | NodeRunning => "running"
  | NodeSucceeded => "succeeded"
  | NodeFailed => "failed"
  | NodeSkipped => "skipped"
  | NodeWaitingForApproval => "waiting_for_approval"
  | NodeDeadLetter => "dead_letter"
  end.

Definition workflowRunStatusFromString (s : string) : option WorkflowRunStatus :=
  if decide (s = "pending") then Some RunPending
  else if decide (s = "running") then Some RunRunning
  else if decide (s = "waiting_for_approval") then Some RunWaitingForApproval
  else if decide (s = "succeeded") then Some RunSucceeded
  else if decide (s = "failed") then Some RunFailed
  else if decide (s = "cancelled") then Some RunCancelled
  else if decide (s = "dead_letter") then Some RunDeadLetter
  else None.

Definition workflowNodeStatusFromString (s : string) : option WorkflowNodeStatus :=
  if decide (s = "pending") then Some NodePending
  else if decide (s = "running") then Some NodeRunning
  else if decide (s = "succeeded") then Some NodeSucceeded
  else if decide (s = "failed") then Some NodeFailed
  else if decide (s = "skipped") then Some NodeSkipped
  else if decide (s = "waiting_for_approval") then Some NodeWaitingForApproval
  else if decide (s = "dead_letter") then Some NodeDeadLetter
  else None.

Record WorkflowRunRecord := {
  wr_run_id : string;
  wr_workflow_id : string;
  wr_dsl_hash : string;
  wr_status : WorkflowRunStatus;
  wr_created_at_ms : Z;
  wr_updated_at_ms : Z;
  wr_dsl_json : string;
  wr_context_json : string;
  wr_initiator_user_id : string;
}.

Record WorkflowNodeRunRecord := {
  nr_run_id : string;
  nr_node_id : string;
  nr_attempt : Z;
  nr_status : WorkflowNodeStatus;
  nr_started_at_ms : Z;
  nr_ended_at_ms : Z;
  nr_result_json : string;
  nr_error_message : string;
  nr_approval_proposal_id : string;
}.

(** [struct NodeKey]: run, node and attempt. *)
Definition NodeKey : Type := string * string * Z.
Definition node_key (n : WorkflowNodeRunRecord) : NodeKey :=
  (nr_run_id n, nr_node_id n, nr_attempt n).

Definition with_status (st : WorkflowRunStatus) (when_ms : Z) (r : WorkflowRunRecord) :
    WorkflowRunRecord :=
  {| wr_run_id := wr_run_id r; wr_workflow_id := wr_workflow_id r;
     wr_dsl_hash := wr_dsl_hash r; wr_status := st; wr_created_at_ms := wr_created_at_ms r;
     wr_updated_at_ms := when_ms; wr_dsl_json := wr_dsl_json r;
     wr_context_json := wr_context_json r; wr_initiator_user_id := wr_initiator_user_id r |}.

Definition with_context (ctx : string) (when_ms : Z) (r : WorkflowRunRecord) :
    WorkflowRunRecord :=
  {| wr_run_id := wr_run_id r; wr_workflow_id := wr_workflow_id r;
     wr_dsl_hash := wr_dsl_hash r; wr_status := wr_status r;
     wr_created_at_ms := wr_created_at_ms r; wr_updated_at_ms := when_ms;
     wr_dsl_json := wr_dsl_json r; wr_context_json := ctx;
     wr_initiator_user_id := wr_initiator_user_id r |}.

(** The operations the engine uses, and the tables they work on. *)
Class WorkflowStoreOps (S : Type) := {
  ws_createRun : WorkflowRunRecord → S → bool * S;
  ws_getRun : string → S → option WorkflowRunRecord;
  ws_transition : string → WorkflowRunStatus → Z → S → bool * S;
  ws_upsertNodeRun : WorkflowNodeRunRecord → S → bool * S;
  ws_listNodeRuns : string → S → list WorkflowNodeRunRecord;
  ws_runs : S → gmap string WorkflowRunRecord;
  ws_rows : S → gmap NodeKey WorkflowNodeRunRecord;
}.

Class WorkflowStoreLaws (S : Type) `{!WorkflowStoreOps S} : Prop := {
  create_spec r s :
    ws_rows (ws_createRun r s).2 = ws_rows s ∧
    ws_runs (ws_createRun r s).2 =
      match ws_runs s !! wr_run_id r with
      | Some _ => ws_runs s
      | None => <[wr_run_id r := r]> (ws_runs s)
      end;
  get_spec id s : ws_getRun id s = ws_runs s !! id;
  transition_spec id st t s :
    ws_rows (ws_transition id st t s).2 = ws_rows s ∧
    ws_runs (ws_transition id st t s).2 = alter (with_status st t) id (ws_runs s);
  upsert_spec n s :
    ws_rows (ws_upsertNodeRun n s).2 = <[node_key n := n]> (ws_rows s) ∧
    ws_runs (ws_upsertNodeRun n s).2 = ws_runs s;
  list_spec run n s :
    n ∈ ws_listNodeRuns run s ↔ ∃ k, ws_rows s !! k = Some n ∧ k.1.1 = run;
}.

Module MemoryWorkflowStore.

Record Store := {
  runs : gmap string WorkflowRunRecord;
  node_rows : gmap NodeKey WorkflowNodeRunRecord;
}.

Definition createRun (r : WorkflowRunRecord) (s : Store) : bool * Store :=
  match runs s !! wr_run_id r with
  | Some _ => (false, s)
  | None => (true, {| runs := <[wr_run_id r := r]> (runs s); node_rows := node_rows s |})
  end.

Definition getRun (run_id : string) (s : Store) : option WorkflowRunRecord := runs s !! run_id.

Definition listRuns `{UnorderedIter} (filter_status : option WorkflowRunStatus) (s : Store) :
    list WorkflowRunRecord :=
  base.filter (λ r, match filter_status with
                    | Some st => bool_decide (wr_status r = st)
                    | None => true
                    end = true) (iter (runs s)).*2.

(** An update of one run in place. *)
Definition update_run (f : WorkflowRunRecord → WorkflowRunRecord) (run_id : string)
    (s : Store) : bool * Store :=
  match runs s !! run_id with
  | None => (false, s)
  | Some r => (true, {| runs := <[run_id := f r]> (runs s); node_rows := node_rows s |})
  end.

Definition transitionRunStatus (run_id : string) (st : WorkflowRunStatus) (when_ms : Z) :
    Store → bool * Store := update_run (with_status st when_ms) run_id.

Definition updateRunContext (run_id ctx : string) (when_ms : Z) : Store → bool * Store :=
  update_run (with_context ctx when_ms) run_id.

Definition upsertNodeRun (n : WorkflowNodeRunRecord) (s : Store) : bool * Store :=
  (true, {| runs := runs s; node_rows := <[node_key n := n]> (node_rows s) |}).

Definition listNodeRuns `{UnorderedIter} (run_id : string) (s : Store) :
    list WorkflowNodeRunRecord :=
  (base.filter (λ kv, kv.1.1.1 = run_id) (iter (node_rows s))).*2.

(** The scan for the highest attempt. *)
Definition better (run_id node_id : string) (best : option WorkflowNodeRunRecord)
    (kv : NodeKey * WorkflowNodeRunRecord) : option WorkflowNodeRunRecord :=
  if decide (kv.1.1 = (run_id, node_id)) then
    match best with
    | Some b => if nr_attempt b <? kv.1.2 then Some kv.2 else best
    | None => Some kv.2
    end
  else best.

Definition getNodeRun `{UnorderedIter} (run_id node_id : string) (s : Store) :
    option WorkflowNodeRunRecord :=
  foldl (better run_id node_id) None (iter (node_rows s)).

(** Which runs [pruneOldRuns] drops. *)
Definition outdated (cutoff_ms : Z) (r : WorkflowRunRecord) : bool :=
  (if 0 <? wr_updated_at_ms r then wr_updated_at_ms r else wr_created_at_ms r) <? cutoff_ms.

Definition drop_run (s : Store) (id : string) : Store :=
  {| runs := delete id (runs s);
     node_rows := filter (λ kv, kv.1.1.1 ≠ id) (node_rows s) |}.

Definition pruneOldRuns `{UnorderedIter} (cutoff_ms : Z) (s : Store) : Z * Store :=
  let ids := (base.filter (λ kv, outdated cutoff_ms kv.2 = true) (iter (runs s))).*1 in
  (Z.of_nat (length ids), foldl drop_run s ids).

End MemoryWorkflowStore.
Import MemoryWorkflowStore.

#[global] Instance memory_workflow_ops `{UnorderedIter} : WorkflowStoreOps Store := {
  ws_createRun := createRun;
  ws_getRun := getRun;
  ws_transition := transitionRunStatus;
  ws_upsertNodeRun := upsertNodeRun;
  ws_listNodeRuns := listNodeRuns;
  ws_runs := runs;
  ws_rows := node_rows;
}.

#[global] Instance memory_workflow_laws `{UnorderedIter} : WorkflowStoreLaws Store.
Proof.
  split; simpl.
  - intros r s. unfold createRun. by destruct (runs s !! wr_run_id r).
  - done.
  - intros id st t s. unfold transitionRunStatus, update_run.
    rw alter_alt. by destruct (runs s !! id).
  - done.
  - intros run n s. unfold listNodeRuns. rw list_elem_of_fmap. split.
    + intros ([k v] & -> & [Hr Hi]%list_elem_of_filter). exists k. by rw -elem_of_iter.
    + intros (k & Hk & Hr). exists (k, n). split; [done|]. apply list_elem_of_filter.
      by rw elem_of_iter.
Qed.
