(* ===== verification/WorkflowEngine.v ===== *)
(** * WorkflowEngine: the concurrent scheduler of workflow nodes

    Models [src/src/workflow/workflow_engine.cpp] on a thread pool
    ([src/src/workflow/thread_pool.cpp]) of [worker_count] workers with a FIFO
    queue.  [runNode] is a program over the engine's atomic calls: operations
    of the state store, loads and stores of the flags and counters, and the
    completion section under [sched_mu].  [engine_step] interleaves the
    workers, the queue and an environment; [execute] is the code before the
    dispatch ([execute_begin]), the interleaving, and the code after it
    ([execute_end]).

    A call that throws leaves [runNode] without the completion section: the
    worker swallows the exception.  The tool executor, the approval callback
    and whether a tool call times out are parameters. *)
From S2P Require Import Prelude.
From S2P Require Import Prog.
From S2P Require Import Json.
From S2P Require Import ToolSandbox.
From S2P Require Import WorkflowDsl.
From S2P Require Import WorkflowStore.
Import Json WorkflowDsl.
Local Open Scope Z_scope.

Module WorkflowEngine.

(** [struct WorkflowEngineConfig]. *)
Record Config := {
  worker_count : nat;
  default_node_timeout : Z;
  stop_on_first_failure : bool;
  max_concurrent_runs : Z;
}.

(** [struct WorkflowExecutionResult]. *)
Record ExecutionResult := {
  ok : bool;
  final_status : WorkflowRunStatus;
  error_message : string;
  completed_nodes : Z;
  failed_nodes : Z;
}.

(** What the engine calls: the sandbox (when there is one) with its executor,
    the human-approval callback (when set) and whether a tool call exceeds its
    timeout.  [None] is an exception. *)
Record Env (C : Type) := {
  has_sandbox : bool;
  executor : option (string → json → C → (string + string) * C);
  approval_cb : option (string → NodeSpec → json → C → option bool * C);
  times_out : string → Z → C → bool;
}.
Arguments has_sandbox {_}.
Arguments executor {_}.
Arguments approval_cb {_}.
Arguments times_out {_}.

(** The locals of [execute] that the workers share.  [submitted], [finished]
    and [released] are ghost state: the nodes submitted so far, in order,
    those whose completion section has run, and those whose successors it
    has released. *)
Record Sched := {
  in_degree : Degrees;
  outstanding : Z;
  queue : list string;
  cancelled : bool;
  paused : bool;
  any_failure : bool;
  completed : Z;
  failed : Z;
  submitted : list string;
  finished : list string;
  released : list string;
}.

Record World (S C : Type) := mk_world {
  w_store : S;
  w_sandbox : ToolSandbox.Sandbox;
  w_ext : C;
  w_now : Z;
  w_active : Z;
  w_sched : Sched;
}.
Arguments mk_world {_ _}.
Arguments w_store {_ _}.
Arguments w_sandbox {_ _}.
Arguments w_ext {_ _}.
Arguments w_now {_ _}.
Arguments w_active {_ _}.
Arguments w_sched {_ _}.

(** The atomic calls of [runNode]. *)
Inductive Cmd : Type → Type :=
| NowMs : Cmd Z
| LoadCancelled : Cmd bool
| UpsertNodeRun (n : WorkflowNodeRunRecord) : Cmd unit
| AskApproval (node : NodeSpec) : Cmd (option bool)
| RunTool (tool_id : string) (args : json) (timeout : Z) :
    Cmd (option ToolSandbox.ToolExecutionResult)
| Sleep (ms : Z) : Cmd unit
| StorePaused : Cmd unit
| StoreCancelled : Cmd unit
| StoreFailure : Cmd unit
| AddCompleted : Cmd unit
| AddFailed : Cmd unit
| Complete (node_id : string) (advance : bool) : Cmd unit.

(** [by_id[n.id] = &n]. *)
Definition by_id (dsl : Dsl) : gmap string NodeSpec :=
  foldl (λ m n, <[n_id n := n]> m) ∅ (nodes dsl).

(** [in_degree] and [succ], built by the two loops of [execute]. *)
Definition graph (dsl : Dsl) : Degrees * Successors :=
  foldl (λ g n, foldl (λ g d, add_edge d (n_id n) g) g (depends_on n))
    (zero_degrees (nodes dsl), ∅) (nodes dsl).

Definition set_flags (c p f : bool) (s : Sched) : Sched :=
  {| in_degree := in_degree s; outstanding := outstanding s; queue := queue s;
     cancelled := c; paused := p; any_failure := f; completed := completed s;
     failed := failed s; submitted := submitted s; finished := finished s;
     released := released s |}.

Definition set_counts (c f : Z) (s : Sched) : Sched :=
  {| in_degree := in_degree s; outstanding := outstanding s; queue := queue s;
     cancelled := cancelled s; paused := paused s; any_failure := any_failure s;
     completed := c; failed := f; submitted := submitted s; finished := finished s;
     released := released s |}.

(** The completion section: release the successors of [id], then count it
    out. *)
Definition complete (succ : Successors) (id : string) (advance : bool) (s : Sched) : Sched :=
  let go := advance && negb (cancelled s) in
  let '(deg, new) := if go then release (successors succ id) (in_degree s) []
                     else (in_degree s, []) in
  {| in_degree := deg; outstanding := outstanding s + Z.of_nat (length new) - 1;
     queue := queue s ++ new; cancelled := cancelled s; paused := paused s;
     any_failure := any_failure s; completed := completed s; failed := failed s;
     submitted := submitted s ++ new; finished := finished s ++ [id];
     released := if go then released s ++ [id] else released s |}.

Section engine.
Context {S C : Type} `{!WorkflowStoreOps S}.
Context (cfg : Config) (env : Env C) (dsl : Dsl) (run_id : string) (context : json).

Definition set_store (st : S) (w : World S C) : World S C :=
  mk_world st (w_sandbox w) (w_ext w) (w_now w) (w_active w) (w_sched w).

Definition on_sched (f : Sched → Sched) (w : World S C) : World S C :=
  mk_world (w_store w) (w_sandbox w) (w_ext w) (w_now w) (w_active w) (f (w_sched w)).

(** A tool call through [std::async] with [wait_for]: the sandbox runs in any
    case, and its answer is dropped on a timeout. *)
Definition run_tool (tool_id : string) (args : json) (timeout : Z) (w : World S C) :
    option ToolSandbox.ToolExecutionResult * World S C :=
  let '(r, (sb, c)) :=
    ToolSandbox.execute (executor env) tool_id args (w_sandbox w) (w_ext w) in
  (if times_out env tool_id timeout (w_ext w)
   then Some {| ToolSandbox.tr_tool_id := ""; ToolSandbox.tr_status := ToolSandbox.Timeout;
                ToolSandbox.tr_output := ""; ToolSandbox.tr_error_message := "node_timeout" |}
   else r,
   mk_world (w_store w) sb c (w_now w) (w_active w) (w_sched w)).

Definition exec {B} (e : Cmd B) : World S C → B * World S C :=
  match e with
  | NowMs => λ w, (w_now w, w)
  | LoadCancelled => λ w, (cancelled (w_sched w), w)
  | UpsertNodeRun n => λ w, (tt, set_store (ws_upsertNodeRun n (w_store w)).2 w)
  | AskApproval node => λ w,
      match approval_cb env with
      | None => (Some true, w)
      | Some cb =>
          let '(r, c) := cb run_id node context (w_ext w) in
          (r, mk_world (w_store w) (w_sandbox w) c (w_now w) (w_active w) (w_sched w))
      end
  | RunTool tool_id args timeout => run_tool tool_id args timeout
  | Sleep _ => λ w, (tt, w)
  | StorePaused => λ w, (tt, on_sched (λ s, set_flags (cancelled s) true (any_failure s) s) w)
  | StoreCancelled => λ w, (tt, on_sched (λ s, set_flags true (paused s) (any_failure s) s) w)
  | StoreFailure => λ w, (tt, on_sched (λ s, set_flags (cancelled s) (paused s) true s) w)
  | AddCompleted => λ w, (tt, on_sched (λ s, set_counts (completed s + 1) (failed s) s) w)
  | AddFailed => λ w, (tt, on_sched (λ s, set_counts (completed s) (failed s + 1) s) w)
  | Complete id advance => λ w, (tt, on_sched (complete (graph dsl).2 id advance) w)
  end.

(** ** [runNode] *)

Definition node_row (id : string) (attempt : Z) (st : WorkflowNodeStatus)
    (started ended : Z) (result err : string) : WorkflowNodeRunRecord :=
  {| nr_run_id := run_id; nr_node_id := id; nr_attempt := attempt; nr_status := st;
     nr_started_at_ms := started; nr_ended_at_ms := ended; nr_result_json := result;
     nr_error_message := err; nr_approval_proposal_id := "" |}.

(** The branch for a human approval; the result is [advance]. *)
Definition run_approval (id : string) (node : NodeSpec) : prog Cmd (option bool) :=
  t ← call NowMs;
  _ ← call (UpsertNodeRun (node_row id 1 NodeWaitingForApproval t 0 "" ""));
  do_pause ← call (AskApproval node);
  match do_pause with
  | None => Ret None
  | Some true => _ ← call StorePaused; _ ← call StoreCancelled; Ret (Some false)
  | Some false =>
      t' ← call NowMs;
      _ ← call (UpsertNodeRun (node_row id 1 NodeSucceeded t t' "" ""));
      _ ← call AddCompleted;
      Ret (Some true)
  end.

(** Pure topology: conditional, fan-out, fan-in. *)
Definition run_topology (id : string) : prog Cmd (option bool) :=
  t ← call NowMs;
  _ ← call (UpsertNodeRun (node_row id 1 NodeSkipped 0 t "" ""));
  Ret (Some true).

(** The delay before the next attempt, in 32 bits. *)
Definition backoff (r : RetryPolicy) (attempt : Z) : Z :=
  if exponential r then to_int (backoff_ms r * to_int (2 ^ (attempt - 1))) else backoff_ms r.

Definition tool_failure (r : ToolSandbox.ToolExecutionResult) : string :=
  if str_empty (ToolSandbox.tr_error_message r) then "tool_failed"
  else ToolSandbox.tr_error_message r.

Definition no_sandbox : ToolSandbox.ToolExecutionResult :=
  {| ToolSandbox.tr_tool_id := ""; ToolSandbox.tr_status := ToolSandbox.Error;
     ToolSandbox.tr_output := ""; ToolSandbox.tr_error_message := "no_tool_sandbox" |}.

(** [args["__run_id"] = run_id; args["node_id"] = node_id]. *)
Definition tool_args (id : string) (node : NodeSpec) : option json :=
  match json_assign "__run_id" (JString run_id) (arguments node) with
  | Some args => json_assign "node_id" (JString id) args
  | None => None
  end.

(** The retry loop from [attempt] on, with [togo] attempts to go: whether the
    node succeeded, the loop variable on exit and the last error. *)
Fixpoint attempts (id : string) (node : NodeSpec) (timeout : Z) (togo : nat) (attempt : Z)
    (last_error : string) : prog Cmd (option (bool * Z * string)) :=
  match togo with
  | O => Ret (Some (false, attempt, last_error))
  | Datatypes.S togo =>
      c ← call LoadCancelled;
      if c : bool then Ret (Some (false, attempt, last_error))
      else
        t ← call NowMs;
        _ ← call (UpsertNodeRun (node_row id attempt NodeRunning t 0 "" ""));
        match tool_args id node with
        | None => Ret None
        | Some args =>
            sr ← (if has_sandbox env then call (RunTool (tool_id node) args timeout)
                  else Ret (Some no_sandbox));
            match sr with
            | None => Ret None
            | Some sr =>
                t' ← call NowMs;
                if decide (ToolSandbox.tr_status sr = ToolSandbox.Success) then
                  _ ← call (UpsertNodeRun (node_row id attempt NodeSucceeded t t'
                                             (ToolSandbox.tr_output sr) ""));
                  Ret (Some (true, attempt, last_error))
                else
                  let err := tool_failure sr in
                  _ ← call (UpsertNodeRun (node_row id attempt NodeFailed t t' "" err));
                  _ ← (if bool_decide (togo ≠ O) && (0 <? backoff_ms (retry node))
                       then call (Sleep (backoff (retry node) attempt)) else Ret tt);
                  attempts id node timeout togo (attempt + 1) err
            end
        end
  end.

Definition run_tool_node (id : string) (node : NodeSpec) : prog Cmd (option bool) :=
  let max_attempts := Z.max 1 (max_attempts (retry node)) in
  let timeout := if 0 <? timeout_ms node then timeout_ms node else default_node_timeout cfg in
  r ← attempts id node timeout (Z.to_nat max_attempts) 1 "";
  match r with
  | None => Ret None
  | Some (true, _, _) => _ ← call AddCompleted; Ret (Some true)
  | Some (false, attempt, last_error) =>
      t ← call NowMs;
      _ ← call (UpsertNodeRun (node_row id (Z.max 1 (attempt - 1)) NodeDeadLetter 0 t ""
                                 last_error));
      _ ← call AddFailed;
      _ ← call StoreFailure;
      _ ← (if stop_on_first_failure cfg then call StoreCancelled else Ret tt);
      Ret (Some false)
  end.

(** The node's own work; [by_id] finds every submitted node. *)
Definition node_work (id : string) : prog Cmd (option bool) :=
  match by_id dsl !! id with
  | None => Ret None
  | Some node =>
      match n_type node with
      | HumanApproval => run_approval id node
      | Tool => run_tool_node id node
      | _ => run_topology id
      end
  end.

Definition runNode (id : string) : prog Cmd unit :=
  c ← call LoadCancelled;
  advance ← (if c : bool then Ret (Some false) else node_work id);
  match advance with
  | None => Ret tt
  | Some advance => call (Complete id advance)
  end.

(** ** The pool *)

Definition State : Type := list (string * prog Cmd unit) * World S C.

(** The environment: the clock, the sandbox, other runs. *)
Definition env_step (w w' : World S C) : Prop :=
  w_sched w' = w_sched w ∧
  ∀ k, k.1.1 = run_id → ws_rows (w_store w') !! k = ws_rows (w_store w) !! k.

Definition pop_queue (q : list string) (s : Sched) : Sched :=
  {| in_degree := in_degree s; outstanding := outstanding s; queue := q;
     cancelled := cancelled s; paused := paused s; any_failure := any_failure s;
     completed := completed s; failed := failed s; submitted := submitted s;
     finished := finished s; released := released s |}.

(** A worker takes a job, makes one call, or is done with its job. *)
Inductive own_step : State → State → Prop :=
| es_start ts w id q :
    queue (w_sched w) = id :: q → (length ts < Nat.max 1 (worker_count cfg))%nat →
    own_step (ts, w) (ts ++ [(id, runNode id)], on_sched (pop_queue q) w)
| es_call ts1 id B (e : Cmd B) k ts2 w :
    own_step (ts1 ++ (id, Vis e k) :: ts2, w)
             (ts1 ++ (id, k (exec e w).1) :: ts2, (exec e w).2)
| es_end ts1 id ts2 w : own_step (ts1 ++ (id, Ret tt) :: ts2, w) (ts1 ++ ts2, w).

(** An interleaving with the number of steps the pool makes in it. *)
Inductive engine_run : nat → State → State → Prop :=
| er_refl s : engine_run 0 s s
| er_own n s1 s2 s3 : own_step s1 s2 → engine_run n s2 s3 → engine_run (Datatypes.S n) s1 s3
| er_env n ts w1 w2 s3 :
    env_step w1 w2 → engine_run n (ts, w2) s3 → engine_run n (ts, w1) s3.

(** ** [execute] *)

Definition no_result : ExecutionResult :=
  {| ok := false; final_status := RunFailed; error_message := ""; completed_nodes := 0;
     failed_nodes := 0 |}.

Definition refuse (st : WorkflowRunStatus) (msg : string) : ExecutionResult :=
  {| ok := false; final_status := st; error_message := msg; completed_nodes := 0;
     failed_nodes := 0 |}.

Definition new_sched (deg : Degrees) (ready : list string) : Sched :=
  {| in_degree := deg; outstanding := Z.of_nat (length ready); queue := ready;
     cancelled := false; paused := false; any_failure := false; completed := 0; failed := 0;
     submitted := ready; finished := []; released := [] |}.

Definition set_active (n : Z) (w : World S C) : World S C :=
  mk_world (w_store w) (w_sandbox w) (w_ext w) (w_now w) n (w_sched w).

Definition transition (st : WorkflowRunStatus) (w : World S C) : World S C :=
  set_store (ws_transition run_id st (w_now w) (w_store w)).2 w.

(** What the code up to the dispatch comes to. *)
Inductive Begun :=
| Refused (r : ExecutionResult)
| Threw
| Dispatched.

Definition run_record (hash dsl_json context_json : string) (t : Z) : WorkflowRunRecord :=
  {| wr_run_id := run_id; wr_workflow_id := d_id dsl; wr_dsl_hash := hash;
     wr_status := RunRunning; wr_created_at_ms := t; wr_updated_at_ms := t;
     wr_dsl_json := dsl_json; wr_context_json := context_json; wr_initiator_user_id := "" |}.

(** Everything before the dispatch, with the run admitted. *)
Definition execute_begin `{UnorderedIter} (dump : json → option string)
    (sha256 : string → string) (autonomy_enabled : bool) (w : World S C) : Begun * World S C :=
  let cur := w_active w + 1 in
  if max_concurrent_runs cfg <? cur then (Refused (refuse RunFailed "backpressure_rejected"), w)
  else if negb autonomy_enabled then
    (Refused (refuse RunCancelled "autonomy_disabled"),
     match ws_getRun run_id (w_store w) with
     | Some _ => transition RunCancelled w
     | None => w
     end)
  else match validateNoCycle dsl with
  | Some node =>
      (Refused (refuse RunFailed ("cycle detected at node '" +:+ node +:+ "'")), w)
  | None =>
      match validateNoSandboxBypass dsl None with
      | node :: _ =>
          (Refused (refuse RunFailed ("sandbox_bypass attempted at node '" +:+ node +:+ "'")), w)
      | [] =>
          match canonicalHash dump sha256 dsl, dump (toJson dsl), dump context with
          | Some hash, Some dsl_json, Some context_json =>
              let w := set_store (ws_createRun (run_record hash dsl_json context_json (w_now w))
                                    (w_store w)).2 w in
              let w := transition RunRunning w in
              let deg := (graph dsl).1 in
              let ready := (base.filter (λ kv, kv.2 = 0) (iter deg)).*1 in
              (Dispatched,
               mk_world (w_store w) (w_sandbox w) (w_ext w) (w_now w) cur (new_sched deg ready))
          | _, _, _ => (Threw, w)
          end
      end
  end.

(** Everything after [done_cv.wait]. *)
Definition execute_end (w : World S C) : ExecutionResult * World S C :=
  let s := w_sched w in
  let '(st, good, msg) :=
    if paused s then (RunWaitingForApproval, false, "")
    else if any_failure s then (RunDeadLetter, false, "node_failed")
    else (RunSucceeded, true, "") in
  ({| ok := good; final_status := st; error_message := msg; completed_nodes := completed s;
      failed_nodes := failed s |},
   set_active (w_active w - 1) (transition st w)).

(** ** [resume] *)

(** One row: a done one goes to the done set, a waiting one is approved. *)
Definition approve_row (acc : gset string * World S C) (n : WorkflowNodeRunRecord) :
    gset string * World S C :=
  let '(dn, w) := acc in
  let dn := if decide (nr_status n = NodeSucceeded ∨ nr_status n = NodeSkipped)
            then {[nr_node_id n]} ∪ dn else dn in
  if decide (nr_status n = NodeWaitingForApproval) then
    let upd := {| nr_run_id := nr_run_id n; nr_node_id := nr_node_id n;
                  nr_attempt := nr_attempt n; nr_status := NodeSucceeded;
                  nr_started_at_ms := nr_started_at_ms n; nr_ended_at_ms := w_now w;
                  nr_result_json := nr_result_json n;
                  nr_error_message := nr_error_message n;
                  nr_approval_proposal_id := nr_approval_proposal_id n |} in
    ({[nr_node_id n]} ∪ dn, set_store (ws_upsertNodeRun upd (w_store w)).2 w)
  else (dn, w).

(** The loop over the rows. *)
Definition approve_rows (rows : list WorkflowNodeRunRecord) (w : World S C) :
    gset string * World S C :=
  foldl approve_row (∅, w) rows.

(** The nodes still to run, without the dependencies already met. *)
Definition trim (dn : gset string) (d : Dsl) : Dsl :=
  {| d_id := d_id d; d_version := d_version d; d_description := "";
     nodes := (λ n, {| n_id := n_id n; n_type := n_type n; tool_id := tool_id n;
                       arguments := arguments n;
                       depends_on := base.filter (λ d, d ∉ dn) (depends_on n);
                       condition := condition n; retry := retry n; timeout_ms := timeout_ms n;
                       dead_letter_log := dead_letter_log n |})
                <$> base.filter (λ n, n_id n ∉ dn) (nodes d);
     metadata := metadata d |}.

(** [resume] up to its call of [execute] on the trimmed workflow. *)
Definition resume_begin (parse : string → option json) (dump : json → option string)
    (sha256 : string → string) (w : World S C) :
    option (ExecutionResult + Dsl * json) * World S C :=
  match ws_getRun run_id (w_store w) with
  | None => (Some (inl (refuse RunFailed "run_not_found")), w)
  | Some r =>
      if negb (bool_decide (wr_status r = RunWaitingForApproval))
      then (Some (inl (refuse (wr_status r) "run_not_paused")), w)
      else match parse (wr_dsl_json r) ≫= fromJson with
      | None => (Some (inl (refuse RunFailed "dsl_corrupt")), w)
      | Some d =>
          match canonicalHash dump sha256 d with
          | None => (None, w)
          | Some h =>
              if negb (bool_decide (h = wr_dsl_hash r))
              then (Some (inl (refuse RunFailed "dsl_hash_mismatch")), transition RunFailed w)
              else
                let '(dn, w) := approve_rows (ws_listNodeRuns run_id (w_store w)) w in
                let w := transition RunRunning w in
                match parse (wr_context_json r) with
                | None => (None, w)
                | Some ctx => (Some (inr (trim dn d, ctx)), w)
                end
          end
      end
  end.

End engine.

(** The calls a node's work makes at most, and a bound on the steps of a whole
    run: for each node the calls, the loads and the completion section around
    them, and the worker's taking and leaving the job. *)
Definition node_calls (node : NodeSpec) : nat :=
  7 * Z.to_nat (Z.max 1 (max_attempts (retry node))) + 5.

Definition run_bound (dsl : Dsl) : nat :=
  sum_list_with (λ node, node_calls node + 4)%nat (nodes dsl).

(** ** Invariants of a run *)

Section run.
Context {S C : Type} `{!WorkflowStoreOps S} `{!WorkflowStoreLaws S}.
Context (cfg : Config) (env : Env C) (dsl : Dsl) (run_id : string) (context : json).

Notation E := (edges (nodes dsl)).
Notation ids := (n_id <$> nodes dsl).
Notation N := (list_to_set ids : gset string).
Notation World := (World S C).
Notation exec := (exec env dsl run_id context).

(** The node has a row that says it is done. *)
Definition row_done (st : WorkflowNodeStatus) : Prop := st = NodeSucceeded ∨ st = NodeSkipped.
Definition node_done (w : World) (id : string) : Prop :=
  ∃ a r, ws_rows (w_store w) !! (run_id, id, a) = Some r ∧ row_done (nr_status r).

Definition stuck (w : World) : Prop :=
  paused (w_sched w) = true ∨ any_failure (w_sched w) = true.

Record inv (w : World) : Prop := {
  i_kahn : kahn_inv E N (submitted (w_sched w)) (in_degree (w_sched w));
  i_open : degrees_open E N (released (w_sched w)) [] (in_degree (w_sched w));
  i_nodup : NoDup (finished (w_sched w));
  i_finished x : x ∈ finished (w_sched w) → x ∈ submitted (w_sched w);
  i_released x : x ∈ released (w_sched w) → x ∈ finished (w_sched w);
  i_outstanding : outstanding (w_sched w) =
    Z.of_nat (length (submitted (w_sched w))) - Z.of_nat (length (finished (w_sched w)));
  i_queue : ∃ pre, submitted (w_sched w) = pre ++ queue (w_sched w);
  i_waiting x : x ∈ queue (w_sched w) → x ∉ finished (w_sched w);
  i_done x : x ∈ released (w_sched w) → node_done w x;
  i_hole x : x ∈ finished (w_sched w) → x ∈ released (w_sched w) ∨ stuck w;
  i_cancelled : cancelled (w_sched w) = true → stuck w;
}.

(** What changes while the nodes [P] are left alone. *)
Record keeps (P : string → Prop) (w w' : World) : Prop := {
  k_submitted x : x ∈ submitted (w_sched w) → x ∈ submitted (w_sched w');
  k_queue x : x ∈ submitted (w_sched w) → x ∈ queue (w_sched w') → x ∈ queue (w_sched w);
  k_stuck : stuck w → stuck w';
  k_rows x a : P x →
    ws_rows (w_store w') !! (run_id, x, a) = ws_rows (w_store w) !! (run_id, x, a);
  k_finished x : P x → x ∈ finished (w_sched w') → x ∈ finished (w_sched w);
  k_ended x : x ∈ finished (w_sched w) → x ∈ finished (w_sched w');
}.

Definition Rel (id : string) : relation World := keeps (λ x, x = id).
Definition Gua (id : string) : relation World := keeps (λ x, x ≠ id).

#[global] Instance keeps_preorder P : PreOrder (keeps P).
Proof.
  split; [by split|]. intros w1 w2 w3 [S1 Q1 K1 R1 F1 N1] [S2 Q2 K2 R2 F2 N2].
  split; [by auto|by auto|by auto| |by auto|by auto]. intros x a HP. by rw R2 // R1.
Qed.

Lemma keeps_mono (P P' : string → Prop) w w' : (∀ x, P' x → P x) → keeps P w w' → keeps P' w w'.
Proof. intros HP []. split; eauto. Qed.

(** A job under way: taken from the queue, its completion section to come. *)
Definition job (id : string) (w : World) : Prop :=
  id ∈ submitted (w_sched w) ∧ id ∉ queue (w_sched w) ∧ id ∉ finished (w_sched w).

Lemma job_stable id w w' : Rel id w w' → job id w → job id w'.
Proof. intros [] (?&?&?). unfold job. split_and!; eauto. Qed.

Lemma node_done_stable id w w' : Rel id w w' → node_done w id → node_done w' id.
Proof. intros [] (a & r & Hr & ?). exists a, r. split; [|done]. by rw k_rows0. Qed.

(** Calls that leave the scheduler and the rows of other nodes alone. *)
Lemma keeps_own id w w' :
  w_sched w' = w_sched w →
  (∀ x a, x ≠ id →
     ws_rows (w_store w') !! (run_id, x, a) = ws_rows (w_store w) !! (run_id, x, a)) →
  Gua id w w'.
Proof. intros Hs Hr. split; unfold stuck; rw ?Hs; eauto. Qed.

Lemma inv_own id w w' :
  job id w → w_sched w' = w_sched w →
  (∀ x a, x ≠ id →
     ws_rows (w_store w') !! (run_id, x, a) = ws_rows (w_store w) !! (run_id, x, a)) →
  inv w → inv w'.
Proof.
  intros (_ & _ & Hf) Hs Hr []. split; unfold stuck; rw ?Hs; try done.
  intros x Hx. destruct (i_done0 x Hx) as (a & r & Ha & ?). exists a, r. split; [|done].
  rw Hr //. intros ->. eauto.
Qed.

(** A change of flags and counters only. *)
Record flags_only (s s' : Sched) : Prop := {
  f_degree : in_degree s' = in_degree s;
  f_outstanding : outstanding s' = outstanding s;
  f_queue : queue s' = queue s;
  f_submitted : submitted s' = submitted s;
  f_finished : finished s' = finished s;
  f_released : released s' = released s;
  f_paused : paused s = true → paused s' = true;
  f_failure : any_failure s = true → any_failure s' = true;
}.

Lemma keeps_flags P f w : flags_only (w_sched w) (f (w_sched w)) → keeps P w (on_sched f w).
Proof.
  intros []. split; unfold stuck; simpl; try done; rw ?f_submitted0 ?f_queue0 ?f_finished0; try done.
  naive_solver.
Qed.

Lemma inv_flags f w :
  flags_only (w_sched w) (f (w_sched w)) →
  (cancelled (f (w_sched w)) = true → stuck (on_sched f w)) → inv w → inv (on_sched f w).
Proof.
  intros Hf Hc Hi. pose proof (k_stuck _ _ _ (keeps_flags (λ _, True) f w Hf)) as Hst.
  destruct Hf, Hi. split; simpl;
    rw ?f_degree0 ?f_submitted0 ?f_finished0 ?f_released0 ?f_outstanding0 ?f_queue0; try done.
  intros x Hx. destruct (i_hole0 x Hx); auto.
Qed.

Notation ex := (λ B (e : Cmd B), exec e).
Notation tsafe id := (safe ex (Rel id) (Gua id) inv).

(** Calls that change neither the scheduler nor the store. *)
Definition quiet_call {B} (e : Cmd B) : Prop :=
  ∀ w : World, w_sched (exec e w).2 = w_sched w ∧ w_store (exec e w).2 = w_store w.

Lemma S_quiet id {A B} (e : Cmd B) (Q : A → World → Prop) k w :
  quiet_call e → job id w →
  (∀ w1 w2, Rel id w w1 → inv w1 → Rel id w w2 → job id w2 → w2 = (exec e w1).2 →
     tsafe id Q (k (exec e w1).1) w2) →
  tsafe id Q (call e ≫= k) w.
Proof.
  intros Hq Hj Hk w1 HR HI. destruct (Hq w1) as [Hs Hst]. cbv beta.
  assert (job id w1) as Hj1 by by eapply job_stable.
  split_and!.
  - apply keeps_own; [done|]. by intros; rw Hst.
  - eapply inv_own; [done|done| |done]. by intros; rw Hst.
  - apply Hk; [done|done| |unfold job; by rw Hs|done].
    etrans; [done|]. split; unfold stuck; rw ?Hs ?Hst; auto.
Qed.

Lemma S_load id {A} (Q : A → World → Prop) k w :
  job id w →
  (∀ w2 c, Rel id w w2 → job id w2 → (c = true → stuck w2) → tsafe id Q (k c) w2) →
  tsafe id Q (call LoadCancelled ≫= k) w.
Proof.
  intros Hj Hk. apply S_quiet; [done|done|]. intros w1 w2 _ HI HR Hj2 ->. apply Hk; [done|done|].
  apply (i_cancelled _ HI).
Qed.

Lemma S_upsert id {A} row (Q : A → World → Prop) k w :
  nr_run_id row = run_id → nr_node_id row = id → job id w →
  (∀ w2, (stuck w → stuck w2) → job id w2 →
     (row_done (nr_status row) → node_done w2 id) → tsafe id Q (k tt) w2) →
  tsafe id Q (call (UpsertNodeRun row) ≫= k) w.
Proof.
  intros Hrun Hid Hj Hk w1 HR HI. cbv beta. cbn [exec fst snd].
  assert (job id w1) as Hj1 by by eapply job_stable.
  destruct (upsert_spec row (w_store w1)) as [Hrows _].
  assert (∀ x a, x ≠ id →
    ws_rows (w_store (set_store (ws_upsertNodeRun row (w_store w1)).2 w1)) !! (run_id, x, a) =
    ws_rows (w_store w1) !! (run_id, x, a)) as Ho.
  { intros x a Hx. simpl. rw Hrows lookup_insert_ne //. unfold node_key. congruence. }
  split_and!.
  - by apply keeps_own.
  - by eapply inv_own.
  - apply Hk; [|done|].
    + intros Hs. by apply (k_stuck _ _ _ HR) in Hs.
    + intros Hd. exists (nr_attempt row), row. split; [|done]. simpl. rw Hrows.
      unfold node_key. rw Hrun Hid. apply lookup_insert_eq.
Qed.

(** A call that stores a flag or bumps a counter. *)
Lemma S_flags id {A} (e : Cmd unit) f (Q : A → World → Prop) k w :
  (∀ w, exec e w = (tt, on_sched f w)) →
  (∀ s, flags_only s (f s)) →
  (∀ w1, Rel id w w1 → inv w1 → cancelled (f (w_sched w1)) = true → stuck (on_sched f w1)) →
  job id w →
  (∀ w1, Rel id w (on_sched f w1) → job id (on_sched f w1) →
     tsafe id Q (k tt) (on_sched f w1)) →
  tsafe id Q (call e ≫= k) w.
Proof.
  intros He Hf Hc Hj Hk w1 HR HI. cbv beta. rw He. cbn [fst snd].
  assert (∀ P, keeps P w1 (on_sched f w1)) as Hkeep by (intros P; by apply keeps_flags).
  split_and!; [apply Hkeep|apply inv_flags; auto|].
  assert (Rel id w (on_sched f w1)) as HR2 by (etrans; [done|apply Hkeep]).
  apply Hk; [done|by eapply job_stable].
Qed.

Lemma graph_edges : graph dsl = add_edges E (zero_degrees (nodes dsl), ∅).
Proof.
  unfold graph. generalize (zero_degrees (nodes dsl), ∅ : Successors) as g.
  induction (nodes dsl) as [|n ns IH]; intros g; [done|]. simpl. rw IH.
  unfold edges. simpl. rw add_edges_app. f_equal.
  unfold add_edges. by rw foldl_fmap.
Qed.

Lemma graph_succ d : successors (graph dsl).2 d = (base.filter (λ e, e.1 = d) E).*2.
Proof. by rw graph_edges add_edges_succ. Qed.

Lemma edges_in e : e ∈ E → e.2 ∈ N.
Proof.
  destruct e as [d x]. intros (n & Hn & <- & _)%elem_of_edges. simpl.
  apply elem_of_list_to_set. by apply list_elem_of_fmap_2.
Qed.

Lemma complete_finished succ id advance s :
  finished (complete succ id advance s) = finished s ++ [id].
Proof.
  unfold complete. destruct (advance && negb (cancelled s)); [|done]. by destruct (release _ _ _).
Qed.

(** Releasing the successors of a job. *)
Lemma release_job id w deg new :
  inv w → job id w → release (successors (graph dsl).2 id) (in_degree (w_sched w)) [] = (deg, new) →
  kahn_inv E N (submitted (w_sched w) ++ new) deg ∧
  degrees_open E N (released (w_sched w) ++ [id]) [] deg.
Proof.
  intros Hi (Hsub & _ & Hf) Hrel.
  pose proof (release_inv E N (released (w_sched w) ++ [id]) (submitted (w_sched w))
                (successors (graph dsl).2 id) (in_degree (w_sched w)) []) as Hr.
  rw Hrel app_nil_r in Hr. apply Hr.
  - rw graph_succ. apply Forall_forall. intros s (e & -> & He)%list_elem_of_fmap.
    apply list_elem_of_filter in He as [_ He]. by apply edges_in.
  - intros x [Hx%(i_released _ Hi)| ->%list_elem_of_singleton]%elem_of_app; [|done].
    by apply (i_finished _ Hi).
  - apply Hi.
  - intros n Hn. rw (i_open _ Hi n Hn) graph_succ -open_edges_visit.
    + unfold occurrences. simpl. lia.
    + intros Hx%(i_released _ Hi). done.
Qed.

Lemma complete_keeps id advance w :
  inv w → job id w → Gua id w (on_sched (complete (graph dsl).2 id advance) w).
Proof.
  intros Hi Hj. unfold on_sched, complete.
  destruct (advance && negb (cancelled (w_sched w))).
  - destruct (release _ _ _) as [deg new] eqn:Hrel.
    destruct (release_job _ _ _ _ Hi Hj Hrel) as [[Hnd _ _] _].
    split; simpl; try done.
    + set_solver.
    + intros x Hx [Hq|Hn]%elem_of_app; [done|].
      apply NoDup_app in Hnd as (_ & Hdis & _). by destruct (Hdis x Hx).
    + intros x Hx [?| ->%list_elem_of_singleton]%elem_of_app; done.
    + set_solver.
  - split; simpl; rw ?app_nil_r; try done.
    + intros x Hx [?| ->%list_elem_of_singleton]%elem_of_app; done.
    + set_solver.
Qed.

Lemma complete_inv id (advance : bool) w :
  inv w → job id w → (if advance then node_done w id else stuck w) →
  inv (on_sched (complete (graph dsl).2 id advance) w).
Proof.
  intros Hi Hj Hadv. pose proof Hj as (Hsub & Hq & Hf).
  assert (NoDup (finished (w_sched w) ++ [id])) as Hnd.
  { apply NoDup_app. split_and!; [apply Hi|set_solver|apply NoDup_singleton]. }
  unfold on_sched, complete. destruct (advance && negb (cancelled (w_sched w))) eqn:Hgo.
  - destruct (release _ _ _) as [deg new] eqn:Hrel.
    destruct (release_job _ _ _ _ Hi Hj Hrel) as [Hk Ho]. destruct advance; [|done].
    assert (∀ x, x ∈ new → x ∉ submitted (w_sched w)) as Hnew.
    { intros x Hx Hs. apply ki_nodup, NoDup_app in Hk as (_ & Hd & _). by apply (Hd x). }
    destruct Hi. split; simpl; try done.
    + set_solver.
    + set_solver.
    + rw i_outstanding0 !length_app /=. lia.
    + destruct i_queue0 as [pre ->]. exists pre. by rw assoc.
    + intros x [Hx|Hx]%elem_of_app Hfx; apply elem_of_app in Hfx as [Hfx|Hfx].
      * by eapply i_waiting0.
      * by apply list_elem_of_singleton in Hfx as ->.
      * by eapply Hnew, i_finished0.
      * apply list_elem_of_singleton in Hfx as ->. by eapply Hnew.
    + intros x [Hx| ->%list_elem_of_singleton]%elem_of_app; [exact (i_done0 x Hx)|exact Hadv].
    + intros x. rw !elem_of_app. naive_solver.
  - assert (stuck w) as Hst.
    { destruct advance; [|done]. apply (i_cancelled _ Hi).
      by destruct (cancelled (w_sched w)). }
    destruct Hi. split; simpl; rw ?app_nil_r; try done.
    + set_solver.
    + set_solver.
    + rw i_outstanding0 length_app /=. lia.
    + intros x Hx [?| ->%list_elem_of_singleton]%elem_of_app; [by eapply i_waiting0|done].
    + intros x _. by right.
Qed.

(** ** Every job is safe *)

(** Nothing throws: the tool nodes have arguments that take members, and the
    sandbox and the approval callback always answer. *)
Record calm : Prop := {
  calm_args id node : by_id dsl !! id = Some node → n_type node = Tool →
    tool_args run_id id node ≠ None;
  calm_tools tool_id args timeout (w : World) : has_sandbox env = true →
    (run_tool env tool_id args timeout w).1 ≠ None;
  calm_callback node (w : World) : (exec (AskApproval node) w).1 ≠ None;
}.

(** What the node's work leaves behind, by what it returns. *)
Definition worked (id : string) (r : option bool) (w : World) : Prop :=
  job id w ∧
  match r with
  | Some true => node_done w id
  | Some false => stuck w
  | None => ¬ calm
  end.

Lemma worked_stable id r w w' : Rel id w w' → worked id r w → worked id r w'.
Proof.
  intros HR [Hj Hr]. split; [by eapply job_stable|]. destruct r as [[]|]; [|apply HR; done|done].
  by eapply node_done_stable.
Qed.

Lemma S_ret id {A} (Q : A → World → Prop) a w :
  (∀ w', Rel id w w' → Q a w') → tsafe id Q (Ret a) w.
Proof. intros HQ w' HR _. by apply HQ. Qed.

Lemma worked_ret id r w : worked id r w → tsafe id (worked id) (Ret r) w.
Proof. intros Hw. apply S_ret. intros w' HR. by eapply worked_stable. Qed.

Ltac quiet_calls := intros ?; split; reflexivity.

Lemma S_now id {A} (Q : A → World → Prop) k w :
  job id w → (∀ t w2, Rel id w w2 → job id w2 → tsafe id Q (k t) w2) →
  tsafe id Q (call NowMs ≫= k) w.
Proof. intros Hj Hk. apply S_quiet; [quiet_calls|done|]. intros w1 w2 _ _ HR Hj2 ->. auto. Qed.

Lemma topology_safe id w : job id w → tsafe id (worked id) (run_topology run_id id) w.
Proof.
  intros Hj. apply S_now; [done|]. intros t w2 _ Hj2.
  apply S_upsert; [done|done|done|]. intros w3 _ Hj3 Hd. apply worked_ret.
  split; [done|]. apply Hd. by right.
Qed.

Lemma S_stop id {A} (e : Cmd unit) (Q : A → World → Prop) k w :
  (e = StorePaused ∨ e = StoreFailure ∨ (e = StoreCancelled ∧ stuck w)) → job id w →
  (∀ w2, job id w2 → stuck w2 → tsafe id Q (k tt) w2) → tsafe id Q (call e ≫= k) w.
Proof.
  intros [->|[->|[-> Hst]]] Hj Hk.
  - eapply S_flags; [done| |intros; by left|done|].
    + intros s. by split.
    + intros w1 HR Hj1. apply Hk; [done|]. by left.
  - eapply S_flags; [done| |intros; by right|done|].
    + intros s. by split.
    + intros w1 HR Hj1. apply Hk; [done|]. by right.
  - eapply S_flags; [done| | |done|].
    + intros s. by split.
    + intros w1 HR _ _. by apply (k_stuck _ _ _ HR).
    + intros w1 HR Hj1. apply Hk; [done|]. by apply (k_stuck _ _ _ HR).
Qed.

Lemma S_count id {A} (e : Cmd unit) (Q : A → World → Prop) k w :
  (e = AddCompleted ∨ e = AddFailed) → job id w →
  (∀ w2, Rel id w w2 → job id w2 → tsafe id Q (k tt) w2) → tsafe id Q (call e ≫= k) w.
Proof.
  intros He Hj Hk. assert (∃ f, (∀ w, exec e w = (tt, on_sched f w)) ∧
    ∀ s, flags_only s (f s) ∧ cancelled (f s) = cancelled s) as (f & Hf & Hs).
  { destruct He as [->| ->]; eexists; (split; [done|]); intros s; by split. }
  eapply S_flags; [done|intros s; apply Hs| |done|].
  - intros w1 HR HI Hc. rw (proj2 (Hs _)) in Hc.
    eapply (k_stuck _ _ _ (keeps_flags (λ _, True) f w1 (proj1 (Hs _)))).
    by apply (i_cancelled _ HI).
  - intros w1 HR Hj1. by apply Hk.
Qed.

Lemma approval_safe id node w :
  job id w → tsafe id (worked id) (run_approval run_id id node) w.
Proof.
  intros Hj. apply S_now; [done|]. intros t w2 _ Hj2.
  apply S_upsert; [done|done|done|]. intros w3 _ Hj3 _.
  apply S_quiet; [|done|].
  { intros w'. cbn. destruct (approval_cb env) as [cb|]; [|done]. by destruct (cb _ _ _ _). }
  intros w4 w5 _ _ _ Hj5 _. destruct (exec (AskApproval node) w4).1 as [[]|] eqn:Er.
  - apply S_stop; [by left|done|]. intros w6 Hj6 Hs6.
    apply S_stop; [by right; right|done|]. intros w7 Hj7 Hs7. by apply worked_ret.
  - apply S_now; [done|]. intros t' w6 _ Hj6.
    apply S_upsert; [done|done|done|]. intros w7 _ Hj7 Hd.
    apply S_count; [by left|done|]. intros w8 HR Hj8. apply worked_ret. split; [done|].
    eapply node_done_stable; [done|]. apply Hd. by left.
  - apply worked_ret. split; [done|]. intros Hc. by apply (calm_callback Hc node w4).
Qed.

(** What the retry loop leaves behind. *)
Definition tried (id : string) (r : option (bool * Z * string)) (w : World) : Prop :=
  job id w ∧
  match r with
  | Some (true, _, _) => node_done w id
  | Some (false, _, _) => True
  | None => ¬ calm
  end.

Lemma tried_ret id r w : tried id r w → tsafe id (tried id) (Ret r) w.
Proof.
  intros [Hj Hr]. apply S_ret. intros w' HR. split; [by eapply job_stable|].
  destruct r as [[[[] ?] ?]|]; [|done|done]. by eapply node_done_stable.
Qed.

Lemma S_tool id {A} node args timeout (Q : A → World → Prop) k w :
  job id w →
  (∀ sr w2, job id w2 → (sr = None → ¬ calm) → tsafe id Q (k sr) w2) →
  tsafe id Q ((if has_sandbox env then call (RunTool (tool_id node) args timeout)
               else Ret (Some no_sandbox)) ≫= k) w.
Proof.
  intros Hj Hk. destruct (has_sandbox env) eqn:Hsb; [|by apply Hk].
  apply S_quiet; [|done|].
  { intros w'. cbn. unfold run_tool. by destruct (ToolSandbox.execute _ _ _ _ _) as [? [? ?]]. }
  intros w1 w2 _ _ _ Hj2 _. apply Hk; [done|]. intros Hn Hc.
  by apply (calm_tools Hc (tool_id node) args timeout w1 Hsb).
Qed.

Lemma S_sleep id {A} (b : bool) ms (Q : A → World → Prop) k w :
  job id w → (∀ w2, job id w2 → tsafe id Q (k tt) w2) →
  tsafe id Q ((if b then call (Sleep ms) else Ret tt) ≫= k) w.
Proof.
  intros Hj Hk. destruct b; [|by apply Hk].
  apply S_quiet; [done|done|]. intros w1 w2 _ _ _ Hj2 ->. by apply Hk.
Qed.

Lemma attempts_safe id node timeout togo attempt err w :
  (calm → tool_args run_id id node ≠ None) → job id w →
  tsafe id (tried id) (attempts env run_id id node timeout togo attempt err) w.
Proof.
  intros Ha. revert attempt err w. induction togo as [|togo IH]; intros attempt err w Hj.
  { by apply tried_ret. }
  apply S_load; [done|]. intros w2 c _ Hj2 _. destruct c; [by apply tried_ret|].
  apply S_now; [done|]. intros t w3 _ Hj3.
  apply S_upsert; [done|done|done|]. intros w4 _ Hj4 _.
  destruct (tool_args run_id id node) as [args|]; [|apply tried_ret; split; [done|naive_solver]].
  apply S_tool; [done|]. intros sr w5 Hj5 Hsr.
  destruct sr as [sr|]; [|by apply tried_ret; split; [done|apply Hsr]].
  apply S_now; [done|]. intros t' w6 _ Hj6. case_decide.
  - apply S_upsert; [done|done|done|]. intros w7 _ Hj7 Hd. apply tried_ret.
    split; [done|]. apply Hd. by left.
  - apply S_upsert; [done|done|done|]. intros w7 _ Hj7 _.
    apply S_sleep; [done|]. intros w8 Hj8. by apply IH.
Qed.

Lemma tool_node_safe id node w :
  (calm → tool_args run_id id node ≠ None) → job id w →
  tsafe id (worked id) (run_tool_node cfg env run_id id node) w.
Proof.
  intros Ha Hj. apply safe_bind; [apply keeps_preorder|].
  eapply safe_mono; [|by apply attempts_safe]. intros r w2 _ [Hj2 Hr].
  destruct r as [[[[] attempt] err]|].
  - apply S_count; [by left|done|]. intros w3 HR Hj3. apply worked_ret. split; [done|].
    by eapply node_done_stable.
  - apply S_now; [done|]. intros t w3 _ Hj3.
    apply S_upsert; [done|done|done|]. intros w4 _ Hj4 _.
    apply S_count; [by right|done|]. intros w5 _ Hj5.
    apply S_stop; [by right; left|done|]. intros w6 Hj6 Hs6.
    destruct (stop_on_first_failure cfg); [|by apply worked_ret].
    apply S_stop; [by right; right|done|]. intros w7 Hj7 Hs7. by apply worked_ret.
  - by apply worked_ret.
Qed.

Lemma by_id_in id : id ∈ ids → ∃ node, by_id dsl !! id = Some node ∧ n_id node = id.
Proof.
  unfold by_id. induction (nodes dsl) as [|n ns IH] using rev_ind; [by intros ?%not_elem_of_nil|].
  rw fmap_app foldl_app. simpl. intros Hin. destruct (decide (n_id n = id)) as [<-|Hne].
  - exists n. by rw lookup_insert_eq.
  - rw lookup_insert_ne //. apply IH. apply elem_of_app in Hin as [?|?%list_elem_of_singleton]; done.
Qed.

Lemma node_work_safe id w :
  id ∈ ids → job id w → tsafe id (worked id) (node_work cfg env dsl run_id id) w.
Proof.
  intros Hid Hj. unfold node_work. destruct (by_id_in id Hid) as (node & Hn & _). rw Hn.
  destruct (n_type node) eqn:Ht; try by apply topology_safe.
  - apply tool_node_safe; [|done]. intros Hc. by eapply calm_args.
  - by apply approval_safe.
Qed.

(** A node's job: it keeps the invariant, and unless something throws its
    completion section runs. *)
Lemma runNode_safe id w :
  id ∈ ids → job id w →
  tsafe id (λ _ w, calm → id ∈ finished (w_sched w)) (runNode cfg env dsl run_id id) w.
Proof.
  intros Hid Hj. apply S_load; [done|]. intros w2 c _ Hj2 Hc.
  apply safe_bind; [apply keeps_preorder|].
  apply (safe_mono _ _ _ _ (worked id)).
  - intros r w3 _ [Hj3 Hr]. destruct r as [advance|]; [|by intros w' _ _ ?].
    intros w4 HR HI. cbv beta. cbn [exec fst snd].
    assert (job id w4) as Hj4 by by eapply job_stable.
    split_and!.
    + by apply complete_keeps.
    + apply complete_inv; [done|done|]. destruct advance; [by eapply node_done_stable|].
      by apply (k_stuck _ _ _ HR).
    + intros w5 HR5 _ _. apply (k_ended _ _ _ HR5). simpl.
      rw complete_finished. set_solver.
  - destruct c; [|by apply node_work_safe]. apply worked_ret. split; [done|]. by apply Hc.
Qed.


(** ** Every interleaving *)

Lemma exec_submits {B} (e : Cmd B) (w : World) : ∃ new,
  submitted (w_sched (exec e w).2) = submitted (w_sched w) ++ new ∧
  queue (w_sched (exec e w).2) = queue (w_sched w) ++ new.
Proof.
  destruct e; try by exists []; rw !app_nil_r.
  - exists []. rw !app_nil_r. cbn. destruct (approval_cb env) as [cb|]; [|done].
    by destruct (cb _ _ _ _).
  - exists []. rw !app_nil_r. cbn. unfold run_tool.
    by destruct (ToolSandbox.execute _ _ _ _ _) as [? [? ?]].
  - cbn. unfold complete. destruct (if _ : bool then _ else _) as [deg new]. by exists new.
Qed.

Notation node_safe id :=
  (tsafe id (λ (_ : unit) w, calm → id ∈ finished (w_sched w))).

(** The invariant of the pool. *)
Record sys (s : State (S := S) (C := C)) : Prop := {
  sy_inv : inv s.2;
  sy_threads : NoDup s.1.*1;
  sy_pool : (length s.1 <= Nat.max 1 (worker_count cfg))%nat;
  sy_job id p : (id, p) ∈ s.1 →
    id ∈ submitted (w_sched s.2) ∧ id ∉ queue (w_sched s.2) ∧ node_safe id p s.2;
  sy_calm x : calm → x ∈ submitted (w_sched s.2) →
    x ∈ queue (w_sched s.2) ∨ x ∈ s.1.*1 ∨ x ∈ finished (w_sched s.2);
}.

(** The other jobs do not notice a step that leaves their nodes alone. *)
Lemma job_kept id p w w' :
  Rel id w w' →
  id ∈ submitted (w_sched w) ∧ id ∉ queue (w_sched w) ∧ node_safe id p w →
  id ∈ submitted (w_sched w') ∧ id ∉ queue (w_sched w') ∧ node_safe id p w'.
Proof.
  intros HR (Hs & Hq & Hp). split_and!.
  - by apply (k_submitted _ _ _ HR).
  - intros Hq'. by apply Hq, (k_queue _ _ _ HR).
  - eapply safe_stable; [|done|done]. apply keeps_preorder.
Qed.

Lemma sys_env ts w w' : env_step run_id w w' → sys (ts, w) → sys (ts, w').
Proof.
  intros [Hs Hr] [Hi Ht Hp Hj Hc]. simpl in *.
  assert (∀ x a, ws_rows (w_store w') !! (run_id, x, a) = ws_rows (w_store w) !! (run_id, x, a))
    as Hrow by (intros; by apply Hr).
  assert (∀ P, keeps P w w') as Hk by (intros P; split; unfold stuck; rw ?Hs; auto).
  split; simpl; [|done|done| |by rw Hs].
  - destruct Hi. split; unfold stuck; rw ?Hs; try done.
    intros x Hx. destruct (i_done0 x Hx) as (a & r & Ha & ?). exists a, r. by rw Hrow.
  - intros id p Hid. eapply job_kept; [apply Hk|]. by apply Hj.
Qed.

Lemma sys_start ts w id q :
  queue (w_sched w) = id :: q → (length ts < Nat.max 1 (worker_count cfg))%nat →
  sys (ts, w) → sys (ts ++ [(id, runNode cfg env dsl run_id id)], on_sched (pop_queue q) w).
Proof.
  intros Hq Hlen [Hi Ht _ Hj Hc]. simpl in *. destruct (i_queue _ Hi) as [pre Hpre].
  rw Hq in Hpre. pose proof (ki_nodup _ _ _ _ (i_kahn _ Hi)) as Hnd. rw Hpre in Hnd.
  assert (id ∈ submitted (w_sched w)) as Hsub by (rw Hpre; set_solver).
  assert (id ∉ q) as Hidq by (apply NoDup_app in Hnd as (_ & _ & [? _]%NoDup_cons); done).
  assert (∀ P, keeps P w (on_sched (pop_queue q) w)) as Hk.
  { intros P. split; simpl; try done. intros x _ Hx. rw Hq. by right. }
  split; simpl.
  - destruct Hi. split; simpl; try done.
    + exists (pre ++ [id]). by rw Hpre -assoc.
    + intros x Hx. apply i_waiting0. rw Hq. by right.
  - rw fmap_app. apply NoDup_app. split_and!; [done| |apply NoDup_singleton].
    intros x Hx Hid%list_elem_of_singleton. simpl in Hid. subst x.
    apply list_elem_of_fmap in Hx as ([y p] & -> & Hx). destruct (Hj _ _ Hx) as (_ & Hny & _). apply Hny. rw Hq. by left.
  - rw length_app /=. lia.
  - intros x p [Hx|Hx%list_elem_of_singleton]%elem_of_app.
    + apply (job_kept x p w (on_sched (pop_queue q) w)); [apply Hk|]. by apply Hj.
    + simplify_eq. split_and!; [done|done|]. apply runNode_safe.
      * apply (ki_zero _ _ _ _ (i_kahn _ Hi)) in Hsub as [HN _]. by apply elem_of_list_to_set in HN.
      * split_and!; [done|done|]. apply (i_waiting _ Hi). rw Hq. by left.
  - intros x Hcalm Hx. rw fmap_app. destruct (Hc x Hcalm Hx) as [Hx'|[?|?]]; [|set_solver..].
    rw Hq in Hx'. apply elem_of_cons in Hx' as [->|?]; set_solver.
Qed.

Lemma sys_call ts1 id B (e : Cmd B) k ts2 w :
  sys (ts1 ++ (id, Vis e k) :: ts2, w) →
  sys (ts1 ++ (id, k (exec e w).1) :: ts2, (exec e w).2).
Proof.
  intros [Hi Ht Hp Hj Hc]. simpl in *.
  assert (∀ p : prog Cmd unit, (ts1 ++ (id, p) :: ts2).*1 = ts1.*1 ++ id :: ts2.*1) as Hf.
  { intros p. by rw fmap_app fmap_cons. }
  rw Hf in Ht Hc. destruct (Hj id (Vis e k)) as (Hsub & Hq & Hs); [set_solver|].
  destruct (Hs w) as (HG & HI & Hk); [done|done|].
  split; simpl; [done|by rw Hf|rw length_app /= in Hp; by rw length_app| |].
  - intros x p Hx. destruct (decide (x = id)) as [->|Hne].
    + split_and!; [by apply (k_submitted _ _ _ HG)|intros Hq'; by apply Hq, (k_queue _ _ _ HG)|].
      assert (p = k (exec e w).1) as ->; [|done].
      apply elem_of_app in Hx as [Hx|[?|Hx]%elem_of_cons]; [|by simplify_eq|].
      * apply NoDup_app in Ht as (_ & Hd & _). destruct (Hd id); [|by left].
        by apply (list_elem_of_fmap_2 fst) in Hx.
      * apply NoDup_app in Ht as (_ & _ & [Hd _]%NoDup_cons). destruct Hd.
        by apply (list_elem_of_fmap_2 fst) in Hx.
    + eapply job_kept; [by eapply keeps_mono; [|done]; intros ? ->|]. apply Hj. set_solver.
  - intros x Hcalm Hx. rw Hf. destruct (exec_submits e w) as (new & Hn & Hqn).
    rw Hn in Hx. rw Hqn. apply elem_of_app in Hx as [Hx|Hx]; [|set_solver].
    destruct (Hc x Hcalm Hx) as [?|[?|Hx'%(k_ended _ _ _ HG)]]; set_solver.
Qed.

Lemma sys_end ts1 id ts2 w : sys (ts1 ++ (id, Ret tt) :: ts2, w) → sys (ts1 ++ ts2, w).
Proof.
  intros [Hi Ht Hp Hj Hc]. simpl in *. rw fmap_app fmap_cons in Ht Hc. simpl in *.
  split; simpl; [done| | | |].
  - rw fmap_app. rw -Permutation_middle in Ht. by apply NoDup_cons in Ht as [_ ?].
  - rw length_app /= in Hp. rw length_app. lia.
  - intros x p Hx. apply Hj. set_solver.
  - intros x Hcalm Hx. rw fmap_app.
    destruct (Hj id (Ret tt)) as (_ & _ & Hs); [set_solver|].
    specialize (Hs w ltac:(done) Hi Hcalm).
    destruct (Hc x Hcalm Hx) as [?|[Hx'|?]]; [set_solver| |set_solver].
    apply elem_of_app in Hx' as [?|[->|?]%elem_of_cons]; set_solver.
Qed.

Lemma sys_own s s' : own_step cfg env dsl run_id context s s' → sys s → sys s'.
Proof.
  destruct 1; [by apply sys_start|apply sys_call|by apply sys_end].
Qed.


Lemma sys_run n s s' : engine_run cfg env dsl run_id context n s s' → sys s → sys s'.
Proof.
  induction 1 as [|n s1 s2 s3 Hstep _ IH|n ts w1 w2 s3 Henv _ IH]; intros Hs; [done| |].
  - by eapply IH, sys_own.
  - by eapply IH, sys_env.
Qed.

(** What a dispatched run starts from. *)
Lemma begin_dispatched `{UnorderedIter} dump sha256 autonomy (w0 w : World) :
  execute_begin cfg dsl run_id context dump sha256 autonomy w0 = (Dispatched, w) →
  validateNoCycle dsl = None ∧
  w_sched w = new_sched (graph dsl).1 ((base.filter (λ kv, kv.2 = 0) (iter (graph dsl).1)).*1).
Proof.
  unfold execute_begin. case_match; [done|]. case_match; [done|].
  destruct (validateNoCycle dsl) eqn:Hcyc; [done|].
  destruct (validateNoSandboxBypass dsl None); [|done].
  destruct (canonicalHash dump sha256 dsl); [|done]. destruct (dump (toJson dsl)); [|done].
  destruct (dump context); [|done]. by intros [= <-].
Qed.

Lemma sys_init `{UnorderedIter} dump sha256 autonomy (w0 w : World) :
  execute_begin cfg dsl run_id context dump sha256 autonomy w0 = (Dispatched, w) →
  sys ([], w) ∧ validateNoCycle dsl = None ∧ queue (w_sched w) = submitted (w_sched w).
Proof.
  intros [Hcyc Hw]%begin_dispatched. rw Hw. split; [|done].
  destruct (graph dsl) as [deg succ] eqn:Hg. rw graph_edges in Hg.
  destruct (graph_inv (nodes dsl) deg succ Hg) as (_ & _ & _ & Hk & Ho).
  split; simpl; rw ?Hw; [|by apply NoDup_nil|lia|by intros ? ? ?%not_elem_of_nil|by left].
  split; rw ?Hw; simpl; try done; try by intros ? ?%not_elem_of_nil.
  - apply NoDup_nil. done.
  - lia.
  - by exists [].
  - intros x _. by intros ?%not_elem_of_nil.
Qed.

(** A submitted node's dependencies are done. *)
Lemma submitted_deps w id node d :
  inv w → id ∈ submitted (w_sched w) → node ∈ nodes dsl → n_id node = id →
  d ∈ depends_on node → d ∈ released (w_sched w).
Proof.
  intros Hi [HN H0]%(ki_zero _ _ _ _ (i_kahn _ Hi)) Hn Hid Hd.
  rw (i_open _ Hi id HN) in H0. unfold occurrences in H0. simpl in H0.
  eapply (open_edges_zero E _ id); [lia|]. apply elem_of_edges. eauto.
Qed.

(** C18. Workflow scheduling, under every interleaving of the workers and the
    environment: at most [worker_count] nodes run at a time, no node is
    submitted twice or runs on two workers, and whenever a node runs, every
    node it depends on has a row saying that it succeeded or was skipped. *)
Theorem workflow_dependencies `{UnorderedIter} dump sha256 autonomy w0 w n ts w' :
  execute_begin cfg dsl run_id context dump sha256 autonomy w0 = (Dispatched, w) →
  engine_run cfg env dsl run_id context n ([], w) (ts, w') →
  (length ts <= Nat.max 1 (worker_count cfg))%nat ∧ NoDup ts.*1 ∧ NoDup (submitted (w_sched w')) ∧
  ∀ id p node d, (id, p) ∈ ts → node ∈ nodes dsl → n_id node = id → d ∈ depends_on node →
    node_done w' d.
Proof.
  intros (Hs & _)%sys_init Hrun. apply (sys_run _ _ _ Hrun) in Hs.
  split_and!; [apply Hs|apply Hs|apply Hs|].
  intros id p node d Hp Hn Hid Hd. apply (sy_job _ Hs) in Hp as (Hsub & _ & _).
  apply Hs. by eapply submitted_deps; [apply Hs|..].
Qed.

(** When nothing is outstanding and nothing failed or paused, every node of an
    accepted workflow is done. *)
Lemma drained_done `{UnorderedIter} w :
  validateNoCycle dsl = None → inv w → outstanding (w_sched w) = 0 → ¬ stuck w →
  ∀ id, id ∈ ids → id ∈ released (w_sched w).
Proof.
  intros [_ (order & Ht)]%accepted_order Hi H0 Hst. apply (closed_covers _ order); [done|].
  assert (submitted (w_sched w) ≡ₚ finished (w_sched w)) as Hp.
  { symmetry. rw (i_outstanding _ Hi) in H0. apply submseteq_length_Permutation; [|lia].
    apply NoDup_submseteq; [apply Hi|]. apply (i_finished _ Hi). }
  intros id Hid Hd. destruct (i_hole _ Hi id) as [?|?]; [|done|done].
  rw -Hp. apply (ki_zero _ _ _ _ (i_kahn _ Hi)). split; [by apply elem_of_list_to_set|].
  rw (i_open _ Hi); [|by apply elem_of_list_to_set]. by rw open_edges_closed.
Qed.

(** C20. What a finished run answers, whatever the interleaving: a run that
    ends with success has a row for every node of the workflow saying that it
    succeeded or was skipped; the run is reported as waiting exactly when a
    node paused it, as dead-lettered exactly when one failed and none paused;
    the run's record gets the reported status, and the run stops counting as
    active. *)
Theorem workflow_outcome `{UnorderedIter} dump sha256 autonomy w0 w n ts w' r w'' :
  execute_begin cfg dsl run_id context dump sha256 autonomy w0 = (Dispatched, w) →
  engine_run cfg env dsl run_id context n ([], w) (ts, w') →
  outstanding (w_sched w') = 0 → execute_end run_id w' = (r, w'') →
  (ok r = true ↔ final_status r = RunSucceeded) ∧
  (final_status r = RunSucceeded → ∀ node, node ∈ nodes dsl → node_done w'' (n_id node)) ∧
  (final_status r = RunWaitingForApproval ↔ paused (w_sched w') = true) ∧
  (final_status r = RunDeadLetter ↔
     paused (w_sched w') = false ∧ any_failure (w_sched w') = true) ∧
  ws_runs (w_store w'') =
    alter (with_status (final_status r) (w_now w')) run_id (ws_runs (w_store w')) ∧
  w_active w'' = w_active w' - 1.
Proof.
  intros (Hs & Hcyc & _)%sys_init Hrun H0. apply (sys_run _ _ _ Hrun) in Hs.
  destruct (transition_spec run_id (if paused (w_sched w') then RunWaitingForApproval
    else if any_failure (w_sched w') then RunDeadLetter else RunSucceeded)
    (w_now w') (w_store w')) as [Hrows Hruns].
  unfold execute_end. destruct (paused (w_sched w')) eqn:Hp; [|destruct (any_failure _) eqn:Hf];
    intros [= <- <-]; simpl; split_and!; try first [done|by split; [|intros []]].
  intros _ node Hn. destruct (i_done _ (sy_inv _ Hs) (n_id node)) as (a & row & Ha & Hd).
  - apply drained_done; [done|apply Hs|done|unfold stuck; naive_solver congruence|].
    by apply list_elem_of_fmap_2.
  - exists a, row. simpl. by rw Hrows.
Qed.


(** ** Termination *)

Lemma attempts_within id node timeout togo attempt err :
  within (7 * togo) (attempts env run_id id node timeout togo attempt err).
Proof.
  revert attempt err. induction togo as [|togo IH]; intros attempt err; [done|].
  replace (7 * Datatypes.S togo)%nat with (7 + 7 * togo)%nat by lia. cbn [attempts Nat.add].
  apply within_call. intros [|]; [done|]. do 2 (apply within_call; intros ?).
  destruct (tool_args _ _ _); [|done].
  apply (within_bind 1 (3 + 7 * togo)); [by destruct (has_sandbox env)|].
  intros [sr|]; [|done]. apply within_call. intros t'. case_decide; [done|].
  apply within_call. intros _. apply (within_bind 1); [by destruct (_ && _)|]. intros _. apply IH.
Qed.

Lemma node_work_within id node :
  by_id dsl !! id = Some node →
  within (node_calls node) (node_work cfg env dsl run_id id).
Proof.
  intros Hn. unfold node_work, node_calls. rw Hn.
  assert (∃ k, (7 * Z.to_nat (Z.max 1 (max_attempts (retry node))) + 5 = 6 + k)%nat) as [k Hk].
  { exists (7 * Z.to_nat (Z.max 1 (max_attempts (retry node))) - 1)%nat. lia. }
  destruct (n_type node); try by rw Hk.
  - apply within_bind; [apply attempts_within|]. intros [[[[] ?] ?]|]; [done| |done].
    do 4 (apply within_call; intros ?). by destruct (stop_on_first_failure cfg).
  - rw Hk. do 2 (apply within_call; intros ?). apply within_call. by intros [[]|].
Qed.

Lemma runNode_within id node :
  by_id dsl !! id = Some node →
  within (node_calls node + 2) (runNode cfg env dsl run_id id).
Proof.
  intros Hn. replace (node_calls node + 2)%nat with (Datatypes.S (node_calls node + 1)) by lia.
  apply within_call. intros c.
  apply within_bind; [destruct c; [done|by apply node_work_within]|].
  by intros [|].
Qed.


(** The steps the pool has left: the nodes not taken by a worker, and the calls
    left in the jobs under way. *)
Definition budget (s : State (S := S) (C := C)) (m : nat) : Prop :=
  ∃ pre (waiting : list NodeSpec) (ds : list nat),
    submitted (w_sched s.2) = pre ++ queue (w_sched s.2) ∧
    (∀ node, node ∈ waiting → node ∈ nodes dsl) ∧
    pre ++ (n_id <$> waiting) ≡ₚ ids ∧
    Forall2 (λ t d, within d t.2) s.1 ds ∧
    m = (sum_list_with (λ node, node_calls node + 4) waiting + sum_list_with Datatypes.S ds)%nat.

Lemma by_id_node node : NoDup ids → node ∈ nodes dsl → by_id dsl !! n_id node = Some node.
Proof.
  unfold by_id. induction (nodes dsl) as [|n ns IH] using rev_ind; [by intros _ ?%not_elem_of_nil|].
  rw fmap_app foldl_app. simpl. intros (Hnd & Hdis & _)%NoDup_app.
  intros [Hn| ->%list_elem_of_singleton]%elem_of_app; [|by rw lookup_insert_eq].
  rw lookup_insert_ne; [by apply IH|]. intros Heq. apply (Hdis (n_id node)).
  - by apply list_elem_of_fmap_2.
  - rw Heq. by left.
Qed.

Lemma budget_start ts w id q m :
  NoDup ids → inv w → queue (w_sched w) = id :: q → budget (ts, w) m →
  ∃ m', (m' < m)%nat ∧
    budget (ts ++ [(id, runNode cfg env dsl run_id id)], on_sched (pop_queue q) w) m'.
Proof.
  intros Hids Hi Hq (pre & wt & ds & Hpre & Hwt & Hp & Hds & ->). simpl in *. rw Hq in Hpre.
  pose proof (ki_nodup _ _ _ _ (i_kahn _ Hi)) as Hnd. rw Hpre in Hnd.
  assert (id ∈ n_id <$> wt) as (node & -> & (l1 & l2 & ->)%list_elem_of_split)%list_elem_of_fmap.
  { assert (id ∈ pre ++ (n_id <$> wt)) as [Hin|?]%elem_of_app; [| |done].
    2:{ apply NoDup_app in Hnd as (_ & Hd & _). destruct (Hd id Hin). by left. }
    assert (id ∈ submitted (w_sched w)) as Hsub by (rw Hpre; set_solver).
    rw Hp. by apply (ki_zero _ _ _ _ (i_kahn _ Hi)) in Hsub as [?%elem_of_list_to_set _]. }
  eexists. split; [|exists (pre ++ [n_id node]), (l1 ++ l2), (ds ++ [node_calls node + 2]%nat)];
    [|split_and!; [| | | |reflexivity]].
  - rw !sum_list_with_app. simpl. lia.
  - simpl. by rw Hpre -assoc.
  - set_solver.
  - rw -Hp !fmap_app fmap_cons. solve_Permutation.
  - apply Forall2_app; [done|]. apply Forall2_cons. split; [|done].
    apply runNode_within, by_id_node; [done|]. set_solver.
Qed.

Lemma budget_own s s' m :
  NoDup ids → own_step cfg env dsl run_id context s s' → sys s → budget s m →
  ∃ m', (m' < m)%nat ∧ budget s' m'.
Proof.
  intros Hids Hstep Hs. destruct Hstep as [ts w id q Hq _|ts1 id B e k ts2 w|ts1 id ts2 w].
  - by apply budget_start; [|apply Hs|].
  - intros (pre & wt & ds & Hpre & Hwt & Hp & Hds & ->). simpl in *.
    apply Forall2_app_inv_l in Hds as (d1 & [|[|d] d2] & H1 & H2 & ->);
      [by inversion H2|by apply Forall2_cons in H2 as [[] _]|]. apply Forall2_cons in H2 as [Hd H2].
    destruct (exec_submits e w) as (new & Hn & Hqn).
    eexists. split; [|exists pre, wt, (d1 ++ d :: d2); split_and!; [|done|done| |reflexivity]].
    + rw !sum_list_with_app. simpl. lia.
    + simpl. by rw Hn Hqn Hpre -assoc.
    + apply Forall2_app; [done|]. apply Forall2_cons. split; [apply Hd|done].
  - intros (pre & wt & ds & Hpre & Hwt & Hp & Hds & ->). simpl in *.
    apply Forall2_app_inv_l in Hds as (d1 & [|d d2] & H1 & H2 & ->); [by inversion H2|].
    apply Forall2_cons in H2 as [Hd H2].
    eexists. split; [|exists pre, wt, (d1 ++ d2); split_and!; [done|done|done| |reflexivity]].
    + rw !sum_list_with_app. simpl. lia.
    + by apply Forall2_app.
Qed.


Lemma budget_run n s s' m :
  NoDup ids → engine_run cfg env dsl run_id context n s s' → sys s → budget s m →
  ∃ m', (n + m' <= m)%nat ∧ budget s' m'.
Proof.
  intros Hids Hrun. revert m.
  induction Hrun as [s|n s1 s2 s3 Hstep _ IH|n ts w1 w2 s3 Henv _ IH]; intros m Hs Hb.
  - exists m. split; [lia|done].
  - destruct (budget_own _ _ _ Hids Hstep Hs Hb) as (m1 & Hm & Hb1).
    destruct (IH m1) as (m' & ? & ?); [by eapply sys_own|done|]. exists m'. split; [lia|done].
  - apply IH; [by eapply sys_env|]. destruct Henv as [Hsch _].
    destruct Hb as (pre & wt & ds & Hpre & ?). exists pre, wt, ds. simpl in *. by rw Hsch.
Qed.

(** While a calm run has something outstanding, the pool can move. *)
Lemma sys_progress ts w :
  calm → sys (ts, w) → outstanding (w_sched w) ≠ 0 →
  ∃ s', own_step cfg env dsl run_id context (ts, w) s'.
Proof.
  intros Hcalm Hs H0. destruct ts as [|[id p] ts].
  - destruct (queue (w_sched w)) as [|id q] eqn:Hq.
    2:{ eexists. eapply es_start; [done|simpl; lia]. }
    destruct H0. pose proof (sy_inv _ Hs) as Hi. simpl in Hi.
    assert (submitted (w_sched w) ≡ₚ finished (w_sched w)) as Hp.
    { apply NoDup_Permutation; [apply Hi|apply Hi|]. intros x. split; [|apply (i_finished _ Hi)].
      intros Hx. destruct (sy_calm _ Hs x Hcalm Hx) as [Hx'|[Hx'|?]]; [|set_solver|done].
      simpl in Hx'. rw Hq in Hx'. set_solver. }
    rw (i_outstanding _ Hi) Hp. lia.
  - destruct p as [[]|B e k]; eexists; [apply (es_end _ _ _ _ _ [])|apply (es_call _ _ _ _ _ [])].
Qed.

(** C19. Workflows terminate: whatever the environment does and however the
    workers interleave, the pool makes at most [run_bound] steps, a number
    computed from the workflow's retry policies; and unless a call throws, as
    long as a node is outstanding the pool has a step to make, so that the
    wait in [execute] ends. *)
Theorem workflow_terminates `{UnorderedIter} dump sha256 autonomy w0 w n ts w' :
  execute_begin cfg dsl run_id context dump sha256 autonomy w0 = (Dispatched, w) →
  engine_run cfg env dsl run_id context n ([], w) (ts, w') →
  (n <= run_bound dsl)%nat ∧
  (calm → outstanding (w_sched w') ≠ 0 →
     ∃ s', own_step cfg env dsl run_id context (ts, w') s').
Proof.
  intros (Hs & Hcyc & Hq)%sys_init Hrun. destruct (accepted_order dsl Hcyc) as [Hids _].
  split.
  - destruct (budget_run n ([], w) (ts, w') (run_bound dsl)) as (m' & ? & _); [done|done|done| |lia].
    exists [], (nodes dsl), []. split_and!; [done|done|done|by apply Forall2_nil|].
    unfold run_bound. simpl. lia.
  - intros Hcalm. apply sys_progress; [done|]. by eapply sys_run.
Qed.


(** ** Pausing and resuming *)

Lemma filter_split {A} (P : A → Prop) `{!∀ x, Decision (P x)} (l l1 l2 : list A) x :
  base.filter P l = l1 ++ x :: l2 →
  ∃ k1 k2, l = k1 ++ x :: k2 ∧ l1 = base.filter P k1.
Proof.
  revert l1. induction l as [|y l IH]; intros l1; [by destruct l1|]. rw filter_cons.
  case_decide as HP.
  - destruct l1 as [|z l1]; simpl; intros [= <- Hl]; [by exists [], l|].
    destruct (IH l1 Hl) as (k1 & k2 & -> & ->). exists (y :: k1), k2. by rw filter_cons_True.
  - intros Hl. destruct (IH l1 Hl) as (k1 & k2 & -> & ->).
    exists (y :: k1), k2. by rw filter_cons_False.
Qed.

Lemma trim_ids dn d : n_id <$> nodes (trim dn d) = base.filter (λ x, x ∉ dn) (n_id <$> nodes d).
Proof.
  unfold trim. cbn [nodes]. rw -list_fmap_compose. unfold compose. cbn [n_id].
  induction (nodes d) as [|n ns IH]; [done|]. rw fmap_cons !filter_cons.
  by case_decide; [rw fmap_cons IH|].
Qed.

Lemma trim_nodes dn d n : n ∈ nodes (trim dn d) →
  ∃ m, m ∈ nodes d ∧ n_id m = n_id n ∧ n_id m ∉ dn ∧
    depends_on n = base.filter (λ x, x ∉ dn) (depends_on m).
Proof.
  intros (m & -> & [Hm Hd]%list_elem_of_filter)%list_elem_of_fmap. by exists m.
Qed.

(** What is left of an accepted workflow is accepted. *)
Lemma trim_accepted `{UnorderedIter} dn d :
  validateNoCycle d = None → validateNoCycle (trim dn d) = None.
Proof.
  intros [Hids (order & Hp & Ho)]%accepted_order.
  apply (order_accepted _ (base.filter (λ x, x ∉ dn) order)).
  { rw trim_ids. by apply NoDup_filter. }
  split; [by rw trim_ids Hp|]. intros l1 n l2 Hl Hn x Hx.
  destruct (trim_nodes _ _ _ Hn) as (m & Hm & Hid & Hdn & Hdep).
  rw -Hid in Hl. destruct (filter_split _ _ _ _ _ Hl) as (k1 & k2 & Hk & ->).
  rw Hdep in Hx. apply list_elem_of_filter in Hx as [Hx Hxd].
  apply list_elem_of_filter. split; [done|]. by eapply Ho.
Qed.

(** A row that [resume] takes as done. *)
Definition resumed_done (st : WorkflowNodeStatus) : Prop :=
  row_done st ∨ st = NodeWaitingForApproval.

Definition approved (k : NodeKey) (s : S) : Prop :=
  ∃ r, ws_rows s !! k = Some r ∧ nr_status r = NodeSucceeded.

Lemma approve_row_spec dn (w : World) n :
  let '(dn', w') := approve_row (dn, w) n in
  (∀ x, x ∈ dn' ↔ x ∈ dn ∨ nr_node_id n = x ∧ resumed_done (nr_status n)) ∧
  (∀ k, approved k (w_store w) → approved k (w_store w')) ∧
  (nr_status n = NodeWaitingForApproval → approved (node_key n) (w_store w')) ∧
  ws_runs (w_store w') = ws_runs (w_store w) ∧ w_active w' = w_active w ∧ w_now w' = w_now w.
Proof.
  unfold approve_row, resumed_done, row_done. case_decide as Hw.
  - match goal with |- context [ws_upsertNodeRun ?u _] => set (upd := u) end.
    destruct (upsert_spec upd (w_store w)) as [Hrows Hr].
    assert (approved (node_key n) (ws_upsertNodeRun upd (w_store w)).2) as Ha.
    { exists upd. by rw Hrows lookup_insert_eq. }
    split_and!; try done; simpl.
    + intros x. case_decide; set_solver.
    + intros k Hk. destruct (decide (k = node_key n)) as [->|Hne]; [done|].
      unfold approved. by rw Hrows lookup_insert_ne.
  - split_and!; try done. intros x. case_decide; set_solver.
Qed.

Lemma approve_rows_spec rows (w : World) :
  let '(dn, w') := approve_rows rows w in
  (∀ x, x ∈ dn ↔ ∃ n, n ∈ rows ∧ nr_node_id n = x ∧ resumed_done (nr_status n)) ∧
  (∀ n, n ∈ rows → nr_status n = NodeWaitingForApproval → approved (node_key n) (w_store w')) ∧
  ws_runs (w_store w') = ws_runs (w_store w) ∧ w_active w' = w_active w ∧ w_now w' = w_now w.
Proof.
  unfold approve_rows. induction rows as [|n rows IH] using rev_ind.
  { simpl. split_and!; try done; [set_solver|]. by intros n ?%not_elem_of_nil. }
  rw foldl_app. cbn [foldl]. destruct (foldl _ _ rows) as [dn w1].
  destruct IH as (Hdn & Happ & Hruns & Ha & Hnow).
  pose proof (approve_row_spec dn w1 n) as Hn. destruct (approve_row _ _) as [dn' w'].
  destruct Hn as (Hdn' & Hkeep & Happ' & -> & -> & ->). split_and!; [| |done..].
  - intros x. rw Hdn' Hdn. set_solver.
  - intros m [Hm| ->%list_elem_of_singleton]%elem_of_app Hst; [|by apply Happ'].
    by apply Hkeep, Happ.
Qed.

(** The record of a dispatched run, if its id was free. *)
Lemma begin_record `{UnorderedIter} dump sha256 autonomy (w0 w : World) :
  ws_runs (w_store w0) !! run_id = None →
  execute_begin cfg dsl run_id context dump sha256 autonomy w0 = (Dispatched, w) →
  ∃ r, ws_runs (w_store w) !! run_id = Some r ∧
    canonicalHash dump sha256 dsl = Some (wr_dsl_hash r) ∧
    dump (toJson dsl) = Some (wr_dsl_json r) ∧ dump context = Some (wr_context_json r).
Proof.
  intros Hfree. unfold execute_begin. case_match; [done|]. case_match; [done|].
  destruct (validateNoCycle dsl); [done|]. destruct (validateNoSandboxBypass dsl None); [|done].
  destruct (canonicalHash dump sha256 dsl) as [h|]; [|done].
  destruct (dump (toJson dsl)) as [text|]; [|done]. destruct (dump context) as [ctx|]; [|done].
  intros [= <-]. simpl. set (rec := run_record dsl run_id h text ctx (w_now w0)).
  destruct (create_spec rec (w_store w0)) as [_ Hc].
  destruct (transition_spec run_id RunRunning (w_now w0) (ws_createRun rec (w_store w0)).2) as [_ Ht].
  rw Ht lookup_alter_eq Hc. simpl. rw Hfree lookup_insert_eq. simpl. by eexists.
Qed.

(** Pause and resume: a run that a node paused is taken up again on the
    workflow it was started with and its context, from the text of the run's
    record, without the nodes that have a done or a waiting row; what is left
    is accepted by the cycle check.  Every node that was waiting, not only
    the one that was approved, is recorded as succeeded. *)
Theorem workflow_resume `{UnorderedIter} dump parse sha256 autonomy (w0 w w' : World) r w'' :
  JsonText dump parse → dsl_wf dsl → json_wf context →
  ws_runs (w_store w0) !! run_id = None →
  execute_begin cfg dsl run_id context dump sha256 autonomy w0 = (Dispatched, w) →
  ws_runs (w_store w') !! run_id = ws_runs (w_store w) !! run_id →
  paused (w_sched w') = true → execute_end run_id w' = (r, w'') →
  ∃ dn w3,
    resume_begin run_id parse dump sha256 w'' = (Some (inr (trim dn dsl, context)), w3) ∧
    (∀ x, x ∈ dn ↔ ∃ n, n ∈ ws_listNodeRuns run_id (w_store w') ∧ nr_node_id n = x ∧
                        resumed_done (nr_status n)) ∧
    validateNoCycle (trim dn dsl) = None ∧
    (∀ n, n ∈ ws_listNodeRuns run_id (w_store w') → nr_status n = NodeWaitingForApproval →
       approved (node_key n) (w_store w3)).
Proof.
  intros Htext Hwf Hctx Hfree Hbegin Hsame Hpaused Hend.
  destruct (begin_dispatched _ _ _ _ _ Hbegin) as [Hcyc _].
  destruct (begin_record _ _ _ _ _ Hfree Hbegin) as (rec & Hrec & Hhash & Hjson & Hcj).
  unfold execute_end in Hend. rw Hpaused in Hend. simplify_eq/=.
  destruct (transition_spec run_id RunWaitingForApproval (w_now w') (w_store w')) as [Hrows Hruns].
  destruct (dsl_text_roundtrip dump parse Htext dsl _ Hwf Hjson) as (j & Hj & Hdsl).
  set (w2 := set_active _ _). set (rows := ws_listNodeRuns run_id
    (ws_transition run_id RunWaitingForApproval (w_now w') (w_store w')).2).
  assert (∀ n, n ∈ rows ↔ n ∈ ws_listNodeRuns run_id (w_store w')) as Hlist.
  { intros n. unfold rows. rw !list_spec. by rw Hrows. }
  pose proof (approve_rows_spec rows w2) as Happ. unfold resume_begin. rw get_spec.
  unfold w2 at 1. simpl. rw Hruns lookup_alter_eq Hsame Hrec. simpl.
  rw Hj /= Hdsl Hhash bool_decide_true //. simpl. fold rows.
  destruct (approve_rows rows w2) as [dn w3]. destruct Happ as (Hdn & Ha & _).
  rw (parse_dump _ _ Htext _ _ Hctx Hcj). exists dn. eexists. split_and!; [done| | |].
  - intros x. rw Hdn. set_solver.
  - by apply trim_accepted.
  - intros n Hn%Hlist Hst. destruct (Ha n Hn Hst) as (row & Hrow & ?). exists row.
    destruct (transition_spec run_id RunRunning (w_now w3) (w_store w3)) as [Hr3 _].
    simpl. by rw Hr3.
Qed.

(** A resume that meets the limit on concurrent runs strands the run: the
    waiting nodes are already recorded as succeeded and the run as running
    when [execute] refuses it, and every later resume answers that the run is
    not paused. *)
Theorem workflow_resume_stranded `{UnorderedIter} parse dump sha256 autonomy (w : World) d ctx w1
    r w2 :
  resume_begin run_id parse dump sha256 w = (Some (inr (d, ctx)), w1) →
  max_concurrent_runs cfg <= w_active w →
  execute_begin cfg d run_id ctx dump sha256 autonomy w1 = (r, w2) →
  r = Refused (refuse RunFailed "backpressure_rejected") ∧
  resume_begin run_id parse dump sha256 w2 =
    (Some (inl (refuse RunRunning "run_not_paused")), w2).
Proof.
  unfold resume_begin. rw !get_spec. destruct (ws_runs (w_store w) !! run_id) as [rec|] eqn:Hrec; [|done].
  case_match; [done|]. case_match; [|done]. case_match; [|done]. case_match; [done|].
  set (rows := ws_listNodeRuns run_id (w_store w)). pose proof (approve_rows_spec rows w) as Happ.
  destruct (approve_rows rows w) as [dn w3]. destruct Happ as (_ & _ & Hruns & Hact & _).
  case_match; [|done]. intros [= <- <- <-] Hmax.
  destruct (transition_spec run_id RunRunning (w_now w3) (w_store w3)) as [_ Ht].
  unfold execute_begin. simpl. rw Hact.
  assert (max_concurrent_runs cfg <? w_active w + 1 = true) as -> by lia.
  intros [= <- <-]. split; [done|]. simpl. by rw Ht lookup_alter_eq Hruns Hrec.
Qed.


End run.
(** ** Concrete runs *)

Section drive.
Context {S C : Type} `{!WorkflowStoreOps S}.
Context (cfg : Config) (env : Env C) (dsl : Dsl) (run_id : string) (context : json).

(** The worker at [i] moves; out of range, an idle worker takes a job. *)
Definition move (i : nat) (s : State (S := S) (C := C)) : State (S := S) (C := C) :=
  let '(ts, w) := s in
  match ts !! i with
  | Some (id, Vis e k) =>
      (take i ts ++ (id, k (exec env dsl run_id context e w).1) :: drop (Datatypes.S i) ts,
       (exec env dsl run_id context e w).2)
  | Some (id, Ret _) => (take i ts ++ drop (Datatypes.S i) ts, w)
  | None =>
      match queue (w_sched w) with
      | id :: q =>
          if decide (length ts < Nat.max 1 (worker_count cfg))%nat
          then (ts ++ [(id, runNode cfg env dsl run_id id)], on_sched (pop_queue q) w)
          else s
      | [] => s
      end
  end.

Definition drive (sched : list nat) (s : State (S := S) (C := C)) : State (S := S) (C := C) :=
  foldl (λ s i, move i s) s sched.

Lemma move_run i s : ∃ n, engine_run cfg env dsl run_id context n s (move i s).
Proof.
  destruct s as [ts w]. unfold move. destruct (ts !! i) as [[id [[]|B e k]]|] eqn:Hi.
  - exists 1%nat. eapply er_own; [|apply er_refl].
    rw -{1}(take_drop_middle _ _ _ Hi). apply es_end.
  - exists 1%nat. eapply er_own; [|apply er_refl].
    rw -{1}(take_drop_middle _ _ _ Hi). apply es_call.
  - destruct (queue (w_sched w)) as [|id q] eqn:Hq; [eexists; apply er_refl|].
    case_decide; [|eexists; apply er_refl]. exists 1%nat.
    eapply er_own; [by apply es_start|apply er_refl].
Qed.

Lemma engine_run_trans n m s1 s2 s3 :
  engine_run cfg env dsl run_id context n s1 s2 → engine_run cfg env dsl run_id context m s2 s3 →
  engine_run cfg env dsl run_id context (n + m) s1 s3.
Proof. induction 1; intros ?; [done|eapply er_own; eauto|eapply er_env; eauto]. Qed.

Lemma drive_run sched s : ∃ n, engine_run cfg env dsl run_id context n s (drive sched s).
Proof.
  revert s. induction sched as [|i sched IH]; intros s; [eexists; apply er_refl|].
  destruct (move_run i s) as [n Hn]. destruct (IH (move i s)) as [m Hm].
  eexists. by eapply engine_run_trans.
Qed.

(** An idle pool stays idle. *)
Lemma idle_run n s s' :
  engine_run cfg env dsl run_id context n s s' → s.1 = [] → queue (w_sched s.2) = [] →
  n = 0%nat ∧ w_sched s'.2 = w_sched s.2.
Proof.
  induction 1 as [s|n s1 s2 s3 Hstep _ _|n ts w1 w2 s3 [Hs _] _ IH]; simpl; [done| |].
  - destruct Hstep as [ts w id q Hq _|ts1 ? ? ? ? ts2 w|ts1 ? ts2 w]; simpl; [by rw Hq|..];
      by destruct ts1.
  - rw -Hs. apply IH.
Qed.
End drive.

Definition toy_node (id : string) (ty : NodeType) (args : json) (deps : list string) : NodeSpec :=
  {| n_id := id; n_type := ty; tool_id := "echo"; arguments := args; depends_on := deps;
     condition := ""; retry := default_retry; timeout_ms := 0; dead_letter_log := "" |}.

Definition toy_workflow (ns : list NodeSpec) : Dsl :=
  {| d_id := "w"; d_version := "1"; d_description := ""; nodes := ns; metadata := JObject [] |}.

(** A tool call behind an approval. *)
Definition toy_dsl : Dsl :=
  toy_workflow [toy_node "gate" HumanApproval (JObject []) [];
                toy_node "call" Tool (JObject []) ["gate"]].

Definition toy_cfg : Config :=
  {| worker_count := 2; default_node_timeout := 1000; stop_on_first_failure := true;
     max_concurrent_runs := 4 |}.

(** The sandbox echoes; the approval callback answers [pause]. *)
Definition toy_env (pause : bool) : Env unit :=
  {| has_sandbox := true; executor := Some (λ _ _ c, (inl "done", c));
     approval_cb := Some (λ _ _ _ c, (Some pause, c)); times_out := λ _ _ _, false |}.

Definition toy_tool : ToolSandbox.ToolDefinition :=
  {| ToolSandbox.td_id := "echo"; ToolSandbox.td_name := "echo";
     ToolSandbox.td_description := ""; ToolSandbox.td_version := "";
     ToolSandbox.parameters_schema := JObject []; ToolSandbox.td_timeout_ms := 0;
     ToolSandbox.max_concurrent := 0; ToolSandbox.rate_limit_max_calls := 0;
     ToolSandbox.rate_limit_window_seconds := 0; ToolSandbox.enabled := true;
     ToolSandbox.tags := [] |}.

Definition toy_world : World MemoryWorkflowStore.Store unit :=
  mk_world {| MemoryWorkflowStore.runs := ∅; MemoryWorkflowStore.node_rows := ∅ |}
    {| ToolSandbox.registry := {["echo" := toy_tool]}; ToolSandbox.total_executions := 0;
       ToolSandbox.failed_executions := 0 |} tt 7 0 (new_sched ∅ []).

Definition toy_table (dsl : Dsl) : list (json * string) :=
  [(JObject [], "{}"); (toJson dsl, "dsl"); (canonical dsl, "canonical")].

Definition toy_begin (dsl : Dsl) : Begun * World MemoryWorkflowStore.Store unit :=
  execute_begin toy_cfg dsl "r" (JObject []) (table_dump (toy_table dsl)) (λ s, s) true toy_world.

Definition toy_drive (pause : bool) (dsl : Dsl) (fuel : nat) :
    State (S := MemoryWorkflowStore.Store) (C := unit) :=
  drive toy_cfg (toy_env pause) dsl "r" (JObject []) (replicate fuel 0%nat)
    ([], (toy_begin dsl).2).

Lemma wf_dispatched : toy_begin toy_dsl = (Dispatched, (toy_begin toy_dsl).2).
Proof. by vm_compute. Qed.

Lemma wf_run pause dsl fuel : ∃ n,
  engine_run toy_cfg (toy_env pause) dsl "r" (JObject []) n ([], (toy_begin dsl).2)
    ((toy_drive pause dsl fuel).1, (toy_drive pause dsl fuel).2).
Proof. rw -surjective_pairing. apply drive_run. Qed.

Lemma workflow_dependencies_witness :
  (toy_drive false toy_dsl 14).1.*1 = ["call"] ∧
  node_done "r" (toy_drive false toy_dsl 14).2 "gate".
Proof.
  split; [by vm_compute|]. destruct (wf_run false toy_dsl 14) as [n Hn].
  destruct (workflow_dependencies toy_cfg (toy_env false) toy_dsl "r" (JObject []) _ _ _ _ _ _ _ _
    wf_dispatched Hn) as (_ & _ & _ & Hd).
  eapply (Hd "call" _ (toy_node "call" Tool (JObject []) ["gate"])).
  - vm_compute. by left.
  - by right; left.
  - reflexivity.
  - by left.
Defined.

Lemma workflow_outcome_witness :
  final_status (execute_end "r" (toy_drive false toy_dsl 50).2).1 = RunSucceeded ∧
  node_done "r" (execute_end "r" (toy_drive false toy_dsl 50).2).2 "call".
Proof.
  split; [by vm_compute|]. destruct (wf_run false toy_dsl 50) as [n Hn].
  destruct (workflow_outcome toy_cfg (toy_env false) toy_dsl "r" (JObject []) _ _ _ _ _ _ _ _ _ _
    wf_dispatched Hn ltac:(by vm_compute) (surjective_pairing _)) as (_ & Hd & _).
  apply (Hd ltac:(by vm_compute) (toy_node "call" Tool (JObject []) ["gate"])). by right; left.
Defined.

(** Without a sandbox every tool node fails, and nothing throws. *)
Definition bare_env : Env unit :=
  {| has_sandbox := false; executor := None; approval_cb := None; times_out := λ _ _ _, false |}.

Lemma bare_calm : calm (S := MemoryWorkflowStore.Store) bare_env toy_dsl "r" (JObject []).
Proof.
  split; [|done|done]. intros id node Hn.
  assert (node ∈ nodes toy_dsl) as [->|[->|[]%elem_of_nil]%elem_of_cons]%elem_of_cons; [|done..].
  revert Hn. unfold by_id. cbn. intros [[_ <-]|[_ [[_ <-]|[_ Hn]]%lookup_insert_Some]]%lookup_insert_Some;
    [by right; left|by left|by rw lookup_empty in Hn].
Qed.

Lemma workflow_terminates_witness :
  outstanding (w_sched (toy_begin toy_dsl).2) = 1 ∧ run_bound toy_dsl = 32%nat ∧
  ∃ s', own_step toy_cfg bare_env toy_dsl "r" (JObject []) ([], (toy_begin toy_dsl).2) s'.
Proof.
  split_and!; [by vm_compute|by vm_compute|].
  apply (workflow_terminates toy_cfg bare_env toy_dsl "r" (JObject []) _ _ _ _ _ 0 [] _
    wf_dispatched (er_refl _ _ _ _ _ _)); [apply bare_calm|by vm_compute].
Defined.

Lemma wf_dsl_wf : dsl_wf toy_dsl.
Proof. split; [repeat constructor; done|by repeat constructor|done]. Qed.

Lemma wf_text_ok :
  JsonText (table_dump (toy_table toy_dsl)) (table_parse (toy_table toy_dsl)).
Proof.
  apply table_text; [by apply (bool_decide_unpack _); vm_compute|].
  assert (json_wf (JObject [])) by (repeat constructor).
  apply Forall_cons; split; [done|]. apply Forall_cons; split.
  - split; [apply dsl_json_wf, wf_dsl_wf|done].
  - apply Forall_singleton. split; [apply canonical_members, wf_dsl_wf|done].
Qed.

Lemma workflow_resume_witness :
  ∃ dn w3,
    resume_begin "r" (table_parse (toy_table toy_dsl)) (table_dump (toy_table toy_dsl)) (λ s, s)
      (execute_end "r" (toy_drive true toy_dsl 50).2).2 =
      (Some (inr (trim dn toy_dsl, JObject [])), w3) ∧
    "gate" ∈ dn ∧ validateNoCycle (trim dn toy_dsl) = None.
Proof.
  destruct (workflow_resume toy_cfg toy_dsl "r" (JObject []) _ _ (λ s, s) true toy_world
    (toy_begin toy_dsl).2 (toy_drive true toy_dsl 50).2 _ _ wf_text_ok wf_dsl_wf
    ltac:(by repeat constructor) ltac:(by vm_compute) wf_dispatched
    ltac:(by vm_compute) ltac:(by vm_compute) (surjective_pairing _))
    as (dn & w3 & Hr & Hdn & Hc & _).
  exists dn, w3. split_and!; [done| |done]. apply Hdn. vm_compute. eexists.
  split; [by left|]. split; [done|]. by right.
Defined.

Lemma workflow_resume_stranded_witness :
  let w := set_active 4 (execute_end "r" (toy_drive true toy_dsl 50).2).2 in
  let parse := table_parse (toy_table toy_dsl) in
  let dump := table_dump (toy_table toy_dsl) in
  ∃ d w1 r (w2 : World MemoryWorkflowStore.Store unit),
    resume_begin "r" parse dump (λ s, s) w = (Some (inr (d, JObject [])), w1) ∧
    resume_begin "r" parse dump (λ s, s) w2 = (Some (inl (refuse RunRunning "run_not_paused")), w2) ∧
    r = Refused (refuse RunFailed "backpressure_rejected").
Proof.
  intros w parse dump.
  assert (∃ d w1, resume_begin "r" parse dump (λ s, s) w = (Some (inr (d, JObject [])), w1))
    as (d & w1 & Hr) by (eexists _, _; vm_compute; reflexivity).
  exists d, w1. eexists _, _. split; [done|].
  destruct (workflow_resume_stranded toy_cfg "r" parse dump (λ s, s) true w d (JObject []) w1 _ _
    Hr ltac:(by vm_compute) (surjective_pairing _)) as [Hx Hy].
  split; [exact Hy|exact Hx].
Defined.

(** A tool node whose arguments are not an object. *)
Definition hang_dsl : Dsl := toy_workflow [toy_node "call" Tool (JArray []) []].

Lemma hang_idle :
  let s := toy_drive false hang_dsl 10 in
  s.1 = [] ∧ queue (w_sched s.2) = [] ∧ outstanding (w_sched s.2) = 1.
Proof. by vm_compute. Qed.

(** A workflow can hang for ever: a tool node whose arguments are a JSON
    array passes the reader and every check, the assignment of the run id to
    the arguments throws in the worker, the worker swallows the exception,
    and from then on, whatever the environment does, the pool is idle with
    the node outstanding, so that [execute] never returns. *)
Theorem workflow_hang :
  fromJson (toJson hang_dsl) = Some hang_dsl ∧ runStructuralChecks hang_dsl = [] ∧
  (toy_begin hang_dsl).1 = Dispatched ∧
  ∃ n ts w,
    engine_run toy_cfg (toy_env false) hang_dsl "r" (JObject []) n ([], (toy_begin hang_dsl).2)
      (ts, w) ∧
    ∀ n' ts' w',
      engine_run toy_cfg (toy_env false) hang_dsl "r" (JObject []) n' (ts, w) (ts', w') →
      n' = 0%nat ∧ outstanding (w_sched w') = 1.
Proof.
  split_and!; [by vm_compute..|]. destruct (wf_run false hang_dsl 10) as [n Hn].
  pose proof hang_idle as Hidle. revert Hn Hidle.
  generalize (toy_drive false hang_dsl 10) as s. intros [ts w] Hn (Hts & Hq & Ho).
  exists n, ts, w. split; [done|]. intros n' ts' w' Hrun.
  destruct (idle_run _ _ _ _ _ _ _ _ Hrun Hts Hq) as [-> Hs]. simpl in Hs. by rw Hs.
Qed.

End WorkflowEngine.
