(* ===== verification/WorkflowApproval.v ===== *)
(** * WorkflowApproval: human approvals of workflow nodes

    Models [src/src/workflow/human_approval_node_handler.cpp],
    [src/src/workflow/workflow_approval_applier.cpp] and
    [src/src/observe/autonomy/base_autonomy_applier.cpp]: a paused node becomes an approval
    proposal, and applying the approved proposal resumes the run.  The engine's
    [resume] is that of [WorkflowEngine.v], under a schedule of its workers. *)
From Corelib Require Import PrimFloat.
From S2P Require Import Prelude.
From S2P Require Import Prog.
From S2P Require Import Json.
From S2P Require Import AuditLog.
From S2P Require Import ApprovalQueue.
From S2P Require Import ApprovalWorkflow.
From S2P Require Import ToolSandbox.
From S2P Require Import WorkflowDsl.
From S2P Require Import WorkflowStore.
From S2P Require Import WorkflowEngine.
Import Json WorkflowDsl.
Local Open Scope Z_scope.

Module WorkflowApproval.
Import ApprovalQueue.

(** ** [ApplyResult] and the base of the appliers *)

(** [struct ApplyResult] without its duration. *)
Record ApplyResult := {
  success : bool;
  error_code : string;
  error_message : string;
  details : json;
}.

Definition apply_ok (d : json) : ApplyResult :=
  {| success := true; error_code := ""; error_message := ""; details := d |}.

Definition apply_fail (code msg : string) (d : json) : ApplyResult :=
  {| success := false; error_code := code; error_message := msg; details := d |}.

Definition makeDryRunOk (d : json) : ApplyResult :=
  apply_ok (match d with
            | JObject m => JObject (map_assign "dry_run" (JBool true) m)
            | _ => JObject [("dry_run", JBool true)]
            end).

Definition makeFailSchemaInvalid (err : string) : ApplyResult :=
  apply_fail "schema_invalid" err (JObject []).

Definition makeFailMissingDep (code msg : string) : ApplyResult :=
  apply_fail code msg (JObject []).

(** [BaseAutonomyApplier::apply] and [rollback]: the second check of the kill
    switch around a subclass's [impl]; [None] is an exception. *)
Definition base_apply {W} (enabled : bool) (impl : W → option ApplyResult * W) (w : W) :
    option ApplyResult * W :=
  if negb enabled
  then (Some (apply_fail "autonomy_disabled" "AEGISGATE_DISABLE_AUTONOMY=1" (JObject [])), w)
  else impl w.

(** ** The handler *)

(** [scrub] with a filter. *)
Fixpoint scrub_value (mask : string → string) (v : json) : json :=
  match v with
  | JString s => JString (mask s)
  | JObject m =>
      make_object (map (λ kv, let '(k, x) := kv in (k, scrub_value mask x)) m)
  | JArray l => JArray (map (scrub_value mask) l)
  | _ => v
  end.

Definition scrub (pii_filter : option (string → string)) (v : json) : json :=
  match pii_filter with
  | None => v
  | Some mask => scrub_value mask v
  end.

Definition approval_payload (run_id workflow_id dsl_hash : string) (node : NodeSpec)
    (context : json) : json :=
  make_object [("run_id", JString run_id); ("workflow_id", JString workflow_id);
               ("node_id", JString (n_id node)); ("dsl_hash", JString dsl_hash);
               ("tool_id", JString (tool_id node)); ("arguments", arguments node);
               ("context", context)].

(** The proposal that [enqueue] submits at [now]. *)
Definition node_proposal (sha256 : string → string) (pii_filter : option (string → string))
    (run_id workflow_id dsl_hash : string) (node : NodeSpec) (context : json) (now : Z) :
    ApprovalProposal :=
  {| ap_id := ""; ap_source := Workflow;
     ap_subject := "workflow:" +:+ workflow_id +:+ "/" +:+ n_id node;
     ap_payload := scrub pii_filter (approval_payload run_id workflow_id dsl_hash node context);
     ap_decision_trace := scrub pii_filter
       (make_object [("source_id", JString run_id);
                     ("algorithm_name", JString "workflow_human_approval_v1");
                     ("input_hash_sha256", JString (sha256 (dsl_hash +:+ "|" +:+ n_id node)));
                     ("proposed_at_ms", JInteger now)]);
     ap_proposed_at_ms := 0; ap_proposer_user_id := ""; ap_state := PROPOSED;
     ap_reviewer_user_id := ""; ap_reviewed_at_ms := 0; ap_reject_reason := "";
     ap_payload_sha256 := "" |}.

Definition enqueue {A} (T : Text) (deps : ApprovalWorkflow.Deps) (has_workflow : bool)
    (pii_filter : option (string → string)) (run_id workflow_id dsl_hash : string)
    (node : NodeSpec) (context : json) : prog (Cmd A) (option string) :=
  if negb has_workflow then Ret (Some "")
  else
    now ← call ApprovalQueue.NowMs;
    ApprovalWorkflow.propose T deps
      (node_proposal (sha256 T) pii_filter run_id workflow_id dsl_hash node context now).

(** ** The applier *)

Definition lowRiskToolSafelist : list string :=
  ["read_only_metrics_lookup"; "audit_log_query"; "shadow_inference"; "tracing_lookup"].

(** [j.value("timeout_ms", 30000)]; [trunc] is the conversion of a float to
    [int]. *)
Definition value_timeout (trunc : float → Z) (m : list (string * json)) : option Z :=
  match map_find "timeout_ms" m with
  | None => Some 30000
  | Some (JInteger z) => Some (to_int z)
  | Some (JBool b) => Some (Z.b2z b)
  | Some (JFloat f) => Some (trunc f)
  | Some _ => None
  end.

Definition low_risk_tag (t : json) : bool :=
  match t with JString s => bool_decide (s = "low_risk_audited") | _ => false end.

(** [isLowRisk]; [None] is an exception. *)
Definition isLowRisk (trunc : float → Z) (p : ApprovalProposal) : option bool :=
  match ap_payload p with
  | JObject m =>
      tool_id ← value_string "tool_id" (JObject m);
      if negb (bool_decide (tool_id ∈ lowRiskToolSafelist)) then Some false
      else match default (JObject []) (map_find "arguments" m) with
      | JObject args =>
          if (5 <=? length args)%nat then Some false
          else
            timeout ← value_timeout trunc m;
            if 10000 <? timeout then Some false
            else match map_find "tags" m with
            | Some (JArray ts) => Some (existsb low_risk_tag ts)
            | _ => Some false
            end
      | _ => Some false
      end
  | _ => Some false
  end.

Section applier.
Context {W : Type} (getRun : string → W → option WorkflowRunRecord).
Context (resume : string → W → option WorkflowEngine.ExecutionResult * W).

(** [applyImpl] with an engine and a store behind it when [wired]. *)
Definition applyImpl (wired : bool) (p : ApprovalProposal) (dry_run : bool) (w : W) :
    option ApplyResult * W :=
  match ap_payload p with
  | JObject m =>
      match value_string "run_id" (JObject m), value_string "node_id" (JObject m),
            value_string "dsl_hash" (JObject m) with
      | Some run_id, Some node_id, Some dsl_hash =>
          if str_empty run_id || str_empty node_id
          then (Some (makeFailSchemaInvalid "payload missing run_id or node_id"), w)
          else if negb wired
          then (Some (makeFailMissingDep "engine_unavailable" "applier wiring broken"), w)
          else if dry_run
          then (Some (makeDryRunOk (make_object [("run_id", JString run_id);
                                                 ("node_id", JString node_id)])), w)
          else match getRun run_id w with
          | None => (Some (apply_fail "run_not_found" run_id (JObject [])), w)
          | Some run =>
              if negb (str_empty dsl_hash) && negb (bool_decide (dsl_hash = wr_dsl_hash run))
              then (Some (apply_fail "dsl_hash_mismatch"
                            "proposal payload diverged from stored DSL" (JObject [])), w)
              else match resume run_id w with
              | (None, w) => (None, w)
              | (Some res, w) =>
                  let det := make_object
                    [("run_id", JString run_id); ("node_id", JString node_id);
                     ("final_status",
                      JString (runStatusToString (WorkflowEngine.final_status res)));
                     ("completed", JInteger (WorkflowEngine.completed_nodes res));
                     ("failed", JInteger (WorkflowEngine.failed_nodes res))] in
                  if WorkflowEngine.ok res then (Some (apply_ok det), w)
                  else (Some (apply_fail "resume_failed"
                                (if str_empty (WorkflowEngine.error_message res)
                                 then "engine refused" else WorkflowEngine.error_message res)
                                det), w)
              end
          end
      | _, _, _ => (None, w)
      end
  | _ => (Some (makeFailSchemaInvalid "payload not an object"), w)
  end.

Definition rollbackImpl (p : ApprovalProposal) (w : W) : option ApplyResult * W :=
  match value_string "run_id" (ap_payload p), value_string "node_id" (ap_payload p) with
  | Some run_id, Some node_id =>
      (Some (apply_ok (make_object [("run_id", JString run_id); ("node_id", JString node_id);
                                    ("note", JString "v1 rollback is a no-op")])), w)
  | _, _ => (None, w)
  end.

(** The applier as the approval workflow sees it. *)
Definition workflow_applier (enabled wired : bool) : Applier W :=
  {| apl_apply p w := let '(r, w) := base_apply enabled (applyImpl wired p false) w in
                      (success <$> r, w);
     apl_rollback p w := let '(r, w) := base_apply enabled (rollbackImpl p) w in
                         (bool_decide (is_Some r), w) |}.
End applier.

(** ** Resuming under a schedule *)

Section engine.
Context {S C : Type} `{!WorkflowStoreOps S} `{UnorderedIter}.
Context (cfg : WorkflowEngine.Config) (env : WorkflowEngine.Env C).
Context (parse : string → option json) (dump : json → option string) (sha256 : string → string).
Context (autonomy : bool) (sched : list nat).
Notation World := (WorkflowEngine.World S C).

(** [execute] when the workers follow [sched], which has to drain the run. *)
Definition execute_with (dsl : Dsl) (run_id : string) (context : json) (w : World) :
    option WorkflowEngine.ExecutionResult * World :=
  match WorkflowEngine.execute_begin cfg dsl run_id context dump sha256 autonomy w with
  | (WorkflowEngine.Refused r, w) => (Some r, w)
  | (WorkflowEngine.Threw, w) => (None, w)
  | (WorkflowEngine.Dispatched, w) =>
      let '(r, w) := WorkflowEngine.execute_end run_id
        (WorkflowEngine.drive cfg env dsl run_id context sched ([], w)).2 in
      (Some r, w)
  end.

Definition resume_with (run_id : string) (w : World) :
    option WorkflowEngine.ExecutionResult * World :=
  match WorkflowEngine.resume_begin run_id parse dump sha256 w with
  | (None, w) => (None, w)
  | (Some (inl r), w) => (Some r, w)
  | (Some (inr (dsl, context)), w) => execute_with dsl run_id context w
  end.
End engine.

(** ** Scrubbing *)

(** The strings of a value, keys apart. *)
Fixpoint strings (v : json) : list string :=
  match v with
  | JString s => [s]
  | JArray l => concat (map strings l)
  | JObject m => concat (map (λ kv, let '(k, x) := kv in strings x) m)
  | _ => []
  end.

Lemma scrub_members mask m :
  keys_sorted m →
  make_object (map (λ kv, let '(k, x) := kv in (k, scrub_value mask x)) m) =
  JObject (map (λ kv, let '(k, x) := kv in (k, scrub_value mask x)) m).
Proof.
  intros Hs. unfold make_object. f_equal.
  rw (foldl_put map_assign [] (map _ m)); [done|by right|]. by apply keys_sorted_fmap.
Qed.

(** Scrubbing masks every string and nothing else. *)
Lemma scrub_strings mask v : json_wf v → strings (scrub_value mask v) = mask <$> strings v.
Proof.
  induction v as [| | | | |l IH|m IH] using json_nested_ind; try done.
  - intros Hwf. cbn [scrub_value strings]. induction IH as [|x l Hx _ IHl]; [done|].
    simpl in Hwf |- *. destruct Hwf as [Hw Hwf]. by rw fmap_app Hx // IHl.
  - intros [Hs Hwf]. cbn [scrub_value]. rw scrub_members //. cbn [strings]. clear Hs.
    induction m as [|[k x] m IHm]; [done|]. apply Forall_cons in IH as [Hx IH].
    simpl in *. destruct Hwf as [Hw Hwf]. by rw fmap_app Hx // IHm.
Qed.

Lemma payload_members run_id workflow_id dsl_hash node context :
  approval_payload run_id workflow_id dsl_hash node context =
  JObject [("arguments", arguments node); ("context", context); ("dsl_hash", JString dsl_hash);
           ("node_id", JString (n_id node)); ("run_id", JString run_id);
           ("tool_id", JString (tool_id node)); ("workflow_id", JString workflow_id)].
Proof. reflexivity. Qed.

Lemma payload_wf run_id workflow_id dsl_hash node context :
  json_wf (arguments node) → json_wf context →
  json_wf (approval_payload run_id workflow_id dsl_hash node context).
Proof.
  intros Ha Hc. rw payload_members. split; [|by split_and!].
  unfold keys_sorted. repeat constructor.
Qed.

(** The scrubbed payload, member by member. *)
Lemma scrubbed_members mask run_id workflow_id dsl_hash node context :
  scrub_value mask (approval_payload run_id workflow_id dsl_hash node context) =
  JObject [("arguments", scrub_value mask (arguments node));
           ("context", scrub_value mask context); ("dsl_hash", JString (mask dsl_hash));
           ("node_id", JString (mask (n_id node))); ("run_id", JString (mask run_id));
           ("tool_id", JString (mask (tool_id node)));
           ("workflow_id", JString (mask workflow_id))].
Proof. rw payload_members. reflexivity. Qed.

(** A human approval is private and never automatic: every string of the
    proposal for a paused node, in the payload and in the decision trace, has
    gone through the PII filter, and the proposal is never classified as low
    risk, whatever the node's tool and arguments, so that it waits for a
    reviewer. *)
Theorem approval_node_private sha256 mask trunc run_id workflow_id dsl_hash node context now :
  json_wf (arguments node) → json_wf context →
  let p := node_proposal sha256 (Some mask) run_id workflow_id dsl_hash node context now in
  (∀ s, s ∈ strings (ap_payload p) ++ strings (ap_decision_trace p) → ∃ t, s = mask t) ∧
  isLowRisk trunc p = Some false.
Proof.
  intros Ha Hc p. split.
  - intros s [Hs|Hs]%elem_of_app.
    + cbn [p node_proposal ap_payload scrub] in Hs. rw scrub_strings in Hs; [|by apply payload_wf].
      apply list_elem_of_fmap in Hs as (t & -> & _). eauto.
    + cbn in Hs. set_solver.
  - unfold isLowRisk. cbn [p node_proposal ap_payload scrub]. rw scrubbed_members.
    match goal with |- context [value_timeout trunc ?l] => set (m := l) end.
    rw (_ : value_string "tool_id" (JObject m) = Some (mask (tool_id node))) //.
    rw (_ : value_timeout trunc m = Some 30000) //. simpl.
    destruct (bool_decide (_ ∈ _)); [|done]. simpl. destruct (scrub_value _ _) as [| | | | | |args]; try done.
    by destruct args as [|? [|? [|? [|? [|? ?]]]]].
Qed.

(** What an approval can set in motion: whatever the proposal, applying it
    either leaves everything as it was or is one call of [resume] on the run
    the payload names, and then the payload's hash, unless it is missing or
    empty, is the hash of the workflow stored for that run; the apply is a
    success exactly when the resumed run succeeded. *)
Theorem approval_applier_resumes {W} getRun resume wired p dry_run (w w' : W) r :
  applyImpl getRun resume wired p dry_run w = (Some r, w') →
  (w' = w ∧ (success r = true → dry_run = true)) ∨
  ∃ run_id hash run res,
    value_string "run_id" (ap_payload p) = Some run_id ∧
    value_string "dsl_hash" (ap_payload p) = Some hash ∧
    getRun run_id w = Some run ∧ (hash = "" ∨ hash = wr_dsl_hash run) ∧ dry_run = false ∧
    resume run_id w = (Some res, w') ∧ success r = WorkflowEngine.ok res.
Proof.
  unfold applyImpl. destruct (ap_payload p) as [| | | | | |m] eqn:Hp; try by intros [= <- <-]; left.
  destruct (value_string "run_id" _) as [run_id|] eqn:Hr; [|done].
  destruct (value_string "node_id" _) as [node_id|] eqn:Hn; [|done].
  destruct (value_string "dsl_hash" _) as [hash|] eqn:Hh; [|done].
  case_match; [by intros [= <- <-]; left|]. case_match; [by intros [= <- <-]; left|].
  destruct dry_run; [by intros [= <- <-]; left|].
  destruct (getRun run_id w) as [run|] eqn:Hrun; [|by intros [= <- <-]; left].
  destruct (negb (str_empty hash) && negb (bool_decide (hash = wr_dsl_hash run))) eqn:Hhash;
    [by intros [= <- <-]; left|].
  assert (hash = "" ∨ hash = wr_dsl_hash run) as Hok.
  { apply andb_false_iff in Hhash as [He|He]; apply negb_false_iff in He; [left|right].
    - by apply str_empty_spec.
    - by apply bool_decide_eq_true in He. }
  destruct (resume run_id w) as [[res|] w2] eqn:Hres; [|done].
  destruct (WorkflowEngine.ok res) eqn:Hokr; intros [= <- <-]; right;
    exists run_id, hash, run, res; by split_and!.
Qed.

(** ** Two approvals at once *)

Import WorkflowEngine.

(** A tool call behind two gates that may wait at the same time. *)
Definition gates_dsl : Dsl :=
  toy_workflow [toy_node "a" HumanApproval (JObject []) []; toy_node "b" HumanApproval (JObject []) [];
                toy_node "call" Tool (JObject []) ["a"; "b"]].

Definition gates_left : Dsl := trim {["a"; "b"]} gates_dsl.

Definition gates_table : list (json * string) :=
  [(JObject [], "{}"); (toJson gates_dsl, "dsl"); (canonical gates_dsl, "canonical");
   (toJson gates_left, "left"); (canonical gates_left, "canonical left")].

Definition gates_env : Env unit :=
  {| has_sandbox := true; executor := Some (λ _ _ c, (inl "done", c)); approval_cb := None;
     times_out := λ _ _ _, false |}.

(** Both workers load [cancelled] before either node pauses the run. *)
Definition gates_run (w : World MemoryWorkflowStore.Store unit) :
    World MemoryWorkflowStore.Store unit :=
  (execute_with toy_cfg gates_env (table_dump gates_table) (λ s, s) true
     ([9; 9; 0; 1]%nat ++ replicate 40 0%nat) gates_dsl "r" (JObject []) w).2.

Definition gates_applier : Applier (World MemoryWorkflowStore.Store unit) :=
  workflow_applier (λ id w, ws_getRun id (w_store w))
    (resume_with toy_cfg gates_env (table_parse gates_table) (table_dump gates_table) (λ s, s)
       true (replicate 40 0%nat)) true true.

(** The texts of the two payloads. *)
Definition gates_text : Text :=
  {| dump := table_dump
       (imap (λ i n, (canonicalise (approval_payload "r" "w" "canonical" n (JObject [])),
                      if (i =? 0)%nat then "payload 0" else "payload 1")) (take 2 (nodes gates_dsl)));
     parse := λ _, None; sha256 := λ s, s |}.

Definition gates_deps : ApprovalWorkflow.Deps :=
  {| ApprovalWorkflow.has_queue := true; ApprovalWorkflow.has_store := false;
     ApprovalWorkflow.has_audit := false; ApprovalWorkflow.mask := λ s, s;
     ApprovalWorkflow.audit_store := false; ApprovalWorkflow.encryption := None |}.

Definition gates_propose (node : NodeSpec) :
    prog (ApprovalQueue.Cmd (World MemoryWorkflowStore.Store unit)) (option bool) :=
  or_throw (enqueue gates_text gates_deps true None "r" "w" "canonical" node (JObject []))
    (λ id, Ret (Some (negb (str_empty id)))).

(** The run pauses, both nodes are proposed, one proposal is rejected, the
    other approved and applied. *)
Definition gates_history :
    list (option bool) * ApprovalQueue.World (World MemoryWorkflowStore.Store unit) :=
  foldl (λ acc p, let '(b, w) := run (ApprovalQueue.exec gates_text) p acc.2 in (acc.1 ++ [b], w))
    ([], ApprovalWorkflow.fresh (gates_run toy_world) (λ n, if (n =? 0)%nat then "p0" else "p1"))
    ([ApprovalWorkflow.handle gates_text gates_deps
        (ApprovalWorkflow.Register Workflow gates_applier)] ++
     (gates_propose <$> take 2 (nodes gates_dsl)) ++
     (ApprovalWorkflow.handle gates_text gates_deps <$>
        [ApprovalWorkflow.Reject "p1" "ann" "no"; ApprovalWorkflow.Approve "p0" "ann";
         ApprovalWorkflow.Apply "p0"])).

(** The status of the first row of a node of the run. *)
Definition gate_status (id : string) (w : World MemoryWorkflowStore.Store unit) :
    option WorkflowNodeStatus :=
  nr_status <$> ws_rows (w_store w) !! ("r", id, 1).

(** A rejected approval does not stop its node: when two human approvals
    wait at the same time, approving and applying the proposal of one resumes
    the run with both nodes recorded as succeeded, although the proposal of
    the other was rejected, and the tool call behind both of them runs. *)
Theorem approval_rejected_gate_opens :
  let paused := gates_run toy_world in
  let w := gates_history.2 in
  outstanding (w_sched paused) = 0 ∧
  gate_status "a" paused = Some NodeWaitingForApproval ∧
  gate_status "b" paused = Some NodeWaitingForApproval ∧
  ap_state <$> ApprovalQueue.w_cache w !! "p1" = Some REJECTED ∧
  ap_state <$> ApprovalQueue.w_cache w !! "p0" = Some APPLIED ∧
  gate_status "b" (ApprovalQueue.w_target w) = Some NodeSucceeded ∧
  gate_status "call" (ApprovalQueue.w_target w) = Some NodeSucceeded.
Proof. by vm_compute. Qed.

Lemma approval_node_private_witness :
  Forall (λ s, s = "*") (strings (ap_payload (node_proposal (λ s, s) (Some (λ _, "*")) "r" "w" "h"
    (toy_node "a" HumanApproval (JObject []) []) (JObject []) 0))).
Proof.
  destruct (approval_node_private (λ s, s) (λ _, "*") (λ _, 0) "r" "w" "h"
    (toy_node "a" HumanApproval (JObject []) []) (JObject []) 0) as [Hp _];
    [by repeat constructor..|].
  apply Forall_forall. intros s Hs. destruct (Hp s) as [_ ->]; [by apply elem_of_app; left|done].
Defined.

Lemma approval_applier_resumes_witness :
  let p := node_proposal (λ s, s) None "r" "w" "h"
    (toy_node "a" HumanApproval (JObject []) []) (JObject []) 0 in
  let run := run_record gates_dsl "r" "h" "" "" 0 in
  let getRun := λ id (resumed : bool), Some run in
  let resume := λ id (resumed : bool), (Some (refuse RunFailed "no"), true) in
  (applyImpl getRun resume true p false false).2 = true ∧
  ∃ res, resume "r" false = (Some res, true) ∧ ok res = false.
Proof.
  intros p run getRun resume. split; [reflexivity|].
  destruct (approval_applier_resumes getRun resume true p false false true _ eq_refl)
    as [[? _]|(id & h & run' & res & Hid & Hh & Hrun & Hor & _ & Hres & Hok)]; [done|].
  exists res. split; [|by rw -Hok]. by injection Hid as <-.
Defined.

End WorkflowApproval.
