(* ===== verification/Codec.v ===== *)
(** * Codec: regrouping bits through an accumulator

    The Base64 and Base32 codecs of the gateway push the bits of the input
    into a 32-bit accumulator and take them out again in groups of another
    width.  [drain] is the inner loop of all of them, and [regroup_spec]
    relates the accumulator, which overflows on long inputs, to the plain
    sequence of bits. *)
From S2P Require Import Prelude.
Local Open Scope Z_scope.

Module Codec.

(** Take groups of [b] bits out of [val] while at least [b] of its [n] bits
    are left; [fuel] bounds the groups. *)
Fixpoint drain (fuel : nat) (b val n : Z) : list Z * Z :=
  match fuel with
  | O => ([], n)
  | S fuel =>
      if b <=? n then
        let '(out, n') := drain fuel b val (n - b) in
        (Z.land (Z.shiftr val (n - b)) (Z.ones b) :: out, n')
      else ([], n)
  end.

(** ** Bit sequences, most significant bit first *)

Fixpoint bits (w : nat) (x : Z) : list bool :=
  match w with
  | O => []
  | S w => bits w (x / 2) ++ [Z.odd x]
  end.

Definition unbits (l : list bool) : Z := foldl (λ a b, 2 * a + Z.b2z b) 0 l.

Lemma length_bits w x : length (bits w x) = w.
Proof. revert x. induction w as [|w IH]; intros x; simpl; [done|]. rw length_app IH /=. lia. Qed.

Lemma unbits_snoc l b : unbits (l ++ [b]) = 2 * unbits l + Z.b2z b.
Proof. unfold unbits. by rw foldl_app. Qed.

Lemma unbits_app l m : unbits (l ++ m) = unbits l * 2 ^ Z.of_nat (length m) + unbits m.
Proof.
  induction m as [|b m IH] using rev_ind; [rw app_nil_r; unfold unbits; simpl; lia|].
  rw assoc !unbits_snoc IH length_app /= Nat2Z.inj_add Z.pow_add_r; lia.
Qed.

Lemma unbits_range l : 0 <= unbits l < 2 ^ Z.of_nat (length l).
Proof.
  induction l as [|b l IH] using rev_ind; [unfold unbits; simpl; lia|].
  rw unbits_snoc length_app /= Nat2Z.inj_add Z.pow_add_r; [|lia..]. destruct b; simpl; lia.
Qed.

Lemma unbits_bits w x : 0 <= x < 2 ^ Z.of_nat w → unbits (bits w x) = x.
Proof.
  revert x. induction w as [|w IH]; intros x Hx; [unfold unbits; simpl in *; lia|].
  simpl. rw unbits_snoc IH.
  - rw -Z.div2_div. pose proof (Z.div2_odd x). lia.
  - rw Nat2Z.inj_succ Z.pow_succ_r in Hx; [|lia]. split; [apply Z.div_pos; lia|].
    apply Z.div_lt_upper_bound; lia.
Qed.

Lemma bits_unbits l : bits (length l) (unbits l) = l.
Proof.
  induction l as [|b l IH] using rev_ind; [done|].
  rw length_app /= Nat.add_1_r unbits_snoc. simpl. f_equal.
  - rw (_ : (2 * unbits l + Z.b2z b) / 2 = unbits l) //. destruct b; simpl; Z.to_euclidean_division_equations; lia.
  - f_equal. rw Z.odd_add Z.odd_mul /=. by destruct b.
Qed.

(** A sequence cut into groups of [b], with less than a group left. *)
Definition grouped (b : nat) (l : list bool) (gs : list (list bool)) (rest : list bool) : Prop :=
  l = concat gs ++ rest ∧ Forall (λ g, length g = b) gs ∧ (length rest < b)%nat.

Lemma grouped_unique b l gs rest gs' rest' :
  grouped b l gs rest → grouped b l gs' rest' → gs = gs' ∧ rest = rest'.
Proof.
  revert l gs'. induction gs as [|g gs IH]; intros l [|g' gs'] (-> & Hg & Hr) (Hl & Hg' & Hr');
    simpl in Hl.
  - done.
  - apply Forall_cons in Hg' as [Hg' _]. apply (f_equal length) in Hl.
    rw !length_app in Hl. lia.
  - apply Forall_cons in Hg as [Hg _]. apply (f_equal length) in Hl.
    rw /= !length_app in Hl. lia.
  - apply Forall_cons in Hg as [Hg Hgs], Hg' as [Hg' Hgs'].
    rw -!assoc in Hl. apply app_inj_1 in Hl as [-> Hl]; [|congruence].
    destruct (IH (concat gs ++ rest) gs') as [-> ->]; [done|by rw Hl|done].
Qed.

Lemma grouped_app b l m gs rest gs' rest' :
  grouped b l gs rest → grouped b (rest ++ m) gs' rest' → grouped b (l ++ m) (gs ++ gs') rest'.
Proof.
  intros (-> & Hg & Hr) (Hl & Hg' & Hr'). split_and!; [|by apply Forall_app|done].
  by rw concat_app -!assoc -Hl assoc.
Qed.

(** [P] are the [n] bits that are left in the accumulator. *)
Definition pending (val n : Z) (P : list bool) : Prop :=
  n = Z.of_nat (length P) ∧ val mod 2 ^ n = unbits P.

Lemma pending_push val val' n P a c :
  pending val n P → 0 <= c < 2 ^ Z.of_nat a → n + Z.of_nat a <= 32 →
  val' mod 2 ^ 32 = (val * 2 ^ Z.of_nat a + c) mod 2 ^ 32 →
  pending val' (n + Z.of_nat a) (P ++ bits a c).
Proof.
  intros [-> Hv] Hc Hn Hval. split; [rw length_app length_bits; lia|].
  set (n := Z.of_nat (length P)) in *. set (a' := Z.of_nat a) in *.
  assert (0 < 2 ^ n ∧ 0 < 2 ^ a') as [? ?] by (split; apply Z.pow_pos_nonneg; lia).
  rw unbits_app length_bits unbits_bits // -Hv. fold a'.
  assert (val' mod 2 ^ (n + a') = (val * 2 ^ a' + c) mod 2 ^ (n + a')) as ->.
  { assert (2 ^ (n + a') | 2 ^ 32) as Hd.
    { exists (2 ^ (32 - (n + a'))). rw -Z.pow_add_r; [f_equal|..]; lia. }
    rw -(Z.mod_mod_divide _ _ _ Hd) Hval. by rw Z.mod_mod_divide. }
  rw Z.pow_add_r; [|lia..]. rw (Z.mul_comm (2 ^ n)) Z.rem_mul_r; [|lia..].
  rw (Z.add_comm (val * 2 ^ a')) Z.mod_add; [|lia]. rw Z.div_add; [|lia].
  rw (Z.mod_small c) // (Z.div_small c) // Z.add_0_l. lia.
Qed.

Lemma pending_pull val n P b :
  pending val n P → (b <= length P)%nat →
  Z.land (Z.shiftr val (n - Z.of_nat b)) (Z.ones (Z.of_nat b)) = unbits (take b P) ∧
  pending val (n - Z.of_nat b) (drop b P).
Proof.
  intros [-> Hv] Hb. set (m := Z.of_nat (length P) - Z.of_nat b).
  assert (m = Z.of_nat (length (drop b P))) as Hm by (rw length_drop; lia).
  assert (0 < 2 ^ m ∧ 0 < 2 ^ Z.of_nat b) as [? ?] by (split; apply Z.pow_pos_nonneg; lia).
  rw -{2}(take_drop b P) unbits_app -Hm in Hv.
  rw (_ : Z.of_nat (length P) = m + Z.of_nat b) in Hv; [|lia].
  rw Z.pow_add_r in Hv; [|lia..]. rw Z.rem_mul_r in Hv; [|lia..].
  pose proof (unbits_range (drop b P)) as Hr. rw -Hm in Hr.
  pose proof (Z.mod_pos_bound val (2 ^ m)) as Hv1.
  rw Z.land_ones; [|lia]. rw Z.shiftr_div_pow2; [|lia].
  destruct (Z.div_mod_unique (2 ^ m) ((val / 2 ^ m) mod 2 ^ Z.of_nat b) (unbits (take b P))
    (val mod 2 ^ m) (unbits (drop b P))) as [-> ?]; [lia|lia|lia|]. done.
Qed.

(** The inner loop takes out all full groups. *)
Lemma drain_spec fuel b val n P :
  (0 < b)%nat → pending val n P → (length P < (fuel + 1) * b)%nat →
  ∃ gs rest, grouped b P gs rest ∧
    drain fuel (Z.of_nat b) val n = (unbits <$> gs, Z.of_nat (length rest)) ∧
    pending val (Z.of_nat (length rest)) rest.
Proof.
  intros Hb. revert n P. induction fuel as [|fuel IH]; intros n P HP Hlen.
  { exists [], P. destruct HP as [-> Hv]. split_and!; [|done|done].
    split_and!; [done|done|lia]. }
  cbn [drain]. destruct (Z.leb_spec (Z.of_nat b) n) as [Hle|Hlt].
  - destruct (pending_pull val n P b HP) as [-> HP']; [destruct HP; lia|].
    destruct (IH _ _ HP') as (gs & rest & (Hg & Hgs & Hr) & -> & Hp); [rw length_drop; lia|].
    exists (take b P :: gs), rest. split_and!; [|done|done]. split_and!; [|apply Forall_cons; split|done].
    + simpl. by rw -assoc -Hg take_drop.
    + rw length_take. destruct HP. lia.
    + done.
  - exists [], P. destruct HP as [-> Hv]. split_and!; [|done|done].
    split_and!; [done|done|lia].
Qed.

(** Pushing a value of width [a] and draining groups of width [b]: the output
    so far, the accumulator and the number of its bits. *)
Definition regroup_step (a b fuel : nat) (push : Z → Z → Z) (st : list Z * Z * Z) (c : Z) :
    list Z * Z * Z :=
  let '(out, val, n) := st in
  let val := push val c in
  let '(new, n) := drain fuel (Z.of_nat b) val (n + Z.of_nat a) in
  (out ++ new, val, n).

Lemma regroup_spec (a b fuel : nat) (push : Z → Z → Z) :
  (0 < b)%nat → (b - 1 + a <= 32)%nat → (b - 1 + a < (fuel + 1) * b)%nat →
  (∀ val c, 0 <= c < 2 ^ Z.of_nat a →
     push val c mod 2 ^ 32 = (val * 2 ^ Z.of_nat a + c) mod 2 ^ 32) →
  ∀ cs, Forall (λ c, 0 <= c < 2 ^ Z.of_nat a) cs →
  ∀ val n P out, pending val n P → (length P < b)%nat →
  ∃ gs rest val',
    grouped b (P ++ concat (bits a <$> cs)) gs rest ∧
    foldl (regroup_step a b fuel push) (out, val, n) cs =
      (out ++ (unbits <$> gs), val', Z.of_nat (length rest)) ∧
    pending val' (Z.of_nat (length rest)) rest.
Proof.
  intros Hb H32 Hfuel Hpush cs Hcs. induction Hcs as [|c cs Hc _ IH]; intros val n P out HP Hlen.
  { exists [], P, val. destruct HP as [-> Hv]. rw !app_nil_r. split_and!; [|done|done].
    by split_and!. }
  destruct (drain_spec fuel b (push val c) (n + Z.of_nat a) (P ++ bits a c))
    as (gs & rest & Hg & Hdrain & Hp).
  { done. }
  { eapply pending_push; [done|done|destruct HP; lia|by apply Hpush]. }
  { rw length_app length_bits. lia. }
  cbn [foldl]. rw {2}/regroup_step Hdrain.
  destruct (IH _ _ rest (out ++ (unbits <$> gs)) Hp) as (gs' & rest' & val' & Hg' & -> & Hp').
  { apply Hg. }
  exists (gs ++ gs'), rest', val'. split_and!; [|by rw fmap_app assoc|done].
  rw fmap_cons. simpl. rw assoc. by eapply grouped_app.
Qed.

Lemma bits_concat_grouped w cs : (0 < w)%nat → grouped w (concat (bits w <$> cs)) (bits w <$> cs) [].
Proof.
  intros Hw. split_and!; [by rw app_nil_r| |done].
  apply Forall_fmap, Forall_forall. intros c _. apply length_bits.
Qed.

Lemma unbits_bits_list w cs :
  Forall (λ c, 0 <= c < 2 ^ Z.of_nat w) cs → unbits <$> (bits w <$> cs) = cs.
Proof. induction 1 as [|c cs Hc _ IH]; [done|]. rw !fmap_cons IH unbits_bits //. Qed.

Lemma bits_unbits_list w gs :
  Forall (λ g, length g = w) gs → bits w <$> (unbits <$> gs) = gs.
Proof. induction 1 as [|g gs <- _ IH]; [done|]. rw !fmap_cons IH bits_unbits //. Qed.

(** What an encoder adds for an incomplete last group: zero bits. *)
Definition last_group (w : nat) (rest : list bool) : list (list bool) :=
  match rest with [] => [] | _ => [rest ++ replicate (w - length rest) false] end.

(** Groups of [k] bits of some bytes, decoded in groups of eight. *)
Lemma decode_groups k bs gs rest gs' rest' :
  (0 < k <= 8)%nat → grouped k (concat (bits 8 <$> bs)) gs rest →
  grouped 8 (concat (gs ++ last_group k rest)) gs' rest' → gs' = bits 8 <$> bs.
Proof.
  intros Hk (Hb & Hgs & Hr) Hg'.
  assert (∃ pad, concat (gs ++ last_group k rest) = concat (bits 8 <$> bs) ++ pad ∧
            (length pad < 8)%nat) as (pad & Hpad & Hlen).
  { rw Hb concat_app. destruct rest as [|x rest]; cbn [last_group concat].
    - exists []. rw !app_nil_r. split; [done|simpl; lia].
    - exists (replicate (k - length (x :: rest)) false). rw app_nil_r assoc. split; [done|].
      rw length_replicate. simpl in *. lia. }
  rw Hpad in Hg'.
  destruct (grouped_unique _ _ _ _ (bits 8 <$> bs) pad Hg') as [-> _]; [|done].
  split_and!; [done| |done]. apply Forall_fmap, Forall_forall. intros c _. apply length_bits.
Qed.

Lemma bits_zero w : bits w 0 = replicate w false.
Proof. induction w as [|w IH]; [done|]. simpl. by rw IH -replicate_cons_app. Qed.

(** The incomplete last group, shifted to the top of its bits. *)
Lemma pending_last val val' w rest :
  pending val (Z.of_nat (length rest)) rest → (length rest <= w <= 32)%nat →
  val' mod 2 ^ 32 = (val * 2 ^ Z.of_nat (w - length rest)) mod 2 ^ 32 →
  Z.land val' (Z.ones (Z.of_nat w)) = unbits (rest ++ replicate (w - length rest) false).
Proof.
  intros HP Hw Hval.
  destruct (pending_push val val' _ rest (w - length rest) 0 HP) as [Hn Hv].
  - split; [done|]. apply Z.pow_pos_nonneg; lia.
  - lia.
  - by rw Hval Z.add_0_r.
  - rw bits_zero in Hn Hv. rw Z.land_ones; [|lia]. rw -Hv. f_equal. f_equal. lia.
Qed.

Lemma unbits_in w g : length g = w → 0 <= unbits g < 2 ^ Z.of_nat w.
Proof. intros <-. apply unbits_range. Qed.

Lemma last_group_length w rest g :
  (length rest < w)%nat → g ∈ last_group w rest → length g = w.
Proof.
  intros Hr. unfold last_group. destruct rest as [|b rest]; [by intros ?%not_elem_of_nil|].
  intros ->%list_elem_of_singleton. rw length_app length_replicate. lia.
Qed.

Lemma grouped_all_length w l gs rest :
  grouped w l gs rest → Forall (λ g, length g = w) (gs ++ last_group w rest).
Proof.
  intros (_ & Hg & Hr). apply Forall_app. split; [done|]. apply Forall_forall.
  intros g. by apply last_group_length.
Qed.

End Codec.
