(* ===== verification/Jwt.v ===== *)
(** * Jwt: Base64url and signed tokens

    Models [src/src/auth/jwt_utils.cpp]: the Base64url codec on its 32-bit
    accumulator, and [sign] and [verify] of HS256 tokens.  HMAC-SHA256 and the
    JSON text are parameters; the clock is an argument. *)
From Corelib Require Import PrimFloat.
From S2P Require Import Prelude.
From S2P Require Import Json.
From S2P Require Import Codec.
Import Json Codec.
Local Open Scope Z_scope.

Module Jwt.

(** ** Base64url *)

Definition table : string := "ABCDEFGHIJKLMNOPQRSTUVWXYZabcdefghijklmnopqrstuvwxyz0123456789+/".

Definition table_char (i : Z) : ascii := default "000"%char (String.get (Z.to_nat i) table).

Definition u32 (z : Z) : Z := z mod 2 ^ 32.

(** [while (bits >= 0)]. *)
Fixpoint push_groups (fuel : nat) (val bits : Z) : list ascii * Z :=
  match fuel with
  | O => ([], bits)
  | S fuel =>
      if 0 <=? bits then
        let '(out, bits') := push_groups fuel val (bits - 6) in
        (table_char (Z.land (Z.shiftr val bits) 0x3F) :: out, bits')
      else ([], bits)
  end.

(** One byte of the input; a byte completes at most two groups. *)
Definition encode_byte (st : list ascii * Z * Z) (c : Z) : list ascii * Z * Z :=
  let '(out, val, bits) := st in
  let val := u32 (Z.shiftl val 8 + c) in
  let '(new, bits) := push_groups 2 val (bits + 8) in
  (out ++ new, val, bits).

Definition url_char (c : ascii) : ascii :=
  if decide (c = "+"%char) then "-"%char else if decide (c = "/"%char) then "_"%char else c.

(** [while (!out.empty() && out.back() == '=') out.pop_back()]. *)
Fixpoint strip_padding (l : list ascii) : list ascii :=
  match l with
  | [] => []
  | c :: l =>
      match strip_padding l with
      | [] => if decide (c = "="%char) then [] else [c]
      | l' => c :: l'
      end
  end.

Definition base64UrlEncode (input : string) : string :=
  let '(out, val, bits) := foldl encode_byte ([], 0, -6) (bytes_of input) in
  let out := if -6 <? bits then out ++ [table_char (Z.land (u32 (Z.shiftl val (- bits))) 0x3F)]
             else out in
  String.string_of_list_ascii (strip_padding (url_char <$> out)).

Definition unurl_char (c : ascii) : ascii :=
  if decide (c = "-"%char) then "+"%char else if decide (c = "_"%char) then "/"%char else c.

(** The array [lookup]. *)
Definition lookup_table : list Z :=
  [-1;-1;-1;-1;-1;-1;-1;-1;-1;-1;-1;-1;-1;-1;-1;-1;
   -1;-1;-1;-1;-1;-1;-1;-1;-1;-1;-1;-1;-1;-1;-1;-1;
   -1;-1;-1;-1;-1;-1;-1;-1;-1;-1;-1;62;-1;-1;-1;63;
   52;53;54;55;56;57;58;59;60;61;-1;-1;-1;-1;-1;-1;
   -1; 0; 1; 2; 3; 4; 5; 6; 7; 8; 9;10;11;12;13;14;
   15;16;17;18;19;20;21;22;23;24;25;-1;-1;-1;-1;-1;
   -1;26;27;28;29;30;31;32;33;34;35;36;37;38;39;40;
   41;42;43;44;45;46;47;48;49;50;51;-1;-1;-1;-1;-1].

Definition lookup_char (c : ascii) : option Z :=
  v ← lookup_table !! Z.to_nat (byte_of c);
  if v <? 0 then None else Some v.

(** The loop over the characters; [None] is the return of the empty string on
    a character outside the alphabet. *)
Fixpoint decode_chars (l : list ascii) (out : list Z) (val bits : Z) : option (list Z) :=
  match l with
  | [] => Some out
  | c :: l =>
      if decide (c = "="%char) then Some out
      else match lookup_char c with
           | None => None
           | Some v =>
               let val := u32 (Z.shiftl val 6 + v) in
               let bits := bits + 6 in
               if 0 <=? bits
               then decode_chars l (out ++ [Z.land (Z.shiftr val bits) 0xFF]) val (bits - 8)
               else decode_chars l out val bits
           end
  end.

Definition pad_four (l : list ascii) : list ascii :=
  l ++ replicate ((4 - length l mod 4) mod 4) "="%char.

Definition base64UrlDecode (input : string) : string :=
  match decode_chars (pad_four (unurl_char <$> String.list_ascii_of_string input)) [] 0 (-8) with
  | None => ""
  | Some out => string_of_bytes out
  end.

(** ** Tokens *)

Record JwtPayload := {
  jp_user_id : string;
  jp_tenant_id : string;
  jp_role : string;
}.

Definition jwt_header : json := json_of_list [("alg", JString "HS256"); ("typ", JString "JWT")].

Definition jwt_claims (payload : JwtPayload) (iat expire_seconds : Z) : json :=
  json_of_list
    [("sub", JString (jp_user_id payload)); ("tid", JString (jp_tenant_id payload));
     ("role", JString (jp_role payload)); ("iat", JInteger iat);
     ("exp", JInteger (iat + expire_seconds))].

(** [claims["exp"].get<int64_t>()]; [None] is an exception, [trunc] the
    conversion of a float to an integer. *)
Definition get_int64 (trunc : float → Z) (j : json) : option Z :=
  match j with
  | JInteger z => Some ((z + 2 ^ 63) mod 2 ^ 64 - 2 ^ 63)
  | JFloat f => Some (trunc f)
  | _ => None
  end.

(** [claims.contains("exp") && claims["exp"].get<int64_t>() < now]. *)
Definition expired (trunc : float → Z) (claims : json) (now : Z) : option bool :=
  match claims with
  | JObject m =>
      match map_find "exp" m with
      | Some e => exp ← get_int64 trunc e; Some (exp <? now)
      | None => Some false
      end
  | _ => Some false
  end.

Section Tokens.
Context (hmacSha256 : string → string → string).
Context (dump : json → option string) (parse : string → option json).
Context (trunc : float → Z).

(** [None] is the exception of a [dump] of text that is not UTF-8. *)
Definition sign (payload : JwtPayload) (secret : string) (expire_seconds now : Z) :
    option string :=
  header ← dump jwt_header;
  let header_enc := base64UrlEncode header in
  claims ← dump (jwt_claims payload now expire_seconds);
  let payload_enc := base64UrlEncode claims in
  let signing_input := header_enc +:+ "." +:+ payload_enc in
  let sig := hmacSha256 signing_input secret in
  Some (signing_input +:+ "." +:+ base64UrlEncode sig).

(** The [try] block; an exception gives [None] too. *)
Definition claims_payload (payload_str : string) (now : Z) : option JwtPayload :=
  claims ← parse payload_str;
  late ← expired trunc claims now;
  if (late : bool) then None
  else
    user_id ← value_string "sub" claims;
    tenant_id ← value_string "tid" claims;
    role ← value_string "role" claims;
    Some {| jp_user_id := user_id; jp_tenant_id := tenant_id; jp_role := role |}.

Definition verify (token secret : string) (now : Z) : option JwtPayload :=
  if str_empty token then None
  else
    dot1 ← str_find "."%char 0 token;
    dot2 ← str_find "."%char (dot1 + 1) token;
    match str_find "."%char (dot2 + 1) token with
    | Some _ => None
    | None =>
        let signing_input := String.substring 0 dot2 token in
        let sig_encoded := substr_from (dot2 + 1) token in
        let sig_decoded := base64UrlDecode sig_encoded in
        let expected_sig := hmacSha256 signing_input secret in
        if decide (expected_sig = sig_decoded)
        then claims_payload
               (base64UrlDecode (String.substring (dot1 + 1) (dot2 - dot1 - 1) token)) now
        else None
    end.

End Tokens.

(** ** Lemmas on the codec *)

Definition b64_push (k : Z) (val c : Z) : Z := u32 (Z.shiftl val k + c).

Lemma b64_push_mod (k : nat) val c :
  b64_push (Z.of_nat k) val c mod 2 ^ 32 = (val * 2 ^ Z.of_nat k + c) mod 2 ^ 32.
Proof. unfold b64_push, u32. rw Z.shiftl_mul_pow2; [|lia]. by rw Z.mod_mod. Qed.

Lemma push_groups_drain fuel val n :
  push_groups fuel val (n - 6) =
  (table_char <$> (drain fuel 6 val n).1, (drain fuel 6 val n).2 - 6).
Proof.
  revert n. induction fuel as [|fuel IH]; intros n; [done|]. cbn [push_groups drain].
  destruct (Z.leb_spec 6 n); [rw Zle_imp_le_bool; [|lia]|rw (proj2 (Z.leb_gt 0 (n - 6))) //; lia].
  rw IH. by destruct (drain fuel 6 val (n - 6)).
Qed.

Lemma encode_bytes_regroup cs out val n :
  foldl encode_byte (table_char <$> out, val, n - 6) cs =
  let '(out', val', n') := foldl (regroup_step 8 6 2 (b64_push 8)) (out, val, n) cs in
  (table_char <$> out', val', n' - 6).
Proof.
  revert out val n. induction cs as [|c cs IH]; intros out val n; [done|]. cbn [foldl].
  rw {2}/encode_byte {2}/regroup_step -/(b64_push 8 val c) (_ : n - 6 + 8 = n + 8 - 6); [|lia].
  rw push_groups_drain. change (Z.of_nat 6) with 6. change (Z.of_nat 8) with 8.
  destruct (drain 2 6 _ _) as [new n']. rw -fmap_app. apply IH.
Qed.

Lemma table_url v :
  0 <= v < 64 →
  url_char (table_char v) ≠ "="%char ∧ url_char (table_char v) ≠ "."%char ∧
  unurl_char (url_char (table_char v)) ≠ "="%char ∧
  lookup_char (unurl_char (url_char (table_char v))) = Some v.
Proof.
  revert v. apply (below_all _ 64). apply (bool_decide_unpack _). by vm_compute.
Qed.

Lemma strip_padding_none l : Forall (λ c, c ≠ "="%char) l → strip_padding l = l.
Proof.
  induction 1 as [|c l Hc _ IH]; [done|]. simpl. rw IH decide_False //. by destruct l.
Qed.

Lemma encode_groups s :
  ∃ gs rest, grouped 6 (concat (bits 8 <$> bytes_of s)) gs rest ∧
    String.list_ascii_of_string (base64UrlEncode s) =
      (λ v, url_char (table_char v)) <$> (unbits <$> (gs ++ last_group 6 rest)).
Proof.
  destruct (regroup_spec 8 6 2 (b64_push 8)) with (cs := bytes_of s) (val := 0) (n := 0)
    (P := @nil bool) (out := @nil Z) as (gs & rest & val & Hg & Hfold & HP);
    [lia..|intros; apply (b64_push_mod 8)|apply bytes_of_range|done|simpl; lia|].
  exists gs, rest. split; [done|].
  unfold base64UrlEncode. pose proof (encode_bytes_regroup (bytes_of s) [] 0 0) as Henc.
  rw Hfold in Henc. change (0 - 6) with (-6) in Henc. change (table_char <$> []) with (@nil ascii) in Henc.
  rw Henc app_nil_l. clear Henc Hfold.
  assert ((if -6 <? Z.of_nat (length rest) - 6
           then (table_char <$> (unbits <$> gs)) ++
                [table_char (Z.land (u32 (Z.shiftl val (- (Z.of_nat (length rest) - 6)))) 0x3F)]
           else table_char <$> (unbits <$> gs)) =
          table_char <$> (unbits <$> (gs ++ last_group 6 rest))) as ->.
  { destruct Hg as (_ & _ & Hr). rw !fmap_app. destruct rest as [|b rest].
    { by rw app_nil_r. }
    rw (proj2 (Z.ltb_lt _ _)); [|simpl; lia]. f_equal. unfold last_group. rw !fmap_cons.
    do 2 f_equal. change 0x3F with (Z.ones (Z.of_nat 6)).
    eapply pending_last; [done|lia|]. unfold u32. rw Z.mod_mod; [|lia].
    rw Z.shiftl_mul_pow2; [|simpl in *; lia]. do 3 f_equal. lia. }
  rw -list_fmap_compose strip_padding_none.
  - rw String.list_ascii_of_string_of_list_ascii. done.
  - apply Forall_fmap, Forall_fmap. eapply Forall_impl; [by eapply grouped_all_length|].
    intros g Hlen. apply table_url. by apply (unbits_in 6).
Qed.

Lemma decode_chars_regroup cs k out val n :
  Forall (λ v, 0 <= v < 64) cs →
  decode_chars (((λ v, unurl_char (url_char (table_char v))) <$> cs) ++ replicate k "="%char)
    out val (n - 8) =
  Some (foldl (regroup_step 6 8 1 (b64_push 6)) (out, val, n) cs).1.1.
Proof.
  intros Hcs. revert out val n. induction Hcs as [|c cs Hc _ IH]; intros out val n.
  { by destruct k. }
  destruct (table_url c Hc) as (_ & _ & Hne & Hlook).
  rw fmap_cons. cbn [app decode_chars foldl]. rw decide_False // Hlook -/(b64_push 6 val c).
  rw {2}/regroup_step. change (Z.of_nat 6) with 6. change (Z.of_nat 8) with 8.
  rw (_ : n - 8 + 6 = n + 6 - 8); [|lia]. cbn [drain].
  destruct (Z.leb_spec 8 (n + 6)).
  - rw Zle_imp_le_bool; [|lia]. by rw IH.
  - rw (proj2 (Z.leb_gt 0 (n + 6 - 8))); [|lia]. rw IH app_nil_r //.
Qed.

(** Decoding what was encoded gives back the bytes, whatever they are: the
    accumulators of both loops wrap around at 32 bits on a long input. *)
Lemma base64_round_trip s : base64UrlDecode (base64UrlEncode s) = s.
Proof.
  destruct (encode_groups s) as (gs & rest & Hg & Henc).
  pose proof (grouped_all_length _ _ _ _ Hg) as Hlen.
  assert (Forall (λ v, 0 <= v < 64) (unbits <$> (gs ++ last_group 6 rest))) as Hr.
  { apply Forall_fmap. eapply Forall_impl; [done|]. intros g. apply (unbits_in 6). }
  unfold base64UrlDecode, pad_four. rw Henc -list_fmap_compose.
  rw (decode_chars_regroup _ _ [] 0 0) //.
  destruct (regroup_spec 6 8 1 (b64_push 6)) with (cs := unbits <$> (gs ++ last_group 6 rest))
    (val := 0) (n := 0) (P := @nil bool) (out := @nil Z) as (gs' & rest' & val & Hg' & -> & _);
    [lia..|intros; apply (b64_push_mod 6)|done|done|simpl; lia|].
  rw app_nil_l bits_unbits_list // in Hg'.
  rw (decode_groups 6 (bytes_of s) gs rest gs' rest') //; [|lia]. cbn [fst].
  rw app_nil_l unbits_bits_list; [apply string_of_bytes_of|apply bytes_of_range].
Qed.

Lemma base64_no_dot s : ¬ has_char "."%char (base64UrlEncode s).
Proof.
  destruct (encode_groups s) as (gs & rest & Hg & Henc). unfold has_char. rw Henc.
  intros (v & Hv & (g & -> & Hin)%list_elem_of_fmap)%list_elem_of_fmap.
  pose proof (grouped_all_length _ _ _ _ Hg) as Hlen. rw Forall_forall in Hlen.
  symmetry in Hv. revert Hv. apply table_url, (unbits_in 6). by apply Hlen.
Qed.

(** ** Tokens *)

(** The text [h.p.s] is cut at its two dots. *)
Lemma token_cut (h p s : string) :
  ¬ has_char "."%char h → ¬ has_char "."%char p → ¬ has_char "."%char s →
  let token := (h +:+ "." +:+ p) +:+ "." +:+ s in
  let dot1 := String.length h in
  let dot2 := (String.length h + 1 + String.length p)%nat in
  str_find "."%char 0 token = Some dot1 ∧
  str_find "."%char (dot1 + 1) token = Some dot2 ∧
  str_find "."%char (dot2 + 1) token = None ∧
  String.substring 0 dot2 token = h +:+ "." +:+ p ∧
  substr_from (dot2 + 1) token = s ∧
  String.substring (dot1 + 1) (dot2 - dot1 - 1) token = p.
Proof.
  intros Hh Hp Hs token dot1 dot2.
  assert (String.length (h +:+ ".") = dot1 + 1)%nat as H1 by by rw string_length_app.
  assert (String.length (h +:+ "." +:+ p) = dot2)%nat as H2
    by (rw !string_length_app; simpl; unfold dot2; lia).
  assert (String.length ((h +:+ "." +:+ p) +:+ ".") = dot2 + 1)%nat as H3
    by (rw string_length_app H2; simpl; lia).
  assert (token = h +:+ String "." (p +:+ String "." s)) as E1
    by (unfold token; by rw !string_app_assoc).
  assert (token = (h +:+ ".") +:+ (p +:+ String "." s)) as E2
    by (unfold token; by rw !string_app_assoc).
  assert (token = ((h +:+ "." +:+ p) +:+ ".") +:+ s) as E3
    by (unfold token; by rw !string_app_assoc).
  split_and!.
  - rw E1. by apply str_find_first.
  - rw -H1 E2 str_find_skip str_find_first // H1 /=. by f_equal.
  - by rw -H3 E3 str_find_skip str_find_none.
  - rw -H2 /token. apply substring_app_l.
  - rw -H3 E3. apply substr_from_app.
  - rw E2 -H1 substring_skip (_ : dot2 - dot1 - 1 = String.length p)%nat; [|unfold dot2, dot1; lia].
    apply substring_app_l.
Qed.

Lemma verify_cut hmac parse trunc (h p s secret : string) now :
  ¬ has_char "."%char h → ¬ has_char "."%char p → ¬ has_char "."%char s →
  verify hmac parse trunc ((h +:+ "." +:+ p) +:+ "." +:+ s) secret now =
  if decide (hmac (h +:+ "." +:+ p) secret = base64UrlDecode s)
  then claims_payload parse trunc (base64UrlDecode p) now else None.
Proof.
  intros Hh Hp Hs. destruct (token_cut h p s) as (E1 & E2 & E3 & E4 & E5 & E6); [done..|].
  unfold verify. rw (proj2 (str_empty_false _)).
  - by rw E1 /= E2 /= E3 E4 E5 E6.
  - intros Hnil. rw Hnil in E1. done.
Qed.

Lemma jwt_claims_object payload iat expire :
  jwt_claims payload iat expire =
  JObject [("exp", JInteger (iat + expire)); ("iat", JInteger iat);
           ("role", JString (jp_role payload)); ("sub", JString (jp_user_id payload));
           ("tid", JString (jp_tenant_id payload))].
Proof. done. Qed.

Lemma jwt_claims_wf payload iat expire :
  - 2 ^ 63 <= iat < 2 ^ 63 → - 2 ^ 63 <= iat + expire < 2 ^ 63 →
  json_wf (jwt_claims payload iat expire).
Proof.
  intros Hi He. rw jwt_claims_object. split.
  - unfold keys_sorted. simpl. repeat constructor.
  - simpl. split_and!; (done || lia).
Qed.

Lemma get_int64_id trunc z : - 2 ^ 63 <= z < 2 ^ 63 → get_int64 trunc (JInteger z) = Some z.
Proof. intros Hz. simpl. f_equal. rw Z.mod_small; lia. Qed.

(** What the claims of a signed token are read as. *)
Lemma claims_payload_signed dump parse trunc payload iat expire text now :
  JsonText dump parse → - 2 ^ 63 <= iat < 2 ^ 63 → - 2 ^ 63 <= iat + expire < 2 ^ 63 →
  dump (jwt_claims payload iat expire) = Some text →
  claims_payload parse trunc text now = if iat + expire <? now then None else Some payload.
Proof.
  intros HT Hi He Hd. unfold claims_payload.
  rw (parse_dump _ _ HT _ _ (jwt_claims_wf _ _ _ Hi He) Hd) jwt_claims_object. cbn [mbind option_bind].
  rw (_ : expired trunc _ now = exp ← get_int64 trunc (JInteger (iat + expire)); Some (exp <? now)) //.
  rw get_int64_id //. cbn. by destruct (_ <? _); [|destruct payload].
Qed.

Lemma claims_payload_some parse trunc text now p :
  claims_payload parse trunc text now = Some p →
  ∃ m, parse text = Some (JObject m) ∧
    value_string "sub" (JObject m) = Some (jp_user_id p) ∧
    value_string "tid" (JObject m) = Some (jp_tenant_id p) ∧
    value_string "role" (JObject m) = Some (jp_role p) ∧
    (∀ e, map_find "exp" m = Some e → ∃ exp, get_int64 trunc e = Some exp ∧ now <= exp).
Proof.
  unfold claims_payload. destruct (parse text) as [claims|]; [|done]. cbn [mbind option_bind].
  destruct (expired trunc claims now) as [[]|] eqn:Hexp; [done| |done]. cbn [mbind option_bind].
  destruct (value_string "sub" claims) as [u|] eqn:Hu; [|done].
  destruct (value_string "tid" claims) as [t|] eqn:Ht; [|done].
  destruct (value_string "role" claims) as [r|] eqn:Hr; [|done]. intros [= <-].
  destruct claims as [| | | | | |m]; try done. exists m. split_and!; try done.
  intros e He. simpl in Hexp. rw He in Hexp. destruct (get_int64 trunc e) as [exp|]; [|done].
  exists exp. simpl in Hexp. injection Hexp as Hexp%Z.ltb_ge. done.
Qed.

Lemma verify_parts hmac parse trunc token secret now p :
  verify hmac parse trunc token secret now = Some p →
  ∃ h c sig, token = (h +:+ "." +:+ c) +:+ "." +:+ sig ∧
    ¬ has_char "."%char h ∧ ¬ has_char "."%char c ∧ ¬ has_char "."%char sig.
Proof.
  unfold verify. destruct (str_empty token); [done|].
  destruct (str_find _ 0 token) as [dot1|] eqn:E1; [|done]. cbn [mbind option_bind].
  destruct (str_find _ (dot1 + 1) token) as [dot2|] eqn:E2; [|done]. cbn [mbind option_bind].
  destruct (str_find _ (dot2 + 1) token) eqn:E3; [done|]. intros _.
  apply str_find_some in E1 as (h & rest & -> & <- & _ & Hh).
  assert (h +:+ String "." rest = (h +:+ ".") +:+ rest) as Et by by rw string_app_assoc.
  assert (String.length h + 1 = String.length (h +:+ "."))%nat as El by by rw string_length_app.
  rw El Et str_find_skip in E2. apply fmap_Some in E2 as (n & E2 & ->).
  apply str_find_some in E2 as (c & sig & -> & <- & _ & Hc).
  assert (h +:+ String "." (c +:+ String "." sig) = ((h +:+ "." +:+ c) +:+ ".") +:+ sig) as Et'
    by by rw !string_app_assoc.
  rw Et' in E3 *.
  assert (String.length (h +:+ ".") + String.length c + 1 =
          String.length ((h +:+ "." +:+ c) +:+ "."))%nat as El'
    by (rw !string_length_app; simpl; lia).
  rw El' str_find_skip in E3.
  exists h, c, sig. split_and!; [by rw !string_app_assoc|by apply Hh|by apply Hc|].
  apply str_find_none_inv. by destruct (str_find _ 0 sig).
Qed.

(** A toy instance of the library: the code is the key followed by the text. *)
Definition toy_hmac (data key : string) : string := key +:+ data.
Definition toy_payload : JwtPayload :=
  {| jp_user_id := "u1"; jp_tenant_id := "t1"; jp_role := "viewer" |}.
Definition toy_texts : list (json * string) :=
  [(jwt_header, "h"); (jwt_claims toy_payload 1000 60, "c")].
Definition toy_trunc (f : float) : Z := 0.

Lemma toy_texts_ok : JsonText (table_dump toy_texts) (table_parse toy_texts).
Proof.
  apply table_text; [apply (bool_decide_unpack _); by vm_compute|].
  repeat constructor; try done; by apply jwt_claims_wf.
Qed.

(** ** Properties *)

(** A token that [sign] issues is read back by [verify] as the payload it was
    issued for until it expires and not after, with its own secret; with
    another secret only if the two give the same code for the text. *)
Theorem jwt_sign_verify hmac dump parse trunc payload secret expire iat token :
  JsonText dump parse → - 2 ^ 63 <= iat < 2 ^ 63 → - 2 ^ 63 <= iat + expire < 2 ^ 63 →
  sign hmac dump payload secret expire iat = Some token →
  ∃ signing_input, token = signing_input +:+ "." +:+ base64UrlEncode (hmac signing_input secret) ∧
    ∀ secret' now,
      verify hmac parse trunc token secret' now =
      if decide (hmac signing_input secret' = hmac signing_input secret)
      then if iat + expire <? now then None else Some payload
      else None.
Proof.
  intros HT Hi He Hs. unfold sign in Hs.
  destruct (dump jwt_header) as [h|]; [|done]. cbn [mbind option_bind] in Hs.
  destruct (dump (jwt_claims payload iat expire)) as [c|] eqn:Hc; [|done].
  injection Hs as <-. eexists. split; [done|]. intros secret' now.
  rw verify_cut; [|apply base64_no_dot..]. rw !base64_round_trip.
  case_decide; [|done]. by eapply claims_payload_signed.
Qed.

Lemma jwt_sign_verify_witness :
  ∃ token signing_input,
    sign toy_hmac (table_dump toy_texts) toy_payload "key" 60 1000 = Some token ∧
    token = signing_input +:+ "." +:+ base64UrlEncode (toy_hmac signing_input "key") ∧
    verify toy_hmac (table_parse toy_texts) toy_trunc token "key" 1060 = Some toy_payload ∧
    verify toy_hmac (table_parse toy_texts) toy_trunc token "key" 1061 = None ∧
    verify toy_hmac (table_parse toy_texts) toy_trunc token "other" 1060 = None.
Proof.
  destruct (sign toy_hmac (table_dump toy_texts) toy_payload "key" 60 1000) as [token|] eqn:Hs;
    [|by vm_compute in Hs].
  destruct (jwt_sign_verify toy_hmac (table_dump toy_texts) (table_parse toy_texts) toy_trunc
              toy_payload "key" 60 1000 token toy_texts_ok) as (input & -> & Hv);
    [lia|lia|exact Hs|].
  eexists _, input. split_and!; [done|done|rewrite Hv; by rewrite decide_True..|].
  rewrite Hv. by case_decide.
Defined.

(** C29. A token that [verify] accepts is three parts between two dots, the third
    one the HMAC of exactly the first two under the secret, and the payload
    is read from the second one, an object whose [exp], if it has one, is not
    in the past. *)
Theorem jwt_verify_authentic hmac parse trunc token secret now p :
  verify hmac parse trunc token secret now = Some p →
  ∃ header claims sig m,
    token = (header +:+ "." +:+ claims) +:+ "." +:+ sig ∧
    ¬ has_char "."%char header ∧ ¬ has_char "."%char claims ∧ ¬ has_char "."%char sig ∧
    base64UrlDecode sig = hmac (header +:+ "." +:+ claims) secret ∧
    parse (base64UrlDecode claims) = Some (JObject m) ∧
    value_string "sub" (JObject m) = Some (jp_user_id p) ∧
    value_string "tid" (JObject m) = Some (jp_tenant_id p) ∧
    value_string "role" (JObject m) = Some (jp_role p) ∧
    (∀ e, map_find "exp" m = Some e → ∃ exp, get_int64 trunc e = Some exp ∧ now <= exp).
Proof.
  intros Hv. destruct (verify_parts _ _ _ _ _ _ _ Hv) as (h & c & sig & -> & Hh & Hc & Hs).
  rw verify_cut // in Hv. case_decide as Hsig; [|done].
  apply claims_payload_some in Hv as (m & Hm). by exists h, c, sig, m.
Qed.

Lemma jwt_verify_authentic_witness :
  ∃ sig, verify toy_hmac (table_parse toy_texts) toy_trunc ("aA.Yw." +:+ sig) "key" 1000 =
           Some toy_payload ∧
    base64UrlDecode sig = toy_hmac "aA.Yw" "key".
Proof.
  exists "a2V5YUEuWXc".
  assert (verify toy_hmac (table_parse toy_texts) toy_trunc
            ("aA.Yw." +:+ "a2V5YUEuWXc") "key" 1000 = Some toy_payload) as Hv by by vm_compute.
  split; [exact Hv|].
  destruct (jwt_verify_authentic _ _ _ _ _ _ _ Hv) as (h & c & sig & m & _).
  by vm_compute.
Defined.

End Jwt.
