(* ===== verification/IsoTime.v ===== *)
(** * IsoTime: ISO 8601 timestamps

    The gateway writes times as text ([gmtime_r] and
    [strftime "%Y-%m-%dT%H:%M:%SZ"]), compares the texts as strings and reads
    them back ([std::get_time] and [timegm]).  This file models those calls of
    the C library on UTC seconds, and shows that the calendar is the Gregorian
    one, that text order is time order and that reading inverts writing. *)
From stdpp Require Import pretty.
From S2P Require Import Prelude.
Local Open Scope Z_scope.

Module IsoTime.

(** [struct tm], with the full year and the month from 1. *)
Record tm := {
  tm_year : Z; tm_mon : Z; tm_mday : Z;
  tm_hour : Z; tm_min : Z; tm_sec : Z;
}.

(** The date of a day number, day 0 being 1970-01-01.  The years of the
    computation start in March, so that a leap day ends its year; 400 of them,
    an era, are 146097 days. *)
Definition year_start (yoe : Z) : Z := 365 * yoe + yoe / 4 - yoe / 100.

Definition yoe_of (doe : Z) : Z := (doe - doe / 1460 + doe / 36524 - doe / 146096) / 365.

Definition month_day (doy : Z) : Z * Z :=
  let mp := (5 * doy + 2) / 153 in
  (if mp <? 10 then mp + 3 else mp - 9, doy - (153 * mp + 2) / 5 + 1).

Definition civil_of_doy (y doy : Z) : Z * Z * Z :=
  let '(m, d) := month_day doy in (if m <=? 2 then y + 1 else y, m, d).

Definition civil_of_doe (era doe : Z) : Z * Z * Z :=
  let yoe := yoe_of doe in civil_of_doy (yoe + era * 400) (doe - year_start yoe).

Definition civil (day : Z) : Z * Z * Z :=
  let z := day + 719468 in civil_of_doe (z / 146097) (z mod 146097).

Definition doy_of (m d : Z) : Z := (153 * (if 2 <? m then m - 3 else m + 9) + 2) / 5 + d - 1.

Definition days_of_civil (c : Z * Z * Z) : Z :=
  let '(y, m, d) := c in
  let y := if m <=? 2 then y - 1 else y in
  y / 400 * 146097 + year_start (y mod 400) + doy_of m d - 719468.

(** [gmtime_r]. *)
Definition gmtime (t : Z) : tm :=
  let '(y, m, d) := civil (t / 86400) in
  let s := t mod 86400 in
  {| tm_year := y; tm_mon := m; tm_mday := d;
     tm_hour := s / 3600; tm_min := s / 60 mod 60; tm_sec := s mod 60 |}.

(** [timegm]. *)
Definition timegm (t : tm) : Z :=
  days_of_civil (tm_year t, tm_mon t, tm_mday t) * 86400 +
  tm_hour t * 3600 + tm_min t * 60 + tm_sec t.

(** ** Text *)

Definition digit (n : Z) : ascii := ascii_of_byte (48 + n).

(** [n] in [w] decimal digits. *)
Fixpoint decimal (w : nat) (n : Z) : string :=
  match w with
  | O => ""
  | S w => decimal w (n / 10) +:+ String (digit (n mod 10)) ""
  end.

(** [%Y]. *)
Definition year_text (y : Z) : string := if y <? 10000 then decimal 4 y else pretty y.

(** [strftime] and [std::put_time] with ["%Y-%m-%dT%H:%M:%SZ"]. *)
Definition strftime (t : tm) : string :=
  year_text (tm_year t) +:+ "-" +:+ decimal 2 (tm_mon t) +:+ "-" +:+ decimal 2 (tm_mday t) +:+
  "T" +:+ decimal 2 (tm_hour t) +:+ ":" +:+ decimal 2 (tm_min t) +:+ ":" +:+
  decimal 2 (tm_sec t) +:+ "Z".

Definition iso (t : Z) : string := strftime (gmtime t).

(** [w] digits read as a number, and the rest. *)
Fixpoint read_decimal (w : nat) (acc : Z) (s : string) : option (Z * string) :=
  match w, s with
  | O, _ => Some (acc, s)
  | S w, String c s =>
      let v := byte_of c - 48 in
      if (0 <=? v) && (v <=? 9) then read_decimal w (acc * 10 + v) s else None
  | S _, EmptyString => None
  end.

Definition read_char (c : ascii) (s : string) : option string :=
  match s with
  | String d s => if decide (d = c) then Some s else None
  | EmptyString => None
  end.

Definition read_field (w : nat) (lo hi : Z) (s : string) : option (Z * string) :=
  match read_decimal w 0 s with
  | Some (n, s) => if (lo <=? n) && (n <=? hi) then Some (n, s) else None
  | None => None
  end.

(** [std::get_time] with ["%Y-%m-%dT%H:%M:%S"]; what follows is not read. *)
Definition get_time (s : string) : option tm :=
  '(y, s) ← read_field 4 0 9999 s; s ← read_char "-" s;
  '(m, s) ← read_field 2 1 12 s; s ← read_char "-" s;
  '(d, s) ← read_field 2 1 31 s; s ← read_char "T" s;
  '(h, s) ← read_field 2 0 23 s; s ← read_char ":" s;
  '(mi, s) ← read_field 2 0 59 s; s ← read_char ":" s;
  '(se, s) ← read_field 2 0 60 s;
  Some {| tm_year := y; tm_mon := m; tm_mday := d; tm_hour := h; tm_min := mi; tm_sec := se |}.

(** ** The Gregorian calendar *)

Definition leap (y : Z) : bool :=
  (y mod 4 =? 0) && (negb (y mod 100 =? 0) || (y mod 400 =? 0)).

Definition month_length (leap_year : bool) (m : Z) : Z :=
  if m =? 2 then if leap_year then 29 else 28
  else if (m =? 4) || (m =? 6) || (m =? 9) || (m =? 11) then 30 else 31.

Definition month_days (y m : Z) : Z := month_length (leap y) m.

Definition next_day (c : Z * Z * Z) : Z * Z * Z :=
  let '(y, m, d) := c in
  if d <? month_days y m then (y, m, d + 1)
  else if m <? 12 then (y, m + 1, 1) else (y + 1, 1, 1).

Definition valid_date (c : Z * Z * Z) : Prop :=
  let '(y, m, d) := c in 1 <= m <= 12 ∧ 1 <= d <= month_days y m.

(** The first moment of the year 10000. *)
Definition year_10000 : Z := 253402300800.

(** ** Lemmas on the calendar *)

Definition year_end (yoe : Z) : Z := if yoe =? 399 then 146097 else year_start (yoe + 1).

Lemma yoe_of_mono a b : 0 <= a <= b → b < 146096 → yoe_of a <= yoe_of b.
Proof.
  intros Ha Hb. unfold yoe_of. apply Z.div_le_mono; [lia|].
  Z.to_euclidean_division_equations; lia.
Qed.

Lemma yoe_ends y :
  0 <= y < 400 → yoe_of (year_start y) = y ∧ yoe_of (year_end y - 1) = y ∧
    (y = 399 → yoe_of 146095 = 399) ∧ 0 <= year_start y < year_end y ∧ year_end y <= 146097 ∧
    (y < 399 → year_end y = year_start (y + 1) ∧ year_end y < 146096).
Proof.
  revert y. apply (below_all _ 400). apply (bool_decide_unpack _). by vm_compute.
Qed.

Lemma yoe_unique y doe : 0 <= y < 400 → year_start y <= doe < year_end y → yoe_of doe = y.
Proof.
  intros Hy Hd. destruct (yoe_ends y Hy) as (Hs & He & H399 & Hpos & Hend & Hlt).
  destruct (decide (y = 399)) as [->|].
  - destruct (decide (doe = 146096)) as [->|]; [done|].
    apply Z.le_antisymm; [rw -(H399 eq_refl)|rw -{1}Hs]; apply yoe_of_mono;
      change (year_end 399) with 146097 in *; lia.
  - apply Z.le_antisymm; [rw -He|rw -Hs]; apply yoe_of_mono; lia.
Qed.

Lemma yoe_exists doe : 0 <= doe < 146097 → ∃ y, 0 <= y < 400 ∧ year_start y <= doe < year_end y.
Proof.
  intros Hd.
  assert (∀ n : nat, (n <= 400)%nat → doe < year_end (Z.of_nat n - 1) →
            ∃ y, 0 <= y < Z.of_nat n ∧ year_start y <= doe < year_end y) as Hex.
  { induction n as [|n IH]; intros Hn Hlt; [by change (doe < 0) in Hlt; lia|].
    rw (_ : Z.of_nat (S n) - 1 = Z.of_nat n) in Hlt; [|lia].
    destruct (Z.le_gt_cases (year_start (Z.of_nat n)) doe) as [|Hgt]; [exists (Z.of_nat n); lia|].
    destruct IH as (y & ? & ?); [lia| |exists y; lia].
    destruct n as [|n]; [by change (doe < 0) in Hgt; lia|].
    destruct (yoe_ends (Z.of_nat n)) as (_ & _ & _ & _ & _ & Hnext); [lia|].
    rw (_ : Z.of_nat (S n) - 1 = Z.of_nat n); [|lia].
    destruct Hnext as [-> _]; [lia|]. by rw (_ : Z.of_nat n + 1 = Z.of_nat (S n)); [|lia]. }
  destruct (Hex 400%nat) as (y & ? & ?); [lia|change (year_end _) with 146097; lia|].
  by exists y.
Qed.

Lemma year_length y : 0 <= y < 400 → year_end y = year_start y + 365 + Z.b2z (leap (y + 1)).
Proof.
  revert y. apply (below_all _ 400). apply (bool_decide_unpack _). by vm_compute.
Qed.

Lemma leap_era y era : leap (y + era * 400) = leap y.
Proof.
  unfold leap.
  assert (∀ k, 0 < k → 400 mod k = 0 → (y + era * 400) mod k = y mod k) as Hmod.
  { intros k Hk H400. rw Z.add_mod; [|lia]. rw Z.mul_mod; [|lia].
    by rw H400 Z.mul_0_r Z.mod_0_l; [rw Z.add_0_r Z.mod_mod|lia]; lia. }
  by rw !Hmod.
Qed.

(** The months of a year that starts in March, with and without a leap day. *)
Definition doy_ok (b : bool) (doy : Z) : Prop :=
  doy < 365 + Z.b2z b →
  let '(m, d) := month_day doy in
  1 <= m <= 12 ∧ 1 <= d <= month_length b m ∧ doy_of m d = doy ∧
  (if doy + 1 <? 365 + Z.b2z b
   then (if d <? month_length b m then month_day (doy + 1) = (m, d + 1)
         else month_day (doy + 1) = (if m <? 12 then m + 1 else 1, 1) ∧ m ≠ 2)
   else m = 2 ∧ d = month_length b m).

#[global] Instance doy_ok_dec b doy : Decision (doy_ok b doy).
Proof. unfold doy_ok. destruct (month_day doy). repeat case_match; apply _. Defined.

Lemma doy_all b doy : 0 <= doy < 366 → doy_ok b doy.
Proof.
  revert doy. apply (below_all _ 366). apply (bool_decide_unpack _). destruct b; by vm_compute.
Qed.

Lemma month_days_march y m :
  month_days (if m <=? 2 then y + 1 else y) m = month_length (leap (y + 1)) m.
Proof.
  unfold month_days, month_length. destruct (Z.eqb_spec m 2) as [->|]; done.
Qed.

(** A date of the year that starts in March of [y]. *)
Lemma civil_of_doy_ok y doy :
  0 <= doy < 365 + Z.b2z (leap (y + 1)) →
  valid_date (civil_of_doy y doy) ∧
  days_of_civil (civil_of_doy y doy) = y / 400 * 146097 + year_start (y mod 400) + doy - 719468 ∧
  next_day (civil_of_doy y doy) =
    if doy + 1 <? 365 + Z.b2z (leap (y + 1)) then civil_of_doy y (doy + 1)
    else civil_of_doy (y + 1) 0.
Proof.
  intros Hdoy. pose proof (doy_all (leap (y + 1)) doy) as Hok.
  unfold doy_ok in Hok. unfold civil_of_doy.
  destruct (month_day doy) as [m d] eqn:Hmd.
  destruct Hok as (Hm & Hd & Hof & Hnext); [destruct (leap _); simpl in *; lia|lia|].
  unfold valid_date, next_day, days_of_civil. rw month_days_march Hof.
  split; [done|]. split.
  { destruct (m <=? 2); [by rw Z.add_simpl_r|done]. }
  destruct (_ <? 365 + _).
  - destruct (Z.ltb_spec d (month_length (leap (y + 1)) m)).
    + by rw Hnext.
    + destruct Hnext as [-> Hm2]. destruct (Z.ltb_spec m 12).
      * destruct (Z.leb_spec m 2), (Z.leb_spec (m + 1) 2); (done || lia).
      * rw (_ : m = 12) //; lia.
  - destruct Hnext as [-> ->]. rw Z.ltb_irrefl. done.
Qed.

Lemma civil_march day :
  ∃ y doy, civil day = civil_of_doy y doy ∧ 0 <= doy < 365 + Z.b2z (leap (y + 1)) ∧
    y / 400 * 146097 + year_start (y mod 400) + doy - 719468 = day.
Proof.
  unfold civil, civil_of_doe. set (z := day + 719468).
  pose proof (Z.mod_pos_bound z 146097). pose proof (Z.div_mod z 146097) as Hz.
  destruct (yoe_exists (z mod 146097)) as (yoe & Hyoe & Hdoe); [lia|].
  rw (yoe_unique yoe) //. exists (yoe + z / 146097 * 400), (z mod 146097 - year_start yoe).
  pose proof (year_length yoe Hyoe) as Hlen.
  split; [done|]. rw (_ : yoe + z / 146097 * 400 + 1 = yoe + 1 + z / 146097 * 400); [|lia].
  rw leap_era. split; [lia|].
  rw Z.div_add; [|lia]. rw (Z.div_small yoe); [|lia].
  rw Z.mod_add; [|lia]. rw (Z.mod_small yoe) //. lia.
Qed.

Lemma civil_valid day : valid_date (civil day).
Proof. destruct (civil_march day) as (y & doy & -> & Hd & _). by apply civil_of_doy_ok. Qed.

Lemma days_of_civil_civil day : days_of_civil (civil day) = day.
Proof.
  destruct (civil_march day) as (y & doy & -> & Hd & Hday). rw -Hday. by apply civil_of_doy_ok.
Qed.

Definition march_day (y doy : Z) : Z :=
  y / 400 * 146097 + year_start (y mod 400) + doy - 719468.

Lemma year_end_march y :
  year_end (y mod 400) = year_start (y mod 400) + 365 + Z.b2z (leap (y + 1)).
Proof.
  pose proof (Z.mod_pos_bound y 400). rw year_length; [|lia].
  rw -(leap_era _ (y / 400)) (_ : y mod 400 + 1 + y / 400 * 400 = y + 1) //.
  pose proof (Z.div_mod y 400). lia.
Qed.

Lemma civil_of_march y doy :
  0 <= doy < 365 + Z.b2z (leap (y + 1)) → civil (march_day y doy) = civil_of_doy y doy.
Proof.
  intros Hd. pose proof (Z.mod_pos_bound y 400) as Hm. pose proof (year_end_march y) as Hend.
  destruct (yoe_ends (y mod 400)) as (_ & _ & _ & Hpos & Hle & _); [lia|].
  unfold civil, march_day, civil_of_doe.
  set (doe := year_start (y mod 400) + doy).
  rw (_ : y / 400 * 146097 + year_start (y mod 400) + doy - 719468 + 719468 = doe + y / 400 * 146097);
    [|unfold doe; lia].
  rw Z.mod_add; [|lia]. rw Z.div_add; [|lia].
  rw (Z.mod_small doe); [|unfold doe; lia]. rw (Z.div_small doe); [|unfold doe; lia].
  rw (yoe_unique (y mod 400)); [|lia|unfold doe; lia].
  unfold doe. f_equal; [|lia]. pose proof (Z.div_mod y 400). lia.
Qed.

Lemma march_day_next y : march_day (y + 1) 0 = march_day y (365 + Z.b2z (leap (y + 1))).
Proof.
  unfold march_day. pose proof (Z.mod_pos_bound y 400) as Hm. pose proof (year_end_march y) as Hend.
  destruct (decide (y mod 400 = 399)) as [He|Hne].
  - assert ((y + 1) / 400 = y / 400 + 1 ∧ (y + 1) mod 400 = 0) as [-> ->]
      by (clear - He; Z.to_euclidean_division_equations; lia).
    rw He in Hend *. change (year_end 399) with 146097 in Hend. change (year_start 0) with 0. lia.
  - assert ((y + 1) / 400 = y / 400 ∧ (y + 1) mod 400 = y mod 400 + 1) as [-> ->]
      by (clear - Hne; Z.to_euclidean_division_equations; lia).
    destruct (yoe_ends (y mod 400)) as (_ & _ & _ & _ & _ & Hn); [lia|].
    destruct Hn as [Hn _]; lia.
Qed.

Lemma civil_next day : civil (day + 1) = next_day (civil day).
Proof.
  destruct (civil_march day) as (y & doy & Hc & Hd & Hday). rw Hc.
  destruct (civil_of_doy_ok y doy Hd) as (_ & _ & ->). fold (march_day y doy) in Hday.
  destruct (Z.ltb_spec (doy + 1) (365 + Z.b2z (leap (y + 1)))).
  - rw -civil_of_march; [|lia]. f_equal. rw -Hday. unfold march_day. lia.
  - rw -(civil_of_march (y + 1)); [|by destruct (leap (y + 1 + 1))].
    rw march_day_next. f_equal. rw -Hday. unfold march_day. lia.
Qed.

(** ** Lemmas on the order *)

Definition date_before (c c' : Z * Z * Z) : Prop :=
  let '(y, m, d) := c in let '(y', m', d') := c' in
  y < y' ∨ (y = y' ∧ (m < m' ∨ (m = m' ∧ d < d'))).

Lemma next_day_after c : valid_date c → date_before c (next_day c).
Proof.
  destruct c as [[y m] d]. unfold valid_date, next_day. intros [Hm Hd].
  destruct (Z.ltb_spec d (month_days y m)); [|destruct (Z.ltb_spec m 12)]; simpl; lia.
Qed.

Lemma civil_before a b : a < b → date_before (civil a) (civil b).
Proof.
  intros Hab. assert (∃ n : nat, b = a + 1 + Z.of_nat n) as [n ->]
    by (exists (Z.to_nat (b - a - 1)); lia). clear Hab.
  induction n as [|n IH].
  - rw Z.add_0_r civil_next. apply next_day_after, civil_valid.
  - rw (_ : a + 1 + Z.of_nat (S n) = a + 1 + Z.of_nat n + 1); [|lia]. rw civil_next.
    pose proof (next_day_after _ (civil_valid (a + 1 + Z.of_nat n))) as Hn.
    destruct (civil a) as [[? ?] ?], (civil (a + 1 + Z.of_nat n)) as [[? ?] ?],
      (next_day _) as [[? ?] ?]. simpl in *. lia.
Qed.

Lemma civil_year day : 0 <= day < 2932897 → 1970 <= (civil day).1.1 <= 9999.
Proof.
  intros Hd.
  assert (day = 0 ∨ 0 < day) as [->|H0] by lia; [by vm_compute|].
  assert (day = 2932896 ∨ day < 2932896) as [->|H1] by lia; [by vm_compute|].
  apply civil_before in H0. apply civil_before in H1.
  assert (civil 0 = (1970, 1, 1)) as E0 by by vm_compute.
  assert (civil 2932896 = (9999, 12, 31)) as E1 by by vm_compute.
  rw E0 in H0. rw E1 in H1. destruct (civil day) as [[? ?] ?]. simpl in *. lia.
Qed.

Lemma length_decimal w n : String.length (decimal w n) = w.
Proof. revert n. induction w as [|w IH]; intros n; [done|]. simpl. rw string_length_app IH /=. lia. Qed.

Lemma compare_digit i j :
  0 <= i < 10 → 0 <= j < 10 →
  String.compare (String (digit i) "") (String (digit j) "") = (i ?= j).
Proof.
  intros Hi Hj. revert i Hi. apply (below_all _ 10). revert j Hj. apply (below_all _ 10).
  apply (bool_decide_unpack _). by vm_compute.
Qed.

Lemma compare_decimal w a b :
  0 <= a < 10 ^ Z.of_nat w → 0 <= b < 10 ^ Z.of_nat w →
  String.compare (decimal w a) (decimal w b) = (a ?= b).
Proof.
  revert a b. induction w as [|w IH]; intros a b Ha Hb.
  { simpl in *. rw (_ : a = b) ?Z.compare_refl //. lia. }
  rw Nat2Z.inj_succ Z.pow_succ_r in Ha Hb; [|lia..]. simpl.
  rw str_compare_app; [|by rw !length_decimal].
  rw compare_digit; [|apply Z.mod_pos_bound; lia..].
  assert (0 <= a / 10 < 10 ^ Z.of_nat w ∧ 0 <= b / 10 < 10 ^ Z.of_nat w) as [? ?]
    by (Z.to_euclidean_division_equations; lia).
  rw IH //. pose proof (Z.div_mod a 10). pose proof (Z.div_mod b 10).
  pose proof (Z.mod_pos_bound a 10). pose proof (Z.mod_pos_bound b 10).
  destruct (Z.compare_spec (a / 10) (b / 10)); symmetry.
  - destruct (Z.compare_spec (a mod 10) (b mod 10));
      [apply Z.compare_eq_iff|apply Z.compare_lt_iff|apply Z.compare_gt_iff]; lia.
  - apply Z.compare_lt_iff. lia.
  - apply Z.compare_gt_iff. lia.
Qed.

Lemma compare_field w a b (x y : string) :
  0 <= a < 10 ^ Z.of_nat w → 0 <= b < 10 ^ Z.of_nat w →
  String.compare (decimal w a +:+ x) (decimal w b +:+ y) =
  match a ?= b with Eq => String.compare x y | r => r end.
Proof. intros Ha Hb. rw str_compare_app; [|by rw !length_decimal]. by rw compare_decimal. Qed.

Lemma compare_same (s x y : string) : String.compare (s +:+ x) (s +:+ y) = String.compare x y.
Proof. by rw str_compare_app // str_compare_refl. Qed.

Definition tm_fields (t : tm) : list Z :=
  [tm_year t; tm_mon t; tm_mday t; tm_hour t; tm_min t; tm_sec t].

Definition tm_range (t : tm) : Prop :=
  1970 <= tm_year t <= 9999 ∧ 1 <= tm_mon t <= 12 ∧ 1 <= tm_mday t <= 31 ∧
  0 <= tm_hour t <= 23 ∧ 0 <= tm_min t <= 59 ∧ 0 <= tm_sec t <= 59.

Lemma gmtime_range t : 0 <= t < year_10000 → tm_range (gmtime t).
Proof.
  unfold year_10000. intros Ht. unfold gmtime.
  assert (0 <= t / 86400 < 2932897) as Hd by (Z.to_euclidean_division_equations; lia).
  pose proof (civil_year _ Hd) as Hy. pose proof (civil_valid (t / 86400)) as Hv.
  destruct (civil (t / 86400)) as [[y m] d]. destruct Hv as [Hm Hday]. simpl in Hy.
  assert (month_days y m <= 31).
  { unfold month_days, month_length. by repeat case_match. }
  pose proof (Z.mod_pos_bound t 86400). set (s := t mod 86400) in *.
  split_and!; simpl; try lia; Z.to_euclidean_division_equations; lia.
Qed.

(** The first field that differs decides. *)
Fixpoint lex_compare (l l' : list Z) : comparison :=
  match l, l' with
  | a :: l, b :: l' => match a ?= b with Eq => lex_compare l l' | r => r end
  | _, _ => Eq
  end.

Lemma strftime_compare t t' :
  tm_range t → tm_range t' →
  String.compare (strftime t) (strftime t') = lex_compare (tm_fields t) (tm_fields t').
Proof.
  intros (?&?&?&?&?&?) (?&?&?&?&?&?). unfold strftime, year_text.
  rw !(proj2 (Z.ltb_lt _ 10000)); [|lia..]. simpl lex_compare.
  rw compare_field; [|simpl; lia..]. case_match; [|done..].
  do 4 (rw compare_same compare_field; [|simpl; lia..]; case_match; [|done..]).
  rw compare_same compare_field; [|simpl; lia..]. by case_match.
Qed.

Lemma gmtime_lex a b : a < b → lex_compare (tm_fields (gmtime a)) (tm_fields (gmtime b)) = Lt.
Proof.
  intros Hab. unfold gmtime.
  assert (a / 86400 = b / 86400 ∧ a mod 86400 < b mod 86400 ∨ a / 86400 < b / 86400)
    as [[-> Hs]|Hd] by (Z.to_euclidean_division_equations; lia).
  - destruct (civil _) as [[y m] d]. simpl. rw !Z.compare_refl.
    revert Hs. generalize (a mod 86400) (b mod 86400). clear. intros s s' Hs.
    repeat (case Z.compare_spec; intros); try done; Z.to_euclidean_division_equations; lia.
  - apply civil_before in Hd. destruct (civil (a / _)) as [[y m] d], (civil _) as [[y' m'] d'].
    simpl in *. case Z.compare_spec; intros; try done; [|lia].
    case Z.compare_spec; intros; try done; [|lia]. case Z.compare_spec; intros; try done; lia.
Qed.

Lemma iso_compare a b :
  0 <= a < year_10000 → 0 <= b < year_10000 → String.compare (iso a) (iso b) = (a ?= b).
Proof.
  intros Ha Hb. pose proof (gmtime_range _ Ha). pose proof (gmtime_range _ Hb).
  unfold iso. case Z.compare_spec; intros Hab.
  - rw Hab. apply str_compare_refl.
  - rw strftime_compare //. by apply gmtime_lex.
  - rw String.compare_antisym strftime_compare // gmtime_lex //.
Qed.

(** ** Lemmas on reading *)

Lemma digit_value i : 0 <= i < 10 → byte_of (digit i) - 48 = i.
Proof. intros Hi. unfold digit. rw byte_of_ascii; lia. Qed.

Lemma read_decimal_snoc w acc s :
  read_decimal (S w) acc s =
  match read_decimal w acc s with Some (n, s) => read_decimal 1 n s | None => None end.
Proof.
  revert acc s. induction w as [|w IH]; intros acc s; [done|].
  destruct s as [|c s]; [done|]. cbn [read_decimal] in *.
  destruct (_ && _); [|done]. apply IH.
Qed.

Lemma read_decimal_decimal w n acc rest :
  0 <= n < 10 ^ Z.of_nat w →
  read_decimal w acc (decimal w n +:+ rest) = Some (acc * 10 ^ Z.of_nat w + n, rest).
Proof.
  revert n acc rest. induction w as [|w IH]; intros n acc rest Hn.
  { simpl in Hn. change ("" +:+ rest) with rest. simpl. do 2 f_equal. lia. }
  rw Nat2Z.inj_succ Z.pow_succ_r in Hn *; [|lia..].
  rw read_decimal_snoc. cbn [decimal]. rw string_app_assoc IH;
    [|Z.to_euclidean_division_equations; lia].
  pose proof (Z.mod_pos_bound n 10). pose proof (Z.div_mod n 10).
  rw string_cons_app. cbn [read_decimal]. rw digit_value; [|lia].
  rw !Zle_imp_le_bool; [|lia..]. simpl. do 2 f_equal. lia.
Qed.

Lemma read_field_decimal w lo hi n rest :
  lo <= n <= hi → 0 <= n < 10 ^ Z.of_nat w →
  read_field w lo hi (decimal w n +:+ rest) = Some (n, rest).
Proof.
  intros Hr Hn. unfold read_field. rw read_decimal_decimal // Z.mul_0_l Z.add_0_l.
  by rw !Zle_imp_le_bool; [|lia..].
Qed.

Lemma read_char_cons c rest : read_char c (String c "" +:+ rest) = Some rest.
Proof. simpl. by rw decide_True. Qed.

Lemma get_time_strftime t : tm_range t → get_time (strftime t) = Some t.
Proof.
  intros (?&?&?&?&?&?). unfold strftime, get_time, year_text.
  rw (proj2 (Z.ltb_lt _ 10000)); [|lia].
  do 5 (rw read_field_decimal; [|simpl; lia..]; cbn [mbind option_bind];
        rw read_char_cons; cbn [mbind option_bind]).
  rw read_field_decimal; [|simpl; lia..]. cbn [mbind option_bind]. by destruct t.
Qed.

Lemma timegm_gmtime t : timegm (gmtime t) = t.
Proof.
  unfold timegm, gmtime. pose proof (days_of_civil_civil (t / 86400)) as Hday.
  destruct (civil (t / 86400)) as [[y m] d]. cbn [tm_year tm_mon tm_mday tm_hour tm_min tm_sec]. rw Hday.
  pose proof (Z.mod_pos_bound t 86400). pose proof (Z.div_mod t 86400).
  set (s := t mod 86400) in *. assert (s / 3600 * 3600 + s / 60 mod 60 * 60 + s mod 60 = s); [|lia].
  clear. Z.to_euclidean_division_equations; lia.
Qed.

(** ** Properties *)

(** The dates of [gmtime] are those of the Gregorian calendar: day 0 is
    1970-01-01, every date has a month and a day that exist, and each day is
    followed by the next one of the calendar. *)
Theorem gmtime_gregorian day :
  civil 0 = (1970, 1, 1) ∧ valid_date (civil day) ∧ civil (day + 1) = next_day (civil day).
Proof. split_and!; [by vm_compute|apply civil_valid|apply civil_next]. Qed.

(** Up to the year 9999 the texts compare as strings the way the times do,
    and reading a text gives back its time. *)
Theorem iso_order_roundtrip a b :
  0 <= a < year_10000 → 0 <= b < year_10000 →
  String.compare (iso a) (iso b) = (a ?= b) ∧ timegm <$> get_time (iso a) = Some a.
Proof.
  intros Ha Hb. split; [by apply iso_compare|]. unfold iso.
  rw get_time_strftime; [|by apply gmtime_range]. simpl. by rw timegm_gmtime.
Qed.

Lemma iso_order_roundtrip_witness :
  iso 951782399 = "2000-02-28T23:59:59Z" ∧ iso 951868800 = "2000-03-01T00:00:00Z" ∧
  String.compare (iso 951782399) (iso 951868800) = Lt ∧
  timegm <$> get_time "2000-02-28T23:59:59Z" = Some 951782399.
Proof.
  assert (iso 951782399 = "2000-02-28T23:59:59Z") as E by by vm_compute.
  destruct (iso_order_roundtrip 951782399 951868800) as [Hc Hr];
    [unfold year_10000; lia..|].
  split; [exact E|]. split; [by vm_compute|]. split; [exact Hc|]. rewrite -E. exact Hr.
Defined.

End IsoTime.
