(* ===== verification/Identity.v ===== *)
(** * Identity: tenants, users, keys, sessions and their tables

    Models [src/src/auth/auth_models.h] and the identity tables of
    [src/src/storage/memory_persistent_store.cpp] (the table of MFA secrets,
    which that store does not have, is the one of
    [src/src/storage/sqlite_persistent_store.cpp]).  Every table is a map from
    a string key to a row, so a store is a family of such maps; a method of
    the store is a function on it, atomic because the method holds the store's
    mutex.  The last part is the world the identity handlers run in: the
    store, the audit logger, the clock, and the supplies of generated
    identifiers and random bytes. *)
From Corelib Require Import PrimFloat.
From S2P Require Import Prelude.
From S2P Require Import Prog.
From S2P Require Import AuditLog.
From S2P Require Import IsoTime.
Import IsoTime.
Local Open Scope Z_scope.

(** ** The records of auth_models.h *)

Inductive Role := Viewer | Developer | TenantAdmin | SuperAdmin.
#[global] Instance Role_eq_dec : EqDecision Role.
Proof. solve_decision. Defined.

(** [static_cast<int>(role)]. *)
Definition role_rank (r : Role) : Z :=
  match r with Viewer => 0 | Developer => 1 | TenantAdmin => 2 | SuperAdmin => 3 end.

Definition roleToString (r : Role) : string :=
  match r with
  | Viewer => "viewer"
  | Developer => "developer"
  | TenantAdmin => "tenant_admin"
  | SuperAdmin => "super_admin"
  end.

Definition roleFromString (s : string) : option Role :=
  if decide (s = "viewer") then Some Viewer
  else if decide (s = "developer") then Some Developer
  else if decide (s = "tenant_admin") then Some TenantAdmin
  else if decide (s = "super_admin") then Some SuperAdmin
  else None.

Record Tenant := {
  t_id : string; t_name : string; t_status : string;
  t_model_whitelist : list string;
  t_daily_cost_limit : float; t_monthly_cost_limit : float;
  t_rate_limit_tokens : Z; t_rate_limit_refill : float;
  t_created_at : string; t_updated_at : string;
}.

Record User := {
  u_id : string; u_tenant_id : string; u_username : string; u_display_name : string;
  u_role : Role; u_status : string; u_created_at : string; u_updated_at : string;
}.

Record ApiKeyRecord := {
  k_id : string; k_user_id : string; k_tenant_id : string; k_name : string;
  k_key_prefix : string; k_key_hash : string; k_role : Role; k_status : string;
  k_expires_at : string; k_last_used_at : string; k_created_at : string; k_updated_at : string;
}.

Record AuthContext := {
  c_tenant_id : string; c_user_id : string; c_api_key_id : string; c_role : Role;
  c_is_rbac_enabled : bool; c_session_id : string; c_auth_method : string;
  c_mfa_verified : bool; c_external_subject : string;
}.

(** The context as it is default-initialised. *)
Definition no_context : AuthContext :=
  {| c_tenant_id := ""; c_user_id := ""; c_api_key_id := ""; c_role := Viewer;
     c_is_rbac_enabled := false; c_session_id := ""; c_auth_method := "";
     c_mfa_verified := false; c_external_subject := "" |}.

Record SsoProvider := {
  p_id : string; p_tenant_id : string; p_name : string; p_issuer_url : string;
  p_client_id : string; p_client_secret_enc : string; p_redirect_uri : string;
  p_scopes : list string; p_claim_mapping_json : string; p_group_role_mapping_json : string;
  p_jit_provisioning : bool; p_default_role : string; p_enabled : bool;
  p_created_at : string; p_updated_at : string;
}.

Record IdentityMapping := {
  im_id : string; im_tenant_id : string; im_external_subject : string;
  im_external_issuer : string; im_user_id : string; im_email : string;
  im_last_login_at : string; im_created_at : string;
}.

Record Session := {
  s_id : string; s_user_id : string; s_tenant_id : string; s_ip_address : string;
  s_user_agent : string; s_auth_method : string; s_mfa_verified : bool;
  s_created_at : string; s_last_active_at : string; s_expires_at : string;
}.

Record MfaSecret := {
  mfa_user_id : string; mfa_secret_enc : string; mfa_enabled : bool;
  mfa_recovery_codes_hash : list string; mfa_created_at : string;
}.

Record ScimToken := {
  st_id : string; st_tenant_id : string; st_token_hash : string;
  st_description : string; st_created_at : string; st_expires_at : string;
}.

(** Records of [src/src/storage/persistent_store.h] and of the store itself. *)
Record ScimGroupRecord := {
  g_id : string; g_tenant_id : string; g_display_name : string;
  g_created_at : string; g_updated_at : string;
}.

Record PromptTemplateRecord := {
  pt_id : string; pt_tenant_id : string; pt_name : string; pt_content : string;
  pt_version : Z; pt_weight : Z; pt_is_active : bool;
  pt_created_at : string; pt_updated_at : string;
}.

Record RuleSetRecord := {
  rs_version : Z; rs_tenant_id : string; rs_rules_json : string;
  rs_created_at : string; rs_is_active : bool;
}.

Record MfaFailRow := { fail_count : Z; first_fail_at : Z; locked_until : Z }.

(** ** The tables *)

Inductive Table :=
| Tenants | Users | ApiKeys | SsoProviders | IdentityMappings | Sessions | ScimTokens
| ScimGroups | ScimGroupMembers | PromptTemplates | RuleSets | MfaFailures | MfaSecrets.

#[global] Instance Table_eq_dec : EqDecision Table.
Proof. solve_decision. Defined.

Definition row (t : Table) : Type :=
  match t with
  | Tenants => Tenant
  | Users => User
  | ApiKeys => ApiKeyRecord
  | SsoProviders => SsoProvider
  | IdentityMappings => IdentityMapping
  | Sessions => Session
  | ScimTokens => ScimToken
  | ScimGroups => ScimGroupRecord
  | ScimGroupMembers => list string
  | PromptTemplates => PromptTemplateRecord
  | RuleSets => list RuleSetRecord
  | MfaFailures => MfaFailRow
  | MfaSecrets => MfaSecret
  end.

Record Store := {
  initialized : bool;
  rows : ∀ t : Table, gmap string (row t);
}.

Definition empty_store : Store := {| initialized := true; rows := λ _, ∅ |}.

(** The store with another map for one table. *)
Definition set_rows (t : Table) (m : gmap string (row t)) (s : Store) : Store :=
  {| initialized := initialized s;
     rows := λ t', match decide (t = t') with
                   | left e => eq_rect t (λ t, gmap string (row t)) m t' e
                   | right _ => rows s t'
                   end |}.

(** A method that only reads. *)
Definition reading {A} (f : Store → A) (s : Store) : A * Store := (f s, s).

(** [if (table.count(id)) return false; table[id] = r; return true;]. *)
Definition insert_new (t : Table) (id : string) (r : row t) (s : Store) : bool * Store :=
  match rows s t !! id with
  | Some _ => (false, s)
  | None => (true, set_rows t (<[id := r]> (rows s t)) s)
  end.

(** [find]; [it->second = f(it->second)]; false when there is none. *)
Definition modify_row (t : Table) (id : string) (f : row t → row t) (s : Store) : bool * Store :=
  match rows s t !! id with
  | Some r => (true, set_rows t (<[id := f r]> (rows s t)) s)
  | None => (false, s)
  end.

(** [table.erase(id) > 0]. *)
Definition erase_row (t : Table) (id : string) (s : Store) : bool * Store :=
  match rows s t !! id with
  | Some _ => (true, set_rows t (delete id (rows s t)) s)
  | None => (false, s)
  end.

(** The loop of the list methods over the rows that match: skip [offset] of
    them, then push and stop at [limit]. *)
Fixpoint page {A} (limit offset skipped pushed : Z) (l : list A) : list A :=
  match l with
  | [] => []
  | x :: l =>
      if skipped <? offset then page limit offset (skipped + 1) pushed l
      else x :: (if limit <=? pushed + 1 then [] else page limit offset skipped (pushed + 1) l)
  end.

(** The loop over an index of the methods that sort first. *)
Fixpoint page_index {A} (limit : Z) (pushed : Z) (l : list A) : list A :=
  match l with
  | [] => []
  | x :: l => if pushed <? limit then x :: page_index limit (pushed + 1) l else []
  end.

(** [for (int i = offset; i < size && pushed < limit; ++i) push(all[i])];
    [None] is the access before the first element that a negative [offset]
    makes. *)
Definition from_index {A} (limit offset : Z) (all : list A) : option (list A) :=
  if (offset <? 0) && (0 <? limit) then None
  else Some (page_index limit 0 (drop (Z.to_nat offset) all)).

(** An empty tenant stands for all of them. *)
Definition in_tenant (tenant_id tid : string) : bool :=
  str_empty tenant_id || bool_decide (tid = tenant_id).

Section tables.
Context `{UnorderedIter}.

Definition all_rows (t : Table) (s : Store) : list (row t) := snd <$> iter (rows s t).

(** *** Tenants *)

Definition insertTenant (t : Tenant) : Store → bool * Store := insert_new Tenants (t_id t) t.
Definition getTenant (id : string) (s : Store) : option Tenant := rows s Tenants !! id.
Definition listTenants (limit offset : Z) (s : Store) : list Tenant :=
  page limit offset 0 0 (all_rows Tenants s).
Definition updateTenant (t : Tenant) : Store → bool * Store :=
  modify_row Tenants (t_id t) (λ _, t).
Definition deleteTenant (id : string) : Store → bool * Store := erase_row Tenants id.
Definition tenantCount (s : Store) : Z := Z.of_nat (size (rows s Tenants)).

(** *** Users *)

Definition insertUser (u : User) (s : Store) : bool * Store :=
  match rows s Users !! u_id u with
  | Some _ => (false, s)
  | None =>
      if existsb (λ v, bool_decide (u_tenant_id v = u_tenant_id u) &&
                       bool_decide (u_username v = u_username u)) (all_rows Users s)
      then (false, s)
      else (true, set_rows Users (<[u_id u := u]> (rows s Users)) s)
  end.
Definition getUser (id : string) (s : Store) : option User := rows s Users !! id.
Definition getUserByUsername (tenant_id username : string) (s : Store) : option User :=
  snd <$> list_find (λ u, u_tenant_id u = tenant_id ∧ u_username u = username) (all_rows Users s).
Definition listUsers (tenant_id : string) (limit offset : Z) (s : Store) : list User :=
  page limit offset 0 0
    (base.filter (λ u, in_tenant tenant_id (u_tenant_id u) = true) (all_rows Users s)).
Definition updateUser (u : User) : Store → bool * Store := modify_row Users (u_id u) (λ _, u).
Definition deleteUser (id : string) : Store → bool * Store := erase_row Users id.
Definition userCount (tenant_id : string) (s : Store) : Z :=
  if str_empty tenant_id then Z.of_nat (size (rows s Users))
  else Z.of_nat (length (base.filter (λ u, u_tenant_id u = tenant_id) (all_rows Users s))).

(** *** API keys *)

Definition insertApiKey (k : ApiKeyRecord) : Store → bool * Store :=
  insert_new ApiKeys (k_id k) k.
Definition getApiKeyByHash (hash : string) (s : Store) : option ApiKeyRecord :=
  snd <$> list_find (λ k, k_key_hash k = hash) (all_rows ApiKeys s).
Definition getApiKeysByPrefix (prefix : string) (s : Store) : list ApiKeyRecord :=
  base.filter (λ k, k_key_prefix k = prefix) (all_rows ApiKeys s).
Definition listApiKeys (tenant_id : string) (limit offset : Z) (s : Store) : list ApiKeyRecord :=
  page limit offset 0 0
    (base.filter (λ k, in_tenant tenant_id (k_tenant_id k) = true) (all_rows ApiKeys s)).
Definition updateApiKey (k : ApiKeyRecord) : Store → bool * Store :=
  modify_row ApiKeys (k_id k) (λ _, k).
Definition set_k_status (st : string) (k : ApiKeyRecord) : ApiKeyRecord :=
  {| k_id := k_id k; k_user_id := k_user_id k; k_tenant_id := k_tenant_id k;
     k_name := k_name k; k_key_prefix := k_key_prefix k; k_key_hash := k_key_hash k;
     k_role := k_role k; k_status := st; k_expires_at := k_expires_at k;
     k_last_used_at := k_last_used_at k; k_created_at := k_created_at k;
     k_updated_at := k_updated_at k |}.
Definition revokeApiKey (id : string) : Store → bool * Store :=
  modify_row ApiKeys id (set_k_status "revoked").
Definition apiKeyCount (tenant_id : string) (s : Store) : Z :=
  if str_empty tenant_id then Z.of_nat (size (rows s ApiKeys))
  else Z.of_nat (length (base.filter (λ k, k_tenant_id k = tenant_id) (all_rows ApiKeys s))).

(** *** SSO providers and identity mappings *)

(** The methods added later also test [initialized_]. *)
Definition insert_init (t : Table) (id : string) (r : row t) (s : Store) : bool * Store :=
  if initialized s then insert_new t id r s else (false, s).

Definition insertSsoProvider (p : SsoProvider) : Store → bool * Store :=
  insert_init SsoProviders (p_id p) p.
Definition getSsoProvider (id : string) (s : Store) : option SsoProvider := rows s SsoProviders !! id.
Definition getSsoProviderByTenant (tenant_id : string) (s : Store) : option SsoProvider :=
  snd <$> list_find (λ p, p_tenant_id p = tenant_id ∧ p_enabled p = true) (all_rows SsoProviders s).
Definition listSsoProviders (limit offset : Z) (s : Store) : option (list SsoProvider) :=
  from_index limit offset (std_sort (λ a b, str_ltb (p_id a) (p_id b)) (all_rows SsoProviders s)).
Definition ssoProviderCount (s : Store) : Z := Z.of_nat (size (rows s SsoProviders)).
Definition updateSsoProvider (p : SsoProvider) : Store → bool * Store :=
  modify_row SsoProviders (p_id p) (λ _, p).
Definition deleteSsoProvider (id : string) : Store → bool * Store := erase_row SsoProviders id.

Definition insertIdentityMapping (m : IdentityMapping) : Store → bool * Store :=
  insert_init IdentityMappings (im_id m) m.
Definition getIdentityMapping (external_subject external_issuer : string) (s : Store) :
    option IdentityMapping :=
  snd <$> list_find (λ m, im_external_subject m = external_subject ∧
                          im_external_issuer m = external_issuer) (all_rows IdentityMappings s).
Definition listIdentityMappings (tenant_id : string) (limit offset : Z) (s : Store) :
    option (list IdentityMapping) :=
  from_index limit offset
    (std_sort (λ a b, str_ltb (im_id a) (im_id b))
       (base.filter (λ m, im_tenant_id m = tenant_id) (all_rows IdentityMappings s))).
Definition deleteIdentityMapping (id : string) : Store → bool * Store :=
  erase_row IdentityMappings id.
Definition updateIdentityMappingLastLogin (id ts : string) : Store → bool * Store :=
  modify_row IdentityMappings id (λ m,
    {| im_id := im_id m; im_tenant_id := im_tenant_id m;
       im_external_subject := im_external_subject m; im_external_issuer := im_external_issuer m;
       im_user_id := im_user_id m; im_email := im_email m; im_last_login_at := ts;
       im_created_at := im_created_at m |}).

(** *** Sessions *)

Definition insertSession (x : Session) : Store → bool * Store := insert_init Sessions (s_id x) x.
Definition getSession (id : string) (s : Store) : option Session := rows s Sessions !! id.
Definition listSessionsByUser (user_id : string) (s : Store) : list Session :=
  std_sort (λ a b, str_ltb (s_created_at b) (s_created_at a))
    (base.filter (λ x, s_user_id x = user_id) (all_rows Sessions s)).
Definition set_s_activity (ts : string) (x : Session) : Session :=
  {| s_id := s_id x; s_user_id := s_user_id x; s_tenant_id := s_tenant_id x;
     s_ip_address := s_ip_address x; s_user_agent := s_user_agent x;
     s_auth_method := s_auth_method x; s_mfa_verified := s_mfa_verified x;
     s_created_at := s_created_at x; s_last_active_at := ts; s_expires_at := s_expires_at x |}.
Definition updateSessionActivity (id ts : string) : Store → bool * Store :=
  modify_row Sessions id (set_s_activity ts).
Definition deleteSession (id : string) : Store → bool * Store := erase_row Sessions id.
Definition deleteExpiredSessions (now_iso : string) (s : Store) : Z * Store :=
  let kept := base.filter (λ kv, str_ltb (s_expires_at kv.2) now_iso = false) (rows s Sessions) in
  (Z.of_nat (size (rows s Sessions)) - Z.of_nat (size kept), set_rows Sessions kept s).
Definition countSessionsByUser (user_id : string) (s : Store) : Z :=
  Z.of_nat (length (base.filter (λ x, s_user_id x = user_id) (all_rows Sessions s))).
Definition set_s_mfa (verified : bool) (x : Session) : Session :=
  {| s_id := s_id x; s_user_id := s_user_id x; s_tenant_id := s_tenant_id x;
     s_ip_address := s_ip_address x; s_user_agent := s_user_agent x;
     s_auth_method := s_auth_method x; s_mfa_verified := verified;
     s_created_at := s_created_at x; s_last_active_at := s_last_active_at x;
     s_expires_at := s_expires_at x |}.
Definition updateSessionMfaVerified (id : string) (verified : bool) : Store → bool * Store :=
  modify_row Sessions id (set_s_mfa verified).

(** *** MFA secrets and failures *)

Definition upsertMfaSecret (m : MfaSecret) (s : Store) : bool * Store :=
  (true, set_rows MfaSecrets (<[mfa_user_id m := m]> (rows s MfaSecrets)) s).
Definition getMfaSecret (user_id : string) (s : Store) : option MfaSecret :=
  rows s MfaSecrets !! user_id.
Definition deleteMfaSecret (user_id : string) : Store → bool * Store := erase_row MfaSecrets user_id.

(** The row after one more failure at [now]. *)
Definition fail_row (max_failures window_sec now : Z) (r : MfaFailRow) : MfaFailRow :=
  let r := if (first_fail_at r =? 0) || (window_sec <? now - first_fail_at r)
           then {| fail_count := 1; first_fail_at := now; locked_until := locked_until r |}
           else {| fail_count := fail_count r + 1; first_fail_at := first_fail_at r;
                   locked_until := locked_until r |} in
  if max_failures <=? fail_count r
  then {| fail_count := fail_count r; first_fail_at := first_fail_at r;
          locked_until := now + window_sec |}
  else r.

Definition no_failures : MfaFailRow := {| fail_count := 0; first_fail_at := 0; locked_until := 0 |}.

Definition recordMfaFailure (user_id : string) (max_failures window_sec now : Z) (s : Store) :
    bool * Store :=
  let r := fail_row max_failures window_sec now (default no_failures (rows s MfaFailures !! user_id)) in
  (now <? locked_until r, set_rows MfaFailures (<[user_id := r]> (rows s MfaFailures)) s).
Definition getMfaLockedUntil (user_id : string) (s : Store) : Z :=
  from_option locked_until 0 (rows s MfaFailures !! user_id).
Definition clearMfaFailures (user_id : string) (s : Store) : bool * Store :=
  (true, set_rows MfaFailures (delete user_id (rows s MfaFailures)) s).

(** *** SCIM tokens and groups *)

Definition insertScimToken (t : ScimToken) : Store → bool * Store :=
  insert_init ScimTokens (st_id t) t.
Definition getScimTokenByHash (hash : string) (s : Store) : option ScimToken :=
  snd <$> list_find (λ t, st_token_hash t = hash) (all_rows ScimTokens s).
Definition listScimTokens (tenant_id : string) (s : Store) : list ScimToken :=
  std_sort (λ a b, str_ltb (st_id a) (st_id b))
    (base.filter (λ t, st_tenant_id t = tenant_id) (all_rows ScimTokens s)).
Definition deleteScimToken (id : string) : Store → bool * Store := erase_row ScimTokens id.

(** [now] is [std::to_string] of the epoch seconds. *)
Definition insertScimGroup (id tenant_id display_name now : string) : Store → bool * Store :=
  insert_new ScimGroups id
    {| g_id := id; g_tenant_id := tenant_id; g_display_name := display_name;
       g_created_at := now; g_updated_at := now |}.
Definition getScimGroup (id : string) (s : Store) : option ScimGroupRecord := rows s ScimGroups !! id.
Definition updateScimGroup (id display_name : string) (member_ids : list string) (now : string)
    (s : Store) : bool * Store :=
  match rows s ScimGroups !! id with
  | None => (false, s)
  | Some g =>
      let g' := {| g_id := g_id g; g_tenant_id := g_tenant_id g; g_display_name := display_name;
                   g_created_at := g_created_at g; g_updated_at := now |} in
      let s := set_rows ScimGroups (<[id := g']> (rows s ScimGroups)) s in
      (true, set_rows ScimGroupMembers (<[id := member_ids]> (rows s ScimGroupMembers)) s)
  end.
Definition deleteScimGroup (id : string) (s : Store) : bool * Store :=
  let '(erased, s) := erase_row ScimGroups id s in
  (erased, set_rows ScimGroupMembers (delete id (rows s ScimGroupMembers)) s).
Definition listScimGroups (tenant_id : string) (s : Store) : list ScimGroupRecord :=
  base.filter (λ g, g_tenant_id g = tenant_id) (all_rows ScimGroups s).
Definition getScimGroupMembers (group_id : string) (s : Store) : list string :=
  default [] (rows s ScimGroupMembers !! group_id).

(** *** Prompt templates *)

Definition insertPromptTemplate (t : PromptTemplateRecord) : Store → bool * Store :=
  insert_new PromptTemplates (pt_id t) t.
Definition getPromptTemplate (id : string) (s : Store) : option PromptTemplateRecord :=
  rows s PromptTemplates !! id.
Definition updatePromptTemplate (t : PromptTemplateRecord) : Store → bool * Store :=
  modify_row PromptTemplates (pt_id t) (λ _, t).
Definition deletePromptTemplate (id : string) : Store → bool * Store := erase_row PromptTemplates id.
Definition listPromptTemplates (tenant_id : string) (limit offset : Z) (s : Store) :
    list PromptTemplateRecord :=
  page limit offset 0 0
    (base.filter (λ t, pt_tenant_id t = tenant_id) (all_rows PromptTemplates s)).
Definition listPromptTemplatesByName (tenant_id name : string) (s : Store) :
    list PromptTemplateRecord :=
  base.filter (λ t, pt_tenant_id t = tenant_id ∧ pt_name t = name) (all_rows PromptTemplates s).
Definition promptTemplateCount (tenant_id : string) (s : Store) : Z :=
  if str_empty tenant_id then Z.of_nat (size (rows s PromptTemplates))
  else Z.of_nat (length
         (base.filter (λ t, pt_tenant_id t = tenant_id) (all_rows PromptTemplates s))).

(** *** Rule sets *)

Definition set_rs_active (b : bool) (r : RuleSetRecord) : RuleSetRecord :=
  {| rs_version := rs_version r; rs_tenant_id := rs_tenant_id r; rs_rules_json := rs_rules_json r;
     rs_created_at := rs_created_at r; rs_is_active := b |}.

(** [auto& versions = rule_sets_[tenant_id]] creates the row. *)
Definition insertRuleSet (tenant_id : string) (record : RuleSetRecord) (s : Store) : bool * Store :=
  let versions := default [] (rows s RuleSets !! tenant_id) in
  let put vs := set_rows RuleSets (<[tenant_id := vs]> (rows s RuleSets)) s in
  if existsb (λ v, rs_version v =? rs_version record) versions then (false, put versions)
  else
    let rec := {| rs_version := rs_version record; rs_tenant_id := tenant_id;
                  rs_rules_json := rs_rules_json record; rs_created_at := rs_created_at record;
                  rs_is_active := rs_is_active record |} in
    let versions := if rs_is_active rec then set_rs_active false <$> versions else versions in
    (true, put (versions ++ [rec])).

Definition getActiveRuleSet (tenant_id : string) (s : Store) : option RuleSetRecord :=
  versions ← rows s RuleSets !! tenant_id;
  snd <$> list_find (λ v, rs_is_active v = true) versions.

(** The newest first, from the end of the vector. *)
Definition listRuleSetVersions (tenant_id : string) (limit offset : Z) (s : Store) :
    list RuleSetRecord :=
  match rows s RuleSets !! tenant_id with
  | None => []
  | Some versions => page_index limit 0 (drop (Z.to_nat (Z.max 0 offset)) (reverse versions))
  end.

Definition activateRuleSetVersion (tenant_id : string) (version : Z) (s : Store) : bool * Store :=
  match rows s RuleSets !! tenant_id with
  | None => (false, s)
  | Some versions =>
      (existsb (λ v, rs_version v =? version) versions,
       set_rows RuleSets
         (<[tenant_id := (λ v, set_rs_active (rs_version v =? version) v) <$> versions]>
            (rows s RuleSets)) s)
  end.

Definition ruleSetCount (tenant_id : string) (s : Store) : Z :=
  if str_empty tenant_id
  then foldl (λ n vs, n + Z.of_nat (length vs)) 0 (all_rows RuleSets s)
  else from_option (λ vs, Z.of_nat (length vs)) 0 (rows s RuleSets !! tenant_id).

End tables.

(** ** The world of the identity handlers *)

(** The libraries and settings: SHA-256, and the audit logger's options. *)
Record IdEnv := {
  ie_sha256 : string → string;
  ie_has_audit : bool;
  ie_audit_store : bool;
  ie_encryption : option Audit.Encryption;
}.

(** [iw_clock] is [system_clock::now()] in nanoseconds; [iw_ids] and
    [iw_bytes] are the supplies of [generateId] and of [RAND_bytes], whose
    failure is [None]. *)
Record IdWorld := {
  iw_store : Store;
  iw_audit : Audit.Chain * Audit.Queue;
  iw_clock : Z;
  iw_ids : nat → string;
  iw_next_id : nat;
  iw_bytes : nat → option (nat → Z);
  iw_next_bytes : nat;
}.

(** The calls of a handler: a store method, the clock, the generators and the
    two critical sections of the audit logger. *)
Inductive IdCmd : Type → Type :=
| StoreCall {B : Type} (f : Store → B * Store) : IdCmd B
| Clock : IdCmd Z
| GenerateId : IdCmd string
| RandBytes (n : nat) : IdCmd (option (list Z))
| Log {B : Type} (c : Audit.AuditCmd B) : IdCmd B.

Definition with_store (s : Store) (w : IdWorld) : IdWorld :=
  {| iw_store := s; iw_audit := iw_audit w; iw_clock := iw_clock w; iw_ids := iw_ids w;
     iw_next_id := iw_next_id w; iw_bytes := iw_bytes w; iw_next_bytes := iw_next_bytes w |}.

Definition id_exec (env : IdEnv) : ∀ B, IdCmd B → IdWorld → B * IdWorld :=
  λ B cmd, match cmd in IdCmd B return IdWorld → B * IdWorld with
  | StoreCall f => λ w, let '(b, s) := f (iw_store w) in (b, with_store s w)
  | Clock => λ w, (iw_clock w, w)
  | GenerateId => λ w,
      (iw_ids w (iw_next_id w),
       {| iw_store := iw_store w; iw_audit := iw_audit w; iw_clock := iw_clock w;
          iw_ids := iw_ids w; iw_next_id := S (iw_next_id w); iw_bytes := iw_bytes w;
          iw_next_bytes := iw_next_bytes w |})
  | RandBytes n => λ w,
      ((λ f, (λ i, f i mod 256) <$> seq 0 n) <$> iw_bytes w (iw_next_bytes w),
       {| iw_store := iw_store w; iw_audit := iw_audit w; iw_clock := iw_clock w;
          iw_ids := iw_ids w; iw_next_id := iw_next_id w; iw_bytes := iw_bytes w;
          iw_next_bytes := S (iw_next_bytes w) |})
  | Log c => λ w,
      let '(b, a) := Audit.audit_exec (ie_sha256 env) _ c (iw_audit w) in
      (b, {| iw_store := iw_store w; iw_audit := a; iw_clock := iw_clock w; iw_ids := iw_ids w;
             iw_next_id := iw_next_id w; iw_bytes := iw_bytes w;
             iw_next_bytes := iw_next_bytes w |})
  end.

Definition with_clock (t : Z) (w : IdWorld) : IdWorld :=
  {| iw_store := iw_store w; iw_audit := iw_audit w; iw_clock := t; iw_ids := iw_ids w;
     iw_next_id := iw_next_id w; iw_bytes := iw_bytes w; iw_next_bytes := iw_next_bytes w |}.

(** Calls of store methods. *)
Definition store {B} (f : Store → B * Store) : prog IdCmd B := call (StoreCall f).
Definition fetch {B} (f : Store → B) : prog IdCmd B := store (reading f).

(** [time_t] of [system_clock::now()]. *)
Definition seconds (clock : Z) : Z := clock / 1000000000.

(** [nowTimestamp], [nowIso]. *)
Definition now_iso : prog IdCmd string := t ← call Clock; Ret (iso (seconds t)).

(** ** Lemmas on the store *)

Lemma rows_set_eq t m s : rows (set_rows t m s) t = m.
Proof. unfold set_rows; simpl. by destruct t. Qed.

Lemma rows_set_ne t t' m s : t ≠ t' → rows (set_rows t m s) t' = rows s t'.
Proof. intros Hne. unfold set_rows; simpl. by destruct (decide (t = t')). Qed.

(** Only table [t] differs. *)
Definition same_but (t : Table) (s s' : Store) : Prop :=
  initialized s' = initialized s ∧ ∀ t', t' ≠ t → rows s' t' = rows s t'.

#[global] Instance same_but_preorder t : PreOrder (same_but t).
Proof.
  split; [by intros s; split|]. intros s1 s2 s3 [I1 H1] [I2 H2]. split; [congruence|].
  intros t' Ht'. rw H2 // H1 //.
Qed.

Lemma same_but_set t m s : same_but t s (set_rows t m s).
Proof. split; [done|]. intros t' Ht'. by rw rows_set_ne. Qed.

Lemma insert_new_true t id r s s' :
  insert_new t id r s = (true, s') →
  rows s t !! id = None ∧ s' = set_rows t (<[id := r]> (rows s t)) s.
Proof. unfold insert_new. destruct (rows s t !! id); by intros [= <-]. Qed.

Lemma insert_new_false t id r s s' : insert_new t id r s = (false, s') → s' = s.
Proof. unfold insert_new. destruct (rows s t !! id); by intros [= <-]. Qed.

Lemma modify_row_spec t id f s b s' :
  modify_row t id f s = (b, s') →
  match rows s t !! id with
  | Some r => b = true ∧ s' = set_rows t (<[id := f r]> (rows s t)) s
  | None => b = false ∧ s' = s
  end.
Proof. unfold modify_row. destruct (rows s t !! id); by intros [= <- <-]. Qed.

Lemma erase_row_spec t id s b s' :
  erase_row t id s = (b, s') →
  match rows s t !! id with
  | Some _ => b = true ∧ s' = set_rows t (delete id (rows s t)) s
  | None => b = false ∧ s' = s
  end.
Proof. unfold erase_row. destruct (rows s t !! id); by intros [= <- <-]. Qed.

Lemma erase_row_rows t id s :
  same_but t s (erase_row t id s).2 ∧ rows (erase_row t id s).2 t = delete id (rows s t).
Proof.
  unfold erase_row. destruct (rows s t !! id) eqn:Hid; simpl.
  - split; [apply same_but_set|apply rows_set_eq].
  - split; [done|]. by rw delete_id.
Qed.

Lemma insert_new_same t id r s b s' : insert_new t id r s = (b, s') → same_but t s s'.
Proof. unfold insert_new. destruct (rows s t !! id); intros [= <- <-]; [done|apply same_but_set]. Qed.

Lemma modify_row_same t id f s b s' : modify_row t id f s = (b, s') → same_but t s s'.
Proof. unfold modify_row. destruct (rows s t !! id); intros [= <- <-]; [apply same_but_set|done]. Qed.

Lemma erase_row_same t id s b s' : erase_row t id s = (b, s') → same_but t s s'.
Proof. unfold erase_row. destruct (rows s t !! id); intros [= <- <-]; [apply same_but_set|done]. Qed.

Lemma elem_of_all_rows `{UnorderedIter} t s r :
  r ∈ all_rows t s ↔ ∃ id, rows s t !! id = Some r.
Proof.
  unfold all_rows. rw list_elem_of_fmap. split.
  - intros ([id r'] & -> & Hin). exists id. by apply elem_of_iter.
  - intros [id Hid]. exists (id, r). split; [done|]. by apply elem_of_iter.
Qed.

Lemma length_all_rows `{UnorderedIter} t s : length (all_rows t s) = size (rows s t).
Proof. unfold all_rows. by rw length_fmap iter_perm length_map_to_list. Qed.

Lemma page_push {A} limit offset skipped pushed (l : list A) :
  offset <= skipped → 0 <= pushed →
  page limit offset skipped pushed l = take (Z.to_nat (Z.max 1 (limit - pushed))) l.
Proof.
  intros Hs. revert pushed. induction l as [|x l IH]; intros pushed Hp; [by rw take_nil|].
  simpl. rw (proj2 (Z.ltb_ge skipped offset) Hs). destruct (Z.leb_spec limit (pushed + 1)).
  - rw (_ : Z.max 1 (limit - pushed) = 1) //. lia.
  - rw (_ : Z.to_nat (Z.max 1 (limit - pushed)) = S (Z.to_nat (Z.max 1 (limit - (pushed + 1)))));
      [|lia]. rw IH //; lia.
Qed.

Lemma all_rows_insert `{UnorderedIter} t id r s :
  rows s t !! id = None →
  all_rows t (set_rows t (<[id := r]> (rows s t)) s) ≡ₚ r :: all_rows t s.
Proof.
  intros Hid. unfold all_rows. rw rows_set_eq !iter_perm map_to_list_insert //.
Qed.

(** A page is a segment of the rows; a limit below one still gives one row. *)
Lemma page_spec {A} limit offset (l : list A) :
  page limit offset 0 0 l = take (Z.to_nat (Z.max 1 limit)) (drop (Z.to_nat offset) l).
Proof.
  assert (∀ skipped, 0 <= skipped → page limit offset skipped 0 l =
            take (Z.to_nat (Z.max 1 limit)) (drop (Z.to_nat (offset - skipped)) l)) as Hskip.
  { induction l as [|x l IH]; intros skipped Hs; [by rw drop_nil take_nil|].
    destruct (Z.lt_ge_cases skipped offset) as [Hlt|Hge].
    - rw (_ : Z.to_nat (offset - skipped) = S (Z.to_nat (offset - (skipped + 1)))); [|lia].
      cbn [page drop]. rw (proj2 (Z.ltb_lt _ _) Hlt). apply IH. lia.
    - rw page_push //. rw (_ : Z.to_nat (offset - skipped) = 0%nat); [|lia]. by rw Z.sub_0_r. }
  rw Hskip; [|lia]. by rw Z.sub_0_r.
Qed.

(** ** Running the calls *)

Lemma with_store_same w : with_store (iw_store w) w = w.
Proof. by destruct w. Qed.

Section running.
Context (env : IdEnv).

Lemma run_fetch {A B} (f : Store → B) (k : B → prog IdCmd A) w :
  run (id_exec env) (fetch f ≫= k) w = run (id_exec env) (k (f (iw_store w))) w.
Proof. unfold fetch, store. rw run_call. simpl. by rw with_store_same. Qed.

Lemma run_store {A B} (f : Store → B * Store) (k : B → prog IdCmd A) w b s :
  f (iw_store w) = (b, s) →
  run (id_exec env) (store f ≫= k) w = run (id_exec env) (k b) (with_store s w).
Proof. intros Hf. unfold store. rw run_call. simpl. by rw Hf. Qed.

Lemma run_store_only {B} (f : Store → B * Store) w b s :
  f (iw_store w) = (b, s) → run (id_exec env) (store f) w = (b, with_store s w).
Proof. intros Hf. simpl. by rw Hf. Qed.

Lemma run_clock {A} (k : Z → prog IdCmd A) w :
  run (id_exec env) (call Clock ≫= k) w = run (id_exec env) (k (iw_clock w)) w.
Proof. by rw run_call. Qed.

Lemma run_now_iso {A} (k : string → prog IdCmd A) w :
  run (id_exec env) (now_iso ≫= k) w = run (id_exec env) (k (iso (seconds (iw_clock w)))) w.
Proof. done. Qed.

(** A handler alone runs in no time. *)
Lemma run_keeps_clock {A} (p : prog IdCmd A) w : iw_clock (run (id_exec env) p w).2 = iw_clock w.
Proof.
  revert w. induction p as [a|B e k IH]; intros w; [done|]. cbn [run].
  destruct (id_exec env B e w) as [b w1] eqn:He. rw IH.
  destruct e as [C f| | |n|C c]; simpl in He; try by injection He as <- <-.
  - destruct (f (iw_store w)). by injection He as <- <-.
  - destruct (Audit.audit_exec _ _ _ _). by injection He as <- <-.
Qed.

End running.
