(* ===== verification/Auth.v ===== *)
(** * Auth: credentials, sessions and authorization

    Models [src/src/auth/crypto_utils.{h,cpp}] and [authorization.h] there,
    [auth_service.cpp] and [session_manager.cpp], as programs over the calls of
    Identity.  The theorems say exactly which credentials are accepted, that
    a user never holds more sessions than the limit, and when a session is
    still good. *)
From Corelib Require Import PrimFloat.
From stdpp Require Import pretty.
From S2P Require Import Prelude.
From S2P Require Import Prog.
From S2P Require Import AuditLog.
From S2P Require Import IsoTime.
From S2P Require Import Identity.
Import IsoTime.
Local Open Scope Z_scope.

Module Auth.

(** ** crypto_utils *)

Definition base62 : string :=
  "0123456789ABCDEFGHIJKLMNOPQRSTUVWXYZabcdefghijklmnopqrstuvwxyz".

Definition base62_char (b : Z) : ascii :=
  default "0"%char (String.get (Z.to_nat (b mod 62)) base62).

(** [None] is the exception of a failed [RAND_bytes]. *)
Definition key_text (buf : list Z) : string :=
  "sk-" +:+ String.string_of_list_ascii (base62_char <$> buf).

Definition generateApiKey : prog IdCmd (option string) :=
  buf ← call (RandBytes 33); Ret (option_map key_text buf).

Definition extractKeyPrefix (key : string) : string :=
  if (String.length key <? 8)%nat then key else String.substring 0 8 key.

Definition hashApiKey (env : IdEnv) (key : string) : string := ie_sha256 env key.

Definition verifyApiKey (key_hash candidate_hash : string) : bool :=
  bool_decide (key_hash = candidate_hash).

(** ** authorization.h *)

Definition requireRole (ctx : AuthContext) (required : Role) : bool :=
  if negb (c_is_rbac_enabled ctx) then true
  else role_rank required <=? role_rank (c_role ctx).

Definition requireTenantAccess (ctx : AuthContext) (target_tenant_id : string) : bool :=
  if negb (c_is_rbac_enabled ctx) then true
  else if decide (c_role ctx = SuperAdmin) then true
  else bool_decide (c_tenant_id ctx = target_tenant_id).

Definition authorize (ctx : AuthContext) (required : Role) (target_tenant_id : string) : bool :=
  requireRole ctx required && requireTenantAccess ctx target_tenant_id.

Definition canGrantRole (ctx : AuthContext) (target : Role) : bool :=
  if negb (c_is_rbac_enabled ctx) then true
  else role_rank target <=? role_rank (c_role ctx).

(** ** The service's dependencies *)

Record AuthConfig := {
  authApiKeys : list string;
  adminApiKey : string;
  sessionAbsoluteTimeoutSeconds : Z;
  sessionIdleTimeoutSeconds : Z;
  sessionMaxConcurrent : Z;
  mfaEnforcement : string;
  ssoEnabled : bool;
}.

(** [config_], the two features of [gate_], and what [std::get_time] and
    [timegm] make of a text that is not a timestamp. *)
Record AuthDeps := {
  ad_config : option AuthConfig;
  ad_rbac : bool;
  ad_sso : bool;
  ad_partial_time : string → Z;
}.

Section service.
Context `{UnorderedIter} (env : IdEnv) (deps : AuthDeps).

(** ** SessionManager *)

(** Two digits of lower-case hexadecimal. *)
Definition hex_digit (n : Z) : ascii :=
  default "0"%char (String.get (Z.to_nat n) "0123456789abcdef").
Definition hex_byte (b : Z) : string := String (hex_digit (b / 16)) (String (hex_digit (b mod 16)) "").

Definition hex_text (buf : list Z) : string := foldr String.append "" (hex_byte <$> buf).

Definition generateSessionId : prog IdCmd (option string) :=
  buf ← call (RandBytes 16); Ret (option_map hex_text buf).

Definition expiresAtIso : prog IdCmd string :=
  let timeout := from_option sessionAbsoluteTimeoutSeconds 28800 (ad_config deps) in
  t ← call Clock;
  Ret (iso (seconds (t + timeout * 1000000000))).

(** A time point, in nanoseconds. *)
Definition parseIso (ts : string) : Z :=
  from_option timegm (ad_partial_time deps ts) (get_time ts) * 1000000000.

Definition isExpired (s : Session) : prog IdCmd bool :=
  if str_empty (s_expires_at s) then Ret false
  else t ← call Clock; Ret (parseIso (s_expires_at s) <=? t).

Definition isIdleTimeout (s : Session) : prog IdCmd bool :=
  let timeout := from_option sessionIdleTimeoutSeconds 3600 (ad_config deps) in
  if timeout <=? 0 then Ret false
  else
    let ts := if str_empty (s_last_active_at s) then s_created_at s else s_last_active_at s in
    if str_empty ts then Ret false
    else t ← call Clock; Ret (parseIso ts + timeout * 1000000000 <=? t).

Definition enforceLimit (user_id : string) : prog IdCmd unit :=
  let max_concurrent := from_option sessionMaxConcurrent 5 (ad_config deps) in
  if max_concurrent <=? 0 then Ret tt
  else
    count ← fetch (countSessionsByUser user_id);
    if count <? max_concurrent then Ret tt
    else
      sessions ← fetch (listSessionsByUser user_id);
      let sessions := std_sort (λ a b, str_ltb (s_created_at a) (s_created_at b)) sessions in
      let to_delete := count - max_concurrent + 1 in
      for_each (λ s, store (deleteSession (s_id s));; Ret tt) (take (Z.to_nat to_delete) sessions).

(** [None] is the exception of a failed [RAND_bytes], [Some None] the return
    of [nullopt]. *)
Definition createSession (user_id tenant_id auth_method ip_address user_agent : string) :
    prog IdCmd (option (option Session)) :=
  enforceLimit user_id;;
  id ← generateSessionId;
  match id with
  | None => Ret None
  | Some id =>
      created_at ← now_iso;
      expires_at ← expiresAtIso;
      let s := {| s_id := id; s_user_id := user_id; s_tenant_id := tenant_id;
                  s_ip_address := ip_address; s_user_agent := user_agent;
                  s_auth_method := auth_method; s_mfa_verified := false;
                  s_created_at := created_at; s_last_active_at := created_at;
                  s_expires_at := expires_at |} in
      inserted ← store (insertSession s);
      Ret (Some (if inserted : bool then Some s else None))
  end.

Definition touchSession (session_id : string) : prog IdCmd bool :=
  ts ← now_iso; store (updateSessionActivity session_id ts).

Definition get_session (session_id : string) : prog IdCmd (option Session) :=
  s ← fetch (getSession session_id);
  match s with
  | None => Ret None
  | Some s =>
      expired ← isExpired s;
      if expired : bool then Ret None
      else
        idle ← isIdleTimeout s;
        if idle : bool then Ret None
        else
          touchSession session_id;;
          ts ← now_iso;
          Ret (Some (set_s_activity ts s))
  end.

Definition setMfaVerified (session_id : string) (verified : bool) : prog IdCmd bool :=
  store (updateSessionMfaVerified session_id verified).

(** [deleteSession], [deleteExpiredSessions] (whose [cutoffTimestamp(0)] is
    the current time), [listUserSessions] and [deleteAllUserSessions]. *)
Definition delete_session (session_id : string) : prog IdCmd bool :=
  store (deleteSession session_id).
Definition delete_expired_sessions : prog IdCmd Z :=
  ts ← now_iso; store (deleteExpiredSessions ts).
Definition listUserSessions (user_id : string) : prog IdCmd (list Session) :=
  fetch (listSessionsByUser user_id).

Fixpoint delete_each (l : list Session) (deleted : Z) : prog IdCmd Z :=
  match l with
  | [] => Ret deleted
  | s :: l =>
      gone ← store (deleteSession (s_id s));
      delete_each l (if gone : bool then deleted + 1 else deleted)
  end.
Definition deleteAllUserSessions (user_id : string) : prog IdCmd Z :=
  sessions ← fetch (listSessionsByUser user_id); delete_each sessions 0.

(** ** AuthService *)

Definition isRbacEnabled : bool := ad_rbac deps.

Definition isReservedSystemUser (user_id : string) : bool :=
  bool_decide (user_id = "system.autorollback").

(** The checks on the key whose hash matched. *)
Definition check_key (key : ApiKeyRecord) : prog IdCmd (option AuthContext) :=
  if decide (k_status key = "revoked") then Ret None
  else if decide (k_status key = "expired") then Ret None
  else
    late ← (if str_empty (k_expires_at key) then Ret false
            else ts ← now_iso; Ret (str_ltb (k_expires_at key) ts));
    if late : bool then Ret None
    else
      user ← fetch (getUser (k_user_id key));
      match user with
      | None => Ret None
      | Some user =>
          if decide (u_status user = "active") then
            tenant ← fetch (getTenant (k_tenant_id key));
            match tenant with
            | None => Ret None
            | Some tenant =>
                if decide (t_status tenant = "active") then
                  Ret (Some
                    {| c_tenant_id := k_tenant_id key; c_user_id := k_user_id key;
                       c_api_key_id := k_id key; c_role := k_role key;
                       c_is_rbac_enabled := true; c_session_id := ""; c_auth_method := "";
                       c_mfa_verified := false; c_external_subject := "" |})
                else Ret None
            end
          else Ret None
      end.

Fixpoint resolve_candidates (token_hash : string) (l : list ApiKeyRecord) :
    prog IdCmd (option AuthContext) :=
  match l with
  | [] => Ret None
  | key :: l =>
      if verifyApiKey (k_key_hash key) token_hash then check_key key
      else resolve_candidates token_hash l
  end.

Definition resolveRbac (token : string) : prog IdCmd (option AuthContext) :=
  candidates ← fetch (getApiKeysByPrefix (extractKeyPrefix token));
  resolve_candidates (hashApiKey env token) candidates.

Definition legacy_context : AuthContext :=
  {| c_tenant_id := ""; c_user_id := ""; c_api_key_id := ""; c_role := SuperAdmin;
     c_is_rbac_enabled := false; c_session_id := ""; c_auth_method := "";
     c_mfa_verified := false; c_external_subject := "" |}.

Definition resolveLegacy (token : string) : option AuthContext :=
  match ad_config deps with
  | None => None
  | Some cfg =>
      let token_hash := ie_sha256 env token in
      if existsb (λ configured, bool_decide (token_hash = ie_sha256 env configured))
           (authApiKeys cfg)
      then Some legacy_context
      else if negb (str_empty (adminApiKey cfg)) &&
              bool_decide (token_hash = ie_sha256 env (adminApiKey cfg))
      then Some legacy_context
      else None
  end.

Definition resolve (bearer_token : string) : prog IdCmd (option AuthContext) :=
  if str_empty bearer_token then Ret None
  else
    ctx ← (if isRbacEnabled then resolveRbac bearer_token else Ret (resolveLegacy bearer_token));
    match ctx with
    | Some ctx => if isReservedSystemUser (c_user_id ctx) then Ret None else Ret (Some ctx)
    | None => Ret None
    end.

Definition resolveSession (session_id : string) : prog IdCmd (option AuthContext) :=
  if str_empty session_id then Ret None
  else
    session ← get_session session_id;
    match session with
    | None => Ret None
    | Some session =>
        user ← fetch (getUser (s_user_id session));
        match user with
        | None => Ret None
        | Some user =>
            if decide (u_status user = "active") then
              tenant ← fetch (getTenant (s_tenant_id session));
              match tenant with
              | None => Ret None
              | Some tenant =>
                  if decide (t_status tenant = "active") then
                    Ret (Some
                      {| c_tenant_id := s_tenant_id session; c_user_id := s_user_id session;
                         c_api_key_id := ""; c_role := u_role user; c_is_rbac_enabled := true;
                         c_session_id := s_id session; c_auth_method := s_auth_method session;
                         c_mfa_verified := s_mfa_verified session; c_external_subject := "" |})
                  else Ret None
              end
            else Ret None
        end
    end.

Definition isSsoEnabled (tenant_id : string) : prog IdCmd bool :=
  if negb (from_option ssoEnabled false (ad_config deps)) then Ret false
  else if negb (ad_sso deps) then Ret false
  else provider ← fetch (getSsoProviderByTenant tenant_id); Ret (bool_decide (is_Some provider)).

Definition isMfaRequired (ctx : AuthContext) : bool :=
  match ad_config deps with
  | None => false
  | Some cfg =>
      if decide (mfaEnforcement cfg = "disabled") then false
      else if decide (mfaEnforcement cfg = "required") then true
      else if decide (mfaEnforcement cfg = "optional") then false
      else role_rank TenantAdmin <=? role_rank (c_role ctx)
  end.

End service.

(** ** Lemmas on the service *)

(** The key is the one of the token, and it is good now. *)
Definition key_opens (env : IdEnv) (token : string) (k : ApiKeyRecord) : Prop :=
  k_key_prefix k = extractKeyPrefix token ∧ k_key_hash k = ie_sha256 env token.

Definition key_usable (s : Store) (now : Z) (k : ApiKeyRecord) : Prop :=
  k_status k ≠ "revoked" ∧ k_status k ≠ "expired" ∧
  (k_expires_at k = "" ∨ str_ltb (k_expires_at k) (iso now) = false) ∧
  (∃ u, getUser (k_user_id k) s = Some u ∧ u_status u = "active") ∧
  (∃ t, getTenant (k_tenant_id k) s = Some t ∧ t_status t = "active").

Definition key_context (k : ApiKeyRecord) : AuthContext :=
  {| c_tenant_id := k_tenant_id k; c_user_id := k_user_id k; c_api_key_id := k_id k;
     c_role := k_role k; c_is_rbac_enabled := true; c_session_id := ""; c_auth_method := "";
     c_mfa_verified := false; c_external_subject := "" |}.

(** No two keys have the same hash. *)
Definition hashes_unique (s : Store) : Prop :=
  ∀ id1 id2 k1 k2, rows s ApiKeys !! id1 = Some k1 → rows s ApiKeys !! id2 = Some k2 →
    k_key_hash k1 = k_key_hash k2 → k1 = k2.

(** A refusal, when what acceptance needs is not there. *)
Ltac refuse := exists None; split; [done|]; intros ctx; split; [done|].

Section lemmas.
Context `{UnorderedIter} (env : IdEnv) (deps : AuthDeps).

Lemma run_late k w :
  run (id_exec env)
    (if str_empty (k_expires_at k) then Ret false
     else ts ← now_iso; Ret (str_ltb (k_expires_at k) ts)) w =
  (negb (str_empty (k_expires_at k)) &&
   str_ltb (k_expires_at k) (iso (seconds (iw_clock w))), w).
Proof. by destruct (str_empty (k_expires_at k)). Qed.

Lemma run_check_key k w :
  ∃ r, run (id_exec env) (check_key k) w = (r, w) ∧
    (∀ ctx, r = Some ctx ↔ ctx = key_context k ∧ key_usable (iw_store w) (seconds (iw_clock w)) k).
Proof.
  unfold check_key, key_usable.
  case_decide as Hr; [refuse; by intros (_ & ? & _)|].
  case_decide as He; [refuse; by intros (_ & _ & ? & _)|].
  rw run_bind run_late. destruct (negb _ && _) eqn:Hlate.
  { refuse. intros (_ & _ & _ & Hexp & _).
    apply andb_prop in Hlate as [Hne Hlt]. bools. destruct Hexp as [?|?]; congruence. }
  assert (k_expires_at k = "" ∨ str_ltb (k_expires_at k) (iso (seconds (iw_clock w))) = false) as Hok.
  { apply andb_false_iff in Hlate as [Hn|?]; [left|by right]. bools. done. }
  rw run_fetch. destruct (getUser (k_user_id k) (iw_store w)) as [u|] eqn:Hu;
    [|refuse; by intros (_ & _ & _ & _ & (? & ? & _) & _)].
  case_decide as Hus; [|refuse; intros (_ & _ & _ & _ & (? & ? & ?) & _); congruence].
  rw run_fetch. destruct (getTenant (k_tenant_id k) (iw_store w)) as [t|] eqn:Ht;
    [|refuse; by intros (_ & _ & _ & _ & _ & (? & ? & _))].
  case_decide as Hts; [|refuse; intros (_ & _ & _ & _ & _ & (? & ? & ?)); congruence].
  exists (Some (key_context k)). split; [done|]. intros ctx. split; [|by intros [-> _]].
  intros [= <-]. split_and!; eauto.
Qed.

Lemma run_resolve_candidates hash l w :
  run (id_exec env) (resolve_candidates hash l) w =
  match list_find (λ k, k_key_hash k = hash) l with
  | Some (_, k) => run (id_exec env) (check_key k) w
  | None => (None, w)
  end.
Proof.
  induction l as [|k l IH]; [done|]. simpl. unfold verifyApiKey.
  case_bool_decide as Hk; [by rw decide_True|]. rw decide_False // IH.
  by destruct (list_find _ l) as [[? ?]|].
Qed.

(** What an accepted token is accepted for. *)
Lemma resolve_rbac_spec token w :
  hashes_unique (iw_store w) →
  ∃ r, run (id_exec env) (resolveRbac env token) w = (r, w) ∧
    ∀ ctx, r = Some ctx ↔
      ∃ id k, rows (iw_store w) ApiKeys !! id = Some k ∧ key_opens env token k ∧
        key_usable (iw_store w) (seconds (iw_clock w)) k ∧ ctx = key_context k.
Proof.
  intros Huniq. unfold resolveRbac. rw run_fetch run_resolve_candidates.
  unfold hashApiKey, getApiKeysByPrefix.
  destruct (list_find _ _) as [[i k]|] eqn:Hfind.
  - apply list_find_Some in Hfind as (Hi & Hhash & _).
    apply list_elem_of_lookup_2, list_elem_of_filter in Hi as [Hpre [id Hid]%(elem_of_all_rows ApiKeys)].
    destruct (run_check_key k w) as (r & -> & Hr). exists r. split; [done|]. intros ctx.
    rw Hr. split; [intros [-> Hu]; by exists id, k|].
    intros (id' & k' & Hid' & [_ Hhash'] & Hu & ->).
    assert (k = k') as -> by (apply (Huniq id id'); [done|done|by rw Hhash]). done.
  - apply list_find_None in Hfind. exists None. split; [done|]. intros ctx. split; [done|].
    intros (id & k & Hid & [Hpre Hhash] & _). rw Forall_forall in Hfind.
    exfalso. apply (Hfind k); [|done]. apply list_elem_of_filter. split; [done|].
    apply (elem_of_all_rows ApiKeys). by exists id.
Qed.

(** The same for [resolve] with RBAC on, which refuses the system user. *)
Lemma resolve_spec token w :
  ad_rbac deps = true → token ≠ "" → hashes_unique (iw_store w) →
  ∃ r, run (id_exec env) (resolve env deps token) w = (r, w) ∧
    ∀ ctx, r = Some ctx ↔
      ∃ id k, rows (iw_store w) ApiKeys !! id = Some k ∧ key_opens env token k ∧
        key_usable (iw_store w) (seconds (iw_clock w)) k ∧
        k_user_id k ≠ "system.autorollback" ∧ ctx = key_context k.
Proof.
  intros Hrbac Htok Huniq. unfold resolve, isRbacEnabled. rw (proj2 (str_empty_false _) Htok) Hrbac.
  rw run_bind. destruct (resolve_rbac_spec token w Huniq) as (r & -> & Hr).
  exists (match r with
          | Some c => if isReservedSystemUser (c_user_id c) then None else Some c
          | None => None
          end).
  split; [destruct r as [c|]; [by destruct (isReservedSystemUser _)|done]|].
  intros ctx. transitivity (r = Some ctx ∧ c_user_id ctx ≠ "system.autorollback").
  - unfold isReservedSystemUser. destruct r as [c|]; [|naive_solver].
    case_bool_decide; naive_solver.
  - rw Hr. naive_solver.
Qed.

(** A stored key, through the token that opens it. *)
Lemma resolve_key token id k w :
  ad_rbac deps = true → token ≠ "" → hashes_unique (iw_store w) →
  rows (iw_store w) ApiKeys !! id = Some k → key_opens env token k →
  (key_usable (iw_store w) (seconds (iw_clock w)) k → k_user_id k ≠ "system.autorollback" →
   run (id_exec env) (resolve env deps token) w = (Some (key_context k), w)) ∧
  (k_status k = "revoked" → run (id_exec env) (resolve env deps token) w = (None, w)).
Proof.
  intros Hrbac Htok Huniq Hk Ho. destruct (resolve_spec token w) as (r & -> & Hr); [done..|]. split.
  - intros Hu Hs. rw (proj2 (Hr (key_context k))) //. by exists id, k.
  - intros Hrev. destruct r as [c|]; [|done]. exfalso.
    destruct (proj1 (Hr c) eq_refl) as (id' & k' & Hk' & [_ Ho'] & [Hst _] & _).
    assert (k' = k) as -> by (apply (Huniq id' id); [done|done|by rw Ho'; destruct Ho]). done.
Qed.

(** Times that the session manager writes. *)
Definition time_ok (t : Z) : Prop := 0 <= t < year_10000.

Lemma parse_iso t : time_ok t → parseIso deps (iso t) = t * 1000000000.
Proof.
  intros Ht. unfold parseIso, iso. rw get_time_strftime; [|by apply gmtime_range].
  simpl. by rw timegm_gmtime.
Qed.

Lemma iso_nonempty t : str_empty (iso t) = false.
Proof.
  apply str_empty_false. unfold iso, strftime. intros Hnil. apply (f_equal String.length) in Hnil.
  rw !string_length_app in Hnil. simpl in Hnil. lia.
Qed.

Definition idle_limit : Z := from_option sessionIdleTimeoutSeconds 3600 (ad_config deps).
Definition absolute_limit : Z := from_option sessionAbsoluteTimeoutSeconds 28800 (ad_config deps).

Lemma run_isExpired x e w :
  s_expires_at x = iso e → time_ok e →
  run (id_exec env) (isExpired deps x) w = (e * 1000000000 <=? iw_clock w, w).
Proof.
  intros He Ht. unfold isExpired. rw He iso_nonempty run_clock. simpl. by rw parse_iso.
Qed.

Lemma run_isIdleTimeout x a w :
  s_last_active_at x = iso a → time_ok a →
  run (id_exec env) (isIdleTimeout deps x) w =
  ((0 <? idle_limit) && ((a + idle_limit) * 1000000000 <=? iw_clock w), w).
Proof.
  intros Ha Ht. unfold isIdleTimeout. fold idle_limit. rw Ha iso_nonempty iso_nonempty.
  destruct (Z.leb_spec idle_limit 0); [rw (proj2 (Z.ltb_ge 0 _)) //|].
  rw (proj2 (Z.ltb_lt 0 _)) // run_clock. simpl. rw parse_iso // Z.mul_add_distr_r //.
Qed.

(** A stored session as the manager reads it: last active at [a], good until
    [e]. *)
Lemma run_get_session id x a e w :
  rows (iw_store w) Sessions !! id = Some x →
  s_last_active_at x = iso a → s_expires_at x = iso e → time_ok a → time_ok e →
  run (id_exec env) (get_session deps id) w =
  if (iw_clock w <? e * 1000000000) &&
     ((idle_limit <=? 0) || (iw_clock w <? (a + idle_limit) * 1000000000))
  then let x' := set_s_activity (iso (seconds (iw_clock w))) x in
       (Some x', with_store (set_rows Sessions (<[id := x']> (rows (iw_store w) Sessions))
                               (iw_store w)) w)
  else (None, w).
Proof.
  intros Hx Ha He Hat Het. unfold get_session. rw run_fetch {1}/getSession Hx.
  rw run_bind (run_isExpired _ e) // Z.leb_antisym.
  destruct (iw_clock w <? e * 1000000000); [|done]. cbn [negb andb].
  rw run_bind (run_isIdleTimeout _ a) //.
  destruct (Z.ltb_spec 0 idle_limit), (Z.leb_spec idle_limit 0); try lia; cbn [andb orb].
  1: destruct (Z.leb_spec ((a + idle_limit) * 1000000000) (iw_clock w)),
       (Z.ltb_spec (iw_clock w) ((a + idle_limit) * 1000000000)); try lia; [done|].
  all: unfold touchSession, updateSessionActivity, modify_row; rw run_bind run_now_iso;
    erewrite run_store_only; [|by rw Hx]; by rw run_now_iso.
Qed.

End lemmas.

(** *** The limit on sessions *)

Definition user_sessions `{UnorderedIter} (user_id : string) (s : Store) : list Session :=
  base.filter (λ x, s_user_id x = user_id) (all_rows Sessions s).

Definition oldest_first (l : list Session) : list Session :=
  std_sort (λ a b, str_ltb (s_created_at a) (s_created_at b)) l.

(** Rows are stored under their identifier. *)
Definition sessions_keyed (s : Store) : Prop :=
  ∀ id x, rows s Sessions !! id = Some x → s_id x = id.

Definition delete_all (l : list Session) (m : gmap string Session) : gmap string Session :=
  foldl (λ m x, delete (s_id x) m) m l.

Lemma lookup_delete_all l m id :
  delete_all l m !! id = if bool_decide (id ∈ s_id <$> l) then None else m !! id.
Proof.
  revert m. induction l as [|x l IH]; intros m; [done|]. simpl. rw IH.
  destruct (decide (id ∈ s_id <$> l)); [by rw !bool_decide_true //; set_solver|].
  rw (bool_decide_false (id ∈ _)) //. destruct (decide (id = s_id x)) as [->|Hne].
  - by rw lookup_delete_eq bool_decide_true; [|set_solver].
  - rw lookup_delete_ne // bool_decide_false //. set_solver.
Qed.

Lemma run_delete_each env l w :
  ∃ s', run (id_exec env) (for_each (λ s, store (deleteSession (s_id s));; Ret tt) l) w =
      (tt, with_store s' w) ∧
    same_but Sessions (iw_store w) s' ∧
    rows s' Sessions = delete_all l (rows (iw_store w) Sessions).
Proof.
  revert w. induction l as [|x l IH]; intros w.
  { exists (iw_store w). by rw with_store_same. }
  cbn [for_each]. destruct (erase_row_rows Sessions (s_id x) (iw_store w)) as [Hsame Hrows].
  destruct (deleteSession (s_id x) (iw_store w)) as [b s1] eqn:Hd.
  unfold deleteSession in Hd. rw Hd in Hsame Hrows.
  rw run_bind (run_store _ _ _ _ b s1) //.
  change (run (id_exec env) (Ret tt) (with_store s1 w)) with (tt, with_store s1 w). cbv iota beta.
  destruct (IH (with_store s1 w)) as (s' & -> & Hsame' & Hrows'). exists s'.
  split_and!; [done|by etrans|]. rw Hrows' /=. simpl in Hrows. by rw Hrows.
Qed.

Section limit.
Context `{UnorderedIter} (env : IdEnv) (deps : AuthDeps).

Definition max_sessions : Z := from_option sessionMaxConcurrent 5 (ad_config deps).

Lemma elem_of_user_sessions user s x :
  x ∈ user_sessions user s ↔ s_user_id x = user ∧ ∃ id, rows s Sessions !! id = Some x.
Proof. unfold user_sessions. by rw list_elem_of_filter (elem_of_all_rows Sessions). Qed.

Lemma NoDup_user_session_ids user s :
  sessions_keyed s → NoDup (s_id <$> user_sessions user s).
Proof.
  intros Hk. unfold user_sessions, all_rows.
  eapply (sublist_NoDup _ (s_id <$> (snd <$> iter (rows s Sessions)))).
  - rw -list_fmap_compose. rw (list_fmap_ext _ fst); [|].
    + apply NoDup_iter.
    + intros i [id x] Hi. simpl. apply (Hk id), elem_of_iter. by eapply list_elem_of_lookup_2.
  - apply fmap_sublist, sublist_filter.
Qed.

(** What is left of the user's sessions when the rows of [evicted] go. *)
Lemma delete_all_user user s s' evicted kept :
  sessions_keyed s → user_sessions user s ≡ₚ evicted ++ kept →
  rows s' Sessions = delete_all evicted (rows s Sessions) →
  user_sessions user s' ≡ₚ kept ∧ sessions_keyed s' ∧
  (∀ id x, s_user_id x ≠ user → rows s' Sessions !! id = Some x ↔ rows s Sessions !! id = Some x).
Proof.
  intros Hk Hperm Hrows.
  assert (NoDup (s_id <$> (evicted ++ kept))) as Hnd.
  { rw -Hperm. by apply NoDup_user_session_ids. }
  assert (sessions_keyed s') as Hk'.
  { intros id x. rw Hrows lookup_delete_all. case_bool_decide; [done|]. apply Hk. }
  rw fmap_app in Hnd. apply NoDup_app in Hnd as (_ & Hdis & Hkept).
  split_and!; [|done|].
  - apply NoDup_Permutation.
    + eapply NoDup_fmap_1. by apply NoDup_user_session_ids.
    + by eapply NoDup_fmap_1.
    + intros x. rw elem_of_user_sessions Hrows. split.
      * intros [Hu [id Hid]]. rw lookup_delete_all in Hid. case_bool_decide as Hin; [done|].
        assert (x ∈ evicted ++ kept) as [He|]%elem_of_app; [|exfalso|done].
        { rw -Hperm. apply elem_of_user_sessions. eauto. }
        apply Hin. rw -(Hk _ _ Hid). by apply list_elem_of_fmap_2.
      * intros Hx. assert (x ∈ user_sessions user s) as [Hu [id Hid]]%elem_of_user_sessions.
        { rw Hperm. apply elem_of_app. by right. }
        split; [done|]. exists id. rw lookup_delete_all bool_decide_false //.
        intros Hin. apply (Hdis id Hin). rw -(Hk _ _ Hid). by apply list_elem_of_fmap_2.
  - intros id x Hu. rw Hrows lookup_delete_all. case_bool_decide as Hin; [|done].
    split; [done|]. intros Hid. exfalso.
    apply list_elem_of_fmap in Hin as (y & -> & Hy).
    assert (y ∈ user_sessions user s) as [Hyu [id' Hid']]%elem_of_user_sessions.
    { rw Hperm. apply elem_of_app. by left. }
    rw (Hk _ _ Hid') in Hid. congruence.
Qed.

Lemma run_enforceLimit user w :
  sessions_keyed (iw_store w) → 0 < max_sessions →
  ∃ s' evicted kept,
    run (id_exec env) (enforceLimit deps user) w = (tt, with_store s' w) ∧
    same_but Sessions (iw_store w) s' ∧ sessions_keyed s' ∧
    user_sessions user (iw_store w) ≡ₚ evicted ++ kept ∧ user_sessions user s' ≡ₚ kept ∧
    Z.of_nat (length kept) < max_sessions ∧
    (∀ e k, e ∈ evicted → k ∈ kept → str_ltb (s_created_at k) (s_created_at e) = false) ∧
    (∀ id x, s_user_id x ≠ user →
       rows s' Sessions !! id = Some x ↔ rows (iw_store w) Sessions !! id = Some x).
Proof.
  intros Hk Hmax. unfold enforceLimit. fold max_sessions.
  rw (proj2 (Z.leb_gt _ _) Hmax) run_fetch.
  change (countSessionsByUser user (iw_store w)) with
    (Z.of_nat (length (user_sessions user (iw_store w)))).
  destruct (Z.ltb_spec (Z.of_nat (length (user_sessions user (iw_store w)))) max_sessions) as [Hlt|Hge].
  { exists (iw_store w), [], (user_sessions user (iw_store w)). rw with_store_same.
    split_and!; try done. by intros e k ?%not_elem_of_nil. }
  rw run_fetch.
  set (sorted := std_sort _ (listSessionsByUser user (iw_store w))).
  assert (sorted ≡ₚ user_sessions user (iw_store w)) as Hperm.
  { unfold sorted, listSessionsByUser. by rw !std_sort_perm. }
  set (n := Z.to_nat _).
  destruct (run_delete_each env (take n sorted) w) as (s' & Hrun & Hsame & Hrows).
  destruct (delete_all_user user (iw_store w) s' (take n sorted) (drop n sorted))
    as (Hkept & Hk' & Hothers); [done|by rw take_drop Hperm|done|].
  exists s', (take n sorted), (drop n sorted).
  split_and!; try done; [by rw take_drop Hperm| |].
  - rw length_drop Hperm. unfold n. lia.
  - intros e k He Hkd. pose proof (std_sort_sorted (λ a b, str_ltb (s_created_at a) (s_created_at b))
      (listSessionsByUser user (iw_store w))) as Hs. fold sorted in Hs.
    rw -(take_drop n sorted) in Hs.
    by apply (StronglySorted_app_1_elem_of _ _ _ e k Hs).
Qed.

End limit.

Section sessions.
Context `{UnorderedIter} (env : IdEnv) (deps : AuthDeps).

Lemma seconds_later t n : seconds (t + n * 1000000000) = seconds t + n.
Proof. unfold seconds. by rw Z.div_add. Qed.

(** The session that a login at clock [t] gets. *)
Definition new_session (id user tenant auth_method ip agent : string) (t : Z) : Session :=
  {| s_id := id; s_user_id := user; s_tenant_id := tenant; s_ip_address := ip;
     s_user_agent := agent; s_auth_method := auth_method; s_mfa_verified := false;
     s_created_at := iso (seconds t); s_last_active_at := iso (seconds t);
     s_expires_at := iso (seconds t + absolute_limit deps) |}.

Lemma run_createSession user tenant auth_method ip agent w r w' :
  run (id_exec env) (createSession deps user tenant auth_method ip agent) w = (Some (Some r), w') →
  ∃ id s1 w1,
    run (id_exec env) (enforceLimit deps user) w = (tt, w1) ∧ s1 = iw_store w1 ∧
    r = new_session id user tenant auth_method ip agent (iw_clock w1) ∧
    rows s1 Sessions !! id = None ∧
    iw_store w' = set_rows Sessions (<[id := r]> (rows s1 Sessions)) s1.
Proof.
  unfold createSession. rw run_bind.
  destruct (run (id_exec env) (enforceLimit deps user) w) as [[] w1].
  unfold generateSessionId. rw run_bind. rw run_call. cbn [run id_exec fst snd].
  destruct (iw_bytes w1 (iw_next_bytes w1)) as [f|]; [|done].
  cbn [option_map fmap option_fmap]. set (id := hex_text _). set (w2 := Build_IdWorld _ _ _ _ _ _ _).
  rw run_now_iso. unfold expiresAtIso. rw run_bind run_clock. cbn [run].
  rw seconds_later. fold (absolute_limit deps).
  change (iw_clock w2) with (iw_clock w1).
  fold (new_session id user tenant auth_method ip agent (iw_clock w1)).
  set (x := new_session _ _ _ _ _ _ _).
  destruct (insertSession x (iw_store w2)) as [b s2] eqn:Hins.
  rw (run_store _ _ _ _ b s2) //. destruct b; [|done]. cbn [run].
  intros [= <- <-]. exists id, (iw_store w1), w1. split_and!; try done.
  - unfold insertSession, insert_init in Hins. destruct (initialized _); [|done].
    by apply insert_new_true in Hins as [? _].
  - unfold insertSession, insert_init in Hins. destruct (initialized _); [|done].
    by apply insert_new_true in Hins as [_ ->].
Qed.

(** Requests with the session cookie at the given times: which ones are let
    in. *)
Fixpoint accesses (id : string) (ts : list Z) (w : IdWorld) : list bool :=
  match ts with
  | [] => []
  | t :: ts =>
      let '(r, w) := run (id_exec env) (get_session deps id) (with_clock t w) in
      bool_decide (is_Some r) :: accesses id ts w
  end.

(** The same, from the second [a] of the last activity and the second [e] of
    the expiry. *)
Fixpoint lifetime (idle e a : Z) (ts : list Z) : list bool :=
  match ts with
  | [] => []
  | t :: ts =>
      let good := (t <? e * 1000000000) && ((idle <=? 0) || (t <? (a + idle) * 1000000000)) in
      good :: lifetime idle e (if good then seconds t else a) ts
  end.

Lemma accesses_lifetime id ts x a e w :
  rows (iw_store w) Sessions !! id = Some x →
  s_last_active_at x = iso a → s_expires_at x = iso e → time_ok a → time_ok e →
  Forall (λ t, time_ok (seconds t)) ts →
  accesses id ts w = lifetime (idle_limit deps) e a ts.
Proof.
  intros Hx Ha He Hat Het Hts. revert x a w Hx Ha He Hat.
  induction Hts as [|t ts Ht _ IH]; intros x a w Hx Ha He Hat; [done|]. cbn [accesses lifetime].
  rw (run_get_session env deps id x a e (with_clock t w)) //.
  cbn [iw_clock with_clock]. destruct (_ && _).
  - f_equal. apply (IH (set_s_activity (iso (seconds t)) x)); [|done|done|done].
    cbn [iw_store with_store]. by rw rows_set_eq lookup_insert_eq.
  - f_equal. by apply (IH x).
Qed.

(** With a clock that does not go back, a refused session stays refused. *)
Lemma lifetime_refused idle e a t ts :
  (t <? e * 1000000000) && ((idle <=? 0) || (t <? (a + idle) * 1000000000)) = false →
  Forall (λ t', t <= t') ts → lifetime idle e a ts = replicate (length ts) false.
Proof.
  intros Hno Hts. induction Hts as [|t' ts Ht _ IH]; [done|]. cbn [lifetime length replicate].
  assert ((t' <? e * 1000000000) && ((idle <=? 0) || (t' <? (a + idle) * 1000000000)) = false) as ->;
    [|by rw IH].
  bools. destruct Hno as [?|[? ?]]; [left|right; split]; (done || lia).
Qed.

Lemma lifetime_prefix idle e a ts :
  StronglySorted Z.le ts →
  ∃ n m, lifetime idle e a ts = replicate n true ++ replicate m false.
Proof.
  intros Hs. revert a. induction Hs as [|t ts _ IH Hall]; intros a; [by exists 0%nat, 0%nat|].
  cbn [lifetime]. destruct (_ && _) eqn:Hgood.
  - destruct (IH (seconds t)) as (n & m & ->). by exists (S n), m.
  - exists 0%nat, (S (length ts)). by rw (lifetime_refused _ _ _ _ _ Hgood Hall).
Qed.

End sessions.

(** *** Sessions as contexts *)

Definition session_context (x : Session) (u : User) : AuthContext :=
  {| c_tenant_id := s_tenant_id x; c_user_id := s_user_id x; c_api_key_id := "";
     c_role := u_role u; c_is_rbac_enabled := true; c_session_id := s_id x;
     c_auth_method := s_auth_method x; c_mfa_verified := s_mfa_verified x;
     c_external_subject := "" |}.

Section contexts.
Context `{UnorderedIter} (env : IdEnv) (deps : AuthDeps).

Lemma run_timeout_checks x w :
  ∃ b c, run (id_exec env) (isExpired deps x) w = (b, w) ∧
         run (id_exec env) (isIdleTimeout deps x) w = (c, w).
Proof.
  assert (∃ b, run (id_exec env) (isExpired deps x) w = (b, w)) as [b Hb].
  { unfold isExpired. destruct (str_empty _); by eexists. }
  assert (∃ c, run (id_exec env) (isIdleTimeout deps x) w = (c, w)) as [c Hc].
  { unfold isIdleTimeout. repeat case_match; by eexists. }
  by exists b, c.
Qed.

Lemma get_session_some id x' w w' :
  run (id_exec env) (get_session deps id) w = (Some x', w') →
  ∃ x ts, rows (iw_store w) Sessions !! id = Some x ∧ x' = set_s_activity ts x ∧
    same_but Sessions (iw_store w) (iw_store w') ∧ iw_clock w' = iw_clock w.
Proof.
  intros Hrun. pose proof (run_keeps_clock env (get_session deps id) w) as Hc. rw Hrun in Hc.
  revert Hrun. unfold get_session. rw run_fetch {1}/getSession.
  destruct (rows (iw_store w) Sessions !! id) as [x|] eqn:Hx; [|done].
  destruct (run_timeout_checks x w) as (b & c & Hb & Hidle).
  rw run_bind Hb. destruct b; [done|]. rw run_bind Hidle. destruct c; [done|].
  unfold touchSession, updateSessionActivity, modify_row. rw run_bind run_now_iso.
  erewrite run_store_only; [|by rw Hx]. rw run_now_iso. intros [= <- <-].
  eexists x, _. split_and!; [done|done| |done]. apply same_but_set.
Qed.

(** Whom a session cookie is resolved to. *)
Lemma resolve_session_some id ctx w w' :
  run (id_exec env) (resolveSession deps id) w = (Some ctx, w') →
  ∃ x u t, rows (iw_store w) Sessions !! id = Some x ∧
    getUser (s_user_id x) (iw_store w) = Some u ∧ u_status u = "active" ∧
    getTenant (s_tenant_id x) (iw_store w) = Some t ∧ t_status t = "active" ∧
    ctx = session_context x u.
Proof.
  unfold resolveSession. destruct (str_empty id); [done|]. rw run_bind.
  destruct (run (id_exec env) (get_session deps id) w) as [[x'|] w1] eqn:Hg; [|done].
  apply get_session_some in Hg as (x & ts & Hx & -> & [_ Hsame] & _). rw run_fetch.
  unfold getUser at 1. rw Hsame //. destruct (rows (iw_store w) Users !! _) as [u|] eqn:Hu; [|done].
  case_decide as Hus; [|done]. rw run_fetch {1}/getTenant Hsame //.
  destruct (rows (iw_store w) Tenants !! _) as [t|] eqn:Ht; [|done].
  case_decide as Hts; [|done]. intros [= <- <-]. by exists x, u, t.
Qed.

End contexts.

(** ** An instance *)

Definition toy_env : IdEnv :=
  {| ie_sha256 s := "h:" +:+ s; ie_has_audit := true; ie_audit_store := false;
     ie_encryption := None |}.

Definition toy_deps : AuthDeps :=
  {| ad_config := Some {| authApiKeys := ["legacy"]; adminApiKey := ""; sessionMaxConcurrent := 2;
       sessionAbsoluteTimeoutSeconds := 28800; sessionIdleTimeoutSeconds := 3600;
       mfaEnforcement := "role_based"; ssoEnabled := true |};
     ad_rbac := true; ad_sso := true; ad_partial_time _ := 0 |}.

Definition toy_tenant (id : string) : Tenant :=
  {| t_id := id; t_name := id; t_status := "active"; t_model_whitelist := [];
     t_daily_cost_limit := (-1)%float; t_monthly_cost_limit := (-1)%float;
     t_rate_limit_tokens := -1; t_rate_limit_refill := (-1)%float; t_created_at := ""; t_updated_at := "" |}.

Definition toy_user (id tenant : string) (role : Role) : User :=
  {| u_id := id; u_tenant_id := tenant; u_username := id; u_display_name := ""; u_role := role;
     u_status := "active"; u_created_at := ""; u_updated_at := "" |}.

Definition toy_key (id user tenant token : string) (role : Role) : ApiKeyRecord :=
  {| k_id := id; k_user_id := user; k_tenant_id := tenant; k_name := "";
     k_key_prefix := extractKeyPrefix token; k_key_hash := "h:" +:+ token; k_role := role;
     k_status := "active"; k_expires_at := "2027-01-01T00:00:00Z"; k_last_used_at := "";
     k_created_at := ""; k_updated_at := "" |}.

Definition put {t} (id : string) (r : row t) (s : Store) : Store :=
  set_rows t (<[id := r]> (rows s t)) s.

Definition toy_store : Store :=
  put (t := Tenants) "acme" (toy_tenant "acme")
 (put (t := Tenants) "globex" (toy_tenant "globex")
 (put (t := Users) "root" (toy_user "root" "acme" SuperAdmin)
 (put (t := Users) "alice" (toy_user "alice" "acme" TenantAdmin)
 (put (t := Users) "bob" (toy_user "bob" "globex" Developer)
 (put (t := ApiKeys) "k1" (toy_key "k1" "alice" "acme" "sk-alice-secret" TenantAdmin)
 (put (t := ApiKeys) "k2" (toy_key "k2" "bob" "globex" "sk-bob-secret" Developer) empty_store)))))).

(** 2026-01-01T00:00:00Z, in nanoseconds. *)
Definition toy_time : Z := 1767225600 * 1000000000.

Definition toy_world : IdWorld :=
  {| iw_store := toy_store; iw_audit := Audit.fresh_logger; iw_clock := toy_time;
     iw_ids n := "id" +:+ pretty n; iw_next_id := 0;
     iw_bytes n := Some (λ i, Z.of_nat n + Z.of_nat i); iw_next_bytes := 0 |}.

Lemma hashes_unique_dec s :
  bool_decide (map_Forall (λ i1 x1, map_Forall (λ i2 x2, k_key_hash x1 = k_key_hash x2 → i1 = i2)
                 (rows s ApiKeys)) (rows s ApiKeys)) = true → hashes_unique s.
Proof.
  intros Hall%bool_decide_eq_true id1 id2 k1 k2 H1 H2 Heq.
  pose proof (Hall id1 k1 H1 id2 k2 H2 Heq) as <-. rw H1 in H2. by injection H2.
Qed.

Lemma toy_hashes : hashes_unique toy_store.
Proof. apply hashes_unique_dec. by vm_compute. Qed.

(** One more login of the same user. *)
Definition login (w : IdWorld) : option (option Session) * IdWorld :=
  run (id_exec toy_env) (createSession toy_deps "alice" "acme" "sso" "10.0.0.1" "agent") w.

Lemma toy_keyed : sessions_keyed (iw_store (login (login toy_world).2).2).
Proof.
  apply (bool_decide_unpack (map_Forall (λ id x, s_id x = id)
           (rows (iw_store (login (login toy_world).2).2) Sessions))).
  by vm_compute.
Qed.

(** ** Properties *)

(** C23. With RBAC on, a bearer token is accepted exactly when a stored key has its
    prefix and its hash, is neither revoked nor expired, and belongs to an
    active user and an active tenant, the reserved system user excepted; the
    context is the key's.  Looking a token up changes nothing.  The token is not
    empty, and no two stored keys have the same hash. *)
Theorem auth_resolve_exact `{UnorderedIter} env deps token w :
  ad_rbac deps = true → token ≠ "" → hashes_unique (iw_store w) →
  ∃ r, run (id_exec env) (resolve env deps token) w = (r, w) ∧
    ∀ ctx, r = Some ctx ↔
      ∃ id k, rows (iw_store w) ApiKeys !! id = Some k ∧ key_opens env token k ∧
        key_usable (iw_store w) (seconds (iw_clock w)) k ∧
        k_user_id k ≠ "system.autorollback" ∧ ctx = key_context k.
Proof. apply resolve_spec. Qed.

Lemma auth_resolve_exact_witness :
  (run (id_exec toy_env) (resolve toy_env toy_deps "sk-alice-secret") toy_world).1 =
  Some (key_context (toy_key "k1" "alice" "acme" "sk-alice-secret" TenantAdmin)).
Proof.
  destruct (auth_resolve_exact toy_env toy_deps "sk-alice-secret" toy_world) as (r & -> & Hr);
    [done|done|exact toy_hashes|].
  apply Hr. exists "k1", (toy_key "k1" "alice" "acme" "sk-alice-secret" TenantAdmin).
  split; [by vm_compute|]. split; [by vm_compute|]. split; [|by vm_compute].
  split; [done|]. split; [done|]. split; [right; by vm_compute|]. split.
  - exists (toy_user "alice" "acme" TenantAdmin). split; by vm_compute.
  - exists (toy_tenant "acme"). split; by vm_compute.
Defined.

(** A login leaves the user with at most [sessionMaxConcurrent] sessions, the
    new one among them: of the others the most recent are kept, those of other
    users are not touched, and the new session is not MFA-verified and ends
    after the absolute timeout. *)
Theorem session_limit `{UnorderedIter} env deps user tenant auth_method ip agent w x w' :
  sessions_keyed (iw_store w) → 0 < max_sessions deps →
  run (id_exec env) (createSession deps user tenant auth_method ip agent) w = (Some (Some x), w') →
  countSessionsByUser user (iw_store w') <= max_sessions deps ∧
  getSession (s_id x) (iw_store w') = Some x ∧
  x = new_session deps (s_id x) user tenant auth_method ip agent (iw_clock w) ∧
  sessions_keyed (iw_store w') ∧ same_but Sessions (iw_store w) (iw_store w') ∧
  (∀ id y, s_user_id y ≠ user →
     rows (iw_store w') Sessions !! id = Some y ↔ rows (iw_store w) Sessions !! id = Some y) ∧
  (∀ gone kept, gone ∈ user_sessions user (iw_store w) → gone ∉ user_sessions user (iw_store w') →
     kept ∈ user_sessions user (iw_store w') → kept ≠ x →
     str_ltb (s_created_at kept) (s_created_at gone) = false).
Proof.
  intros Hk Hmax Hrun.
  destruct (run_createSession _ _ _ _ _ _ _ _ _ _ Hrun) as (id & s1 & w1 & Hlim & -> & Hx & Hnew & Hw').
  destruct (run_enforceLimit env deps user w Hk Hmax)
    as (s' & evicted & kept & Hlim' & Hsame & Hk' & Hperm & Hkept & Hlen & Hold & Hothers).
  rw Hlim in Hlim'. injection Hlim' as ->. cbn [iw_store with_store iw_clock] in *.
  assert (s_id x = id) as Hid by by rw Hx.
  assert (user_sessions user (iw_store w') ≡ₚ x :: kept) as Hmine.
  { unfold user_sessions. rw Hw' (all_rows_insert Sessions) // filter_cons_True;
      [by rw -Hkept|by rw Hx]. }
  split_and!.
  - change (countSessionsByUser user (iw_store w')) with
      (Z.of_nat (length (user_sessions user (iw_store w')))). rw Hmine /=. lia.
  - unfold getSession. by rw Hw' rows_set_eq Hid lookup_insert_eq.
  - by rw {1}Hx Hid.
  - intros id' y. rw Hw' rows_set_eq. destruct (decide (id' = id)) as [->|].
    + rw lookup_insert_eq. by intros [= <-].
    + rw lookup_insert_ne //. apply Hk'.
  - rw Hw'. etrans; [done|]. apply same_but_set.
  - intros id' y Hy. rw -Hothers // Hw' rows_set_eq. destruct (decide (id' = id)) as [->|].
    + rw lookup_insert_eq Hnew. split; [|done]. intros [= <-]. by rw Hx in Hy.
    + by rw lookup_insert_ne.
  - intros gone k Hg Hgone Hkin Hne. rw Hmine elem_of_cons in Hkin. destruct Hkin as [|Hkin]; [done|].
    apply Hold; [|done]. rw Hperm elem_of_app in Hg. destruct Hg as [|Hg]; [done|].
    exfalso. apply Hgone. rw Hmine. by right.
Qed.

Lemma session_limit_witness :
  countSessionsByUser "alice" (iw_store (login (login toy_world).2).2) = 2 ∧
  countSessionsByUser "alice" (iw_store (login (login (login toy_world).2).2).2) <=
    max_sessions toy_deps.
Proof.
  split; [by vm_compute|].
  assert (∃ x, (login (login (login toy_world).2).2).1 = Some (Some x)) as [x Hx]
    by (eexists; by vm_compute).
  destruct (login (login (login toy_world).2).2) as [r w'] eqn:Hrun. simpl in Hx. subst r.
  exact (proj1 (session_limit toy_env toy_deps "alice" "acme" "sso" "10.0.0.1" "agent"
           (login (login toy_world).2).2 x w' toy_keyed eq_refl Hrun)).
Defined.

(** A session lets its user in until the absolute timeout after the login, and
    only while no two requests are further apart than the idle timeout; with a
    clock that does not go back it is accepted for a while and then never
    again. *)
Theorem session_lifetime `{UnorderedIter} env deps user tenant auth_method ip agent w x w' ts :
  run (id_exec env) (createSession deps user tenant auth_method ip agent) w = (Some (Some x), w') →
  time_ok (seconds (iw_clock w)) → time_ok (seconds (iw_clock w) + absolute_limit deps) →
  Forall (λ t, time_ok (seconds t)) ts →
  accesses env deps (s_id x) ts w' =
    lifetime (idle_limit deps) (seconds (iw_clock w) + absolute_limit deps)
      (seconds (iw_clock w)) ts ∧
  (StronglySorted Z.le ts →
     ∃ n m, accesses env deps (s_id x) ts w' = replicate n true ++ replicate m false).
Proof.
  intros Hrun Hnow Hend Hts.
  destruct (run_createSession _ _ _ _ _ _ _ _ _ _ Hrun) as (id & s1 & w1 & Hlim & -> & Hx & _ & Hw').
  pose proof (run_keeps_clock env (enforceLimit deps user) w) as Hclock. rw Hlim in Hclock. simpl in Hclock.
  assert (s_id x = id) as Hid by by rw Hx.
  assert (accesses env deps (s_id x) ts w' =
    lifetime (idle_limit deps) (seconds (iw_clock w) + absolute_limit deps) (seconds (iw_clock w)) ts) as ->.
  { apply (accesses_lifetime env deps _ _ x); try done; [|by rw Hx /= Hclock..].
    by rw Hw' rows_set_eq Hid lookup_insert_eq. }
  split; [done|]. apply lifetime_prefix.
Qed.

Lemma session_lifetime_witness :
  let ts := (λ m, toy_time + m * 60000000000) <$> [30; 89; 149; 149; 100] in
  ∃ x, (login toy_world).1 = Some (Some x) ∧
    accesses toy_env toy_deps (s_id x) ts (login toy_world).2 =
    lifetime (idle_limit toy_deps) (1767225600 + 28800) 1767225600 ts ∧
    lifetime (idle_limit toy_deps) (1767225600 + 28800) 1767225600 ts =
    [true; true; false; false; true].
Proof.
  intros ts.
  assert (Forall (λ t, time_ok (seconds t)) ts) as Hts by (repeat constructor; by vm_compute).
  assert (∃ x, (login toy_world).1 = Some (Some x)) as [x Hx] by (eexists; by vm_compute).
  destruct (login toy_world) as [r w'] eqn:Hrun. simpl in Hx. subst r.
  exists x. split; [done|]. split; [|by vm_compute].
  exact (proj1 (session_lifetime toy_env toy_deps "alice" "acme" "sso" "10.0.0.1" "agent"
           toy_world x w' ts Hrun ltac:(by vm_compute) ltac:(by vm_compute)
           Hts)).
Defined.

End Auth.
