(* ===== verification/Totp.v ===== *)
(** * Totp: time-based one-time passwords

    Models [src/src/auth/totp_service.cpp]: Base32 on its 32-bit accumulator,
    the truncation of an HMAC to six digits, the window of three periods and
    the recovery codes.  HMAC-SHA1 is a parameter; the clock is an argument. *)
From S2P Require Import Prelude.
From S2P Require Import Prog.
From S2P Require Import Codec.
From S2P Require Import IsoTime.
From S2P Require Import Identity.
Import Codec IsoTime.
Local Open Scope Z_scope.

Module Totp.

(** ** Base32 *)

Definition alphabet : string := "ABCDEFGHIJKLMNOPQRSTUVWXYZ234567".

Definition base32_char (i : Z) : ascii := default "000"%char (String.get (Z.to_nat i) alphabet).

(** An [int] of 32 bits; a shift drops the upper bits, as GCC and Clang define
    it. *)
Definition i32 (z : Z) : Z := (z + 2 ^ 31) mod 2 ^ 32 - 2 ^ 31.

(** [(buffer << k) | c]. *)
Definition push (k buffer c : Z) : Z := Z.lor (i32 (Z.shiftl buffer k)) c.

(** One byte completes at most two groups of five bits. *)
Definition encode_step (st : list ascii * Z * Z) (byte : Z) : list ascii * Z * Z :=
  let '(result, buffer, bits_left) := st in
  let buffer := push 8 buffer byte in
  let '(groups, bits_left) := drain 2 5 buffer (bits_left + 8) in
  (result ++ (base32_char <$> groups), buffer, bits_left).

Definition base32Encode (data : list Z) : string :=
  let '(result, buffer, bits_left) := foldl encode_step ([], 0, 0) data in
  String.string_of_list_ascii
    (if 0 <? bits_left
     then result ++ [base32_char (Z.land (i32 (Z.shiftl buffer (5 - bits_left))) 0x1F)]
     else result).

(** [std::toupper] in the C locale. *)
Definition toupper (c : ascii) : ascii :=
  let b := byte_of c in if (97 <=? b) && (b <=? 122) then ascii_of_byte (b - 32) else c.

(** [None] is a character that is skipped. *)
Definition base32_value (c : ascii) : option Z :=
  let upper := byte_of (toupper c) in
  if (65 <=? upper) && (upper <=? 90) then Some (upper - 65)
  else if (50 <=? upper) && (upper <=? 55) then Some (upper - 50 + 26)
  else None.

Definition decode_step (st : list Z * Z * Z) (c : ascii) : list Z * Z * Z :=
  let '(result, buffer, bits_left) := st in
  match base32_value c with
  | None => st
  | Some val =>
      let buffer := push 5 buffer val in
      let bits_left := bits_left + 5 in
      if 8 <=? bits_left
      then (result ++ [Z.land (Z.shiftr buffer (bits_left - 8)) 0xFF], buffer, bits_left - 8)
      else (result, buffer, bits_left)
  end.

Definition base32Decode (encoded : string) : list Z :=
  (foldl decode_step ([], 0, 0) (String.list_ascii_of_string encoded)).1.1.

(** ** Codes *)

Definition TOTP_PERIOD : Z := 30.
Definition TOTP_DIGITS : nat := 6.
Definition SECRET_BYTES : nat := 20.
Definition RECOVERY_CODE_BYTES : nat := 10.

(** [counter_bytes], filled from the last index down. *)
Fixpoint counter_bytes (n : nat) (counter : Z) : list Z :=
  match n with
  | O => []
  | S n => counter_bytes n (Z.shiftr counter 8) ++ [Z.land counter 0xFF]
  end.

(** The dynamic truncation; [None] would be a read outside the digest. *)
Definition truncate (digest : list Z) : option Z :=
  b ← last digest;
  let offset := Z.to_nat (Z.land b 0x0F) in
  b0 ← digest !! offset;
  b1 ← digest !! (offset + 1)%nat;
  b2 ← digest !! (offset + 2)%nat;
  b3 ← digest !! (offset + 3)%nat;
  Some (Z.lor (Z.lor (Z.lor (Z.shiftl (Z.land b0 0x7F) 24) (Z.shiftl b1 16)) (Z.shiftl b2 8)) b3).

Section codes.
Context (hmac_sha1 : list Z → list Z → option (list Z)).

(** [None] is the exception. *)
Definition generateCode (secret : list Z) (counter : Z) : option string :=
  digest ← hmac_sha1 secret (counter_bytes 8 counter);
  truncated ← truncate digest;
  Some (decimal TOTP_DIGITS (truncated mod 1000000)).

Fixpoint try_codes (secret : list Z) (code : string) (counters : list Z) : option bool :=
  match counters with
  | [] => Some false
  | c :: counters =>
      generated ← generateCode secret c;
      if decide (generated = code) then Some true else try_codes secret code counters
  end.

(** [now] is what the clock says, in seconds. *)
Definition verifyCode (secret_base32 code : string) (timestamp now : Z) : option bool :=
  let timestamp := if timestamp =? 0 then now else timestamp in
  let secret := base32Decode secret_base32 in
  let counter := Z.quot timestamp TOTP_PERIOD in
  try_codes secret code [counter - 1; counter; counter + 1].

End codes.

Definition generateSecret : prog IdCmd (option string) :=
  buf ← call (RandBytes SECRET_BYTES); Ret (option_map base32Encode buf).

Definition generateOtpAuthUri (secret_base32 user issuer : string) : string :=
  "otpauth://totp/" +:+ issuer +:+ ":" +:+ user +:+ "?secret=" +:+ secret_base32 +:+
  "&issuer=" +:+ issuer +:+ "&algorithm=SHA1" +:+ "&digits=6" +:+ "&period=30".

(** ** Recovery codes *)

(** Two digits of upper-case hexadecimal. *)
Definition HEX_digit (n : Z) : ascii :=
  default "0"%char (String.get (Z.to_nat n) "0123456789ABCDEF").
Definition HEX_text (buf : list Z) : string :=
  String.string_of_list_ascii (b ← buf; [HEX_digit (b / 16); HEX_digit (b mod 16)]).

Fixpoint recovery_codes (count : nat) : prog IdCmd (option (list string)) :=
  match count with
  | O => Ret (Some [])
  | S count =>
      buf ← call (RandBytes RECOVERY_CODE_BYTES);
      match buf with
      | None => Ret None
      | Some buf =>
          codes ← recovery_codes count;
          Ret (option_map (cons (HEX_text buf)) codes)
      end
  end.
Definition generateRecoveryCodes (count : Z) : prog IdCmd (option (list string)) :=
  recovery_codes (Z.to_nat count).

Definition hashRecoveryCode (env : IdEnv) (code : string) : string := ie_sha256 env code.

(** The loop that remembers the last match. *)
Definition last_match (hashed : string) (codes_hash : list string) : option nat :=
  (foldl (λ '(i, m) stored, (S i, if decide (stored = hashed) then Some i else m))
     (O, None) codes_hash).2.

(** The codes that are left; [None] is the answer [false]. *)
Definition verifyRecoveryCode (env : IdEnv) (codes_hash : list string) (code : string) :
    option (list string) :=
  i ← last_match (hashRecoveryCode env code) codes_hash; Some (delete i codes_hash).

(** ** Lemmas *)

Lemma i32_mod z : i32 z mod 2 ^ 32 = z mod 2 ^ 32.
Proof. unfold i32. rw Zminus_mod Z.mod_mod; [|done]. rw -Zminus_mod. f_equal. lia. Qed.

Lemma push_mod (k : nat) buffer c :
  (k <= 32)%nat → 0 <= c < 2 ^ Z.of_nat k →
  push (Z.of_nat k) buffer c mod 2 ^ 32 = (buffer * 2 ^ Z.of_nat k + c) mod 2 ^ 32.
Proof.
  intros Hk Hc. unfold push. set (x := i32 _).
  assert (∃ q, x = q * 2 ^ Z.of_nat k) as [q Hq].
  { unfold x, i32. rw Z.shiftl_mul_pow2; [|lia]. rw Z.mod_eq; [|done].
    assert (2 ^ 32 = 2 ^ (32 - Z.of_nat k) * 2 ^ Z.of_nat k) as Hp
      by (rw -Z.pow_add_r; [f_equal|..]; lia).
    set (d := (_ + _) / 2 ^ 32). exists (buffer - 2 ^ (32 - Z.of_nat k) * d).
    rw Z.mul_sub_distr_r -(Z.mul_assoc _ d) (Z.mul_comm d) Z.mul_assoc -Hp. lia. }
  assert (Z.lor x c = x + c) as ->.
  { rw -Z.lxor_lor; [symmetry; apply Z.add_nocarry_lxor|];
      (apply Z.bits_inj'; intros n Hn; rw Z.land_spec Z.bits_0 Hq;
       destruct (Z.lt_ge_cases n (Z.of_nat k));
       [rw Z.mul_pow2_bits_low //|rw andb_comm -(Z.mod_small c (2 ^ Z.of_nat k)) //
          Z.mod_pow2_bits_high //; lia]). }
  unfold x. rw Zplus_mod i32_mod -Zplus_mod Z.shiftl_mul_pow2 //. lia.
Qed.

Lemma encode_bytes_groups cs out buffer n :
  foldl encode_step (base32_char <$> out, buffer, n) cs =
  let '(out', buffer', n') := foldl (regroup_step 8 5 2 (push 8)) (out, buffer, n) cs in
  (base32_char <$> out', buffer', n').
Proof.
  revert out buffer n. induction cs as [|c cs IH]; intros out buffer n; [done|]. cbn [foldl].
  rw {2}/encode_step {2}/regroup_step. change (Z.of_nat 5) with 5. change (Z.of_nat 8) with 8.
  destruct (drain 2 5 _ _) as [new n']. rw -fmap_app. apply IH.
Qed.

Lemma base32_value_char v : 0 <= v < 32 → base32_value (base32_char v) = Some v.
Proof. revert v. apply (below_all _ 32). apply (bool_decide_unpack _). by vm_compute. Qed.

Lemma base32_groups data :
  Forall (λ b, 0 <= b < 256) data →
  ∃ gs rest, grouped 5 (concat (bits 8 <$> data)) gs rest ∧
    String.list_ascii_of_string (base32Encode data) =
      base32_char <$> (unbits <$> (gs ++ last_group 5 rest)).
Proof.
  intros Hdata.
  destruct (regroup_spec 8 5 2 (push 8)) with (cs := data) (val := 0) (n := 0)
    (P := @nil bool) (out := @nil Z) as (gs & rest & val & Hg & Hfold & HP);
    [lia..|intros; by apply (push_mod 8); [lia|]|done|done|simpl; lia|].
  exists gs, rest. split; [done|].
  unfold base32Encode. pose proof (encode_bytes_groups data [] 0 0) as Henc. rw Hfold in Henc.
  change (base32_char <$> []) with (@nil ascii) in Henc. rw Henc app_nil_l. clear Henc Hfold.
  rw String.list_ascii_of_string_of_list_ascii !fmap_app. destruct Hg as (_ & _ & Hr).
  destruct rest as [|b rest]; [by rw app_nil_r|].
  rw (proj2 (Z.ltb_lt _ _)); [|simpl; lia]. f_equal. unfold last_group. rw !fmap_cons. do 2 f_equal.
  change 0x1F with (Z.ones (Z.of_nat 5)). eapply pending_last; [done|lia|]. rw i32_mod.
  rw Z.shiftl_mul_pow2; [|simpl in *; lia]. do 3 f_equal. lia.
Qed.

Lemma decode_chars_groups cs out buffer n :
  Forall (λ v, 0 <= v < 32) cs →
  foldl decode_step (out, buffer, n) (base32_char <$> cs) =
  foldl (regroup_step 5 8 1 (push 5)) (out, buffer, n) cs.
Proof.
  intros Hcs. revert out buffer n. induction Hcs as [|c cs Hc _ IH]; intros out buffer n; [done|].
  rw fmap_cons. cbn [foldl]. rw {2}/decode_step base32_value_char // {2}/regroup_step.
  change (Z.of_nat 5) with 5. change (Z.of_nat 8) with 8. cbn [drain].
  destruct (Z.leb_spec 8 (n + 5)); [apply IH|]. rw app_nil_r. apply IH.
Qed.

(** Decoding what was encoded gives back the bytes, however many they are. *)
Lemma base32_round_trip data :
  Forall (λ b, 0 <= b < 256) data → base32Decode (base32Encode data) = data.
Proof.
  intros Hdata. destruct (base32_groups data Hdata) as (gs & rest & Hg & Henc).
  pose proof (grouped_all_length _ _ _ _ Hg) as Hlen.
  assert (Forall (λ v, 0 <= v < 32) (unbits <$> (gs ++ last_group 5 rest))) as Hr.
  { apply Forall_fmap. eapply Forall_impl; [done|]. intros g. apply (unbits_in 5). }
  unfold base32Decode. rw Henc decode_chars_groups //.
  destruct (regroup_spec 5 8 1 (push 5)) with (cs := unbits <$> (gs ++ last_group 5 rest))
    (val := 0) (n := 0) (P := @nil bool) (out := @nil Z) as (gs' & rest' & val & Hg' & -> & _);
    [lia..|intros; by apply (push_mod 5); [lia|]|done|done|simpl; lia|].
  rw app_nil_l bits_unbits_list // in Hg'.
  rw (decode_groups 5 data gs rest gs' rest') //; [|lia]. cbn [fst].
  by rw app_nil_l unbits_bits_list.
Qed.

(** HMAC-SHA1 does not fail and gives twenty bytes. *)
Class HmacSha1 (hmac_sha1 : list Z → list Z → option (list Z)) : Prop :=
  hmac_digest : ∀ key text, ∃ digest, hmac_sha1 key text = Some digest ∧
    length digest = 20%nat ∧ Forall (λ b, 0 <= b < 256) digest.

(** The truncation stays inside the digest, whose last byte chooses the
    offset. *)
Lemma truncate_some digest : length digest = 20%nat → ∃ v, truncate digest = Some v.
Proof.
  intros Hlen. unfold truncate.
  destruct (last digest) as [b|] eqn:Hb; [|apply last_None in Hb; by subst]. cbn [mbind option_bind].
  assert (Z.to_nat (Z.land b 0x0F) < 16)%nat as Ho.
  { change 0x0F with (Z.ones 4). rw Z.land_ones //. pose proof (Z.mod_pos_bound b (2 ^ 4)). lia. }
  set (o := Z.to_nat _) in *.
  assert (∀ i, (i < 4)%nat → ∃ x, digest !! (o + i)%nat = Some x) as Hi.
  { intros i Hi. apply lookup_lt_is_Some. lia. }
  destruct (Hi 0%nat) as [b0 H0]; [lia|]. destruct (Hi 1%nat) as [b1 H1]; [lia|].
  destruct (Hi 2%nat) as [b2 H2]; [lia|]. destruct (Hi 3%nat) as [b3 H3]; [lia|].
  rw Nat.add_0_r in H0. rw H0 H1 H2 H3. by eexists.
Qed.

Section verification.
Context (hmac_sha1 : list Z → list Z → option (list Z)) `{!HmacSha1 hmac_sha1}.

Lemma generateCode_some secret counter :
  ∃ v, 0 <= v < 1000000 ∧ generateCode hmac_sha1 secret counter = Some (decimal TOTP_DIGITS v).
Proof.
  unfold generateCode. destruct (hmac_digest secret (counter_bytes 8 counter)) as (d & -> & Hlen & _).
  cbn [mbind option_bind]. destruct (truncate_some d Hlen) as [v ->]. eexists.
  split; [|done]. apply Z.mod_pos_bound. lia.
Qed.

Lemma try_codes_spec secret code counters :
  ∃ b, try_codes hmac_sha1 secret code counters = Some b ∧
    (b = true ↔ ∃ c, c ∈ counters ∧ generateCode hmac_sha1 secret c = Some code).
Proof.
  induction counters as [|c counters IH]; cbn [try_codes].
  { exists false. split; [done|]. split; [done|]. intros (? & ?%not_elem_of_nil & _). done. }
  destruct (generateCode_some secret c) as (v & _ & Hc). rw Hc. cbn [mbind option_bind].
  case_decide as Heq.
  - exists true. split; [done|]. split; [|done]. intros _. exists c. split; [set_solver|congruence].
  - destruct IH as (b & -> & Hb). exists b. split; [done|]. rw Hb.
    setoid_rewrite elem_of_cons. naive_solver.
Qed.

Lemma code_nonempty v : str_empty (decimal TOTP_DIGITS v) = false.
Proof. apply str_empty_false. intros Hn. pose proof (length_decimal TOTP_DIGITS v) as Hl. by rw Hn in Hl. Qed.

Lemma verifyCode_spec secret code t now :
  Forall (λ b, 0 <= b < 256) secret → 0 < (if t =? 0 then now else t) →
  ∃ b, verifyCode hmac_sha1 (base32Encode secret) code t now = Some b ∧
    (b = true ↔ ∃ i, -1 <= i <= 1 ∧
       generateCode hmac_sha1 secret (Z.quot (if t =? 0 then now else t) TOTP_PERIOD + i) = Some code).
Proof.
  intros Hsec Ht. unfold verifyCode. rw base32_round_trip //.
  set (c := Z.quot _ TOTP_PERIOD).
  destruct (try_codes_spec secret code [c - 1; c; c + 1]) as (b & Hb & Hiff).
  exists b. split; [done|]. rw Hiff. split.
  - intros (c' & Hin & Hg). exists (c' - c). rw (_ : c + (c' - c) = c'); [|lia].
    split; [|done]. rw !elem_of_cons elem_of_nil in Hin. lia.
  - intros (i & Hi & Hg). exists (c + i). split; [|done]. rw !elem_of_cons. lia.
Qed.

(** The code of an authenticator whose clock is at most a period off. *)
Lemma totp_accepts secret t t' :
  Forall (λ b, 0 <= b < 256) secret → 0 < t → 0 < t' → Z.abs (t - t') <= 30 →
  ∃ v, generateCode hmac_sha1 secret (Z.quot t TOTP_PERIOD) = Some (decimal TOTP_DIGITS v) ∧
    verifyCode hmac_sha1 (base32Encode secret) (decimal TOTP_DIGITS v) 0 t' = Some true.
Proof.
  intros Hsec Ht Ht' Habs. destruct (generateCode_some secret (Z.quot t TOTP_PERIOD)) as (v & _ & Hg).
  exists v. split; [done|].
  destruct (verifyCode_spec secret (decimal TOTP_DIGITS v) 0 t') as (b & -> & Hb); [done..|].
  f_equal. apply Hb. cbn [Z.eqb]. exists (Z.quot t TOTP_PERIOD - Z.quot t' TOTP_PERIOD).
  unfold TOTP_PERIOD in *. split.
  - Z.to_euclidean_division_equations; lia.
  - by rw (_ : Z.quot t' 30 + (Z.quot t 30 - Z.quot t' 30) = Z.quot t 30); [|lia].
Qed.

End verification.

(** A toy instance: the text padded to twenty bytes. *)
Definition toy_sha1 (key text : list Z) : option (list Z) :=
  Some ((λ b, b mod 256) <$> take 20 ((key ++ text) ++ replicate 20 0)).

#[global] Instance toy_sha1_ok : HmacSha1 toy_sha1.
Proof.
  intros key text. eexists. split; [done|]. split.
  - rw length_fmap length_take length_app length_replicate. lia.
  - apply Forall_fmap, Forall_forall. intros b _. apply Z.mod_pos_bound. lia.
Qed.

(** ** Properties *)

(** A code is six digits, and the server accepts exactly the codes of three
    periods: the one of its clock and its two neighbours.  So the code that an
    authenticator shows from the secret of the enrolment, at most thirty
    seconds before or after, is accepted. *)
Theorem totp_window hmac_sha1 `{!HmacSha1 hmac_sha1} secret t t' :
  Forall (λ b, 0 <= b < 256) secret → 0 < t → 0 < t' →
  let checked code := verifyCode hmac_sha1 (base32Encode secret) code 0 t' in
  (∀ code, ∃ b, checked code = Some b ∧
     (b = true ↔ ∃ i, -1 <= i <= 1 ∧
        generateCode hmac_sha1 secret (Z.quot t' TOTP_PERIOD + i) = Some code)) ∧
  (∀ i, ∃ v, 0 <= v < 1000000 ∧ generateCode hmac_sha1 secret i = Some (decimal TOTP_DIGITS v)) ∧
  (Z.abs (t - t') <= 30 → ∀ code,
     generateCode hmac_sha1 secret (Z.quot t TOTP_PERIOD) = Some code → checked code = Some true).
Proof.
  intros Hsec Ht Ht' checked. split_and!.
  - intros code. exact (verifyCode_spec hmac_sha1 secret code 0 t' Hsec Ht').
  - intros i. apply generateCode_some, _.
  - intros Habs code Hcode. destruct (totp_accepts hmac_sha1 secret t t') as (v & Hg & Hv); [done..|].
    by rw Hg in Hcode; injection Hcode as <-.
Qed.

Lemma totp_window_witness :
  generateCode toy_sha1 [1; 2; 3] 2 = Some "909056" ∧
  verifyCode toy_sha1 (base32Encode [1; 2; 3]) "909056" 0 89 = Some true.
Proof.
  split; [by vm_compute|].
  destruct (totp_window toy_sha1 [1; 2; 3] 60 89) as (_ & _ & Hok);
    [by repeat constructor|done|done|]. apply Hok; [done|by vm_compute].
Defined.

End Totp.
