(* ===== verification/ChatTypes.v ===== *)
(** * ChatTypes: the messages of a chat and their JSON form

    Models [src/include/aegisgate/types.h]: the request and response records,
    the conversion of a message from and to JSON, and the helpers around
    multimodal content arrays: the text the guardrails scan, the array that is
    sent upstream after they rewrote the text, and the text hidden in image
    references.  An exception of the JSON library is [None]. *)
From Corelib Require Import PrimFloat.
From S2P Require Import Prelude.
From S2P Require Import Json.
From S2P Require Import Codec.
From S2P Require Import Jwt.
From S2P Require Import Totp.
Import Json.
Local Open Scope Z_scope.

Module ChatTypes.

Record ToolCall := {
  tc_id : string;
  tc_type : string;
  tc_function : json;
}.

Record Message := {
  m_role : string;
  m_content : string;
  m_content_parts : json;
  m_tool_calls : list ToolCall;
  m_tool_call_id : string;
  m_name : string;
}.

(** ** Multimodal content *)

Definition newline : string := String "010"%char "".

(** [part.is_object() && part.value("type", "") == t]. *)
Definition has_type (t : string) (part : json) : option bool :=
  if is_object part then (λ s, bool_decide (s = t)) <$> value_string "type" part
  else Some false.

Definition append_line (text s : string) : string :=
  (if str_empty text then text else text +:+ newline) +:+ s.

Fixpoint text_loop (text : string) (parts : list json) : option string :=
  match parts with
  | [] => Some text
  | part :: parts =>
      is_text ← has_type "text" part;
      if is_text : bool then
        s ← value_string "text" part;
        text_loop (append_line text s) parts
      else text_loop text parts
  end.

Definition extractMultimodalText (parts : json) : option string :=
  match parts with JArray l => text_loop "" l | _ => Some "" end.

(** [{{"type", "text"}, {"text", text}}] as one value. *)
Definition text_part (text : string) : json :=
  json_of_list [("type", JString "text"); ("text", JString text)].

Fixpoint rebuild_loop (text : string) (emitted : bool) (parts : list json) :
    option (list json * bool) :=
  match parts with
  | [] => Some ([], emitted)
  | part :: parts =>
      is_text ← has_type "text" part;
      if is_text : bool then
        '(out, emitted') ← rebuild_loop text true parts;
        Some ((if emitted then out else text_part text :: out), emitted')
      else
        '(out, emitted') ← rebuild_loop text emitted parts;
        Some (part :: out, emitted')
  end.

(** [out.insert(out.begin(), {{"type", "text"}, {"text", text}})] is the
    overload for an initializer list, which inserts the two elements of the
    list one by one; each of them is an array of two strings. *)
Definition inserted_front (text : string) : list json :=
  [JArray [JString "type"; JString "text"]; JArray [JString "text"; JString text]].

Definition rebuildMultimodalContent (parts : json) (text : string) : option json :=
  '(out, emitted) ← rebuild_loop text false (match parts with JArray l => l | _ => [] end);
  Some (JArray (if emitted : bool then out else inserted_front text ++ out)).

(** ** Image references *)

Definition kDefaultImageScanDecodeBytes : Z := 256 * 1024.

Definition base64_value (c : ascii) : option Z :=
  let b := byte_of c in
  if (65 <=? b) && (b <=? 90) then Some (b - 65)
  else if (97 <=? b) && (b <=? 122) then Some (b - 97 + 26)
  else if (48 <=? b) && (b <=? 57) then Some (b - 48 + 52)
  else if decide (c = "+"%char) then Some 62
  else if decide (c = "/"%char) then Some 63
  else None.

(** The loop; the result is the output with the flag [oversized]. *)
Fixpoint capped_loop (max_bytes : Z) (l : list ascii) (out : list Z) (buf bits : Z) :
    list Z * bool :=
  match l with
  | [] => (out, false)
  | c :: l =>
      if decide (c = "="%char) then (out, false)
      else match base64_value c with
           | None => capped_loop max_bytes l out buf bits
           | Some d =>
               let buf := Totp.push 6 buf d in
               let bits := bits + 6 in
               if 0 <=? bits then
                 let out := out ++ [Z.land (Z.shiftr buf bits) 0xFF] in
                 if max_bytes <? Z.of_nat (length out) then (out, true)
                 else capped_loop max_bytes l out buf (bits - 8)
               else capped_loop max_bytes l out buf bits
           end
  end.

Definition decodeBase64Capped (s : string) (max_bytes : Z) : string * bool :=
  let '(out, oversized) := capped_loop max_bytes (String.list_ascii_of_string s) [] 0 (-8) in
  (string_of_bytes out, oversized).

(** The URL of an [image_url] part. *)
Definition part_url (part : json) : option string :=
  match json_member "image_url" part with
  | None => Some ""
  | Some (JString s) => Some s
  | Some iu => if is_object iu then value_string "url" iu else Some ""
  end.

Definition text_mime (mime : string) : bool :=
  str_empty mime || String.prefix "text/" mime ||
  bool_decide (mime ∈ ["application/json"; "application/xml"; "application/xhtml+xml"]).

(** [s.substr(0, pos)] where [pos] may be [npos]. *)
Definition substr_to (pos : option nat) (s : string) : string :=
  match pos with Some n => String.substring 0 n s | None => s end.

Definition str_contains (pat s : string) : bool := bool_decide (is_Some (String.index 0 pat s)).

(** The type in front of the parameters of a data URI. *)
Definition media_type (meta : string) : string := substr_to (str_find ";"%char 0 meta) meta.

(** What one URL adds to the scanned text; the empty string adds nothing. *)
Definition scanned (url : string) (max_decode_bytes : Z) : string :=
  if negb (String.prefix "data:" url) then url
  else
    let after := substr_from 5 url in
    let comma := str_find ","%char 0 after in
    let meta := substr_to comma after in
    if negb (text_mime (media_type meta)) then ""
    else match comma with
         | None => url
         | Some comma =>
             let payload := substr_from (S comma) after in
             if str_contains ";base64" meta then (decodeBase64Capped payload max_decode_bytes).1
             else if max_decode_bytes <? Z.of_nat (String.length payload)
             then String.substring 0 (Z.to_nat max_decode_bytes) payload
             else payload
         end.

Fixpoint image_loop (max_decode_bytes : Z) (text : string) (parts : list json) : option string :=
  match parts with
  | [] => Some text
  | part :: parts =>
      is_image ← has_type "image_url" part;
      if is_image : bool then
        url ← part_url part;
        let s := if str_empty url then "" else scanned url max_decode_bytes in
        image_loop max_decode_bytes (if str_empty s then text else append_line text s) parts
      else image_loop max_decode_bytes text parts
  end.

Definition extractImageRefText (parts : json) (max_decode_bytes : Z) : option string :=
  match parts with JArray l => image_loop max_decode_bytes "" l | _ => Some "" end.

(** ** Requests and responses *)

Record ChatRequest := {
  cr_model : string;
  cr_messages : list Message;
  cr_temperature : option float;
  cr_max_tokens : option Z;
  cr_stream : bool;
  cr_extra : json;
  cr_tools : json;
  cr_tool_choice : json;
  cr_metadata : option (list (string * string));
}.

#[global] Instance chat_request_settable : Settable ChatRequest := λ r,
  {| cr_model := cr_model r; cr_messages := cr_messages r; cr_temperature := cr_temperature r;
     cr_max_tokens := cr_max_tokens r; cr_stream := cr_stream r; cr_extra := cr_extra r;
     cr_tools := cr_tools r; cr_tool_choice := cr_tool_choice r; cr_metadata := cr_metadata r |}.

Record TokenUsage := {
  prompt_tokens : Z;
  completion_tokens : Z;
  total_tokens : Z;
}.

Definition no_usage : TokenUsage :=
  {| prompt_tokens := 0; completion_tokens := 0; total_tokens := 0 |}.

Record ChatResponse := {
  r_id : string;
  r_model : string;
  r_content : string;
  r_usage : TokenUsage;
  r_finish_reason : string;
  r_tool_calls : list ToolCall;
}.

Record StreamDelta := {
  d_content : string;
  d_tool_calls_delta : json;
  d_finish_reason : string;
}.

Record ProxyRequest := {
  pr_endpoint : string;
  pr_model : string;
  pr_raw_body : string;
  pr_content_type : string;
}.

Record ProxyResponse := {
  ps_http_status : Z;
  ps_body : string;
  ps_content_type : string;
}.

(** [j.empty()]: a null, an empty array and an empty object. *)
Definition json_empty (j : json) : bool :=
  match j with JNull | JArray [] | JObject [] => true | _ => false end.

Definition is_null (j : json) : bool := match j with JNull => true | _ => false end.

Definition hasToolsRequest (req : ChatRequest) : bool :=
  negb (is_null (cr_tools req)) && negb (json_empty (cr_tools req)).

(** [v.empty()] of a vector. *)
Definition no_elems {A} (l : list A) : bool := match l with [] => true | _ => false end.

Definition isToolMessage (msg : Message) : bool :=
  bool_decide (m_role msg = "tool") || negb (no_elems (m_tool_calls msg)).

(** ** JSON forms *)

Definition tool_call_to_json (tc : ToolCall) : json :=
  json_of_list [("id", JString (tc_id tc)); ("type", JString (tc_type tc));
                ("function", tc_function tc)].

(** [j.value(k, d)] for a string. *)
Definition string_or (d k : string) (j : json) : option string := json_value as_string k d j.

Definition tool_call_from_json (j : json) : option ToolCall :=
  id ← string_or "" "id" j;
  type ← string_or "function" "type" j;
  Some {| tc_id := id; tc_type := type;
          tc_function := default JNull (json_member "function" j) |}.

Definition is_array (j : json) : bool := match j with JArray _ => true | _ => false end.

(** [j["content"]] of a message. *)
Definition content_json (m : Message) : option json :=
  if is_array (m_content_parts m) && negb (json_empty (m_content_parts m))
  then rebuildMultimodalContent (m_content_parts m) (m_content m)
  else if negb (str_empty (m_content m)) || no_elems (m_tool_calls m)
  then Some (JString (m_content m))
  else Some JNull.

Definition assign_if (c : bool) (k : string) (v j : json) : option json :=
  if c then json_assign k v j else Some j.

Definition message_to_json (m : Message) : option json :=
  content ← content_json m;
  j ← json_assign "content" content (json_of_list [("role", JString (m_role m))]);
  j ← assign_if (negb (no_elems (m_tool_calls m))) "tool_calls"
        (JArray (tool_call_to_json <$> m_tool_calls m)) j;
  j ← assign_if (negb (str_empty (m_tool_call_id m))) "tool_call_id"
        (JString (m_tool_call_id m)) j;
  assign_if (negb (str_empty (m_name m))) "name" (JString (m_name m)) j.

(** The content of a message from [j["content"]]: its text and its parts. *)
Definition content_from (content : option json) : option (string * json) :=
  match content with
  | Some (JString s) => Some (s, JNull)
  | Some (JArray l) => (λ s, (s, JArray l)) <$> extractMultimodalText (JArray l)
  | _ => Some ("", JNull)
  end.

Definition tool_calls_from (calls : option json) : option (list ToolCall) :=
  match calls with
  | Some (JArray l) => mapM tool_call_from_json l
  | _ => Some []
  end.

Definition message_from_json (j : json) : option Message :=
  role ← json_member "role" j ≫= as_string;
  '(content, parts) ← content_from (json_member "content" j);
  calls ← tool_calls_from (json_member "tool_calls" j);
  id ← string_or "" "tool_call_id" j;
  name ← string_or "" "name" j;
  Some {| m_role := role; m_content := content; m_content_parts := parts;
          m_tool_calls := calls; m_tool_call_id := id; m_name := name |}.

Definition usage_to_json (u : TokenUsage) : json :=
  json_of_list [("prompt_tokens", JInteger (prompt_tokens u));
                ("completion_tokens", JInteger (completion_tokens u));
                ("total_tokens", JInteger (total_tokens u))].

Definition usage_from_json (j : json) : option TokenUsage :=
  p ← json_value as_int "prompt_tokens" 0 j;
  c ← json_value as_int "completion_tokens" 0 j;
  t ← json_value as_int "total_tokens" 0 j;
  Some {| prompt_tokens := p; completion_tokens := c; total_tokens := t |}.

(** ** Multimodal content *)

Definition is_text (part : json) : bool := bool_decide (has_type "text" part = Some true).

(** The parts that are not text: images, audio, ... *)
Definition other_parts (l : list json) : list json := filter (λ p, is_text p = false) l.

Lemma rebuild_loop_others text emitted l out e :
  rebuild_loop text emitted l = Some (out, e) →
  other_parts out = other_parts l ∧ e = (emitted || existsb is_text l).
Proof.
  revert emitted out e. induction l as [|part l IH]; intros emitted out e; simpl.
  { intros [= <- <-]. by rw orb_false_r. }
  destruct (has_type "text" part) as [[]|] eqn:Ht; simpl; [| |done];
    (assert (is_text part = bool_decide (has_type "text" part = Some true)) as Hi by done);
    rw Ht /= in Hi; rw Hi.
  - destruct (rebuild_loop text true l) as [[out' e']|] eqn:Hl; simpl; [|done].
    intros [= <- <-]. apply IH in Hl as [Ho ->]. rw orb_true_r.
    rw {2}/other_parts (filter_cons_False _ part); [|by rw Hi]. split; [|done].
    destruct emitted; [done|]. by rw /other_parts filter_cons_False.
  - destruct (rebuild_loop text emitted l) as [[out' e']|] eqn:Hl; simpl; [|done].
    intros [= <- <-]. apply IH in Hl as [Ho ->]. rw /other_parts !(filter_cons_True _ part) //.
    split; [by f_equal|done].
Qed.

Lemma rebuild_loop_text text emitted l out e acc :
  rebuild_loop text emitted l = Some (out, e) →
  text_loop acc out = Some (if e && negb emitted then append_line acc text else acc).
Proof.
  revert emitted out e acc. induction l as [|part l IH]; intros emitted out e acc; simpl.
  { intros [= <- <-]. by destruct emitted. }
  destruct (has_type "text" part) as [[]|] eqn:Ht; simpl; [| |done].
  - destruct (rebuild_loop text true l) as [[out' e']|] eqn:Hl; simpl; [|done]. intros [= <- <-].
    pose proof (rebuild_loop_others _ _ _ _ _ Hl) as [_ ->]. simpl.
    destruct emitted; [by apply (IH _ _ _ acc) in Hl|]. 
    change (text_loop acc (text_part text :: out')) with (text_loop (append_line acc text) out').
    by rw (IH _ _ _ _ Hl).
  - destruct (rebuild_loop text emitted l) as [[out' e']|] eqn:Hl; simpl; [|done].
    intros [= <- <-]. cbn [text_loop]. rw Ht /=. by apply IH.
Qed.

Lemma rebuild_carries parts text out :
  rebuildMultimodalContent (JArray parts) text = Some out →
  existsb is_text parts = true →
  ∃ l, out = JArray l ∧ extractMultimodalText out = Some text ∧ other_parts l = other_parts parts.
Proof.
  unfold rebuildMultimodalContent. destruct (rebuild_loop _ _ _) as [[l e]|] eqn:Hl; simpl; [|done].
  intros [= <-] Ht. pose proof (rebuild_loop_others _ _ _ _ _ Hl) as [Ho He]. rw Ht in He.
  simpl in He. subst e. exists l. split_and!; [done| |done].
  cbn [extractMultimodalText]. by rw (rebuild_loop_text _ _ _ _ _ _ Hl).
Qed.

(** ** Objects that are built member by member *)

Lemma assign_if_find c k v j j' m :
  j = JObject m → assign_if c k v j = Some j' →
  ∃ m', j' = JObject m' ∧
    ∀ k', map_find k' m' = if decide (k' = k ∧ c = true) then Some v else map_find k' m.
Proof.
  intros ->. unfold assign_if. destruct c; simpl; intros [= <-]; eexists; (split; [done|]); intros k'.
  - rw map_find_assign. by repeat case_decide; naive_solver.
  - by rw decide_False; [|intros [_ ?]].
Qed.

Lemma tool_call_round_trip tc : tool_call_from_json (tool_call_to_json tc) = Some tc.
Proof. by destruct tc. Qed.

(** ** A message on the wire *)

Definition parts_of (j : json) : list json := match j with JArray l => l | _ => [] end.

(** A multimodal message has a text part. *)
Definition text_slot (m : Message) : Prop :=
  parts_of (m_content_parts m) ≠ [] → existsb is_text (parts_of (m_content_parts m)) = true.

(** The members of the JSON form of a message. *)
Lemma message_members m content :
  content_json m = Some content →
  ∃ o, message_to_json m = Some (JObject o) ∧
    map_find "role" o = Some (JString (m_role m)) ∧
    map_find "content" o = Some content ∧
    map_find "tool_calls" o =
      (if no_elems (m_tool_calls m) then None
       else Some (JArray (tool_call_to_json <$> m_tool_calls m))) ∧
    map_find "tool_call_id" o =
      (if str_empty (m_tool_call_id m) then None else Some (JString (m_tool_call_id m))) ∧
    map_find "name" o = (if str_empty (m_name m) then None else Some (JString (m_name m))).
Proof.
  intros Hc. unfold message_to_json. rw Hc. cbn [mbind option_bind].
  set (base := map_assign "content" content [("role", JString (m_role m))]).
  change (json_assign "content" content (json_of_list [("role", JString (m_role m))]))
    with (Some (JObject base)).
  cbn [mbind option_bind].
  destruct (assign_if _ "tool_calls" _ _) as [j1|] eqn:H1; [|by unfold assign_if in H1; case_match].
  destruct (assign_if_find _ _ _ _ _ base eq_refl H1) as (m1 & -> & F1). cbn [mbind option_bind].
  destruct (assign_if _ "tool_call_id" _ _) as [j2|] eqn:H2; [|by unfold assign_if in H2; case_match].
  destruct (assign_if_find _ _ _ _ _ m1 eq_refl H2) as (m2 & -> & F2). cbn [mbind option_bind].
  destruct (assign_if _ "name" _ _) as [j3|] eqn:H3; [|by unfold assign_if in H3; case_match].
  destruct (assign_if_find _ _ _ _ _ m2 eq_refl H3) as (m3 & -> & F3).
  exists m3. split; [done|]. rw !F3 !F2 !F1 /base !map_find_assign. clear.
  split_and!; try done; by [destruct (no_elems (m_tool_calls m))|
    destruct (str_empty (m_tool_call_id m))|destruct (str_empty (m_name m))].
Qed.

Lemma content_wire m content :
  text_slot m → content_json m = Some content →
  ∃ parts, content_from (Some content) = Some (m_content m, parts) ∧
    other_parts (parts_of parts) = other_parts (parts_of (m_content_parts m)).
Proof.
  intros Ht. unfold content_json.
  assert (∀ c, c = JString (m_content m) ∨ c = JNull ∧ m_content m = "" →
    ∃ parts, content_from (Some c) = Some (m_content m, parts) ∧ parts = JNull) as Hplain.
  { intros c [->|[-> ->]]; by eexists. }
  assert (∀ c, (if negb (str_empty (m_content m)) || no_elems (m_tool_calls m)
                then Some (JString (m_content m)) else Some JNull) = Some c →
    ∃ parts, content_from (Some c) = Some (m_content m, parts) ∧ parts = JNull) as Hpl.
  { intros c Hc. apply Hplain. destruct (str_empty (m_content m)) eqn:He; simpl in Hc.
    - apply str_empty_spec in He. case_match; naive_solver.
    - naive_solver. }
  unfold text_slot in Ht.
  destruct (m_content_parts m) as [| | | | |[|part l]|]; simpl in *;
    try (intros (parts & Hf & ->)%Hpl; by eexists).
  intros Hr. destruct (rebuild_carries (part :: l) _ _ Hr) as (out & -> & He & Ho); [by apply Ht|].
  exists (JArray out). split; [|done].
  change (text_loop "" out = Some (m_content m)) in He. by rw He.
Qed.

(** A message and what is read back of it. *)
Definition same_message (m m' : Message) : Prop :=
  m_role m' = m_role m ∧ m_content m' = m_content m ∧ m_tool_calls m' = m_tool_calls m ∧
  m_tool_call_id m' = m_tool_call_id m ∧ m_name m' = m_name m ∧
  other_parts (parts_of (m_content_parts m')) = other_parts (parts_of (m_content_parts m)).

(** What is read back of a multimodal message without a text part: its text is
    lost, and the two elements of the initializer list are in front of its
    parts. *)
Definition without_text (m m' : Message) : Prop :=
  m_role m' = m_role m ∧ m_content m' = "" ∧ m_tool_calls m' = m_tool_calls m ∧
  m_tool_call_id m' = m_tool_call_id m ∧ m_name m' = m_name m ∧
  m_content_parts m' = JArray (inserted_front (m_content m) ++ parts_of (m_content_parts m)).

(** What is read back of any message. *)
Definition read_as (m m' : Message) : Prop :=
  text_slot m ∧ same_message m m' ∨ ¬ text_slot m ∧ without_text m m'.

Lemma rebuild_loop_none text l out : rebuild_loop text false l = Some (out, false) → out = l.
Proof.
  revert out. induction l as [|part l IH]; intros out; simpl; [by intros [= <-]|].
  destruct (has_type "text" part) as [[]|]; simpl; [| |done].
  - destruct (rebuild_loop text true l) as [[out' e]|] eqn:Hl; simpl; [|done].
    intros [= <- ->]. by apply rebuild_loop_others in Hl as [_ ?].
  - destruct (rebuild_loop text false l) as [[out' e]|] eqn:Hl; simpl; [|done].
    intros [= <- ->]. f_equal. by apply IH.
Qed.

Lemma content_wire_lost m content :
  ¬ text_slot m → content_json m = Some content →
  content_from (Some content) =
    Some ("", JArray (inserted_front (m_content m) ++ parts_of (m_content_parts m))).
Proof.
  intros Ht. unfold content_json, text_slot in *.
  destruct (m_content_parts m) as [| | | | |[|part l]|]; try (exfalso; by apply Ht).
  cbn [parts_of is_array json_empty negb andb] in *. unfold rebuildMultimodalContent.
  destruct (rebuild_loop _ _ _) as [[out e]|] eqn:Hl; simpl; [|done].
  pose proof (rebuild_loop_others _ _ _ _ _ Hl) as [_ He]. cbn [orb] in He.
  destruct (existsb is_text (part :: l)) eqn:Hx; [exfalso; by apply Ht|]. subst e.
  pose proof (rebuild_loop_text _ _ _ _ _ "" Hl) as Htext. cbn [andb] in Htext.
  apply rebuild_loop_none in Hl as ->. intros [= <-].
  transitivity ((λ s, (s, JArray (inserted_front (m_content m) ++ part :: l))) <$> text_loop "" (part :: l));
    [done|by rw Htext].
Qed.

Lemma text_slot_dec m : text_slot m ∨ ¬ text_slot m.
Proof.
  unfold text_slot. destruct (parts_of _) as [|part l]; [by left; intros []|].
  destruct (existsb _ _); [by left|right; naive_solver].
Qed.

(** The fields of a message, given how its content is read. *)
Lemma message_read_content m j content text parts :
  content_json m = Some content → content_from (Some content) = Some (text, parts) →
  message_to_json m = Some j →
  message_from_json j = Some {| m_role := m_role m; m_content := text; m_content_parts := parts;
    m_tool_calls := m_tool_calls m; m_tool_call_id := m_tool_call_id m; m_name := m_name m |}.
Proof.
  intros Hc Hf Hj.
  destruct (message_members m content Hc) as (o & Ho & F1 & F2 & F3 & F4 & F5).
  rw Ho in Hj. injection Hj as <-.
  unfold message_from_json, string_or, json_value, json_member. rw F1 F2 F3 F4 F5.
  cbn [mbind option_bind as_string]. rw Hf. cbn [mbind option_bind].
  assert (tool_calls_from (if no_elems (m_tool_calls m) then None
    else Some (JArray (tool_call_to_json <$> m_tool_calls m))) = Some (m_tool_calls m)) as ->.
  { destruct (no_elems _) eqn:Hn; [by destruct (m_tool_calls m)|]. cbn [tool_calls_from].
    apply mapM_Some_2, Forall2_fmap_l, Forall_Forall2_diag, Forall_forall.
    intros tc _. apply tool_call_round_trip. }
  cbn [mbind option_bind].
  destruct (str_empty (m_tool_call_id m)) eqn:E1; [apply str_empty_spec in E1|];
    (destruct (str_empty (m_name m)) eqn:E2; [apply str_empty_spec in E2|]);
    cbn [mbind option_bind as_string]; rw ?E1 ?E2; done.
Qed.

Lemma message_read_back m j :
  message_to_json m = Some j → ∃ m', message_from_json j = Some m' ∧ read_as m m'.
Proof.
  intros Hj. destruct (content_json m) as [content|] eqn:Hc; [|by rw /message_to_json Hc in Hj].
  destruct (text_slot_dec m) as [Ht|Ht].
  - destruct (content_wire m content Ht Hc) as (parts & Hf & Hp).
    eexists. split; [by eapply message_read_content|]. by left.
  - eexists. split; [by eapply message_read_content, Hj; [|apply content_wire_lost]|]. by right.
Qed.

(** What leaves the gateway for a message is read back as the same message:
    the text is the one the guardrails left in [m_content], whatever text the
    content array held before, and every other part of the array is still
    there in its order. *)
Theorem message_wire m j :
  text_slot m → message_to_json m = Some j →
  ∃ m', message_from_json j = Some m' ∧ same_message m m'.
Proof.
  intros Ht Hj. destruct (message_read_back m j Hj) as (m' & Hm & [[_ ?]|[? _]]); [by exists m'|done].
Qed.

(** ** Text in image references *)

(** The Base64 texts of some bytes, with or without padding. *)
Definition rfc4648 (data : list Z) (s : string) : Prop :=
  ∃ gs rest pad, Codec.grouped 6 (concat (Codec.bits 8 <$> data)) gs rest ∧
    String.list_ascii_of_string s =
      (Jwt.table_char <$> (Codec.unbits <$> (gs ++ Codec.last_group 6 rest))) ++
      replicate pad "="%char.

Lemma base64_value_char v :
  0 <= v < 64 → Jwt.table_char v ≠ "="%char ∧ base64_value (Jwt.table_char v) = Some v.
Proof. revert v. apply (below_all _ 64). apply (bool_decide_unpack _). by vm_compute. Qed.

(** A text that is Base64 once the characters outside the alphabet are
    dropped. *)
Definition base64_text (data : list Z) (s : string) : Prop :=
  ∃ s', rfc4648 data s' ∧
    String.list_ascii_of_string s' =
      filter (λ c, c = "="%char ∨ is_Some (base64_value c)) (String.list_ascii_of_string s).

Lemma capped_loop_skips max l out buf bits :
  capped_loop max l out buf bits =
  capped_loop max (filter (λ c, c = "="%char ∨ is_Some (base64_value c)) l) out buf bits.
Proof.
  revert out buf bits. induction l as [|c l IH]; intros out buf bits; [done|]. cbn [capped_loop].
  destruct (decide (c = "="%char)) as [->|Hne].
  { rw filter_cons_True; [|by left]. done. }
  destruct (base64_value c) as [d|] eqn:Hd.
  - rw filter_cons_True; [|by rw Hd; right]. cbn [capped_loop]. rw decide_False // Hd.
    repeat case_match; auto.
  - rw filter_cons_False; [apply IH|]. rw Hd. by intros [|[]].
Qed.

Lemma regroup_grows a b fuel push cs out val n :
  ∃ new, (foldl (Codec.regroup_step a b fuel push) (out, val, n) cs).1.1 = out ++ new.
Proof.
  revert out val n. induction cs as [|c cs IH]; intros out val n; [exists []; by rw app_nil_r|]. cbn [foldl].
  rw {2}/Codec.regroup_step. destruct (Codec.drain _ _ _ _) as [new n'].
  destruct (IH (out ++ new) (push val c) n') as [new' ->]. exists (new ++ new'). by rw app_assoc.
Qed.

(** The loop stops one byte behind the limit. *)
Lemma capped_loop_regroup max pad cs out buf n :
  Forall (λ v, 0 <= v < 64) cs → Z.of_nat (length out) <= max →
  let full := (foldl (Codec.regroup_step 6 8 1 (Totp.push 6)) (out, buf, n) cs).1.1 in
  capped_loop max ((Jwt.table_char <$> cs) ++ replicate pad "="%char) out buf (n - 8) =
  (take (S (Z.to_nat max)) full, bool_decide (max < Z.of_nat (length full))).
Proof.
  intros Hcs. cbv zeta. revert out buf n. induction Hcs as [|c cs Hc _ IH]; intros out buf n Hmax.
  { cbn [foldl fst]. rw take_ge; [|lia]. rw bool_decide_eq_false_2; [|lia]. by destruct pad. }
  destruct (base64_value_char c Hc) as [Hne Hv]. cbn [foldl].
  rw fmap_cons -app_comm_cons. cbn [capped_loop]. rw decide_False // Hv.
  assert (Codec.regroup_step 6 8 1 (Totp.push 6) (out, buf, n) c =
    if 0 <=? n - 8 + 6
    then (out ++ [Z.land (Z.shiftr (Totp.push 6 buf c) (n - 8 + 6)) 0xFF], Totp.push 6 buf c, n - 8 + 6)
    else (out, Totp.push 6 buf c, n + 6)) as Hstep.
  { unfold Codec.regroup_step. cbn [Codec.drain]. change (Z.of_nat 8) with 8.
    change (Z.of_nat 6) with 6. change (Z.ones 8) with 0xFF.
    replace (n + 6 - 8) with (n - 8 + 6) by lia.
    destruct (Z.leb_spec 8 (n + 6)), (Z.leb_spec 0 (n - 8 + 6)); try lia; [done|].
    by rw app_nil_r. }
  rw Hstep. destruct (0 <=? n - 8 + 6) eqn:Hn.
  - set (out' := out ++ [_]). assert (length out' = S (length out)) as Hlen by (subst out'; rw length_app /=; lia).
    destruct (max <? Z.of_nat (length out')) eqn:Hb.
    + destruct (regroup_grows 6 8 1 (Totp.push 6) cs out' (Totp.push 6 buf c) (n - 8 + 6)) as [new ->].
      apply Z.ltb_lt in Hb. rw take_app_le; [|lia]. rw take_ge; [|lia].
      rw bool_decide_eq_true_2 //. rw length_app. lia.
    + apply Z.ltb_ge in Hb. by apply IH.
  - replace (n - 8 + 6) with (n + 6 - 8) by lia. by apply IH.
Qed.

Lemma decode_capped data s max :
  base64_text data s → Forall (λ b, 0 <= b < 256) data → 0 <= max →
  decodeBase64Capped s max =
    (string_of_bytes (take (S (Z.to_nat max)) data), bool_decide (max < Z.of_nat (length data))).
Proof.
  intros (s' & (gs & rest & pad & Hg & Hs) & Hs') Hdata Hmax.
  pose proof (Codec.grouped_all_length _ _ _ _ Hg) as Hlen.
  assert (Forall (λ v, 0 <= v < 64) (Codec.unbits <$> (gs ++ Codec.last_group 6 rest))) as Hr.
  { apply Forall_fmap. eapply Forall_impl; [done|]. intros g. apply (Codec.unbits_in 6). }
  destruct (Codec.regroup_spec 6 8 1 (Totp.push 6))
    with (cs := Codec.unbits <$> (gs ++ Codec.last_group 6 rest))
    (val := 0) (n := 0) (P := @nil bool) (out := @nil Z) as (gs' & rest' & val & Hg' & Hf & _);
    [lia..|intros; by apply (Totp.push_mod 6); [lia|]|done|done|simpl; lia|].
  rw app_nil_l Codec.bits_unbits_list // in Hg'.
  rw (Codec.decode_groups 6 data gs rest gs' rest') // in Hf; [|lia].
  rw app_nil_l Codec.unbits_bits_list // in Hf.
  unfold decodeBase64Capped. rw capped_loop_skips -Hs' Hs. pose proof (capped_loop_regroup max pad
    (Codec.unbits <$> (gs ++ Codec.last_group 6 rest)) [] 0 0 Hr Hmax) as Hc.
  cbv zeta in Hc. rw Hf in Hc. change (0 - 8) with (-8) in Hc. by rw Hc.
Qed.

Lemma substring_whole n s : (String.length s <= n)%nat → String.substring 0 n s = s.
Proof.
  revert n. induction s as [|c s IH]; intros [|n] Hn; simpl in *; [done..|lia|]. f_equal. apply IH. lia.
Qed.

(** What is scanned of a data URI of a textual type. *)
Lemma scanned_payload meta payload max :
  ¬ has_char ","%char meta → text_mime (media_type meta) = true → 0 <= max →
  scanned ("data:" +:+ meta +:+ "," +:+ payload) max =
    if str_contains ";base64" meta then (decodeBase64Capped payload max).1
    else String.substring 0 (Z.to_nat max) payload.
Proof.
  intros Hc Hm Hmax. unfold scanned. set (after := meta +:+ "," +:+ payload).
  rw (_ : String.prefix "data:" ("data:" +:+ after) = true); [|by destruct after]. cbn [negb].
  change (substr_from 5 ("data:" +:+ after)) with (substr_from (String.length "data:") ("data:" +:+ after)).
  rw substr_from_app. assert (after = meta +:+ String ","%char payload) as -> by done.
  rw str_find_first // {1 2}/substr_to substring_app_l Hm. cbn [negb].
  destruct (str_contains ";base64" meta); [by rw substr_after|]. rw substr_after.
  destruct (Z.ltb_spec max (Z.of_nat (String.length payload))); [done|]. by rw substring_whole; [|lia].
Qed.

(** The loop keeps what it has and adds every reference. *)
Lemma image_loop_grows max text parts out :
  image_loop max text parts = Some out → ∃ b, out = text +:+ b.
Proof.
  revert text. induction parts as [|part parts IH]; intros text; simpl.
  { intros [= <-]. exists "". by rw string_app_nil_r. }
  destruct (has_type _ part) as [[]|]; simpl; [|apply IH|done].
  destruct (part_url part) as [url|]; simpl; [|done]. intros [b ->]%IH.
  destruct (str_empty (if str_empty url then "" else scanned url max)); [by exists b|].
  unfold append_line. destruct (str_empty text) eqn:Ht.
  - apply str_empty_spec in Ht as ->. by eexists.
  - rw !string_app_assoc. by eexists.
Qed.

Lemma image_loop_contains max text parts out part url :
  image_loop max text parts = Some out → part ∈ parts →
  has_type "image_url" part = Some true → part_url part = Some url → url ≠ "" →
  ∃ a b, out = a +:+ scanned url max +:+ b.
Proof.
  intros Hl Hin Ht Hu Hne. revert text Hl. induction parts as [|p parts IH]; intros text; simpl.
  { by apply not_elem_of_nil in Hin. }
  apply elem_of_cons in Hin as [<-|Hin].
  - rw Ht /= Hu /= (proj2 (str_empty_false url)) //. intros [b ->]%image_loop_grows.
    destruct (str_empty (scanned url max)) eqn:Hs.
    + apply str_empty_spec in Hs as ->. by exists text, b.
    + unfold append_line. rw string_app_assoc. by eexists _, _.
  - destruct (has_type _ p) as [[]|]; simpl; [|by apply IH|done].
    destruct (part_url p) as [url'|]; simpl; [|done]. by apply IH.
Qed.

(** C37. The guardrails see text that is hidden in an image reference:
    unless the extraction throws, as it does when the type or the URL of
    some part is not a string, and when some part of a message is a
    reference to a data URI of a textual type, with whatever parameters,
    its payload is part of the scanned text: of a Base64 payload the bytes
    that it encodes (characters outside the alphabet are skipped), of
    another payload its characters.  Beyond the limit the text is cut,
    behind the byte that exceeds the limit for Base64, at the limit
    otherwise; the comment on [decodeBase64Capped] says that then only the
    prefix of the URI is scanned. *)
Theorem image_text_scanned parts out part meta payload max :
  extractImageRefText (JArray parts) max = Some out → part ∈ parts →
  has_type "image_url" part = Some true →
  part_url part = Some ("data:" +:+ meta +:+ "," +:+ payload) →
  ¬ has_char ","%char meta → text_mime (media_type meta) = true → 0 <= max →
  ∃ before text behind, out = before +:+ text +:+ behind ∧
    if str_contains ";base64" meta
    then ∀ data, base64_text data payload → Forall (λ b, 0 <= b < 256) data →
           text = string_of_bytes (take (S (Z.to_nat max)) data)
    else text = String.substring 0 (Z.to_nat max) payload.
Proof.
  intros Hl Hin Ht Hu Hc Hm Hmax.
  destruct (image_loop_contains _ _ _ _ _ _ Hl Hin Ht Hu) as (a & b & ->); [done|].
  exists a, (scanned ("data:" +:+ meta +:+ "," +:+ payload) max), b. split; [done|].
  rw scanned_payload //. destruct (str_contains ";base64" meta); [|done].
  intros data Hd Hb. by rw (decode_capped data).
Qed.

(** A content array without a text part loses its text: the two members of the
    text part arrive as two separate arrays, which no reader takes for text. *)
Lemma multimodal_text_lost parts text :
  existsb is_text parts = false → Forall (λ p, is_Some (has_type "text" p)) parts →
  rebuildMultimodalContent (JArray parts) text = Some (JArray (inserted_front text ++ parts)).
Proof.
  intros Hn Hp. unfold rebuildMultimodalContent.
  assert (rebuild_loop text false parts = Some (parts, false)) as ->; [|done].
  induction Hp as [|p parts [b Hb] _ IH]; [done|]. cbn [rebuild_loop existsb] in *.
  apply orb_false_iff in Hn as [Hi Hn]. rw /is_text Hb in Hi. rw Hb. destruct b; [done|].
  simpl. by rw IH.
Qed.

Definition image_part (url : string) : json :=
  json_of_list [("type", JString "image_url");
                ("image_url", json_of_list [("url", JString url)])].

Definition toy_message : Message :=
  {| m_role := "user"; m_content := "rewritten";
     m_content_parts := JArray [text_part "secret"; image_part "http://img"; text_part "more"];
     m_tool_calls := [{| tc_id := "1"; tc_type := "function"; tc_function := JNull |}];
     m_tool_call_id := ""; m_name := "bob" |}.

Lemma message_wire_witness :
  ∃ j m', message_to_json toy_message = Some j ∧ message_from_json j = Some m' ∧
    m_content m' = "rewritten" ∧
    other_parts (parts_of (m_content_parts m')) = [image_part "http://img"].
Proof.
  destruct (message_to_json toy_message) as [j|] eqn:Hj; [|by vm_compute in Hj].
  destruct (message_wire toy_message j) as (m' & Hm & _ & Hc & _ & _ & _ & Ho);
    [by intros _|done|].
  exists j, m'. split_and!; [done|done|done|]. by rw Ho.
Defined.

Definition hidden_uri : string := "data:text/plain;charset=utf-8;base64,aG k=".

Lemma image_text_scanned_witness :
  ∃ out before behind,
    extractImageRefText (JArray [text_part "look"; image_part hidden_uri]) 100 = Some out ∧
    out = before +:+ "hi" +:+ behind.
Proof.
  destruct (extractImageRefText (JArray [text_part "look"; image_part hidden_uri]) 100) as [out|] eqn:He;
    [|by vm_compute in He].
  destruct (image_text_scanned _ out (image_part hidden_uri) "text/plain;charset=utf-8;base64" "aG k="
    100 He) as (a & text & b & Ho & Htext).
  - right. by left.
  - done.
  - done.
  - unfold has_char. apply (bool_decide_unpack _). by vm_compute.
  - done.
  - done.
  - exists out, a, b. split; [done|]. rw Ho. do 2 f_equal. apply (Htext (bytes_of "hi")).
    + exists "aGk=". split; [|done].
      exists [Codec.bits 6 26; Codec.bits 6 6], [true; false; false; true], 1%nat.
      split; [|done]. split_and!; [done| |simpl; lia]. by repeat constructor.
    + apply bytes_of_range.
Defined.

End ChatTypes.
