(* ===== verification/Upstream.v ===== *)
(** * Upstream: the transports and their line streams

    Models the line handling of [src/src/gateway/connector/curl_upstream_client.cpp]
    ([writeCallback], [finishTransfer]) and of [drogon_upstream_client.cpp]
    ([sendStreaming]).  The first is called with the bytes of a response as they
    arrive, the second has the whole response; both hand its lines to the
    connector.  The transfers of libcurl and drogon are their inputs. *)
From Corelib Require Import PrimFloat.
From S2P Require Import Prelude.
Local Open Scope Z_scope.

Module Upstream.

Record UpstreamRequest := {
  u_method : string;
  u_path : string;
  u_body : string;
  u_headers : gmap string string;
  u_timeout_seconds : float;
}.

(** What the callbacks of a request receive. *)
Inductive TransferEvent :=
| OnChunk (line : string)
| OnDone (status : Z) (body : string)
| OnError (err : string).

Definition lf : Ascii.ascii := "010"%char.
Definition cr : string := String "013"%char "".

(** A trailing carriage return is taken off. *)
Fixpoint strip_cr (line : string) : string :=
  match line with
  | EmptyString => ""
  | String c s => if decide (c = "013"%char ∧ s = "") then "" else String c (strip_cr s)
  end.

(** ** libcurl *)

Record ActiveTransfer := {
  accumulated_body : string;
  line_buffer : string;
  streaming : bool;
}.

(** The loop over the complete lines of the buffer: the lines that are handed
    on, and what stays.  Every round takes a line off, so [fuel] is the length
    of the buffer. *)
Fixpoint drain (fuel : nat) (buffer : string) : list TransferEvent * string :=
  match fuel with
  | O => ([], buffer)
  | S fuel =>
      match str_find lf 0 buffer with
      | None => ([], buffer)
      | Some nl =>
          let line := strip_cr (String.substring 0 nl buffer) in
          let '(evs, rest) := drain fuel (substr_from (S nl) buffer) in
          (if str_empty line then evs else OnChunk line :: evs, rest)
      end
  end.

Definition writeCallback (data : string) (t : ActiveTransfer) :
    list TransferEvent * ActiveTransfer :=
  let body := accumulated_body t +:+ data in
  if streaming t then
    let buffer := line_buffer t +:+ data in
    let '(evs, rest) := drain (String.length buffer) buffer in
    (evs, {| accumulated_body := body; line_buffer := rest; streaming := true |})
  else ([], {| accumulated_body := body; line_buffer := line_buffer t; streaming := false |}).

(** The end of a transfer: libcurl's error text or the status. *)
Definition finishTransfer (result : string + Z) (t : ActiveTransfer) : list TransferEvent :=
  match result with
  | inl err => [OnError ("curl error: " +:+ err)]
  | inr status =>
      (if streaming t && negb (str_empty (line_buffer t)) then [OnChunk (line_buffer t)] else []) ++
      [OnDone status (accumulated_body t)]
  end.

(** A transfer: the data in the pieces in which it arrives, and its end. *)
Fixpoint transfer (pieces : list string) (result : string + Z) (t : ActiveTransfer) :
    list TransferEvent :=
  match pieces with
  | [] => finishTransfer result t
  | data :: pieces =>
      let '(evs, t) := writeCallback data t in evs ++ transfer pieces result t
  end.

Definition curl_stream (pieces : list string) (result : string + Z) : list TransferEvent :=
  transfer pieces result {| accumulated_body := ""; line_buffer := ""; streaming := true |}.

(** ** drogon *)

(** The lines [std::getline] reads; a last line needs no line feed. *)
Fixpoint getlines (s : string) : list string :=
  match s with
  | EmptyString => []
  | String c s =>
      if decide (c = lf) then "" :: getlines s
      else match getlines s with
           | [] => [String c ""]
           | line :: lines => String c line :: lines
           end
  end.

(** The body of the loop: empty lines are skipped. *)
Definition clean_line (line : string) : option string :=
  if str_empty line || bool_decide (line = cr) then None else Some (strip_cr line).

Definition drogon_stream (response : option (Z * string)) : list TransferEvent :=
  match response with
  | None => [OnError "Failed to reach upstream"]
  | Some (status, body) => (OnChunk <$> omap clean_line (getlines body)) ++ [OnDone status body]
  end.

(** ** Lines *)

(** The complete lines of a text and the unfinished one. *)
Fixpoint pieces_of (s : string) : list string * string :=
  match s with
  | EmptyString => ([], "")
  | String c s =>
      let '(lines, rest) := pieces_of s in
      if decide (c = lf) then ("" :: lines, rest)
      else match lines with
           | [] => ([], String c rest)
           | line :: lines => (String c line :: lines, rest)
           end
  end.

Lemma pieces_of_line (a b : string) :
  ¬ has_char lf a →
  pieces_of (a +:+ String lf b) = (a :: (pieces_of b).1, (pieces_of b).2).
Proof.
  induction a as [|c a IH]; intros Ha.
  { change ("" +:+ String lf b) with (String lf b). cbn [pieces_of].
    by destruct (pieces_of b). }
  rw string_cons_app. cbn [pieces_of]. rw IH; [|by intros ?; apply Ha; right].
  rw decide_False //. intros ->. apply Ha. by left.
Qed.

Lemma pieces_none s : ¬ has_char lf s → pieces_of s = ([], s).
Proof.
  induction s as [|c s IH]; intros Hs; [done|]. cbn [pieces_of].
  rw IH; [|by intros ?; apply Hs; right]. rw decide_False //. intros ->. apply Hs. by left.
Qed.

Lemma pieces_rest s : ¬ has_char lf (pieces_of s).2.
Proof.
  induction s as [|c s IH]; [by intros ?%elem_of_nil|]. cbn [pieces_of].
  destruct (pieces_of s) as [lines rest]. simpl in IH. case_decide as Hc; [done|].
  destruct lines; simpl; [|done]. intros [?|?]%elem_of_cons; [by subst|done].
Qed.

(** Text in two parts: the unfinished line of the first goes on in the second. *)
Lemma pieces_app a b :
  pieces_of (a +:+ b) =
  ((pieces_of a).1 ++ (pieces_of ((pieces_of a).2 +:+ b)).1,
   (pieces_of ((pieces_of a).2 +:+ b)).2).
Proof.
  induction a as [|c a IH].
  { change ("" +:+ b) with b. cbn [pieces_of fst snd app]. change ("" +:+ b) with b. by destruct (pieces_of b). }
  rw string_cons_app. cbn [pieces_of].
  rw IH. destruct (pieces_of a) as [lines rest]. simpl.
  case_decide as Hc; [by subst|]. destruct lines as [|l lines]; simpl; [|done].
  destruct (pieces_of (rest +:+ b)) as [lines' rest']. simpl.
  rw decide_False //. by destruct lines'.
Qed.

Lemma getlines_pieces s :
  getlines s = (pieces_of s).1 ++ (if str_empty (pieces_of s).2 then [] else [(pieces_of s).2]).
Proof.
  induction s as [|c s IH]; [done|]. cbn [getlines pieces_of]. rw IH.
  destruct (pieces_of s) as [lines rest]. simpl. case_decide; [done|].
  destruct lines as [|l lines]; simpl; [|done]. by destruct rest.
Qed.

Lemma strip_cr_empty s : strip_cr s = "" → s = "" ∨ s = cr.
Proof. destruct s as [|c s]; [by left|]. simpl. case_decide as Hc; [|done]. destruct Hc as [-> ->]. by right. Qed.

Lemma clean_line_spec s :
  clean_line s = if str_empty (strip_cr s) then None else Some (strip_cr s).
Proof.
  unfold clean_line. destruct (str_empty (strip_cr s)) eqn:He.
  - by apply str_empty_spec, strip_cr_empty in He as [->| ->].
  - destruct (decide (s = "")) as [->|Hs]; [done|]. destruct (decide (s = cr)) as [->|Hc]; [done|].
    by rw (proj2 (str_empty_false s)) // bool_decide_false.
Qed.

Lemma drain_pieces fuel s :
  (String.length s <= fuel)%nat →
  drain fuel s = (OnChunk <$> omap clean_line (pieces_of s).1, (pieces_of s).2).
Proof.
  revert s. induction fuel as [|fuel IH]; intros s Hf; [by destruct s; [|simpl in Hf; lia]|].
  cbn [drain]. destruct (str_find lf 0 s) as [nl|] eqn:Hn.
  - apply str_find_some in Hn as (a & b & -> & <- & _ & Ha). rw substring_app_l substr_after IH.
    + rw pieces_of_line; [|by apply Ha]. simpl. rw clean_line_spec. by destruct (str_empty (strip_cr a)).
    + rw string_length_app /= in Hf. lia.
  - by rw pieces_none; [|apply str_find_none_inv].
Qed.

Definition joined (pieces : list string) : string := foldr String.append "" pieces.

Lemma transfer_lines pieces status t :
  streaming t = true → ¬ has_char lf (line_buffer t) →
  transfer pieces (inr status) t =
  let '(lines, rest) := pieces_of (line_buffer t +:+ joined pieces) in
  (OnChunk <$> omap clean_line lines) ++ (if str_empty rest then [] else [OnChunk rest]) ++
  [OnDone status (accumulated_body t +:+ joined pieces)].
Proof.
  revert t. induction pieces as [|data pieces IH]; intros [body buffer s] Hs Hb; simpl in *; subst s.
  { unfold finishTransfer. rw !string_app_nil_r pieces_none //=. by destruct (str_empty buffer). }
  unfold writeCallback. cbn [streaming line_buffer accumulated_body].
  rw drain_pieces // IH; [|done|apply pieces_rest]. cbn [line_buffer accumulated_body].
  rw -(string_app_assoc buffer) (pieces_app (buffer +:+ data)).
  destruct (pieces_of ((pieces_of (buffer +:+ data)).2 +:+ joined pieces)) as [lines rest].
  simpl. by rw omap_app fmap_app -!(assoc_L (++)) string_app_assoc.
Qed.

Lemma pieces_suffix s : ∃ p, s = p +:+ (pieces_of s).2 ∧ ((pieces_of s).1 = [] → p = "").
Proof.
  induction s as [|c s (p & IH & Hp)]; [by exists ""|]. cbn [pieces_of].
  destruct (pieces_of s) as [[|l lines] rest]; simpl in *; case_decide; simpl;
    try (exists (String c p); split; [by rw string_cons_app -IH|done]).
  exists "". rw Hp // in IH. by rw IH.
Qed.

Lemma strip_cr_keep s : (∀ p, s ≠ p +:+ cr) → strip_cr s = s.
Proof.
  induction s as [|c s IH]; intros Hs; [done|]. simpl. rw decide_False.
  - f_equal. apply IH. intros p ->. by apply (Hs (String c p)).
  - intros [-> ->]. by apply (Hs "").
Qed.

(** C33. The two transports are interchangeable: however libcurl cuts a response
    into pieces, even inside a line, the connector is handed exactly the lines
    that are read from the whole response, and then the status and the whole
    body, unless the response ends in a carriage return. *)
Theorem transports_agree pieces status :
  (∀ p, joined pieces ≠ p +:+ cr) →
  curl_stream pieces (inr status) = drogon_stream (Some (status, joined pieces)).
Proof.
  intros Hcr. unfold curl_stream, drogon_stream. rw transfer_lines //; [|by intros ?%elem_of_nil].
  cbn [line_buffer accumulated_body]. change ("" +:+ joined pieces) with (joined pieces).
  rw getlines_pieces omap_app fmap_app -(assoc_L (++)).
  destruct (pieces_suffix (joined pieces)) as (p & Hp & _).
  destruct (pieces_of (joined pieces)) as [lines rest]. simpl in *. do 2 f_equal.
  destruct (str_empty rest) eqn:He; [done|]. simpl. rw clean_line_spec strip_cr_keep ?He //.
  intros q ->. apply (Hcr (p +:+ q)). by rw string_app_assoc.
Qed.

Lemma transports_agree_witness :
  curl_stream ["data: a" +:+ String "013"%char ""; String lf "data"; ": b" +:+ String lf ""] (inr 200) =
  [OnChunk "data: a"; OnChunk "data: b";
   OnDone 200 ("data: a" +:+ String "013"%char (String lf "data: b") +:+ String lf "")].
Proof.
  rw transports_agree; [by vm_compute|].
  intros p Hp. apply (f_equal (λ s, String.get (String.length s - 1) s)) in Hp.
  rw (string_length_app p) /= in Hp. replace (String.length p + 1 - 1)%nat with (String.length p) in Hp by lia.
  by rw string_get_snoc in Hp.
Defined.

End Upstream.
