(* ===== verification/Connector.v ===== *)
(** * Connector: the providers

    Models [src/src/gateway/connector/base.h], [openai.cpp] and [claude.cpp]:
    what is sent for a chat request, how answers and stream chunks are read,
    the retries over a provider's keys ([complete], [streamComplete],
    [attemptStream]) and [proxyRequest].  The two connectors share the retry
    code up to the interface [ModelConnector].  The key balancer, the upstream
    and the callbacks of a stream are calls; an upstream's answer to a stream
    is the lines it hands to [onChunk] and its end.  [dump] throws on a string
    that is not UTF-8, [parse] on a text that is not JSON. *)
From Corelib Require Import PrimFloat.
From S2P Require Import Prelude.
From S2P Require Import Prog.
From S2P Require Import Trace.
From S2P Require Import Json.
From S2P Require Import ErrorCodes.
From S2P Require Import Balancer.
From S2P Require Import ChatTypes.
From S2P Require Import Upstream.
Import ErrorCodes Json ChatTypes.
Local Open Scope Z_scope.

Module Connector.

(** ** Retries *)

Definition isRetryableStatus (status : Z) : bool :=
  (status =? 401) || (status =? 403) || (status =? 408) || (status =? 409) || (status =? 429) ||
  (500 <=? status).

Definition canRetryStream (first_chunk_seen : bool) (last_status : Z) (tried_size max_attempts : nat) :
    bool :=
  if first_chunk_seen then false
  else if (max_attempts <=? tried_size)%nat then false
  else if last_status =? 0 then true
  else if last_status =? -1 then true
  else isRetryableStatus last_status.

Record ProviderConfig := {
  p_name : string;
  p_models : list string;
  p_timeout_ms : Z;
  p_max_retries : Z;
}.

Definition max_attempts (config : ProviderConfig) : nat :=
  if 0 <? p_max_retries config then Z.to_nat (p_max_retries config + 1) else 1%nat.

Definition supportsModel (config : ProviderConfig) (model : string) : bool :=
  existsb (String.eqb model) (p_models config).

(** The members of an object that is built by assignments. *)
Notation Members := (list (string * json)).
Definition put_if (c : bool) (k : string) (v : json) (m : Members) : Members :=
  if c then map_assign k v m else m.
Definition put_opt {A} (k : string) (f : A → json) (v : option A) (m : Members) : Members :=
  match v with Some v => map_assign k (f v) m | None => m end.

(** What the two connectors define.  [parseStreamChunk] has no result when the
    code reads a member that is not there; [stream_usage] is the usage after
    a line of a finished stream. *)
Class ModelConnector := {
  buildRequestBody : ChatRequest → option json;
  parseResponse : json → option ChatResponse;
  parseStreamChunk : string → option StreamDelta;
  stream_usage : string → TokenUsage → TokenUsage;
  chatEndpoint : string;
  key_headers : string → list (string * string);
}.

Definition no_delta : StreamDelta :=
  {| d_content := ""; d_tool_calls_delta := JNull; d_finish_reason := "" |}.

(** [line.substr(0, 6) == "data: "] and what follows. *)
Definition sse_data (line : string) : option string :=
  if decide (String.substring 0 6 line = "data: ") then Some (substr_from 6 line) else None.

(** The data after the first ["data: "] of a line of the accumulated body. *)
Definition usage_data (line : string) : option string :=
  (λ pos, substr_from (pos + 6) line) <$> String.index 0 "data: " line.

Definition quoted (s : string) : string := String "034"%char s +:+ String "034"%char "".

(** ** OpenAI *)

Section openai.
Context (parse : string → option json).

Definition openai_body (req : ChatRequest) : option json :=
  messages ← mapM message_to_json (cr_messages req);
  let m := map_assign "messages" (JArray messages) [("model", JString (cr_model req))] in
  let m := put_opt "temperature" JFloat (cr_temperature req) m in
  let m := put_opt "max_tokens" JInteger (cr_max_tokens req) m in
  let m := put_if (cr_stream req) "stream" (JBool true) m in
  let m := put_if (negb (is_null (cr_tools req)) && negb (json_empty (cr_tools req))) "tools"
             (cr_tools req) m in
  Some (JObject (put_if (negb (is_null (cr_tool_choice req))) "tool_choice" (cr_tool_choice req) m)).

(** [j["choices"][0]] where there is a choice. *)
Definition first_choice (j : json) : option (option json) :=
  match json_member "choices" j with
  | None => Some None
  | Some choices =>
      if json_empty choices then Some None
      else match choices with JArray (choice :: _) => Some (Some choice) | _ => None end
  end.

(** A member that is absent or null is the empty string. *)
Definition nullable_string (k : string) (j : json) : option string :=
  match json_member k j with None | Some JNull => Some "" | Some v => as_string v end.

Definition openai_usage (body : json) : option TokenUsage :=
  match json_member "usage" body with None => Some no_usage | Some u => usage_from_json u end.

Definition choice_message (choice : json) : option (string * list ToolCall) :=
  match json_member "message" choice with
  | None => Some ("", [])
  | Some msg =>
      content ← nullable_string "content" msg;
      calls ← tool_calls_from (json_member "tool_calls" msg);
      Some (content, calls)
  end.

Definition openai_response (body : json) : option ChatResponse :=
  id ← string_or "" "id" body;
  model ← string_or "" "model" body;
  choice ← first_choice body;
  '(content, calls, finish) ← match choice with
    | None => Some ("", [], "")
    | Some choice =>
        '(content, calls) ← choice_message choice;
        finish ← string_or "" "finish_reason" choice;
        Some (content, calls, finish)
    end;
  usage ← openai_usage body;
  Some {| r_id := id; r_model := model; r_content := content; r_usage := usage;
          r_finish_reason := finish; r_tool_calls := calls |}.

(** The chunk's delta up to the first exception.  [choice["delta"]] of a
    constant object without the member is undefined. *)
Definition openai_delta (j : json) : option StreamDelta :=
  match first_choice j with
  | None | Some None => Some no_delta
  | Some (Some choice) =>
      match choice with
      | JObject m =>
          delta ← map_find "delta" m;
          match nullable_string "content" delta with
          | None => Some no_delta
          | Some content =>
              let calls := match json_member "tool_calls" delta with
                           | Some (JArray l) => JArray l
                           | _ => JNull
                           end in
              let finish := default "" (nullable_string "finish_reason" choice) in
              Some {| d_content := content; d_tool_calls_delta := calls; d_finish_reason := finish |}
          end
      | _ => Some no_delta
      end
  end.

Definition openai_chunk (line : string) : option StreamDelta :=
  match sse_data line with
  | None => Some no_delta
  | Some data =>
      if decide (data = "[DONE]") then Some no_delta
      else match parse data with None => Some no_delta | Some j => openai_delta j end
  end.

Definition openai_stream_usage (line : string) (usage : TokenUsage) : TokenUsage :=
  if str_contains (quoted "usage") line then
    match usage_data line ≫= parse with
    | Some j =>
        match json_member "usage" j with
        | Some _ => default usage (openai_usage j)
        | None => usage
        end
    | None => usage
    end
  else usage.

Definition authHeader (key : string) : string := "Bearer " +:+ key.

#[local] Instance OpenAIConnector : ModelConnector := {|
  buildRequestBody := openai_body;
  parseResponse := openai_response;
  parseStreamChunk := openai_chunk;
  stream_usage := openai_stream_usage;
  chatEndpoint := "/chat/completions";
  key_headers := λ key, [("Authorization", authHeader key)];
|}.

End openai.

(** ** Claude *)

Section claude.
Context (dump : json → option string) (parse : string → option json).

(** A tool call as a content block. *)
Definition tool_use (tc : ToolCall) : option json :=
  name ← string_or "" "name" (tc_function tc);
  args_str ← string_or "" "arguments" (tc_function tc);
  let input := if str_empty args_str then JObject [] else default (JObject []) (parse args_str) in
  Some (json_of_list [("type", JString "tool_use"); ("id", JString (tc_id tc));
                      ("name", JString name); ("input", input)]).

(** The entry for a message that is not a system message. *)
Definition claude_message (m : Message) : option json :=
  if bool_decide (m_role m = "assistant") && negb (no_elems (m_tool_calls m)) then
    blocks ← mapM tool_use (m_tool_calls m);
    let text := if str_empty (m_content m) then [] else [text_part (m_content m)] in
    Some (json_of_list [("role", JString "assistant"); ("content", JArray (text ++ blocks))])
  else if decide (m_role m = "tool") then
    Some (json_of_list [("role", JString "user");
      ("content", JArray [json_of_list [("type", JString "tool_result");
                                        ("tool_use_id", JString (m_tool_call_id m));
                                        ("content", JString (m_content m))]])])
  else Some (json_of_list [("role", JString (m_role m)); ("content", JString (m_content m))]).

(** The loop over the messages: the entries and the last system text. *)
Fixpoint claude_messages (system : string) (l : list Message) : option (list json * string) :=
  match l with
  | [] => Some ([], system)
  | m :: l =>
      if decide (m_role m = "system") then claude_messages (m_content m) l
      else
        entry ← claude_message m;
        '(entries, system) ← claude_messages system l;
        Some (entry :: entries, system)
  end.

Definition claude_tool (tool : json) : option (list json) :=
  match json_member "function" tool with
  | None => Some []
  | Some f =>
      name ← string_or "" "name" f;
      description ← string_or "" "description" f;
      let schema := default (json_of_list [("type", JString "object"); ("properties", JObject [])])
                      (json_member "parameters" f) in
      Some [json_of_list [("name", JString name); ("description", JString description);
                          ("input_schema", schema)]]
  end.

(** The [tool_choice] member, if the request's form is known. *)
Definition claude_choice (choice : json) : option (option json) :=
  let of_type t := Some (Some (json_of_list [("type", JString t)])) in
  match choice with
  | JString tc =>
      if decide (tc = "auto") then of_type "auto"
      else if decide (tc = "none") then of_type "none"
      else if decide (tc = "required") then of_type "any"
      else Some None
  | JObject _ =>
      match json_member "function" choice with
      | None => Some None
      | Some f =>
          name ← string_or "" "name" f;
          Some (Some (json_of_list [("type", JString "tool"); ("name", JString name)]))
      end
  | _ => Some None
  end.

Definition claude_body (req : ChatRequest) : option json :=
  '(messages, system_msg) ← claude_messages "" (cr_messages req);
  let m := map_assign "messages" (JArray messages) [("model", JString (cr_model req))] in
  let m := put_if (negb (str_empty system_msg)) "system" (JString system_msg) m in
  let m := map_assign "max_tokens" (JInteger (default 4096 (cr_max_tokens req))) m in
  let m := put_opt "temperature" JFloat (cr_temperature req) m in
  let m := put_if (cr_stream req) "stream" (JBool true) m in
  tools ← match cr_tools req with JArray l => mjoin <$> mapM claude_tool l | _ => Some [] end;
  let m := put_if (negb (no_elems tools)) "tools" (JArray tools) m in
  choice ← claude_choice (cr_tool_choice req);
  Some (JObject (put_opt "tool_choice" id choice m)).

Definition claude_usage (body : json) : option TokenUsage :=
  match json_member "usage" body with
  | None => Some no_usage
  | Some u =>
      p ← json_value as_int "input_tokens" 0 u;
      c ← json_value as_int "output_tokens" 0 u;
      Some {| prompt_tokens := p; completion_tokens := c; total_tokens := to_int (p + c) |}
  end.

(** The loop over the content blocks. *)
Fixpoint claude_blocks (content : string) (calls : list ToolCall) (blocks : list json) :
    option (string * list ToolCall) :=
  match blocks with
  | [] => Some (content, calls)
  | block :: blocks =>
      block_type ← string_or "" "type" block;
      if decide (block_type = "text") then
        text ← string_or "" "text" block;
        claude_blocks (content +:+ text) calls blocks
      else if decide (block_type = "tool_use") then
        id ← string_or "" "id" block;
        name ← string_or "" "name" block;
        arguments ← match json_member "input" block with Some v => dump v | None => Some "{}" end;
        claude_blocks content
          (calls ++ [{| tc_id := id; tc_type := "function";
                        tc_function := json_of_list [("name", JString name);
                                                     ("arguments", JString arguments)] |}]) blocks
      else claude_blocks content calls blocks
  end.

Definition claude_finish (stop_reason : string) : string :=
  if decide (stop_reason = "tool_use") then "tool_calls" else stop_reason.

Definition claude_response (body : json) : option ChatResponse :=
  id ← string_or "" "id" body;
  model ← string_or "" "model" body;
  '(content, calls) ← match json_member "content" body with
                      | Some (JArray blocks) => claude_blocks "" [] blocks
                      | _ => Some ("", [])
                      end;
  stop_reason ← string_or "" "stop_reason" body;
  usage ← claude_usage body;
  Some {| r_id := id; r_model := model; r_content := content; r_usage := usage;
          r_finish_reason := claude_finish stop_reason; r_tool_calls := calls |}.

(** The delta of an event; [None] is an exception, after which the empty delta
    is returned. *)
Definition claude_event (j : json) : option StreamDelta :=
  let calls l := {| d_content := ""; d_tool_calls_delta := JArray [json_of_list l];
                    d_finish_reason := "" |} in
  event_type ← string_or "" "type" j;
  if decide (event_type = "content_block_delta") then
    match json_member "delta" j with
    | None => Some no_delta
    | Some delta =>
        delta_type ← string_or "" "type" delta;
        if decide (delta_type = "text_delta") then
          text ← string_or "" "text" delta;
          Some {| d_content := text; d_tool_calls_delta := JNull; d_finish_reason := "" |}
        else if decide (delta_type = "input_json_delta") then
          idx ← json_value as_int "index" 0 j;
          partial ← string_or "" "partial_json" delta;
          Some (calls [("index", JInteger idx);
                       ("function", json_of_list [("arguments", JString partial)])])
        else Some no_delta
    end
  else if decide (event_type = "content_block_start") then
    match json_member "content_block" j with
    | None => Some no_delta
    | Some block =>
        block_type ← string_or "" "type" block;
        if decide (block_type = "tool_use") then
          idx ← json_value as_int "index" 0 j;
          id ← string_or "" "id" block;
          name ← string_or "" "name" block;
          Some (calls [("index", JInteger idx); ("id", JString id); ("type", JString "function");
                       ("function", json_of_list [("name", JString name);
                                                  ("arguments", JString "")])])
        else Some no_delta
    end
  else if decide (event_type = "message_delta") then
    match json_member "delta" j with
    | None => Some no_delta
    | Some delta =>
        stop ← string_or "" "stop_reason" delta;
        Some {| d_content := ""; d_tool_calls_delta := JNull; d_finish_reason := claude_finish stop |}
    end
  else Some no_delta.

Definition claude_chunk (line : string) : option StreamDelta :=
  Some (default no_delta (data ← sse_data line; j ← parse data; claude_event j)).

Definition claude_stream_usage (line : string) (usage : TokenUsage) : TokenUsage :=
  if str_contains (quoted "message_delta") line || str_contains (quoted "message_stop") line ||
     str_contains (quoted "usage") line then
    match (data ← usage_data line; j ← parse data; json_member "usage" j) with
    | None => usage
    | Some u =>
        match json_value as_int "input_tokens" (prompt_tokens usage) u with
        | None => usage
        | Some p =>
            match json_value as_int "output_tokens" (completion_tokens usage) u with
            | None => {| prompt_tokens := p; completion_tokens := completion_tokens usage;
                         total_tokens := total_tokens usage |}
            | Some c => {| prompt_tokens := p; completion_tokens := c;
                           total_tokens := to_int (p + c) |}
            end
        end
    end
  else usage.

#[local] Instance ClaudeConnector : ModelConnector := {|
  buildRequestBody := claude_body;
  parseResponse := claude_response;
  parseStreamChunk := claude_chunk;
  stream_usage := claude_stream_usage;
  chatEndpoint := "/v1/messages";
  key_headers := λ key, [("x-api-key", key); ("anthropic-version", "2023-06-01")];
|}.

End claude.


(** ** The calls of a connector *)

(** [TraceHeaders] is what [injectIfEnabled] sets in the headers of a request:
    the pairs of the trace propagator, none when tracing is off. *)
Inductive ConnCmd : Type → Type :=
| NextKey : ConnCmd string
| ReportSuccess (key : string) : ConnCmd unit
| ReportFailure (key : string) : ConnCmd unit
| TraceHeaders : ConnCmd (list (string * string))
| Send (ureq : Upstream.UpstreamRequest) : ConnCmd (string + Z * string)
| SendStreaming (ureq : Upstream.UpstreamRequest) : ConnCmd (list string * (string + Z * string))
| Emit (d : StreamDelta) : ConnCmd unit
| Finish (usage : TokenUsage) : ConnCmd unit
| Surface (err : GatewayError) : ConnCmd unit.

Section connector.
Context `{ModelConnector} (dump : json → option string) (parse : string → option json).
Context (parse_what : string → string) (type_what : string) (config : ProviderConfig).
Notation conn := (prog ConnCmd).

Definition timeout_seconds : float := (int_to_double (p_timeout_ms config) / 1000)%float.

Definition set_headers (pairs : list (string * string)) (headers : gmap string string) :
    gmap string string :=
  foldl (λ h '(k, v), <[k := v]> h) headers pairs.

(** The request that is sent with a key. *)
Definition key_request (body_str key : string) (traced : list (string * string)) :
    Upstream.UpstreamRequest :=
  {| Upstream.u_method := "POST"; Upstream.u_path := chatEndpoint; Upstream.u_body := body_str;
     Upstream.u_headers := set_headers traced
       (<["Content-Type" := "application/json"]> (set_headers (key_headers key) ∅));
     Upstream.u_timeout_seconds := timeout_seconds |}.

Definition upstream_request (body_str key : string) : conn Upstream.UpstreamRequest :=
  traced ← call TraceHeaders;
  Ret (key_request body_str key traced).

Definition upstream_error (status : Z) (body : string) : string :=
  "Upstream error " +:+ to_string status +:+ ": " +:+ body.

(** What [complete] throws when no key is left. *)
Definition exhausted (tried : list string) (last_error : string) (last_status : Z) : Exception :=
  let n := to_string (Z.of_nat (length tried)) in
  if 0 <? last_status
  then UpstreamStatusError last_status
         ("Upstream " +:+ p_name config +:+ " failed after " +:+ n +:+ " key(s): " +:+ last_error)
  else NoHealthyKeysError
         ("No healthy API keys for " +:+ p_name config +:+ " (tried " +:+ n +:+ " key(s)): " +:+
          last_error).

(** The answer with status 200. *)
Definition read_answer (body : string) : Exception + ChatResponse :=
  match parse body with
  | None => inl (RuntimeError ("Failed to parse upstream JSON: " +:+ parse_what body))
  | Some j => match parseResponse j with Some r => inr r | None => inl (RuntimeError type_what) end
  end.

(** The [while (true)] loop; [n] is [max_attempts - tried.size()]. *)
Fixpoint attempts (n : nat) (body_str : string) (tried : list string) (last_error : string)
    (last_status : Z) : conn (Exception + ChatResponse) :=
  key ← call NextKey;
  match n with
  | O => Ret (inl (exhausted tried last_error last_status))
  | S n =>
      if str_empty key || bool_decide (key ∈ tried)
      then Ret (inl (exhausted tried last_error last_status))
      else
        let tried := key :: tried in
        ureq ← upstream_request body_str key;
        answer ← call (Send ureq);
        match answer with
        | inr (status, respBody) =>
            if status =? 200 then
              call (ReportSuccess key);;
              Ret (read_answer respBody)
            else
              call (ReportFailure key);;
              let last_error := upstream_error status respBody in
              if isRetryableStatus status then attempts n body_str tried last_error status
              else Ret (inl (UpstreamStatusError status last_error))
        | inl err =>
            call (ReportFailure key);;
            attempts n body_str tried ("transport error: " +:+ err) last_status
        end
  end.

Definition complete (req : ChatRequest) : conn (Exception + ChatResponse) :=
  match buildRequestBody req ≫= dump with
  | None => Ret (inl (RuntimeError type_what))
  | Some body_str => attempts (max_attempts config) body_str [] "no healthy API keys" 0
  end.

(** ** Streams *)

Record StreamRetryState := {
  first_chunk_seen : bool;
  tried_keys : list string;
  last_error : string;
  last_status : Z;
}.

Definition surface_exhaustion (state : StreamRetryState) : conn unit :=
  call (Surface
    (if 0 <? last_status state then
       {| http_status := last_status state; error_code := "upstream_error";
          error_type := "Upstream " +:+ p_name config +:+ " streaming failed after " +:+
            to_string (Z.of_nat (length (tried_keys state))) +:+ " key(s): " +:+ last_error state;
          message := ""; internal_detail := "" |}
     else
       {| http_status := toHttpStatus NoHealthyKeys; error_code := toAegisCode NoHealthyKeys;
          error_type := toErrorType NoHealthyKeys; message := toDefaultMessage NoHealthyKeys;
          internal_detail := "" |})).

Definition delta_empty (d : StreamDelta) : bool :=
  str_empty (d_content d) && is_null (d_tool_calls_delta d) && str_empty (d_finish_reason d).

(** The chunk callback on every line; the result is false where a chunk is
    undefined behaviour. *)
Fixpoint on_chunks (lines : list string) : conn bool :=
  match lines with
  | [] => Ret true
  | line :: lines =>
      match parseStreamChunk line with
      | None => Ret false
      | Some delta => when_ (negb (delta_empty delta)) (call (Emit delta));; on_chunks lines
      end
  end.

(** The loop over the lines of a finished stream. *)
Definition body_usage (respBody : string) : TokenUsage :=
  foldl (λ usage line, stream_usage line usage) no_usage
    (omap Upstream.clean_line (Upstream.getlines respBody)).

Definition raw_error (status : Z) (text : string) : GatewayError :=
  {| http_status := status; error_code := "upstream_error"; error_type := text; message := "";
     internal_detail := "" |}.

(** After a failure: the next key, or the error. *)
Definition after_failure (again : StreamRetryState → conn bool) (state : StreamRetryState)
    (raw : GatewayError) : conn bool :=
  if canRetryStream (first_chunk_seen state) (last_status state) (length (tried_keys state))
       (max_attempts config)
  then again state
  else (if first_chunk_seen state then call (Surface raw) else surface_exhaustion state);; Ret true.

(** One attempt; [n] is [max_attempts - tried_keys.size()]. *)
Fixpoint attemptStream (n : nat) (body_str : string) (state : StreamRetryState) : conn bool :=
  key ← call NextKey;
  match n with
  | O => surface_exhaustion state;; Ret true
  | S n =>
      if str_empty key || bool_decide (key ∈ tried_keys state)
      then surface_exhaustion state;; Ret true
      else
        ureq ← upstream_request body_str key;
        '(lines, answer) ← call (SendStreaming ureq);
        fine ← on_chunks lines;
        if negb fine then Ret false
        else
          let failed status error :=
            {| first_chunk_seen := first_chunk_seen state || negb (no_elems lines);
               tried_keys := key :: tried_keys state; last_error := error;
               last_status := status |} in
          match answer with
          | inr (status, respBody) =>
              if status =? 200 then
                call (ReportSuccess key);;
                call (Finish (body_usage respBody));;
                Ret true
              else
                call (ReportFailure key);;
                after_failure (attemptStream n body_str)
                  (failed status (upstream_error status respBody)) (raw_error status respBody)
          | inl err =>
              call (ReportFailure key);;
              after_failure (attemptStream n body_str)
                (failed (-1) ("transport error: " +:+ err)) (raw_error 502 err)
          end
  end.

Definition stream_body (req : ChatRequest) : option string :=
  body ← buildRequestBody req;
  body ← json_assign "stream" (JBool true) body;
  dump body.

Definition streamComplete (req : ChatRequest) : conn (option bool) :=
  match stream_body req with
  | None => Ret None
  | Some body_str =>
      fine ← attemptStream (max_attempts config) body_str
        {| first_chunk_seen := false; tried_keys := []; last_error := ""; last_status := 0 |};
      Ret (Some fine)
  end.

(** ** Proxied endpoints (OpenAI) *)

Definition kOpenAIProxyEndpoints : list string :=
  ["/v1/embeddings"; "/v1/images/generations"; "/v1/audio/transcriptions";
   "/v1/audio/translations"; "/v1/audio/speech"].

Definition supportsEndpoint (endpoint : string) : bool :=
  bool_decide (endpoint ∈ kOpenAIProxyEndpoints).

Definition proxyRequest (req : ProxyRequest) : conn (Exception + ProxyResponse) :=
  key ← call NextKey;
  if str_empty key then Ret (inl (RuntimeError ("No healthy API keys for " +:+ p_name config)))
  else
    answer ← call (Send
      {| Upstream.u_method := "POST"; Upstream.u_path := pr_endpoint req;
         Upstream.u_body := pr_raw_body req;
         Upstream.u_headers := <["Content-Type" := pr_content_type req]>
                                 {[ "Authorization" := authHeader key ]};
         Upstream.u_timeout_seconds := timeout_seconds |});
    match answer with
    | inl err => call (ReportFailure key);; Ret (inl (RuntimeError err))
    | inr (status, respBody) =>
        (if (status <? 200) || (300 <=? status) then call (ReportFailure key)
         else call (ReportSuccess key));;
        Ret (inr {| ps_http_status := status; ps_body := respBody;
                    ps_content_type := if decide (pr_endpoint req = "/v1/audio/speech")
                                       then "audio/mpeg" else "application/json" |})
    end.

End connector.


(** ** What a connector does *)

Notation Answer := (string + Z * string)%type.
Notation ConnEvent := (Event ConnCmd).

Definition sent (ev : ConnEvent) : option (Upstream.UpstreamRequest * Answer) :=
  let 'Ev e b := ev in
  match e in ConnCmd B return B → _ with
  | Send ureq => λ a, Some (ureq, a)
  | SendStreaming ureq => λ a, Some (ureq, a.2)
  | _ => λ _, None
  end b.

Definition drawn (ev : ConnEvent) : option string :=
  let 'Ev e b := ev in match e in ConnCmd B return B → _ with NextKey => Some | _ => λ _, None end b.

Definition reported (ev : ConnEvent) : option (string * bool) :=
  let 'Ev e _ := ev in
  match e with ReportSuccess k => Some (k, true) | ReportFailure k => Some (k, false) | _ => None end.

(** What a streaming client gets. *)
Definition emitted (ev : ConnEvent) : option StreamDelta :=
  let 'Ev e _ := ev in match e with Emit d => Some d | _ => None end.

Definition closing (ev : ConnEvent) : option (GatewayError + TokenUsage) :=
  let 'Ev e _ := ev in
  match e with Finish u => Some (inr u) | Surface err => Some (inl err) | _ => None end.

(** The answer to an attempt with a key. *)
Notation Attempt := (string * Answer)%type.

Definition answered_ok (a : Attempt) : bool :=
  match a.2 with inr (status, _) => status =? 200 | inl _ => false end.

(** The next key may be tried. *)
Definition may_retry (a : Attempt) : bool :=
  match a.2 with
  | inr (status, _) => negb (status =? 200) && isRetryableStatus status
  | inl _ => true
  end.

Definition answer_status (a : Attempt) : option Z :=
  match a.2 with inr (status, _) => Some status | inl _ => None end.

Lemma incl_l {A} (l k : list A) : l ⊆ l ++ k.
Proof. set_solver. Qed.
Lemma incl_r {A} (l k : list A) : k ⊆ l ++ k.
Proof. set_solver. Qed.
Lemma incl_mid {A} (x : A) (l k : list A) : l ⊆ x :: l ++ k.
Proof. set_solver. Qed.

Section facts.
Context `{ModelConnector} (dump : json → option string) (parse : string → option json).
Context (parse_what : string → string) (type_what : string) (config : ProviderConfig).
Notation complete := (complete dump parse parse_what type_what config).
Notation attempts := (attempts parse parse_what type_what config).
Notation read_answer := (read_answer parse parse_what type_what).

(** A request is the one for its attempt: the body under the key of the
    attempt, with the headers of trace propagation. *)
Definition sent_with (body_str : string) (tr : list ConnEvent) (s : Upstream.UpstreamRequest * Answer)
    (a : Attempt) : Prop :=
  s.2 = a.2 ∧ ∃ traced, Ev TraceHeaders traced ∈ tr ∧ s.1 = key_request config body_str a.1 traced.

(** The attempts [l] are what the events show: a fresh key each, drawn from
    the balancer, one request each, with that key, and one report each. *)
Definition attempted (body_str : string) (tr : list ConnEvent) (l : list Attempt) : Prop :=
  NoDup l.*1 ∧ Forall (λ k, k ≠ "" ∧ k ∈ omap drawn tr) l.*1 ∧
  Forall2 (sent_with body_str tr) (omap sent tr) l ∧
  omap reported tr = (λ a, (a.1, answered_ok a)) <$> l.

(** The result of [complete] after the attempts [l]. *)
Definition concluded (status : Z) (l : list Attempt) (r : Exception + ChatResponse) : Prop :=
  (∃ l' k body, l = l' ++ [(k, inr (200, body))] ∧ Forall (λ a, may_retry a = true) l' ∧
     r = read_answer body) ∨
  (∃ l' k s body, l = l' ++ [(k, inr (s, body))] ∧ Forall (λ a, may_retry a = true) l' ∧
     s ≠ 200 ∧ isRetryableStatus s = false ∧
     r = inl (UpstreamStatusError s (upstream_error s body))) ∨
  (Forall (λ a, may_retry a = true) l ∧
   let s := default status (last (omap answer_status l)) in
   ∃ msg, r = inl (if 0 <? s then UpstreamStatusError s msg else NoHealthyKeysError msg)).

Lemma concluded_cons status k a l r :
  may_retry (k, a) = true →
  concluded (default status (answer_status (k, a))) l r → concluded status ((k, a) :: l) r.
Proof.
  intros Ha [(l' & k' & body & -> & Hl & ->)|[(l' & k' & s & body & -> & Hl & Hs & Hr & ->)|(Hl & msg & ->)]].
  - left. exists ((k, a) :: l'), k', body. split_and!; [done|by constructor|done].
  - right; left. exists ((k, a) :: l'), k', s, body. split_and!; [done|by constructor|done..].
  - right; right. split; [by constructor|]. exists msg. do 2 f_equal.
    cbn [omap list_omap]. destruct (answer_status (k, a)) as [s|]; simpl; [|done].
    destruct (omap answer_status l) as [|s' l'] using rev_ind; [done|].
    rw last_snoc. by rw (last_snoc s' (s :: l')).
Qed.

Lemma trace_upstream_request body_str key tr ureq :
  trace (upstream_request config body_str key) tr ureq →
  (omap drawn tr = [] ∧ omap sent tr = [] ∧ omap reported tr = []) ∧
  (omap emitted tr = [] ∧ omap closing tr = []) ∧
  ∃ traced, Ev TraceHeaders traced ∈ tr ∧ ureq = key_request config body_str key traced.
Proof.
  intros Hr. unfold upstream_request in Hr. trace_next Hr. destruct Hr as [-> ->].
  split_and!; [done..|]. eexists. split; [by left|done].
Qed.

Lemma set_headers_lookup pairs h k :
  k ∉ pairs.*1 → set_headers pairs h !! k = h !! k.
Proof.
  unfold set_headers. revert h. induction pairs as [|[k' v] pairs IH]; intros h; [done|]. cbn.
  rw not_elem_of_cons. intros [? ?]. by rw IH // lookup_insert_ne.
Qed.

Lemma sent_with_mono body_str tr tr' s a :
  tr ⊆ tr' → sent_with body_str tr s a → sent_with body_str tr' s a.
Proof. intros Htr (? & traced & ? & ?). split; [done|]. exists traced. auto. Qed.

(** A failed attempt in front. *)
Lemma attempted_cons body_str tr1 tr2 k u a l :
  omap drawn tr1 = [k] → omap sent tr1 = [(u, a)] →
  omap reported tr1 = [(k, answered_ok (k, a))] → k ≠ "" →
  sent_with body_str tr1 (u, a) (k, a) → k ∉ l.*1 →
  attempted body_str tr2 l → attempted body_str (tr1 ++ tr2) ((k, a) :: l).
Proof using Type.
  intros Hd Hs Hr Hk Hu Hn (Hnd & Hf & Hans & Hrep). unfold attempted.
  rw !omap_app Hd Hs Hr Hrep. split_and!; [by constructor| | |done].
  - simpl. constructor; [split; [done|by left]|].
    eapply Forall_impl; [exact Hf|]. intros k' [? ?]. split; [done|by right].
  - simpl. constructor; [eapply sent_with_mono, Hu; apply incl_l|].
    eapply Forall2_impl; [exact Hans|]. intros s b. apply sent_with_mono, incl_r.
Qed.

Lemma attempted_nil body_str tr :
  omap sent tr = [] → omap reported tr = [] → attempted body_str tr [].
Proof. intros Hs Hr. unfold attempted. rw Hs Hr. split_and!; [constructor..|done]. Qed.

(** The events of an attempt that was sent and reported. *)
Definition off_record (tr : list ConnEvent) : Prop :=
  omap drawn tr = [] ∧ omap sent tr = [] ∧ omap reported tr = [].

Lemma attempted_step body_str pre snt mid ureq k a rep tr l :
  off_record pre → off_record mid → sent_with body_str pre (ureq, a) (k, a) →
  sent snt = Some (ureq, a) → drawn snt = None → reported snt = None →
  reported rep = Some (k, answered_ok (k, a)) → drawn rep = None → sent rep = None →
  k ≠ "" → k ∉ l.*1 → attempted body_str tr l →
  attempted body_str (Ev NextKey k :: pre ++ snt :: mid ++ rep :: tr) ((k, a) :: l).
Proof using Type.
  intros (Hd & Hs & Hr) (Hd' & Hs' & Hr') Hu Hss Hsd Hsr Hrep Hdr Hse Hk Hn Hl.
  assert (Ev NextKey k :: pre ++ snt :: mid ++ rep :: tr =
          (Ev NextKey k :: pre ++ snt :: mid ++ [rep]) ++ tr) as ->.
  { simpl. by rw -(assoc_L (++)) /= -(assoc_L (++)). }
  eapply (attempted_cons _ _ _ _ ureq); [..|done]; try done;
    [| | |eapply sent_with_mono, Hu; apply incl_mid];
    cbn [omap list_omap drawn sent reported]; rw omap_app ?Hd ?Hs ?Hr;
    cbn [omap list_omap drawn sent reported app]; rw ?Hss ?Hsd ?Hsr omap_app ?Hd' ?Hs' ?Hr';
    cbn [omap list_omap app]; by rw ?Hrep ?Hdr ?Hse.
Qed.

Lemma trace_attempts n body_str tried last_error status tr r :
  trace (attempts n body_str tried last_error status) tr r →
  ∃ l, attempted body_str tr l ∧ (length l <= n)%nat ∧ Forall (λ k, k ∉ tried) l.*1 ∧
       concluded status l r.
Proof.
  revert tried last_error status tr r.
  induction n as [|n IH]; intros tried le status tr r Ht; cbn [Connector.attempts] in Ht; trace_next Ht.
  { destruct Ht as [-> ->]. exists []. split_and!; [by apply attempted_nil|done|done|].
    right; right. split; [done|]. unfold exhausted. simpl. destruct (0 <? status); by eexists. }
  destruct (str_empty x || bool_decide (x ∈ tried)) eqn:He.
  { destruct Ht as [-> ->]. exists []. split_and!; [by apply attempted_nil|simpl; lia|done|].
    right; right. split; [done|]. unfold exhausted. simpl. destruct (0 <? status); by eexists. }
  apply orb_false_iff in He as [Hx%str_empty_false Hin%bool_decide_eq_false].
  apply trace_bind in Ht as (tr1 & tr2 & ureq & -> & Hq & Ht).
  apply trace_upstream_request in Hq as (Hq & [Hqe Hqc] & Hu). trace_next Ht.
  assert (sent_with body_str tr1 (ureq, x0) (x, x0)) as Hw by done.
  assert (∀ rep tr' status' le', reported rep = Some (x, answered_ok (x, x0)) →
    drawn rep = None → sent rep = None → may_retry (x, x0) = true →
    status' = default status (answer_status (x, x0)) →
    trace (attempts n body_str (x :: tried) le' status') tr' r →
    ∃ l, attempted body_str (Ev NextKey x :: tr1 ++ Ev (Send ureq) x0 :: rep :: tr') l ∧
      (length l <= S n)%nat ∧ Forall (λ k, k ∉ tried) l.*1 ∧ concluded status l r) as Hgo.
  { intros rep tr' status' le' H1 H2 H3 Hm -> (l & Hl & Hlen & Hf & Hc)%IH. exists ((x, x0) :: l).
    rw Forall_forall in Hf. split_and!.
    - apply (attempted_step _ _ (Ev (Send ureq) x0) [] ureq); try done. intros Hk. apply (Hf x Hk). by left.
    - simpl. lia.
    - simpl. constructor; [done|]. rw Forall_forall. intros k Hk Hin'. apply (Hf k Hk). by right.
    - by apply concluded_cons. }
  destruct x0 as [err|[s body]]; [trace_next Ht; by eapply Hgo|].
  destruct (s =? 200) eqn:H200; trace_next Ht; [destruct Ht as [-> ->]|destruct (isRetryableStatus s) eqn:Hre].
  - apply Z.eqb_eq in H200 as ->. exists [(x, inr (200, body))]. split_and!; [|simpl; lia|by constructor|].
    + apply (attempted_step _ _ (Ev (Send ureq) (inr (200, body))) [] ureq); try done;
        [apply not_elem_of_nil|by apply attempted_nil].
    + left. by exists [], x, body.
  - eapply Hgo; try done; unfold may_retry, answered_ok; cbn [snd reported]; by rw H200 ?Hre.
  - destruct Ht as [-> ->]. exists [(x, inr (s, body))]. split_and!; [|simpl; lia|by constructor|].
    + apply (attempted_step _ _ (Ev (Send ureq) (inr (s, body))) [] ureq); try done;
        [unfold answered_ok; cbn [snd reported]; by rw H200|apply not_elem_of_nil|by apply attempted_nil].
    + right; left. exists [], x, s, body. split_and!; [done..| |done|done]. by apply Z.eqb_neq in H200.
Qed.

(** *** Streams *)

(** An attempt with the lines it delivered. *)
Notation StreamAttempt := (string * (list string * Answer))%type.
Definition ended (a : StreamAttempt) : Attempt := (a.1, a.2.2).
Definition silent (a : StreamAttempt) : bool :=
  no_elems a.2.1 &&
  match a.2.2 with
  | inr (status, _) => negb (status =? 200) && canRetryStream false status 0 1
  | inl _ => true
  end.

(** The deltas of the lines. *)
Definition shown (lines : list string) : list StreamDelta :=
  filter (λ d, delta_empty d = false) (omap parseStreamChunk lines).

(** What the client gets: the deltas of the last attempt, after attempts that
    delivered nothing, and one end. *)
Definition stream_result (l : list StreamAttempt) (tr : list ConnEvent) : Prop :=
  ∃ l' final c, l = l' ++ option_list final ∧ Forall (λ a, silent a = true) l' ∧
    omap emitted tr = from_option (λ a, shown a.2.1) [] final ∧ omap closing tr = [c] ∧
    match c with
    | inr usage => ∃ k lines body, final = Some (k, (lines, inr (200, body))) ∧
                                   usage = body_usage body
    | inl _ => from_option (λ a, answered_ok (ended a) = false) True final
    end.

Lemma trace_on_chunks lines tr fine :
  trace (on_chunks lines) tr fine →
  (omap drawn tr = [] ∧ omap sent tr = [] ∧ omap reported tr = []) ∧ omap closing tr = [] ∧
  (fine = true → omap emitted tr = shown lines).
Proof.
  revert tr. induction lines as [|line lines IH]; intros tr Ht; cbn [on_chunks] in Ht.
  { by destruct Ht as [-> ->]. }
  unfold shown. cbn [omap list_omap]. destruct (parseStreamChunk line) as [d|]; [|by destruct Ht as [-> ->]].
  apply trace_bind in Ht as (tr1 & tr2 & [] & -> & Hw & ((Hd & Hs & Hr) & Hc & He)%IH).
  rw !omap_app Hd Hs Hr Hc.
  apply trace_when in Hw as [[Hn Hw]|[Hn ->]].
  - trace_next Hw. split_and!; [done..|]. intros Hf. rw He //. cbn [omap list_omap emitted app].
    rw filter_cons_True //. by destruct (delta_empty d).
  - split_and!; [done..|]. intros Hf. rw He //. cbn [app]. rw filter_cons_False //. by destruct (delta_empty d).
Qed.

Lemma trace_surface state tr u :
  trace (surface_exhaustion config state) tr u → ∃ err, tr = [Ev (Surface err) tt].
Proof. intros Ht. unfold surface_exhaustion in Ht. destruct u. trace_next Ht. by eexists. Qed.


(** The events of one attempt: a key, a request, the deltas of its lines and
    the report. *)
Definition one_attempt (body_str : string) (a : StreamAttempt) (tr : list ConnEvent) : Prop :=
  omap drawn tr = [a.1] ∧ omap emitted tr = shown a.2.1 ∧ omap closing tr = [] ∧
  omap reported tr = [(a.1, answered_ok (ended a))] ∧ a.1 ≠ "" ∧
  ∃ ureq, omap sent tr = [(ureq, a.2.2)] ∧ sent_with body_str tr (ureq, a.2.2) (ended a).

(** It is the last one, *)
Lemma one_attempt_last body_str a tr post c :
  one_attempt body_str a tr → off_record post → omap emitted post = [] → omap closing post = [c] →
  match c with
  | inr usage => ∃ body, a.2.2 = inr (200, body) ∧ usage = body_usage body
  | inl _ => answered_ok (ended a) = false
  end →
  attempted body_str (tr ++ post) (ended <$> [a]) ∧ stream_result [a] (tr ++ post).
Proof.
  intros (Hd & He & Hcl & Hr & Hk & u & Hs & Hu) (Hd' & Hs' & Hr') He' Hc' Hc. split.
  - eapply attempted_cons; [done..|apply not_elem_of_nil|by apply attempted_nil].
  - exists [], (Some a), c. rw !omap_app He Hcl He' Hc' app_nil_r. split_and!; [done..|].
    destruct c; [done|]. destruct a as [k [lines ans]]. destruct Hc as (body & Ha & ->). simpl in Ha.
    subst. by eexists _, _, _.
Qed.

(** or it delivered nothing and others follow. *)
Lemma one_attempt_next body_str a tr l post :
  one_attempt body_str a tr → silent a = true → a.1 ∉ l.*1 →
  attempted body_str post (ended <$> l) → stream_result l post →
  attempted body_str (tr ++ post) (ended <$> a :: l) ∧ stream_result (a :: l) (tr ++ post).
Proof.
  intros (Hd & He & Hcl & Hr & Hk & u & Hs & Hu) Ha Hn Hatt (l' & final & c & -> & Hl & He' & Hc' & Hm).
  split.
  - eapply attempted_cons; [done..| |done]. by rw -list_fmap_compose.
  - exists (a :: l'), final, c. rw !omap_app He Hcl He' Hc'. split_and!; [done|by constructor| |done|done].
    destruct a as [k [[|] ans]]; [done|]. by simpl in Ha.
Qed.

Lemma stream_result_none pre (err : GatewayError) :
  omap emitted pre = [] → omap closing pre = [] →
  stream_result [] (pre ++ [Ev (Surface err) tt]).
Proof.
  intros He Hc. exists [], None, (inl err). rw !omap_app He Hc. split_and!; [done|constructor|done|done|done].
Qed.

(** A failed attempt: the stream ends here, or nothing was delivered and the
    next key is tried. *)
Lemma trace_after_failure again state raw tr :
  trace (after_failure config again state raw) tr true →
  (∃ err, tr = [Ev (Surface err) tt]) ∨
  first_chunk_seen state = false ∧ canRetryStream false (last_status state) 0 1 = true ∧
  trace (again state) tr true.
Proof.
  unfold after_failure, canRetryStream. destruct (first_chunk_seen state).
  { intros Ht. trace_next Ht. destruct Ht as [-> _], x. left. by eexists. }
  assert (trace (surface_exhaustion config state;; Ret true) tr true →
    ∃ err, tr = [Ev (Surface err) tt]) as Hs.
  { intros (tr1 & tr2 & u & -> & [err ->]%trace_surface & [-> _])%trace_bind. by exists err. }
  destruct (_ <=? _)%nat; [by intros ?; left; apply Hs|]. cbn [Nat.leb].
  destruct (_ =? 0); [by right|]. destruct (_ =? -1); [by right|].
  destruct (isRetryableStatus _); [by right|by intros ?; left; apply Hs].
Qed.

Lemma begin_attempt body_str k pre ureq lines ans mid rep :
  off_record pre → omap emitted pre = [] → omap closing pre = [] →
  off_record mid → omap emitted mid = shown lines → omap closing mid = [] →
  sent_with body_str pre (ureq, ans) (k, ans) → k ≠ "" →
  rep = Ev (ReportSuccess k) tt ∧ answered_ok (k, ans) = true ∨
  rep = Ev (ReportFailure k) tt ∧ answered_ok (k, ans) = false →
  one_attempt body_str (k, (lines, ans))
    (Ev NextKey k :: pre ++ Ev (SendStreaming ureq) (lines, ans) :: mid ++ [rep]).
Proof using Type.
  intros (H1 & H2 & H3) H4 H5 (H6 & H7 & H8) H9 H10 Hu Hk Hrep. unfold one_attempt, ended.
  cbn [omap list_omap drawn sent reported emitted closing fst snd]. rw !omap_app H1 H2 H3 H4 H5.
  cbn [omap list_omap drawn sent reported emitted closing fst snd app].
  rw !omap_app H6 H7 H8 H9 H10.
  destruct Hrep as [[-> Ha]|[-> Ha]]; cbn [omap list_omap drawn sent reported emitted closing app];
    rw Ha app_nil_r; (split_and!; [done..|]); exists ureq; (split; [done|]); eapply sent_with_mono, Hu;
    apply incl_mid.
Qed.

(** The attempts [l] of at most [n] keys that are not among [tried]. *)
Definition streamed (n : nat) (tried : list string) (body_str : string) (tr : list ConnEvent) : Prop :=
  ∃ l, attempted body_str tr (ended <$> l) ∧ (length l <= n)%nat ∧ Forall (λ k, k ∉ tried) l.*1 ∧
       stream_result l tr.

Lemma failed_attempt n body_str tried a tr again state raw post :
  one_attempt body_str a tr → answered_ok (ended a) = false → a.1 ∉ tried →
  (first_chunk_seen state = false → canRetryStream false (last_status state) 0 1 = true →
   silent a = true) →
  (∀ post, trace (again state) post true → first_chunk_seen state = false →
     streamed n (a.1 :: tried) body_str post) →
  trace (after_failure config again state raw) post true →
  streamed (S n) tried body_str (tr ++ post).
Proof.
  intros Hone Ha Hn Hsil Hgo [[err ->]|(Hs & Hc & Ht)]%trace_after_failure.
  - destruct (one_attempt_last body_str a tr [Ev (Surface err) tt] (inl err)) as [H1 H2]; try done.
    exists [a]. split_and!; [done|simpl; lia|by constructor|done].
  - destruct (Hgo post Ht Hs) as (l & Hatt & Hlen & Hf & Hres). rw Forall_forall in Hf.
    destruct (one_attempt_next body_str a tr l post) as [H1 H2]; try done;
      [by apply Hsil|intros Hk; apply (Hf _ Hk); by left|].
    exists (a :: l). split_and!; [done|simpl; lia| |done]. simpl. constructor; [done|].
    rw Forall_forall. intros k Hk Hin. apply (Hf k Hk). by right.
Qed.

(** No attempt at all. *)
Lemma streamed_none n tried body_str k tr (p : prog ConnCmd unit) state :
  p = surface_exhaustion config state →
  trace (p;; Ret true) tr true → streamed n tried body_str (Ev NextKey k :: tr).
Proof.
  intros -> (tr1 & tr2 & u & -> & [err ->]%trace_surface & [-> _])%trace_bind. exists [].
  split_and!; [by apply attempted_nil|simpl; lia|constructor|]. by apply (stream_result_none [_]).
Qed.

Lemma trace_attempt_stream n body_str state tr :
  trace (attemptStream config n body_str state) tr true → first_chunk_seen state = false →
  streamed n (tried_keys state) body_str tr.
Proof.
  revert state tr. induction n as [|n IH]; intros [seen tried le ls] tr Ht Hseen; simpl in Hseen;
    subst seen; cbn [attemptStream] in Ht; trace_next Ht; [by eapply streamed_none|].
  cbn [tried_keys] in *. destruct (str_empty x || bool_decide (x ∈ tried)) eqn:He;
    [by eapply streamed_none|].
  apply orb_false_iff in He as [Hx%str_empty_false Hin%bool_decide_eq_false].
  apply trace_bind in Ht as (tr1 & tr2 & ureq & -> & Hq & Ht).
  apply trace_upstream_request in Hq as (Hq & [Hqe Hqc] & Hu).
  trace_next Ht. destruct x0 as [lines answer].
  apply trace_bind in Ht as (tr3 & tr4 & fine & -> & (Ho & Hc & He)%trace_on_chunks & Ht).
  destruct fine; [|by destruct Ht as [_ [=]]]. cbn [negb first_chunk_seen orb] in Ht.
  pose proof (λ rep, begin_attempt _ x _ _ lines answer _ rep Hq Hqe Hqc Ho (He eq_refl) Hc
    (conj eq_refl Hu) Hx) as Hone.
  assert (∀ rep post, Ev NextKey x :: tr1 ++ Ev (SendStreaming ureq) (lines, answer) :: tr3 ++ rep :: post =
    (Ev NextKey x :: tr1 ++ Ev (SendStreaming ureq) (lines, answer) :: tr3 ++ [rep]) ++ post) as Happ.
  { intros rep post. simpl. by rw -(assoc_L (++)) /= -(assoc_L (++)). }
  destruct answer as [err|[s body]]; [|destruct (s =? 200) eqn:H200]; trace_next Ht; rw Happ; destruct x0.
  - eapply failed_attempt; [apply Hone; by right|done|done|..|exact Ht]; [|by intros post; apply IH].
    intros Hs%negb_false_iff _. unfold silent. simpl. by rw Hs.
  - trace_next Ht. destruct Ht as [-> _], x0. apply Z.eqb_eq in H200 as ->.
    destruct (one_attempt_last body_str _ _ [Ev (Finish (body_usage body)) tt] (inr (body_usage body))
      (Hone (Ev (ReportSuccess x) tt) (or_introl (conj eq_refl eq_refl)))) as [H1 H2];
      [done..|by eexists|].
    exists [(x, (lines, inr (200, body)))]. split_and!; [done|simpl; lia|by constructor|done].
  - eapply failed_attempt; [apply Hone; by right|done|done|..|exact Ht]; [|by intros post; apply IH].
    intros Hs%negb_false_iff Hr. unfold silent. cbn [fst snd]. by rw Hs H200.
Qed.

(** A chunk that is undefined behaviour ends the run: nothing is closed. *)
Lemma trace_undefined n body_str state tr :
  trace (attemptStream config n body_str state) tr false →
  omap closing tr = [] ∧
  ∃ ureq lines ans line, Ev (SendStreaming ureq) (lines, ans) ∈ tr ∧ line ∈ lines ∧
    parseStreamChunk line = None.
Proof.
  assert (∀ again state raw post, trace (after_failure config again state raw) post false →
    trace (again state) post false) as Hafter.
  { intros again st raw post. unfold after_failure. destruct (canRetryStream _ _ _ _); [done|].
    by intros (? & ? & ? & _ & _ & [_ [=]])%trace_bind. }
  revert state tr. induction n as [|n IH]; intros state tr Ht; cbn [attemptStream] in Ht; trace_next Ht;
    [by apply trace_bind in Ht as (? & ? & ? & _ & _ & [_ [=]])|].
  destruct (str_empty x || _); [by apply trace_bind in Ht as (? & ? & ? & _ & _ & [_ [=]])|].
  apply trace_bind in Ht as (tr1 & tr2 & ureq & -> & Hq & Ht).
  apply trace_upstream_request in Hq as (_ & [_ Hqc] & _).
  trace_next Ht. destruct x0 as [lines answer].
  apply trace_bind in Ht as (tr3 & tr4 & fine & -> & Hl & Ht).
  pose proof (trace_on_chunks _ _ _ Hl) as (_ & Hc & _).
  cbn [omap list_omap closing]. rw omap_app Hqc. cbn [app omap list_omap closing]. rw omap_app Hc. cbn [app].
  destruct fine; cbn [negb] in Ht.
  - assert (∀ post rep err, closing rep = None → trace (after_failure config (attemptStream config n body_str)
      {| first_chunk_seen := first_chunk_seen state || negb (no_elems lines);
         tried_keys := x :: tried_keys state; last_error := err.1.1; last_status := err.1.2 |} err.2) post false →
      omap closing (rep :: post) = [] ∧ ∃ ureq0 lines0 ans line,
        Ev (SendStreaming ureq0) (lines0, ans) ∈ Ev NextKey x :: tr1 ++ Ev (SendStreaming ureq) (lines, answer) ::
          tr3 ++ rep :: post ∧ line ∈ lines0 ∧ parseStreamChunk line = None) as Hgo.
    { intros post rep err Hrep Hp%Hafter. apply IH in Hp as (Hcl & u & ls & a & line & Hin & Hline & Hpc).
      cbn [omap list_omap]. rw Hrep. split; [done|]. exists u, ls, a, line. split_and!; [|done|done].
      right. apply elem_of_app. right. right. apply elem_of_app. right. by right. }
    destruct answer as [err|[s body]]; [|destruct (s =? 200)]; trace_next Ht.
    + by apply (Hgo _ _ (("transport error: " +:+ err, -1), raw_error 502 err)).
    + by apply trace_bind in Ht as (? & ? & ? & _ & _ & [_ [=]]).
    + by apply (Hgo _ _ ((upstream_error s body, s), raw_error s body)).
  - destruct Ht as [-> _]. split; [done|].
    assert (∃ line, line ∈ lines ∧ parseStreamChunk line = None) as (line & Hin & Hnone).
    { clear -Hl. revert tr3 Hl. induction lines as [|line lines IHl]; intros tr Hl; cbn [on_chunks] in Hl;
        [by destruct Hl as [_ [=]]|].
      destruct (parseStreamChunk line) eqn:Hp; [|by exists line; split; [left|]].
      apply trace_bind in Hl as (? & tr' & ? & _ & _ & Hl). destruct (IHl _ Hl) as (l & ? & ?).
      exists l. split; [by right|done]. }
    exists ureq, lines, answer, line. split_and!; [|done|done]. right. apply elem_of_app. right. by left.
Qed.

(** C31. A chat completion makes at most [max_attempts] upstream requests, all with
    the body of the request and each with the headers of another key that the
    balancer gave (and those of trace propagation); every key is reported
    exactly once, as healthy just when it answered 200.  A further key is tried
    only after a transport error or a status that another key may cure.  The
    answer is the one of the request that succeeded; otherwise the error is the
    first status that no key can cure or, when the keys are exhausted, the last
    status the provider gave.  A body that cannot be built or is not UTF-8 is
    an exception before anything is sent. *)
Theorem connector_complete req tr r :
  trace (complete req) tr r →
  tr = [] ∧ buildRequestBody req ≫= dump = None ∧ r = inl (RuntimeError type_what) ∨
  ∃ body_str l, buildRequestBody req ≫= dump = Some body_str ∧ attempted body_str tr l ∧
    (length l <= max_attempts config)%nat ∧ concluded 0 l r.
Proof.
  unfold Connector.complete. destruct (_ ≫= dump) as [body_str|]; intros Ht; [|left; by destruct Ht as [-> ->]].
  right. apply trace_attempts in Ht as (l & Ha & Hl & _ & Hc). by exists body_str, l.
Qed.

(** C32. A streamed completion shows the client the deltas of at most one attempt,
    the last, and then exactly one end: the usage when that attempt was
    answered 200, and an error in every other case.  A key after the first is
    used only while no line of an answer has arrived; the keys, their number,
    the requests and the reports are as for a chat completion.  The two
    exceptions: when the body of the request cannot be built, or is not UTF-8,
    an exception leaves the call before anything is sent and no end is called;
    and a line of an answer that the connector reads with undefined behaviour
    (a choice without a delta, with OpenAI) may do anything. *)
Theorem connector_stream req tr res :
  trace (streamComplete dump config req) tr res →
  match stream_body dump req with
  | None => tr = [] ∧ res = None
  | Some body_str =>
      res = Some true ∧
        (∃ l, attempted body_str tr (ended <$> l) ∧ (length l <= max_attempts config)%nat ∧
           stream_result l tr) ∨
      res = Some false ∧ omap closing tr = [] ∧
        ∃ ureq lines ans line, Ev (SendStreaming ureq) (lines, ans) ∈ tr ∧ line ∈ lines ∧
          parseStreamChunk line = None
  end.
Proof.
  unfold streamComplete. intros Ht.
  destruct (stream_body dump req) as [body_str|]; [|by destruct Ht as [-> ->]].
  apply trace_bind in Ht as (tr1 & tr2 & fine & -> & Ht & [-> ->]). rw app_nil_r.
  destruct fine; [left|right]; (split; [done|]).
  - apply trace_attempt_stream in Ht as (l & Ha & Hl & _ & Hs); [|done]. by exists l.
  - by apply trace_undefined in Ht.
Qed.

End facts.

(** ** Runs *)

Definition toy_provider : ProviderConfig :=
  {| p_name := "p"; p_models := ["m"]; p_timeout_ms := 1000; p_max_retries := 2 |}.

Definition toy_chat : ChatRequest :=
  {| cr_model := "m"; cr_messages := []; cr_temperature := None; cr_max_tokens := None;
     cr_stream := false; cr_extra := JNull; cr_tools := JNull; cr_tool_choice := JNull;
     cr_metadata := None |}.

Definition system_message (s : string) : Message :=
  {| m_role := "system"; m_content := s; m_content_parts := JNull; m_tool_calls := [];
     m_tool_call_id := ""; m_name := "" |}.

Definition toy_dump (_ : json) : option string := Some "body".
Definition toy_parse (_ : string) : option json :=
  Some (json_of_list [("id", JString "r1")]).

(** The provider is out of capacity for the key [a]; the other keys work. *)
Definition toy_exec (B : Type) (e : ConnCmd B) (b : Balancer.Balancer) : B * Balancer.Balancer :=
  match e in ConnCmd B return B * Balancer.Balancer with
  | NextKey => Balancer.nextKey 0 b
  | ReportSuccess k => (tt, Balancer.reportSuccess k b)
  | ReportFailure k => (tt, Balancer.reportFailure 0 k b)
  | TraceHeaders => ([("traceparent", "00-1-1-01")], b)
  | Send u => (if decide (Upstream.u_headers u !! "Authorization" = Some "Bearer a")
               then inr (503, "busy") else inr (200, "answer"), b)
  | SendStreaming u => (if decide (Upstream.u_headers u !! "Authorization" = Some "Bearer a")
                        then (["busy"], inr (503, "busy"))
                        else (["data: [DONE]"], inr (200, "data: [DONE]")), b)
  | Emit _ => (tt, b)
  | Finish _ => (tt, b)
  | Surface _ => (tt, b)
  end.

Definition toy_complete : prog ConnCmd (Exception + ChatResponse) :=
  complete (H := OpenAIConnector toy_parse) toy_dump toy_parse (λ _, "") "" toy_provider toy_chat.
Definition toy_stream : prog ConnCmd (option bool) :=
  streamComplete (H := OpenAIConnector toy_parse) toy_dump toy_provider toy_chat.
Definition even_keys : Balancer.Balancer := Balancer.make [("a", 1); ("b", 1)].
Definition uneven_keys : Balancer.Balancer := Balancer.make [("a", 3); ("b", 1)].

Lemma connector_complete_witness :
  ∃ l, attempted (H := OpenAIConnector toy_parse) toy_provider "body"
         (recorded toy_exec toy_complete even_keys) l ∧ l.*1 = ["a"; "b"].
Proof.
  destruct (connector_complete (H := OpenAIConnector toy_parse) toy_dump toy_parse (λ _, "") ""
    toy_provider toy_chat (recorded toy_exec toy_complete even_keys)
    (run toy_exec toy_complete even_keys).1) as [[? _]|(body & l & Hb & Ha & _)];
    [apply recorded_trace|done|].
  injection Hb as <-. exists l. split; [done|]. destruct Ha as (_ & _ & _ & Hr).
  apply (f_equal (fmap fst)) in Hr. rw -list_fmap_compose in Hr.
  change (fmap (fst ∘ (λ a : Attempt, (a.1, answered_ok a))) l) with l.*1 in Hr.
  rw -Hr. by vm_compute.
Defined.

Lemma connector_stream_witness :
  ∃ l, stream_result (H := OpenAIConnector toy_parse) l (recorded toy_exec toy_stream even_keys) ∧
       l.*1 = ["a"].
Proof.
  pose proof (connector_stream (H := OpenAIConnector toy_parse) toy_dump toy_provider toy_chat
    (recorded toy_exec toy_stream even_keys) (Some true)
    (recorded_trace toy_exec toy_stream even_keys)) as [(_ & l & Ha & _ & Hs)|[? _]]; [|done].
  exists l. split; [done|]. destruct Ha as (_ & _ & _ & Hr).
  apply (f_equal (fmap fst)) in Hr. rw -!list_fmap_compose in Hr.
  change (fmap (_ ∘ ended) l) with l.*1 in Hr. rw -Hr. by vm_compute.
Defined.

(** The headers of the key are in the request, unless trace propagation sets
    them: the propagator sets [traceparent] and [tracestate]. *)
Lemma openai_key_header parse config body key traced :
  "Authorization" ∉ traced.*1 →
  Upstream.u_headers (key_request (H := OpenAIConnector parse) config body key traced)
    !! "Authorization" = Some ("Bearer " +:+ key).
Proof. intros Ht. cbn. rw set_headers_lookup // lookup_insert_ne //. Qed.

Lemma claude_key_header dump parse config body key traced :
  "x-api-key" ∉ traced.*1 →
  Upstream.u_headers (key_request (H := ClaudeConnector dump parse) config body key traced)
    !! "x-api-key" = Some key.
Proof. intros Ht. cbn. rw set_headers_lookup // !lookup_insert_ne //. Qed.

(** The round robin gives a heavier key again before a lighter one; the retry
    takes the repeated key for the end of the pool and never uses the healthy
    key [b]. *)
Lemma retry_stops_early :
  (omap reported (recorded toy_exec toy_complete uneven_keys)).*1 = ["a"] ∧
  (run toy_exec toy_complete uneven_keys).1 =
    inl (UpstreamStatusError 503 "Upstream p failed after 1 key(s): Upstream error 503: busy").
Proof. split; by vm_compute. Qed.

(** The lines of an error's body count as delivered, so that a stream is not
    retried with the healthy key [b]. *)
Lemma stream_error_body_ends :
  (omap reported (recorded toy_exec toy_stream even_keys)).*1 = ["a"] ∧
  omap closing (recorded toy_exec toy_stream even_keys) = [inl (raw_error 503 "busy")].
Proof. split; by vm_compute. Qed.

(** Of several system messages the last one is sent. *)
Lemma claude_last_system parse first l :
  claude_messages parse first (system_message <$> l) = Some ([], default first (last l)).
Proof.
  revert first. induction l as [|s l IH]; intros first; [done|].
  change (claude_messages parse s (system_message <$> l) = Some ([], default first (last (s :: l)))).
  rw IH last_cons. by destruct (last l).
Qed.

End Connector.
