(* ===== verification/RateLimiter.v ===== *)
(** * RateLimiter: token buckets, and the quotas per modality

    Models [src/src/gateway/rate_limiter.cpp] (the in-process limiter),
    [src/src/multimodal/modality.cpp], [modality_rate_limiter.cpp] and
    [src/src/server/modality_quota_enforcer.cpp].  Tokens are [double]s; times
    are readings of the steady clock in nanoseconds, one argument for each
    reading.  The hash that picks a shard is a parameter. *)
From Corelib Require Import PrimFloat.
From S2P Require Import Prelude.
From S2P Require Import Json.
From S2P Require Import ErrorCodes.
Import ErrorCodes Json.
Local Open Scope Z_scope.

Module RateLimiter.

Record Config := {
  max_tokens : float;
  refill_rate : float;
}.

Record TokenBucket := {
  tokens : float;
  b_max : float;
  b_rate : float;
  last_refill : Z;
}.

Record Shard := {
  buckets : gmap string TokenBucket;
  op_counter : Z;
}.

Definition kMaxBucketsPerShard : Z := 10000.
Definition kPruneIntervalOps : Z := 1000.
Definition kShardCount : nat := 16.

Definition Limiter := gmap nat Shard.

Definition seconds (ns : Z) : float := (int_to_double ns / 1e9)%float.

(** [std::min(a, b)]. *)
Definition std_min (a b : float) : float := if (b <? a)%float then b else a.

Definition full_bucket (config : Config) (now : Z) : TokenBucket :=
  {| tokens := max_tokens config; b_max := max_tokens config; b_rate := refill_rate config;
     last_refill := now |}.

Definition refill (now : Z) (b : TokenBucket) : TokenBucket :=
  let elapsed := seconds (now - last_refill b) in
  {| tokens := std_min (b_max b) (tokens b + elapsed * b_rate b); b_max := b_max b;
     b_rate := b_rate b; last_refill := now |}.

(** A bucket that the pruning drops. *)
Definition idle (now : Z) (b : TokenBucket) : bool :=
  (b_max b <=? tokens b)%float && (300 <? seconds (now - last_refill b))%float.

Definition maybePrune (now : Z) (s : Shard) : Shard :=
  let n := op_counter s + 1 in
  if (n <? kPruneIntervalOps) && (Z.of_nat (size (buckets s)) <? kMaxBucketsPerShard)
  then {| buckets := buckets s; op_counter := n |}
  else {| buckets := filter (λ kb, idle now kb.2 = false) (buckets s); op_counter := 0 |}.

Section limiter.
Context (hash : string → Z) (global_config : Config).

Definition shardFor (key : string) : nat := Z.to_nat (hash key mod Z.of_nat kShardCount).

Definition shard (key : string) (l : Limiter) : Shard :=
  default {| buckets := ∅; op_counter := 0 |} (l !! shardFor key).

Definition getBucket (t_prune t_new : Z) (key : string) (s : Shard) : TokenBucket * Shard :=
  match buckets s !! key with
  | Some b => (b, s)
  | None =>
      let s := maybePrune t_prune s in
      let b := full_bucket global_config t_new in
      (b, {| buckets := <[key := b]> (buckets s); op_counter := op_counter s |})
  end.

Definition allow (t_prune t_new now : Z) (key : string) (cost : float) (l : Limiter) : bool * Limiter :=
  if (cost <=? 0)%float then (true, l)
  else
    let '(b, s) := getBucket t_prune t_new key (shard key l) in
    let b := refill now b in
    let allowed := (cost <=? tokens b)%float in
    let b := if allowed then {| tokens := tokens b - cost; b_max := b_max b; b_rate := b_rate b;
                                last_refill := last_refill b |} else b in
    (allowed, <[shardFor key := {| buckets := <[key := b]> (buckets s);
                                   op_counter := op_counter s |}]> l).

Definition setKeyConfig (now : Z) (key : string) (config : Config) (l : Limiter) : Limiter :=
  let s := shard key l in
  <[shardFor key := {| buckets := <[key := full_bucket config now]> (buckets s);
                       op_counter := op_counter s |}]> l.

Definition remaining (key : string) (l : Limiter) : float :=
  from_option tokens (max_tokens global_config) (buckets (shard key l) !! key).

End limiter.

(** ** Modalities *)

Inductive Modality := Embedding | ImageGen | AudioTranscribe | AudioSpeech | Moderation | Unknown.
#[global] Instance modality_eq : EqDecision Modality.
Proof. solve_decision. Defined.
#[global] Instance modality_countable : Countable Modality.
Proof.
  refine (inj_countable'
    (λ m, match m with Embedding => 0 | ImageGen => 1 | AudioTranscribe => 2 | AudioSpeech => 3
                     | Moderation => 4 | Unknown => 5 end%nat)
    (λ n, match n with 0 => Embedding | 1 => ImageGen | 2 => AudioTranscribe | 3 => AudioSpeech
                     | 4 => Moderation | _ => Unknown end%nat) _); by intros [].
Defined.

Definition modalityToString (m : Modality) : string :=
  match m with
  | Embedding => "embedding"
  | ImageGen => "image_gen"
  | AudioTranscribe => "audio_transcribe"
  | AudioSpeech => "audio_speech"
  | Moderation => "moderation"
  | Unknown => "unknown"
  end.

Definition modalityFromString (s : string) : Modality :=
  if decide (s = "embedding") then Embedding
  else if decide (s = "image_gen") then ImageGen
  else if decide (s = "audio_transcribe") then AudioTranscribe
  else if decide (s = "audio_speech") then AudioSpeech
  else if decide (s = "moderation") then Moderation
  else Unknown.

Definition modalityFromEndpoint (endpoint : string) : Modality :=
  if decide (endpoint = "/v1/embeddings") then Embedding
  else if decide (endpoint = "/v1/images/generations") then ImageGen
  else if decide (endpoint = "/v1/audio/transcriptions") then AudioTranscribe
  else if decide (endpoint = "/v1/audio/speech") then AudioSpeech
  else if decide (endpoint = "/v1/moderations") then Moderation
  else Unknown.

(** ** The quotas *)

Record ModalityRateLimiter := {
  quotas : gmap Modality Config;
  seeded_keys : gset string;
  backing : Limiter;
}.

Definition makeKey (m : Modality) (identity : string) : string :=
  "modality:" +:+ modalityToString m +:+ ":" +:+ identity.

Definition setQuota (m : Modality) (cfg : Config) (q : ModalityRateLimiter) : ModalityRateLimiter :=
  {| quotas := <[m := cfg]> (quotas q); seeded_keys := ∅; backing := backing q |}.

Definition clearQuota (m : Modality) (q : ModalityRateLimiter) : ModalityRateLimiter :=
  {| quotas := delete m (quotas q); seeded_keys := seeded_keys q; backing := backing q |}.

Definition hasQuota (m : Modality) (q : ModalityRateLimiter) : bool :=
  bool_decide (is_Some (quotas q !! m)).

Section quotas.
Context (hash : string → Z) (global_config : Config).

Definition modality_allow (t_seed t_prune t_new now : Z) (m : Modality) (identity : string)
    (cost : float) (q : ModalityRateLimiter) : bool * ModalityRateLimiter :=
  let key := makeKey m identity in
  let q := match quotas q !! m with
           | Some cfg =>
               if decide (key ∈ seeded_keys q) then q
               else {| quotas := quotas q; seeded_keys := {[key]} ∪ seeded_keys q;
                       backing := setKeyConfig hash t_seed key cfg (backing q) |}
           | None => q
           end in
  let '(allowed, l) := allow hash global_config t_prune t_new now key cost (backing q) in
  (allowed, {| quotas := quotas q; seeded_keys := seeded_keys q; backing := l |}).

Definition quota_error (m : Modality) (identity : string) : GatewayError :=
  {| http_status := toHttpStatus ModalityQuotaExceeded;
     error_code := toAegisCode ModalityQuotaExceeded;
     error_type := toErrorType ModalityQuotaExceeded;
     message := toDefaultMessage ModalityQuotaExceeded;
     internal_detail := "modality=" +:+ modalityToString m +:+ " identity=" +:+ identity |}.

(** The quota of a request; [None] lets it pass. *)
Definition enforceModalityQuota (t_seed t_prune t_new now : Z) (m : Modality) (identity : string)
    (limiter : option ModalityRateLimiter) : option GatewayError * option ModalityRateLimiter :=
  match limiter with
  | None => (None, None)
  | Some q =>
      if decide (m = Unknown) then (None, Some q)
      else if negb (hasQuota m q) then (None, Some q)
      else
        let '(allowed, q) := modality_allow t_seed t_prune t_new now m identity 1 q in
        (if allowed then None else Some (quota_error m identity), Some q)
  end.

End quotas.

(** ** Isolation *)

Lemma modality_name_plain m : ¬ has_char ":"%char (modalityToString m).
Proof. unfold has_char. destruct m; by apply (bool_decide_eq_false (_ ∈ _)). Qed.

Lemma modality_round_trip m : modalityFromString (modalityToString m) = m.
Proof. by destruct m. Qed.

(** The keys of two modalities or two identities never coincide. *)
Lemma makeKey_inj m m' id id' : makeKey m id = makeKey m' id' → m = m' ∧ id = id'.
Proof.
  unfold makeKey. intros H. assert (modalityToString m +:+ String ":"%char id =
    modalityToString m' +:+ String ":"%char id') as Hk by by injection H.
  pose proof (f_equal (str_find ":"%char 0) Hk) as Hf.
  rw !str_find_first in Hf; [|by apply modality_name_plain..]. injection Hf as Hf.
  assert (modalityToString m = modalityToString m' ∧ String ":"%char id = String ":"%char id')
    as [Hm [= ->]] by by apply str_app_inj_length.
  split; [|done]. by rw -(modality_round_trip m) Hm modality_round_trip.
Qed.

Section facts.
Context (hash : string → Z) (global_config : Config).
Notation allow := (allow hash global_config).
Notation modality_allow := (modality_allow hash global_config).

Definition bucket (key : string) (l : Limiter) : option TokenBucket := buckets (shard hash key l) !! key.

(** The bucket of another key: as it was, or dropped because it was full at
    its last use and had not been used for five minutes. *)
Definition untouched (now : Z) (before after : option TokenBucket) : Prop :=
  after = before ∨ after = None ∧ ∃ b, before = Some b ∧ idle now b = true.

Lemma shard_insert key key' s l :
  shard hash key (<[shardFor hash key' := s]> l) =
  if decide (shardFor hash key = shardFor hash key') then s else shard hash key l.
Proof.
  unfold shard. case_decide as Hk; [by rw Hk lookup_insert_eq|].
  by rw lookup_insert_ne.
Qed.

Lemma prune_untouched now s key : untouched now (buckets s !! key) (buckets (maybePrune now s) !! key).
Proof.
  unfold maybePrune. destruct (_ && _); [by left|]. simpl. rw map_lookup_filter.
  destruct (buckets s !! key) as [b|]; [|by left]. simpl. destruct (idle now b) eqn:Hi.
  - right. rw option_guard_False; [|done]. split; [done|]. by exists b.
  - left. by rw option_guard_True.
Qed.

Lemma get_untouched t_prune t_new key key' s :
  key' ≠ key → untouched t_prune (buckets s !! key') (buckets (getBucket global_config t_prune t_new key s).2 !! key').
Proof.
  intros Hk. unfold getBucket. destruct (buckets s !! key); [by left|]. simpl.
  rw lookup_insert_ne //. apply prune_untouched.
Qed.

Lemma allow_untouched t_prune t_new now key key' cost l :
  key' ≠ key → untouched t_prune (bucket key' l) (bucket key' (allow t_prune t_new now key cost l).2).
Proof.
  intros Hk. unfold RateLimiter.allow. destruct (cost <=? 0)%float; [by left|].
  pose proof (get_untouched t_prune t_new key key' (shard hash key l) Hk) as Hg.
  destruct (getBucket _ _ _ _ _) as [b s]. simpl in *. unfold bucket. rw shard_insert.
  case_decide as Hs; [|by left]. simpl. rw lookup_insert_ne //.
  by rw /shard Hs.
Qed.

Lemma set_key_config_bucket now key key' cfg l :
  bucket key' (setKeyConfig hash now key cfg l) =
  if decide (key' = key) then Some (full_bucket cfg now) else bucket key' l.
Proof.
  unfold setKeyConfig, bucket. rw shard_insert. destruct (decide (key' = key)) as [->|Hk].
  - rw decide_True //. simpl. by rw lookup_insert_eq.
  - case_decide as Hs; [|done]. simpl. rw lookup_insert_ne //. by rw /shard Hs.
Qed.

(** The decision on a key. *)
Lemma allow_decision t_prune t_new now key cost l b :
  (cost <=? 0)%float = false → bucket key l = Some b →
  (allow t_prune t_new now key cost l).1 = (cost <=? tokens (refill now b))%float.
Proof.
  intros Hc Hb. unfold RateLimiter.allow. rw Hc /getBucket. unfold bucket in Hb. by rw Hb.
Qed.

(** *** Requests of several callers *)

(** A request under a quota, or one that the global limiter decides, on the same
    buckets. *)
Inductive Op :=
| UnderQuota (m : Modality) (id : string) (cost : float) (t_seed t_prune t_new now : Z)
| Global (key : string) (cost : float) (t_prune t_new now : Z).

Definition op_key (op : Op) : string :=
  match op with UnderQuota m id _ _ _ _ _ => makeKey m id | Global key _ _ _ _ => key end.
Definition prune_time (op : Op) : Z :=
  match op with UnderQuota _ _ _ _ t _ _ => t | Global _ _ t _ _ => t end.

Definition run_op (op : Op) (q : ModalityRateLimiter) : bool * ModalityRateLimiter :=
  match op with
  | UnderQuota m id cost t_seed t_prune t_new now => modality_allow t_seed t_prune t_new now m id cost q
  | Global key cost t_prune t_new now =>
      let '(b, l) := allow t_prune t_new now key cost (backing q) in
      (b, {| quotas := quotas q; seeded_keys := seeded_keys q; backing := l |})
  end.

(** The answers to the requests with the key [key], in a run of all of them. *)
Fixpoint answers (key : string) (ops : list Op) (q : ModalityRateLimiter) : list bool :=
  match ops with
  | [] => []
  | op :: ops =>
      let '(b, q) := run_op op q in
      if decide (op_key op = key) then b :: answers key ops q else answers key ops q
  end.

(** What an identity has of its own under a quota. *)
Record Own := { own_seeded : bool; own_bucket : option TokenBucket }.

Definition own_allow (cfg : Config) (t_seed t_new now : Z) (cost : float) (o : Own) : bool * Own :=
  let b := if own_seeded o then own_bucket o else Some (full_bucket cfg t_seed) in
  if (cost <=? 0)%float then (true, {| own_seeded := true; own_bucket := b |})
  else
    let b := refill now (default (full_bucket global_config t_new) b) in
    let allowed := (cost <=? tokens b)%float in
    (allowed, {| own_seeded := true;
                 own_bucket := Some (if allowed then {| tokens := tokens b - cost; b_max := b_max b;
                   b_rate := b_rate b; last_refill := last_refill b |} else b) |}).

(** Answers that follow from the own requests alone: a request of anybody else
    does nothing, but that it may drop the bucket if that was full at its last
    use and has not been used for five minutes. *)
Inductive by_own_requests (m : Modality) (id : string) (cfg : Config) : Own → list Op → list bool → Prop :=
| own_done o : by_own_requests m id cfg o [] []
| own_request o cost t_seed t_prune t_new now ops l :
    by_own_requests m id cfg (own_allow cfg t_seed t_new now cost o).2 ops l →
    by_own_requests m id cfg o (UnderQuota m id cost t_seed t_prune t_new now :: ops)
      ((own_allow cfg t_seed t_new now cost o).1 :: l)
| other_request o op ops l :
    op_key op ≠ makeKey m id → by_own_requests m id cfg o ops l →
    by_own_requests m id cfg o (op :: ops) l
| other_drops o b op ops l :
    op_key op ≠ makeKey m id → own_bucket o = Some b → idle (prune_time op) b = true →
    by_own_requests m id cfg {| own_seeded := own_seeded o; own_bucket := None |} ops l →
    by_own_requests m id cfg o (op :: ops) l.

Definition own_of (m : Modality) (id : string) (q : ModalityRateLimiter) : Own :=
  {| own_seeded := bool_decide (makeKey m id ∈ seeded_keys q);
     own_bucket := bucket (makeKey m id) (backing q) |}.

Lemma allow_own t_prune t_new now key cost l :
  let b := refill now (default (full_bucket global_config t_new) (bucket key l)) in
  let allowed := (cost <=? tokens b)%float in
  (cost <=? 0)%float = false →
  (allow t_prune t_new now key cost l).1 = allowed ∧
  bucket key (allow t_prune t_new now key cost l).2 =
    Some (if allowed then {| tokens := tokens b - cost; b_max := b_max b; b_rate := b_rate b;
                             last_refill := last_refill b |} else b).
Proof.
  intros b allowed Hc. unfold RateLimiter.allow. rw Hc.
  assert ((getBucket global_config t_prune t_new key (shard hash key l)).1 =
    default (full_bucket global_config t_new) (bucket key l)) as Hg.
  { unfold getBucket, bucket. by destruct (buckets _ !! key). }
  destruct (getBucket _ _ _ _ _) as [b' s]. cbn [fst] in Hg. subst b'. split; [done|].
  cbn [snd]. unfold bucket at 1. rw shard_insert decide_True //. cbn [buckets]. by rw lookup_insert_eq.
Qed.

(** The own request does what it would do alone. *)
Lemma run_own m id cfg cost t_seed t_prune t_new now q :
  quotas q !! m = Some cfg →
  let '(a, o) := own_allow cfg t_seed t_new now cost (own_of m id q) in
  let '(a', q') := modality_allow t_seed t_prune t_new now m id cost q in
  a' = a ∧ own_of m id q' = o ∧ quotas q' = quotas q.
Proof.
  intros Hq. unfold RateLimiter.modality_allow. rw Hq.
  set (q1 := if decide (makeKey m id ∈ seeded_keys q) then q else _).
  assert (own_bucket (own_of m id q1) = (if own_seeded (own_of m id q) then own_bucket (own_of m id q)
    else Some (full_bucket cfg t_seed)) ∧ makeKey m id ∈ seeded_keys q1 ∧ quotas q1 = quotas q) as (Hb & Hs & Hqq).
  { unfold q1, own_of. case_decide as Hin; cbn.
    - by rw bool_decide_eq_true_2.
    - rw bool_decide_eq_false_2 // set_key_config_bucket decide_True //. split_and!; [done|set_solver|done]. }
  unfold own_allow. rw -Hb. cbn [own_bucket own_of].
  pose proof (allow_own t_prune t_new now (makeKey m id) cost (backing q1)) as Ha. cbv zeta in Ha.
  destruct (cost <=? 0)%float eqn:Hc.
  - unfold RateLimiter.allow. rw Hc. split_and!; [done| |done]. unfold own_of. cbn. by rw bool_decide_eq_true_2.
  - destruct (Ha eq_refl) as [Ha1 Ha2]. destruct (RateLimiter.allow _ _ _ _ _ _ _ _) as [a l]. cbn [fst snd] in *.
    split_and!; [done| |done]. unfold own_of. cbn. rw bool_decide_eq_true_2 // Ha2. done.
Qed.

(** A request of another key leaves it alone. *)
Lemma run_other m id op q :
  op_key op ≠ makeKey m id →
  quotas (run_op op q).2 = quotas q ∧
  own_seeded (own_of m id (run_op op q).2) = own_seeded (own_of m id q) ∧
  untouched (prune_time op) (own_bucket (own_of m id q)) (own_bucket (own_of m id (run_op op q).2)).
Proof.
  intros Hk. destruct op as [m' id' cost t_seed t_prune t_new now|key cost t_prune t_new now];
    cbn [run_op prune_time op_key] in *.
  - unfold RateLimiter.modality_allow.
    set (q1 := match quotas q !! m' with Some _ => _ | None => _ end).
    assert (quotas q1 = quotas q ∧ (makeKey m id ∈ seeded_keys q1 ↔ makeKey m id ∈ seeded_keys q) ∧
      bucket (makeKey m id) (backing q1) = bucket (makeKey m id) (backing q)) as (Hq & Hs & Hb).
    { unfold q1. destruct (quotas q !! m'); [|done]. case_decide; [done|]. cbn.
      rw set_key_config_bucket decide_False //. split_and!; [done|set_solver|done]. }
    pose proof (allow_untouched t_prune t_new now _ _ cost (backing q1) (not_eq_sym Hk)) as Hu.
    destruct (RateLimiter.allow _ _ _ _ _ _ _ _) as [a l]. cbn in *. rw Hb in Hu.
    split_and!; [done| |done]. by apply bool_decide_ext.
  - pose proof (allow_untouched t_prune t_new now _ _ cost (backing q) (not_eq_sym Hk)) as Hu.
    by destruct (RateLimiter.allow _ _ _ _ _ _ _ _) as [a l].
Qed.

(** C39. Quotas are isolated.  However requests under the quotas, of any modality
    and identity, and requests that the global limiter decides on the same
    buckets follow one another, the answers that one identity gets for a
    modality with a quota are those that its own requests alone give it: the
    first one since the quota was set finds a full bucket of that quota, and
    nobody else takes from it.  Two restrictions: the key that the global
    limiter is asked about is not spelled like a key of the quotas
    ([global_key_collides]); and a bucket that was full at its last use and has
    not been used for five minutes may be dropped while a request of another
    makes room, after which its owner, whose key counts as known, is measured
    by a full bucket of the global limits instead of the quota
    ([dropped_quota_forgotten]). *)
Theorem quota_isolated m id cfg ops q :
  quotas q !! m = Some cfg →
  Forall (λ op, match op with Global key _ _ _ _ => key ≠ makeKey m id | _ => True end) ops →
  by_own_requests m id cfg (own_of m id q) ops (answers (makeKey m id) ops q).
Proof.
  intros Hq Hops. revert q Hq. induction Hops as [|op ops Hop _ IH]; intros q Hq; [constructor|].
  cbn [answers]. destruct (decide (op_key op = makeKey m id)) as [Hk|Hk].
  - destruct op as [m' id' cost t_seed t_prune t_new now|key cost t_prune t_new now]; [|done].
    cbn [op_key] in Hk. apply makeKey_inj in Hk as [-> ->]. cbn [run_op].
    pose proof (run_own m id cfg cost t_seed t_prune t_new now q Hq) as Hown.
    destruct (own_allow cfg t_seed t_new now cost (own_of m id q)) as [a o] eqn:Ho.
    destruct (RateLimiter.modality_allow _ _ _ _ _ _ _ _ _ _) as [a' q']. destruct Hown as (-> & <- & Hqq).
    assert (a = (own_allow cfg t_seed t_new now cost (own_of m id q)).1) as -> by by rw Ho.
    apply own_request. rw Ho. apply IH. by rw Hqq.
  - destruct (run_other m id op q Hk) as (Hqq & Hs & Hu). destruct (run_op op q) as [a q']. cbn [snd] in *.
    assert (quotas q' !! m = Some cfg) as Hq' by by rw Hqq. specialize (IH q' Hq').
    destruct Hu as [Hu|(Hu & b & Hb & Hi)].
    + apply other_request; [done|]. assert (own_of m id q' = own_of m id q) as <-; [|done].
      unfold own_of in *. cbn in *. by rw Hs Hu.
    + eapply other_drops; [done|exact Hb|exact Hi|].
      assert (own_of m id q' = {| own_seeded := own_seeded (own_of m id q); own_bucket := None |}) as <-; [|done].
      unfold own_of in *. cbn in *. by rw Hs Hu.
Qed.

End facts.


(** ** Runs *)

Definition toy_hash (_ : string) : Z := 0.
Definition toy_global : Config := {| max_tokens := 100; refill_rate := 10 |}.
Definition toy_quota : Config := {| max_tokens := 2; refill_rate := 0.5 |}.

Definition toy_quotas : ModalityRateLimiter :=
  setQuota ImageGen toy_quota {| quotas := ∅; seeded_keys := ∅; backing := ∅ |}.

(** The answers to requests of one identity at one moment. *)
Fixpoint burst (n : nat) (m : Modality) (id : string) (q : ModalityRateLimiter) :
    list bool * ModalityRateLimiter :=
  match n with
  | O => ([], q)
  | S n =>
      let '(b, q) := modality_allow toy_hash toy_global 0 0 0 0 m id 1 q in
      let '(bs, q) := burst n m id q in (b :: bs, q)
  end.

(** Two images are allowed, the next is not, and another caller has its own two. *)
Lemma quota_burst :
  (burst 3 ImageGen "alice" toy_quotas).1 = [true; true; false] ∧
  (burst 3 ImageGen "bob" (burst 3 ImageGen "alice" toy_quotas).2).1 = [true; true; false].
Proof. split; vm_compute; reflexivity. Qed.

(** Alice asks for three images while Bob and the global limiter are busy. *)
Definition toy_ops : list Op :=
  [UnderQuota ImageGen "alice" 1 0 0 0 0; UnderQuota ImageGen "bob" 1 0 0 0 0; Global "alice" 1 0 0 0;
   UnderQuota Embedding "alice" 1 0 0 0 0; UnderQuota ImageGen "alice" 1 0 0 0 0;
   UnderQuota ImageGen "alice" 1 0 0 0 0].

Lemma quota_isolated_witness :
  by_own_requests toy_global ImageGen "alice" toy_quota {| own_seeded := false; own_bucket := None |} toy_ops
    [true; true; false].
Proof.
  pose proof (quota_isolated toy_hash toy_global ImageGen "alice" toy_quota toy_ops toy_quotas) as H.
  assert (answers toy_hash toy_global (makeKey ImageGen "alice") toy_ops toy_quotas = [true; true; false])
    as Ha by (vm_compute; reflexivity).
  rw Ha in H. apply H; [done|]. repeat constructor. by vm_compute.
Defined.

(** A key of the global limiter is the caller's API key as it is: one that is
    spelled like a key of the quotas uses up that quota. *)
Lemma global_key_collides :
  answers toy_hash toy_global (makeKey ImageGen "bob")
    [UnderQuota ImageGen "bob" 1 0 0 0 0; Global "modality:image_gen:bob" 1 0 0 0;
     UnderQuota ImageGen "bob" 1 0 0 0 0] toy_quotas = [true; true; false].
Proof. vm_compute. reflexivity. Qed.

(** Bob's bucket is full at its last use, a request that costs more than it
    holds, and is dropped a year later by the request that makes room; the quota
    of two images is then forgotten, and Bob has the global hundred. *)
Lemma dropped_quota_forgotten :
  let year := 365 * 86400 * 1000000000 in
  let q1 := (run_op toy_hash toy_global (UnderQuota ImageGen "bob" 3 0 0 0 0) toy_quotas).2 in
  let busy := {| quotas := quotas q1; seeded_keys := seeded_keys q1;
                 backing := {[ 0%nat := {| buckets := buckets (shard toy_hash "" (backing q1));
                                           op_counter := 999 |} ]} |} in
  answers toy_hash toy_global (makeKey ImageGen "bob")
    (Global "new" 1 year year year :: replicate 5 (UnderQuota ImageGen "bob" 1 year year year year)) busy =
  replicate 5 true.
Proof. vm_compute. reflexivity. Qed.

(** The pruning compares the tokens at the last use, which are never full
    after one, so that a bucket that was used once is kept for ever: here the
    thousandth new key, a year later, drops nothing. *)
Lemma used_bucket_kept :
  let year := 365 * 86400 * 1000000000 in
  let used := (allow toy_hash toy_global 0 0 0 "once" 1 ∅).2 in
  let l := {[ 0%nat := {| buckets := buckets (shard toy_hash "once" used); op_counter := 999 |} ]} in
  let l' := (allow toy_hash toy_global year year year "new" 1 l).2 in
  op_counter (shard toy_hash "new" l') = 0 ∧ is_Some (bucket toy_hash "once" l').
Proof. split; [vm_compute; reflexivity|]. apply (bool_decide_unpack _). vm_compute. reflexivity. Qed.

(** Translations are proxied like transcriptions, but they have no modality
    and so no quota. *)
Lemma translations_unmetered q t_seed t_prune t_new now id :
  enforceModalityQuota toy_hash toy_global t_seed t_prune t_new now
    (modalityFromEndpoint "/v1/audio/translations") id (Some q) = (None, Some q).
Proof. done. Qed.


End RateLimiter.
