(* ===== verification/AbuseDetector.v ===== *)
(** * AbuseDetector: sliding windows of rejections and near-duplicates

    Models [src/src/gateway/abuse_detector.cpp] (the in-process detector) and
    [simhash.h].  A time is a reading of the steady clock in nanoseconds, one
    argument for each reading ([Times]); the hash that picks a shard and the
    order in which a hash map is walked are parameters.  [observe] takes the
    lock of a shard twice, so its two critical sections are separate steps and
    a sequence of steps is an interleaving of concurrent requests.  Counts are
    unbounded, which the code's [int] is up to 2^31 hits in one window. *)
From S2P Require Import Prelude.
Local Open Scope Z_scope.

Module AbuseDetector.

(** ** [simhash.h] *)

Definition fnv1a64 (s : string) : Z :=
  foldl (λ h c, u64 (Z.lxor h c * 1099511628211)) 14695981039346656037 (bytes_of s).

(** [int32_t acc[64]]. *)
Definition add_feature (acc : list Z) (feat : string) : list Z :=
  let fh := fnv1a64 feat in
  imap (λ i a, a + if Z.testbit fh (Z.of_nat i) then 1 else -1) acc.

Definition features (text : string) : list string :=
  if (String.length text <? 3)%nat then [text]
  else (λ i, String.substring i 3 text) <$> seq 0 (String.length text - 2).

Definition simhash64 (text : string) : Z :=
  let acc := foldl add_feature (replicate 64 0) (features text) in
  foldl Z.lor 0 (imap (λ i a, if 0 <? a then Z.shiftl 1 (Z.of_nat i) else 0) acc).

(** [__builtin_popcountll]. *)
Definition popcount (x : Z) : Z :=
  Z.of_nat (length (filter (λ i, Z.testbit x (Z.of_nat i) = true) (seq 0 64))).

Definition hamming64 (a b : Z) : Z := popcount (Z.lxor a b).

(** ** Data *)

Inductive Action := Allow | Warn | Throttle | Block.
#[global] Instance action_eq : EqDecision Action.
Proof. solve_decision. Defined.

(** [throttle_factor] is read by the gateway only. *)
Record Config := {
  window_seconds : Z;
  warn_threshold : Z;
  throttle_threshold : Z;
  block_threshold : Z;
  block_duration_seconds : Z;
  max_keys_per_shard : nat;
  similarity_enabled : bool;
  similarity_hamming_threshold : Z;
  similarity_max_fingerprints : nat;
  similarity_max_content_bytes : nat;
}.

Record SlidingWindow := {
  timestamps : list Z;
  blocked_until : Z;
  fingerprints : list Z;
}.

Definition new_window : SlidingWindow := {| timestamps := []; blocked_until := 0; fingerprints := [] |}.

Notation Shard := (gmap string SlidingWindow).
Definition Detector := gmap nat Shard.
Definition kShardCount : Z := 16.

Definition seconds (s : Z) : Z := s * 10 ^ 9.
Definition time_max : Z := 2 ^ 63 - 1.

(** The readings of one critical section, in their order. *)
Record Times := { t1 : Z; t2 : Z; t3 : Z; t4 : Z }.

(** ** Operations *)

Section detector.
Context (hash : string → Z) (walk : Shard → list (string * SlidingWindow)) (config : Config).

Definition shardFor (key : string) : nat := Z.to_nat (hash key mod kShardCount).

Definition shard (key : string) (d : Detector) : Shard := default ∅ (d !! shardFor key).

Definition cutoff (now : Z) : Z := now - seconds (window_seconds config).

Fixpoint pop_expired (cut : Z) (l : list Z) : list Z :=
  match l with
  | ts :: l' => if ts <? cut then pop_expired cut l' else l
  | [] => []
  end.

Definition pruneExpired (now : Z) (w : SlidingWindow) : SlidingWindow :=
  {| timestamps := pop_expired (cutoff now) (timestamps w); blocked_until := blocked_until w;
     fingerprints := fingerprints w |}.

Definition count_from (cut : Z) (l : list Z) : Z := Z.of_nat (length (filter (λ ts, cut <= ts) l)).

Definition countInWindow (now : Z) (w : SlidingWindow) : Z := count_from (cutoff now) (timestamps w).

Definition last_hit (w : SlidingWindow) : Z := default 0 (last (timestamps w)).

Definition oldest (ws : list (string * SlidingWindow)) : string * Z :=
  foldl (λ best kw, if last_hit kw.2 <? best.2 then (kw.1, last_hit kw.2) else best) ("", time_max) ws.

Definition ensureKeyCapacity (s : Shard) (api_key : string) : Shard :=
  if decide (is_Some (s !! api_key)) then s
  else if (size s <? max_keys_per_shard config)%nat then s
  else
    let oldest_key := (oldest (walk s)).1 in
    if decide (oldest_key = "") then s else delete oldest_key s.

Definition keep_newest (n : nat) (l : list Z) : list Z := drop (length l - n) l.

Definition pushFingerprint (h : Z) (w : SlidingWindow) : SlidingWindow :=
  {| timestamps := timestamps w; blocked_until := blocked_until w;
     fingerprints := keep_newest (similarity_max_fingerprints config) (fingerprints w ++ [h]) |}.

Definition actionFromCount (now : Z) (count : Z) (w : SlidingWindow) : Action :=
  if now <? blocked_until w then Block
  else if block_threshold config <=? count then Block
  else if throttle_threshold config <=? count then Throttle
  else if warn_threshold config <=? count then Warn
  else Allow.

(** One more hit, and the block that it may start. *)
Definition hit (t : Times) (w : SlidingWindow) : SlidingWindow :=
  let w := pruneExpired (t2 t) {| timestamps := timestamps w ++ [t1 t]; blocked_until := blocked_until w;
                                  fingerprints := fingerprints w |} in
  if (block_threshold config <=? Z.of_nat (length (timestamps w))) && (blocked_until w <=? t3 t)
  then {| timestamps := timestamps w; blocked_until := t4 t + seconds (block_duration_seconds config);
          fingerprints := fingerprints w |}
  else w.

Definition near (h : Z) (prints : list Z) : bool :=
  existsb (λ fp, hamming64 h fp <=? similarity_hamming_threshold config) prints.

Definition trimmed (content : string) : string :=
  if (similarity_max_content_bytes config <? String.length content)%nat
  then String.substring 0 (similarity_max_content_bytes config) content else content.

(** A critical section on the window of a key, which it creates if needed. *)
Definition with_window (api_key : string) (f : SlidingWindow → SlidingWindow) (d : Detector) : Detector :=
  let s := ensureKeyCapacity (shard api_key d) api_key in
  <[shardFor api_key := <[api_key := f (default new_window (s !! api_key))]> s]> d.

(** The first critical section of [observe]. *)
Definition screen (t : Times) (api_key content : string) (d : Detector) : Detector :=
  if similarity_enabled config && negb (bool_decide (trimmed content = "")) then
    let h := simhash64 (trimmed content) in
    with_window api_key
      (λ w, pushFingerprint h (if near h (fingerprints w) then hit t w else w)) d
  else d.

Definition recordRejection (t : Times) (api_key : string) : Detector → Detector :=
  with_window api_key (hit t).

Definition getAction (t_count t_block : Z) (api_key : string) (d : Detector) : Action :=
  match shard api_key d !! api_key with
  | None => Allow
  | Some w => actionFromCount t_block (countInWindow t_count w) w
  end.

Definition rejectionCount (now : Z) (api_key : string) (d : Detector) : Z :=
  from_option (countInWindow now) 0 (shard api_key d !! api_key).

Definition observe (t : Times) (t_count t_block : Z) (api_key content : string) (d : Detector) :
    Action * Detector :=
  let d := screen t api_key content d in (getAction t_count t_block api_key d, d).

(** ** The steps of concurrent requests *)

Inductive Call :=
| Screen (key content : string)
| Reject (key : string)
| Ask (key : string)
| Count (key : string).

Inductive Answer := Done | Acts (a : Action) | Number (n : Z).

Definition call_key (c : Call) : string :=
  match c with Screen k _ | Reject k | Ask k | Count k => k end.

Definition step (ct : Call * Times) (d : Detector) : Answer * Detector :=
  let '(c, t) := ct in
  match c with
  | Screen k content => (Done, screen t k content d)
  | Reject k => (Done, recordRejection t k d)
  | Ask k => (Acts (getAction (t1 t) (t2 t) k d), d)
  | Count k => (Number (rejectionCount (t1 t) k d), d)
  end.

Fixpoint run (log : list (Call * Times)) (d : Detector) : list (string * Answer) * Detector :=
  match log with
  | [] => ([], d)
  | ct :: log => let '(a, d) := step ct d in
                 let '(l, d) := run log d in ((call_key ct.1, a) :: l, d)
  end.

(** ** What a key is promised: its whole history, nothing forgotten *)

Record History := {
  h_hits : list Z;
  h_until : Z;
  h_prints : list Z;
}.

Definition no_history : History := {| h_hits := []; h_until := 0; h_prints := [] |}.

Definition h_hit (t : Times) (h : History) : History :=
  let hits := h_hits h ++ [t1 t] in
  {| h_hits := hits;
     h_until := if (block_threshold config <=? count_from (cutoff (t2 t)) hits) && (h_until h <=? t3 t)
                then t4 t + seconds (block_duration_seconds config) else h_until h;
     h_prints := h_prints h |}.

Definition h_action (t_count t_block : Z) (h : History) : Action :=
  actionFromCount t_block (count_from (cutoff t_count) (h_hits h))
    {| timestamps := []; blocked_until := h_until h; fingerprints := [] |}.

Definition h_screen (t : Times) (content : string) (h : History) : History :=
  let p := simhash64 (trimmed content) in
  let h := if near p (keep_newest (similarity_max_fingerprints config) (h_prints h)) then h_hit t h else h in
  {| h_hits := h_hits h; h_until := h_until h; h_prints := h_prints h ++ [p] |}.

Definition h_step (ct : Call * Times) (h : option History) : Answer * option History :=
  let '(c, t) := ct in
  match c with
  | Screen _ content =>
      (Done, if similarity_enabled config && negb (bool_decide (trimmed content = ""))
             then Some (h_screen t content (default no_history h)) else h)
  | Reject _ => (Done, Some (h_hit t (default no_history h)))
  | Ask _ => (Acts (from_option (h_action (t1 t) (t2 t)) Allow h), h)
  | Count _ => (Number (from_option (λ h, count_from (cutoff (t1 t)) (h_hits h)) 0 h), h)
  end.

Fixpoint h_run (log : list (Call * Times)) (h : option History) : list Answer * option History :=
  match log with
  | [] => ([], h)
  | ct :: log => let '(a, h) := h_step ct h in let '(l, h) := h_run log h in (a :: l, h)
  end.

(** The clock does not go backwards. *)
Fixpoint clocked (now : Z) (log : list (Call * Times)) : Prop :=
  match log with
  | [] => True
  | (_, t) :: log => now <= t1 t ∧ t1 t <= t2 t ∧ t2 t <= t3 t ∧ t3 t <= t4 t ∧ clocked (t4 t) log
  end.

Definition keys_of (log : list (Call * Times)) : gset string := list_to_set ((call_key ∘ fst) <$> log).

Definition about (key : string) (log : list (Call * Times)) : list (Call * Times) :=
  filter (λ ct, call_key ct.1 = key) log.

Definition told (key : string) (answers : list (string * Answer)) : list Answer :=
  snd <$> filter (λ ka, ka.1 = key) answers.

(** ** Pruned and whole histories *)

Lemma pop_expired_split cut l : StronglySorted Z.le l → ∃ old, l = old ++ pop_expired cut l ∧
  Forall (λ t, t < cut) old ∧ Forall (λ t, cut <= t) (pop_expired cut l).
Proof using Type.
  induction 1 as [|x l _ IH Hx]; [by exists []|]. cbn. destruct (Z.ltb_spec x cut).
  - destruct IH as (old & Hl & ? & ?). exists (x :: old). split_and!; [by rw {1}Hl|by constructor|done].
  - exists []. split_and!; [done|constructor|]. constructor; [done|].
    eapply Forall_impl; [exact Hx|]. cbn. lia.
Qed.

Lemma count_from_app cut l l' : count_from cut (l ++ l') = count_from cut l + count_from cut l'.
Proof using Type. unfold count_from. rw filter_app length_app. lia. Qed.

Lemma count_from_none cut l : Forall (λ t, t < cut) l → count_from cut l = 0.
Proof using Type.
  unfold count_from. induction 1 as [|x l Hx _ IH]; [done|]. rw filter_cons_False; lia.
Qed.

Lemma count_from_all cut l : Forall (λ t, cut <= t) l → count_from cut l = Z.of_nat (length l).
Proof using Type.
  unfold count_from. induction 1 as [|x l Hx _ IH]; [done|]. rw filter_cons_True; [|done]. cbn. lia.
Qed.

Lemma StronglySorted_snoc l x : StronglySorted Z.le l → Forall (λ t, t <= x) l → StronglySorted Z.le (l ++ [x]).
Proof using Type.
  induction 1 as [|y l _ IH Hy]; intros Hx; cbn; [repeat constructor|].
  inversion_clear Hx. constructor; [by apply IH|]. apply Forall_app; split; [done|by constructor].
Qed.

Lemma keep_newest_snoc n l x : keep_newest n (keep_newest n l ++ [x]) = keep_newest n (l ++ [x]).
Proof using Type.
  unfold keep_newest. rw !length_app length_drop. cbn.
  destruct (decide (length l <= n)%nat) as [Hl|Hl].
  - replace (length l - n)%nat with 0%nat by lia. rw drop_0. f_equal. lia.
  - rw -drop_app_le; [|lia]. rw drop_drop. f_equal. lia.
Qed.

(** The window of a key at time [now], against its history. *)
Definition tracks (now : Z) (w : SlidingWindow) (h : History) : Prop :=
  (∃ old, h_hits h = old ++ timestamps w ∧ Forall (λ t, t < cutoff now) old) ∧
  StronglySorted Z.le (h_hits h) ∧ Forall (λ t, t <= now) (h_hits h) ∧
  blocked_until w = h_until h ∧
  fingerprints w = keep_newest (similarity_max_fingerprints config) (h_prints h).

Lemma tracks_new now : tracks now new_window no_history.
Proof using Type. split_and!; [by exists []|constructor..|done|done]. Qed.

Lemma tracks_later now now' w h : now <= now' → tracks now w h → tracks now' w h.
Proof using Type.
  intros Hle ((old & Hold & Hall) & Hs & Hn & Hu & Hf). split_and!; [|done| |done|done].
  - exists old. split; [done|]. eapply Forall_impl; [exact Hall|]. unfold cutoff. cbn. lia.
  - eapply Forall_impl; [exact Hn|]. cbn. lia.
Qed.

Lemma tracks_count now now' w h : now <= now' → tracks now w h →
  count_from (cutoff now') (timestamps w) = count_from (cutoff now') (h_hits h).
Proof using Type.
  intros Hle ((old & -> & Hall) & _). rw count_from_app (count_from_none _ old); [lia|].
  eapply Forall_impl; [exact Hall|]. unfold cutoff. cbn. lia.
Qed.

Lemma tracks_hit now t w h :
  now <= t1 t → t1 t <= t2 t → t2 t <= t3 t → t3 t <= t4 t → tracks now w h → tracks (t4 t) (hit t w) (h_hit t h).
Proof using Type.
  intros H1 H2 H3 H4 ((old & Hold & Hall) & Hs & Hn & Hu & Hf).
  assert (StronglySorted Z.le (h_hits h ++ [t1 t])) as Hs'.
  { apply StronglySorted_snoc; [done|]. eapply Forall_impl; [exact Hn|]. cbn. lia. }
  pose proof Hs' as Hs2. rw Hold -(assoc_L _) in Hs2.
  assert (StronglySorted Z.le (timestamps w ++ [t1 t])) as Hs3 by by eapply StronglySorted_app_1_r.
  destruct (pop_expired_split (cutoff (t2 t)) _ Hs3) as (old' & Hl & Ho & Hk).
  assert (tracks (t4 t) (pruneExpired (t2 t) {| timestamps := timestamps w ++ [t1 t];
    blocked_until := blocked_until w; fingerprints := fingerprints w |})
    {| h_hits := h_hits h ++ [t1 t]; h_until := h_until h; h_prints := h_prints h |}) as Ht.
  { split_and!; [|done| |done|done]; cbn.
    - exists (old ++ old'). rw Hold -!(assoc_L _) -Hl. split; [done|]. unfold cutoff in *.
      apply Forall_app; split; (eapply Forall_impl; [first [exact Hall|exact Ho]|]); cbn; lia.
    - apply Forall_app; split; [eapply Forall_impl; [exact Hn|]; cbn; lia|]. constructor; [lia|done]. }
  unfold hit, h_hit. cbn zeta. rw -(count_from_all (cutoff (t2 t))); [|exact Hk]. cbn [blocked_until pruneExpired].
  assert (count_from (cutoff (t2 t)) (h_hits h ++ [t1 t]) =
          count_from (cutoff (t2 t)) (pop_expired (cutoff (t2 t)) (timestamps w ++ [t1 t]))) as ->.
  { rw Hold -(assoc_L _) {1}Hl !count_from_app (count_from_none _ old') ?(count_from_none _ old); [done| |done].
    eapply Forall_impl; [exact Hall|]. unfold cutoff. cbn. lia. }
  cbn [timestamps pruneExpired]. rw Hu. rw Hu in Ht. destruct (_ && _); [|exact Ht].
  destruct Ht as (? & ? & ? & ? & ?). by split_and!.
Qed.

Lemma tracks_screen now t content w h :
  now <= t1 t → t1 t <= t2 t → t2 t <= t3 t → t3 t <= t4 t → tracks now w h →
  tracks (t4 t) (pushFingerprint (simhash64 (trimmed content))
    (if near (simhash64 (trimmed content)) (fingerprints w) then hit t w else w)) (h_screen t content h).
Proof using Type.
  intros H1 H2 H3 H4 Hw. unfold h_screen. pose proof Hw as (_ & _ & _ & _ & ->). cbn zeta.
  assert (tracks (t4 t) (if near (simhash64 (trimmed content))
      (keep_newest (similarity_max_fingerprints config) (h_prints h)) then hit t w else w)
    (if near (simhash64 (trimmed content))
      (keep_newest (similarity_max_fingerprints config) (h_prints h)) then h_hit t h else h)) as Ht.
  { destruct (near _ _); [by eapply tracks_hit|]. eapply tracks_later; [|exact Hw]. lia. }
  destruct (near _ _); destruct Ht as (? & ? & ? & ? & Hf); split_and!; try done; cbn;
    rw Hf; apply keep_newest_snoc.
Qed.

(** The key's entry in its shard, against its history if it has one. *)
Definition tracks_opt (now : Z) (w : option SlidingWindow) (h : option History) : Prop :=
  match w, h with
  | Some w, Some h => tracks now w h
  | None, None => True
  | _, _ => False
  end.

Lemma tracks_default now w h : tracks_opt now w h → tracks now (default new_window w) (default no_history h).
Proof using Type. destruct w, h; cbn; try done. intros _. apply tracks_new. Qed.

Lemma tracks_opt_later now now' w h : now <= now' → tracks_opt now w h → tracks_opt now' w h.
Proof using Type. destruct w, h; cbn; try done. apply tracks_later. Qed.

(** Shards that hold only the keys [K] never have to make room for one of them. *)
Definition within (K : gset string) (d : Detector) : Prop := ∀ n s, d !! n = Some s → dom s ⊆ K.

Lemma room_for K s k :
  dom s ⊆ K → k ∈ K → (size K <= max_keys_per_shard config)%nat → ensureKeyCapacity s k = s.
Proof using Type.
  intros Hs Hk HK. unfold ensureKeyCapacity. destruct (decide (is_Some (s !! k))) as [|Hn]; [done|].
  destruct (Nat.ltb_spec (size s) (max_keys_per_shard config)) as [|Hge]; [done|]. exfalso.
  assert (k ∉ dom s) as Hd by by rw elem_of_dom.
  assert (size ({[k]} ∪ dom s) <= size K)%nat as Hle by (apply subseteq_size, union_subseteq; split; [by apply singleton_subseteq_l|done]).
  rw size_union in Hle; [|by apply disjoint_singleton_l]. rw size_singleton size_dom in Hle. lia.
Qed.

Lemma shard_within K k d : within K d → dom (shard k d) ⊆ K.
Proof using Type.
  intros Hd. unfold shard. destruct (d !! shardFor k) as [s|] eqn:Hs; cbn; [by eapply Hd|]. by rw dom_empty_L.
Qed.

Lemma with_window_lookup K k f d k' :
  within K d → k ∈ K → (size K <= max_keys_per_shard config)%nat →
  within K (with_window k f d) ∧
  shard k' (with_window k f d) !! k' =
    if decide (k' = k) then Some (f (default new_window (shard k d !! k))) else shard k' d !! k'.
Proof using Type.
  intros Hd Hk HK. unfold with_window. rw (room_for K); [|by apply shard_within|done|done]. split.
  - intros n s. destruct (decide (n = shardFor k)) as [->|Hn].
    + rw lookup_insert_eq. intros [= <-]. rw dom_insert_L. pose proof (shard_within K k d Hd).
      by apply union_subseteq; split; [apply singleton_subseteq_l|].
    + rw lookup_insert_ne; [|done]. apply Hd.
  - unfold shard at 1. destruct (decide (k' = k)) as [->|Hne]; [by rw lookup_insert_eq; cbn; rw lookup_insert_eq|].
    destruct (decide (shardFor k' = shardFor k)) as [He|He].
    + rw He lookup_insert_eq. cbn. rw lookup_insert_ne; [|done]. unfold shard. by rw He.
    + rw lookup_insert_ne; [|done]. done.
Qed.

Definition ticks (now : Z) (t : Times) : Prop := now <= t1 t ∧ t1 t <= t2 t ∧ t2 t <= t3 t ∧ t3 t <= t4 t.

(** One step, seen from a key. *)
Lemma step_tracks K now k ct d h :
  within K d → call_key ct.1 ∈ K → (size K <= max_keys_per_shard config)%nat → ticks now ct.2 →
  tracks_opt now (shard k d !! k) h →
  within K (step ct d).2 ∧
  if decide (call_key ct.1 = k)
  then (step ct d).1 = (h_step ct h).1 ∧ tracks_opt (t4 ct.2) (shard k (step ct d).2 !! k) (h_step ct h).2
  else tracks_opt (t4 ct.2) (shard k (step ct d).2 !! k) h.
Proof using Type.
  intros Hd Hk HK (H1 & H2 & H3 & H4) Hh.
  assert (tracks_opt (t4 ct.2) (shard k d !! k) h) as Hl by (eapply tracks_opt_later; [|exact Hh]; lia).
  destruct ct as [[k' content|k'|k'|k'] t]; cbn in *.
  - unfold screen. destruct (_ && _); [|by split; [|case_decide]].
    destruct (with_window_lookup K k' (λ w, pushFingerprint (simhash64 (trimmed content))
      (if near (simhash64 (trimmed content)) (fingerprints w) then hit t w else w)) d k) as [Hw ->]; [done..|].
    split; [done|]. case_decide; subst; [|by rw decide_False]. rw decide_True; [|done].
    split; [done|]. eapply tracks_screen; [exact H1|done..|]. by apply tracks_default.
  - unfold recordRejection. destruct (with_window_lookup K k' (hit t) d k) as [Hw ->]; [done..|].
    split; [done|]. case_decide; subst; [|by rw decide_False]. rw decide_True; [|done].
    split; [done|]. eapply tracks_hit; [exact H1|done..|]. by apply tracks_default.
  - split; [done|]. case_decide; subst; [|done]. split; [|done]. unfold getAction.
    destruct (shard k d !! k) as [w|], h as [h|]; cbn in Hh; try done. cbn. unfold h_action, actionFromCount, countInWindow.
    rw (tracks_count now (t1 t) w h); [|done..]. destruct Hh as (_ & _ & _ & -> & _). done.
  - split; [done|]. case_decide; subst; [|done]. split; [|done]. unfold rejectionCount.
    destruct (shard k d !! k) as [w|], h as [h|]; cbn in Hh; try done. cbn. f_equal.
    by eapply tracks_count.
Qed.

Lemma run_tracks K now k log d h :
  within K d → keys_of log ⊆ K → (size K <= max_keys_per_shard config)%nat → clocked now log →
  tracks_opt now (shard k d !! k) h →
  told k (run log d).1 = (h_run (about k log) h).1 ∧ within K (run log d).2 ∧
  tracks_opt (foldl (λ _ ct, t4 ct.2) now log) (shard k (run log d).2 !! k) (h_run (about k log) h).2.
Proof using Type.
  revert now d h. induction log as [|[c t] log IH]; intros now d h Hd HK Hmax Hc Hh; [done|].
  destruct Hc as (H1 & H2 & H3 & H4 & Hc).
  assert (call_key c ∈ K ∧ keys_of log ⊆ K) as [Hck Hlog].
  { unfold keys_of in *. cbn in HK. by apply union_subseteq in HK as [HK%singleton_subseteq_l ?]. }
  destruct (step_tracks K now k (c, t) d h) as [Hd' Hs]; [done..|].
  cbn [run]. destruct (step (c, t) d) as [a d'] eqn:Ed. cbn [fst snd] in Hs, Hd'.
  unfold about, told. destruct (run log d') as [l d2] eqn:Er. cbn [fst snd].
  destruct (decide (call_key c = k)) as [Hk|Hk].
  - rw !filter_cons_True; [|done..]. cbn [h_run fmap list_fmap snd]. destruct Hs as [-> Hs].
    destruct (h_step (c, t) h) as [a' h'] eqn:Eh. cbn [fst snd] in Hs |- *.
    destruct (IH (t4 t) d' h') as (Ht & Hw & Hf); [done..|]. rw Er in Ht, Hw, Hf.
    unfold about in Ht, Hf. destruct (h_run _ h') as [l' h2] eqn:El. cbn in *. split_and!; [|done|done].
    unfold told in Ht. by rw -Ht.
  - rw !filter_cons_False; [|done..]. destruct (IH (t4 t) d' h) as (Ht & Hw & Hf); [done..|].
    rw Er in Ht, Hw, Hf. done.
Qed.

(** Whatever the interleaving of the critical sections of all requests, as long
    as no more keys are seen than a shard may hold, a key is told exactly what
    its own history says: forgetting expired hits, sharding and the requests of
    other keys change nothing. *)
Theorem abuse_refines log k now :
  clocked now log → (size (keys_of log) <= max_keys_per_shard config)%nat →
  told k (run log ∅).1 = (h_run (about k log) None).1.
Proof using Type.
  intros Hc HK. refine (proj1 (run_tracks (keys_of log) now k log ∅ None _ _ HK Hc _)); [|done|done].
  intros n s. by rw lookup_empty.
Qed.

(** ** A block lasts *)

Definition ending (now : Z) (log : list (Call * Times)) : Z := foldl (λ _ ct, t4 ct.2) now log.

Lemma clocked_app now log log' : clocked now (log ++ log') ↔ clocked now log ∧ clocked (ending now log) log'.
Proof using Type.
  revert now. induction log as [|[c t] log IH]; intros now; cbn; [tauto|].
  rw (IH (t4 t)). unfold ending. cbn. tauto.
Qed.

Lemma clocked_before now log :
  clocked now log → now <= ending now log ∧ Forall (λ ct, t3 ct.2 <= ending now log) log.
Proof using Type.
  revert now. induction log as [|[c t] log IH]; intros now; cbn; [done|].
  intros (H1 & H2 & H3 & H4 & Hc). destruct (IH (t4 t)) as [? ?]; [done|]. unfold ending in *. cbn in *.
  split; [lia|]. constructor; [cbn; lia|done].
Qed.

Lemma h_run_app log log' h : (h_run (log ++ log') h).2 = (h_run log' (h_run log h).2).2.
Proof using Type.
  revert h. induction log as [|ct log IH]; intros h; [done|]. cbn [h_run app].
  destruct (h_step ct h) as [a h'] eqn:E. specialize (IH h'). destruct (h_run (log ++ log') h') eqn:E1.
  destruct (h_run log h') eqn:E2. exact IH.
Qed.

(** Nothing moves the end of a block while it is in force. *)
Lemma h_until_kept log h :
  Forall (λ ct, t3 ct.2 < h_until h) log →
  ∃ h', (h_run log (Some h)).2 = Some h' ∧ h_until h' = h_until h.
Proof using Type.
  revert h. induction log as [|[c t] log IH]; intros h Hl; [by exists h|].
  inversion_clear Hl as [|? ? Ht Hl']. cbn in Ht.
  assert (∃ h1, (h_step (c, t) (Some h)).2 = Some h1 ∧ h_until h1 = h_until h) as (h1 & E1 & Eu).
  { assert (h_until (h_hit t h) = h_until h) as Hh.
    { unfold h_hit. cbn. destruct (Z.leb_spec (h_until h) (t3 t)); [lia|]. by rw andb_false_r. }
    destruct c; cbn; try by eexists. destruct (_ && _); [|by eexists]. eexists; split; [done|].
    unfold h_screen. cbn. by destruct (near _ _). }
  cbn [h_run]. destruct (h_step (c, t) (Some h)) as [a o]. cbn in E1. subst o.
  destruct (IH h1) as (h' & E' & Eu'); [by rw Eu|].
  destruct (h_run log (Some h1)) as [l o] eqn:E. cbn in *. exists h'. split; [done|congruence].
Qed.

Lemma h_block t h :
  block_threshold config <= count_from (cutoff (t2 t)) (h_hits h) + 1 →
  t2 t <= t1 t + seconds (window_seconds config) → h_until h <= t3 t →
  h_until (h_hit t h) = t4 t + seconds (block_duration_seconds config).
Proof using Type.
  intros Hn Hwin Hu. unfold h_hit. cbn. rw count_from_app (count_from_all _ [t1 t]).
  - destruct (_ && _) eqn:E; [done|]. apply andb_false_iff in E as [E|E]; apply Z.leb_gt in E; cbn in E; lia.
  - constructor; [unfold cutoff; lia|done].
Qed.

Lemma unblocked_history now t k d h :
  tracks_opt now (shard k d !! k) h → 0 <= now → now <= t2 t → t2 t <= t3 t →
  getAction (t2 t) (t3 t) k d ≠ Block →
  h_until (default no_history h) <= t3 t ∧
  rejectionCount (t2 t) k d = count_from (cutoff (t2 t)) (h_hits (default no_history h)).
Proof using Type.
  unfold getAction, rejectionCount. destruct (shard k d !! k) as [w|], h as [h|]; intros Htr H0 H2 H3 Hfree;
    try done; cbn in *; [|split; [lia|done]].
  split; [|by eapply tracks_count]. destruct Htr as (_ & _ & _ & <- & _). unfold actionFromCount in Hfree.
  destruct (Z.ltb_spec (t3 t) (blocked_until w)); [done|lia].
Qed.

Lemma about_app k log log' : about k (log ++ log') = about k log ++ about k log'.
Proof using Type. apply filter_app. Qed.

(** A rejection that fills the window of a key which is not blocked yet blocks
    it for the whole duration: whatever the requests of this and of other keys
    do meanwhile, every answer for the key is Block until the time is over. *)
Theorem abuse_block log t log' k now t_count t_block :
  clocked now (log ++ (Reject k, t) :: log') → 0 <= now →
  (size (keys_of (log ++ (Reject k, t) :: log')) <= max_keys_per_shard config)%nat →
  block_threshold config <= rejectionCount (t2 t) k (run log ∅).2 + 1 →
  t2 t <= t1 t + seconds (window_seconds config) →
  getAction (t2 t) (t3 t) k (run log ∅).2 ≠ Block →
  ending now (log ++ (Reject k, t) :: log') <= t_block < t4 t + seconds (block_duration_seconds config) →
  getAction t_count t_block k (run (log ++ (Reject k, t) :: log') ∅).2 = Block.
Proof using Type.
  intros Hc H0 HK Hcount Hwin Hfree [Hlo Hhi]. set (K := keys_of _) in HK.
  assert (within K ∅) as Hw by (intros n s; by rw lookup_empty).
  assert (keys_of log ⊆ K) as Hlog.
  { unfold K, keys_of. rw fmap_app list_to_set_app_L. apply union_subseteq_l. }
  pose proof Hc as [Hc1 (H1 & H2 & H3 & H4 & Hc2)]%clocked_app.
  destruct (clocked_before _ _ Hc1) as [Hnow _]. destruct (clocked_before _ _ Hc2) as [Hend Hbefore].
  destruct (run_tracks K now k log ∅ None) as (_ & _ & Htr); [done..|].
  destruct (run_tracks K now k (log ++ (Reject k, t) :: log') ∅ None) as (_ & _ & Hall); [done..|].
  destruct (unblocked_history (ending now log) t k (run log ∅).2 _ Htr) as [Hu Hn]; [lia|lia|done|done|].
  rw Hn in Hcount. pose proof (h_block t _ Hcount Hwin Hu) as HU.
  rw about_app h_run_app in Hall. unfold about in Hall at 1. rw filter_cons_True in Hall; [|done].
  change (filter _ log') with (about k log') in Hall. cbn [h_run h_step] in Hall.
  destruct (h_until_kept (about k log') (h_hit t (default no_history (h_run (about k log) None).2)))
    as (h' & Hh' & Hu').
  { rw HU. apply Forall_forall. intros ct [_ Hct]%list_elem_of_filter.
    pose proof (proj1 (Forall_forall _ _) Hbefore ct Hct) as Ht'. cbn in *.
    unfold ending in Hlo. rw foldl_app in Hlo. cbn in Hlo. unfold ending in Ht'. lia. }
  destruct (h_run (about k log') _) as [l o] eqn:E in Hall, Hh'. cbn in Hh', Hall. subst o.
  unfold getAction. destruct (_ !! k) as [w|] in Hall |- *; [|done].
  destruct Hall as (_ & _ & _ & Hb & _). unfold actionFromCount.
  destruct (Z.ltb_spec t_block (blocked_until w)); [done|lia].
Qed.

(** ** Similar texts *)

Lemma hamming64_refl a : hamming64 a a = 0.
Proof using Type. unfold hamming64, popcount. rw Z.lxor_nilpotent. by vm_compute. Qed.

(** A text that repeats one of the remembered texts counts as a hit. *)
Lemma repeat_near text prints :
  0 <= similarity_hamming_threshold config → simhash64 text ∈ prints → near (simhash64 text) prints = true.
Proof using Type.
  intros Ht Hin. apply existsb_exists. exists (simhash64 text). split; [by apply list_elem_of_In|].
  rw hamming64_refl. by apply Z.leb_le.
Qed.

Lemma add_feature_bound acc feat n :
  Forall (λ a, Z.abs a <= n) acc → Forall (λ a, Z.abs a <= n + 1) (add_feature acc feat).
Proof using Type.
  intros H. apply Forall_lookup. intros i a. unfold add_feature. rw list_lookup_imap.
  destruct (acc !! i) as [a'|] eqn:E; [|done]. intros [= <-].
  pose proof (proj1 (Forall_lookup _ _) H i a' E) as Ha. cbn in Ha. destruct (Z.testbit _ _); lia.
Qed.

(** The 32-bit counters of [simhash64] do not overflow on a text of that size. *)
Lemma simhash_counters text :
  Forall (λ a, Z.abs a <= Z.of_nat (String.length text) + 1)
    (foldl add_feature (replicate 64 0) (features text)).
Proof using Type.
  assert (Z.of_nat (length (features text)) <= Z.of_nat (String.length text) + 1) as Hl.
  { unfold features. case_match; cbn; [lia|]. rw length_fmap length_seq. lia. }
  assert (∀ fs acc n, Forall (λ a, Z.abs a <= n) acc →
    Forall (λ a, Z.abs a <= n + Z.of_nat (length fs)) (foldl add_feature acc fs)) as Hall.
  { induction fs as [|f fs IH]; intros acc n Ha; cbn [foldl length].
    - by rw Z.add_0_r.
    - eapply Forall_impl; [apply IH, add_feature_bound, Ha|]. cbn. lia. }
  eapply Forall_impl; [apply (Hall _ _ 0)|]; [|cbn; lia]. by apply Forall_replicate.
Qed.

End detector.

(** ** A small detector *)

Definition toy_hash (s : string) : Z := 5.
Definition toy_walk (s : Shard) : list (string * SlidingWindow) := map_to_list s.
Definition toy_config : Config :=
  {| window_seconds := 300; warn_threshold := 1; throttle_threshold := 2; block_threshold := 3;
     block_duration_seconds := 1800; max_keys_per_shard := 2; similarity_enabled := true;
     similarity_hamming_threshold := 3; similarity_max_fingerprints := 2;
     similarity_max_content_bytes := 16 |}.
Definition at_second (s : Z) : Times := {| t1 := seconds s; t2 := seconds s; t3 := seconds s; t4 := seconds s |}.

Definition toy_log : list (Call * Times) :=
  [(Screen "a" "hello world", at_second 1); (Screen "a" "hello world", at_second 2);
   (Reject "b", at_second 3); (Ask "a", at_second 4); (Reject "a", at_second 5);
   (Reject "a", at_second 400); (Count "a", at_second 401); (Ask "b", at_second 402)].

Lemma toy_answers : (h_run toy_config (about "a" toy_log) None).1 = [Done; Done; Acts Warn; Done; Done; Number 1].
Proof. vm_compute. reflexivity. Qed.

Lemma abuse_refines_witness :
  told "a" (run toy_hash toy_walk toy_config toy_log ∅).1 = [Done; Done; Acts Warn; Done; Done; Number 1].
Proof.
  etransitivity; [apply (abuse_refines toy_hash toy_walk toy_config toy_log "a" 0)|exact toy_answers].
  - vm_compute. by split_and!.
  - vm_compute. lia.
Defined.

Definition toy_before : list (Call * Times) := [(Reject "a", at_second 1); (Reject "a", at_second 2)].
Definition toy_after : list (Call * Times) := [(Screen "b" "hello", at_second 900); (Reject "a", at_second 901)].

Lemma abuse_block_witness :
  getAction toy_hash toy_config (seconds 1000) (seconds 1000) "a"
    (run toy_hash toy_walk toy_config (toy_before ++ (Reject "a", at_second 3) :: toy_after) ∅).2 = Block.
Proof.
  apply (abuse_block toy_hash toy_walk toy_config toy_before (at_second 3) toy_after "a" 0); vm_compute;
    first [done|by split_and!|lia].
Defined.

(** ** Limits of the detector *)

(** Room for a new key is made without a look at [blocked_until]: two requests
    with new keys let a blocked key in again. *)
Lemma block_evicted :
  let log := toy_before ++ [(Reject "a", at_second 3)] in
  getAction toy_hash toy_config (seconds 10) (seconds 10) "a" (run toy_hash toy_walk toy_config log ∅).2 = Block ∧
  getAction toy_hash toy_config (seconds 10) (seconds 10) "a"
    (run toy_hash toy_walk toy_config (log ++ [(Reject "b", at_second 4); (Reject "c", at_second 5)]) ∅).2 = Allow.
Proof. vm_compute. by split. Qed.

(** The empty text as the name of the oldest key also means that none was
    found: once the requests without a key are the oldest, the shard grows past
    its limit. *)
Lemma anonymous_pins_shard :
  size (shard toy_hash "" (run toy_hash toy_walk toy_config
    [(Reject "", at_second 1); (Reject "a", at_second 2); (Reject "b", at_second 3);
     (Reject "c", at_second 4)] ∅).2) = 4%nat.
Proof. vm_compute. reflexivity. Qed.

End AbuseDetector.
