(* ===== verification/Pipeline.v ===== *)
(** * Pipeline: the context of a request and the stages it runs through

    Models [src/src/core/context.h], [src/src/core/pipeline.cpp] and
    [src/src/observe/token_estimator.cpp].  A stage is known by its name; what
    it does with the context is a call of the program the pipeline runs in, and
    [None] is an exception that leaves the stage. *)
From Corelib Require Import PrimFloat.
From S2P Require Import Prelude.
From S2P Require Import Prog.
From S2P Require Import Json.
From S2P Require Import Identity.
From S2P Require Import ChatTypes.
Import Json ChatTypes.
Local Open Scope Z_scope.

Module Pipeline.

(** ** The context *)

(** [X] holds the members that only the stages use. *)
Record RequestContext (X : Type) := {
  x_request_id : string;
  x_api_key : string;
  x_tenant_id : string;
  x_chat_request : ChatRequest;
  x_target_model : string;
  x_cache_hit : bool;
  x_cached_response : string;
  x_token_usage : TokenUsage;
  x_start_time : Z;
  x_accumulated_response : string;
  x_stream_model : string;
  x_is_streaming : bool;
  x_chunk_output : string;
  x_auth_context : option AuthContext;
  x_ab_experiment : string;
  x_ab_variant : string;
  x_normalized_messages : list string;
  x_input_preprocessed : bool;
  x_image_scan_messages : list string;
  x_tokens_estimated : Z;
  x_tokens_saved_compression : Z;
  x_accumulated_tool_calls : json;
  x_has_tools : bool;
  x_stream_rejected : bool;
  x_reject_stage : string;
  x_response_headers : gmap string string;
  x_request_headers : gmap string string;
  x_rest : X;
}.
Arguments x_request_id {X}.
Arguments x_api_key {X}.
Arguments x_tenant_id {X}.
Arguments x_chat_request {X}.
Arguments x_target_model {X}.
Arguments x_cache_hit {X}.
Arguments x_cached_response {X}.
Arguments x_token_usage {X}.
Arguments x_start_time {X}.
Arguments x_accumulated_response {X}.
Arguments x_stream_model {X}.
Arguments x_is_streaming {X}.
Arguments x_chunk_output {X}.
Arguments x_auth_context {X}.
Arguments x_ab_experiment {X}.
Arguments x_ab_variant {X}.
Arguments x_normalized_messages {X}.
Arguments x_input_preprocessed {X}.
Arguments x_image_scan_messages {X}.
Arguments x_tokens_estimated {X}.
Arguments x_tokens_saved_compression {X}.
Arguments x_accumulated_tool_calls {X}.
Arguments x_has_tools {X}.
Arguments x_stream_rejected {X}.
Arguments x_reject_stage {X}.
Arguments x_response_headers {X}.
Arguments x_request_headers {X}.
Arguments x_rest {X}.

#[global] Instance context_settable {X} : Settable (RequestContext X) := λ c,
  {| x_request_id := x_request_id c; x_api_key := x_api_key c; x_tenant_id := x_tenant_id c;
     x_chat_request := x_chat_request c; x_target_model := x_target_model c;
     x_cache_hit := x_cache_hit c; x_cached_response := x_cached_response c;
     x_token_usage := x_token_usage c; x_start_time := x_start_time c;
     x_accumulated_response := x_accumulated_response c; x_stream_model := x_stream_model c;
     x_is_streaming := x_is_streaming c; x_chunk_output := x_chunk_output c;
     x_auth_context := x_auth_context c; x_ab_experiment := x_ab_experiment c;
     x_ab_variant := x_ab_variant c; x_normalized_messages := x_normalized_messages c;
     x_input_preprocessed := x_input_preprocessed c;
     x_image_scan_messages := x_image_scan_messages c;
     x_tokens_estimated := x_tokens_estimated c;
     x_tokens_saved_compression := x_tokens_saved_compression c;
     x_accumulated_tool_calls := x_accumulated_tool_calls c; x_has_tools := x_has_tools c;
     x_stream_rejected := x_stream_rejected c; x_reject_stage := x_reject_stage c;
     x_response_headers := x_response_headers c; x_request_headers := x_request_headers c;
     x_rest := x_rest c |}.

(** [scanText(i)]; [None] is an index out of range. *)
Definition scanText {X} (c : RequestContext X) (i : nat) : option string :=
  if x_input_preprocessed c &&
     bool_decide (length (x_normalized_messages c) = length (cr_messages (x_chat_request c)))
  then x_normalized_messages c !! i
  else m_content <$> cr_messages (x_chat_request c) !! i.

Definition scanImageText {X} (c : RequestContext X) (i : nat) : option string :=
  if x_input_preprocessed c &&
     bool_decide (length (x_image_scan_messages c) = length (cr_messages (x_chat_request c)))
  then x_image_scan_messages c !! i
  else
    msg ← cr_messages (x_chat_request c) !! i;
    extractImageRefText (m_content_parts msg) kDefaultImageScanDecodeBytes.

(** ** The pipeline *)

Inductive StageResult := Continue | ShortCircuit | Reject | StageError.
Inductive PipelineResult := Success | Rejected | PipelineError | ShortCircuited.
#[global] Instance StageResult_eq_dec : EqDecision StageResult.
Proof. solve_decision. Defined.
#[global] Instance PipelineResult_eq_dec : EqDecision PipelineResult.
Proof. solve_decision. Defined.

Section pipeline.
Context {E : Type → Type} {X : Type}.
Notation Ctx := (RequestContext X).

(** What one stage does with the context, and with a chunk of a stream. *)
Variable process : string → Ctx → prog E (option (StageResult * Ctx)).
Variable processChunk : string → Ctx → string → prog E (option (StageResult * Ctx)).

Fixpoint execute (stages : list string) (ctx : Ctx) : prog E (option (PipelineResult * Ctx)) :=
  match stages with
  | [] => Ret (Some (Success, ctx))
  | stage :: stages =>
      r ← process stage ctx;
      match r with
      | None => Ret None
      | Some (Continue, ctx) => execute stages ctx
      | Some (ShortCircuit, ctx) => Ret (Some (ShortCircuited, ctx))
      | Some (Reject, ctx) => Ret (Some (Rejected, ctx <| x_reject_stage := stage |>))
      | Some (StageError, ctx) => Ret (Some (PipelineError, ctx))
      end
  end.

(** The chunk as the stages leave it; a stage that writes nothing into
    [chunk_output] leaves it as it is. *)
Fixpoint executeChunk (stages : list string) (ctx : Ctx) (current : string) :
    prog E (option (PipelineResult * string * Ctx)) :=
  match stages with
  | [] => Ret (Some (Success, current, ctx))
  | stage :: stages =>
      r ← processChunk stage (ctx <| x_chunk_output := "" |>) current;
      match r with
      | None => Ret None
      | Some (Continue, ctx) =>
          executeChunk stages ctx
            (if str_empty (x_chunk_output ctx) then current else x_chunk_output ctx)
      | Some (Reject, ctx) => Ret (Some (Rejected, "", ctx))
      | Some (ShortCircuit, ctx) => Ret (Some (ShortCircuited, current, ctx))
      | Some (StageError, ctx) => Ret (Some (PipelineError, "", ctx))
      end
  end.

End pipeline.

(** ** Token estimates *)

(** The code point at the front of some bytes and the bytes it takes. *)
Definition code_point (l : list Z) : Z * nat :=
  match l with
  | [] => (0, 1%nat)
  | p :: l =>
      if p <? 0x80 then (p, 1%nat)
      else match l with
           | p1 :: l =>
               if Z.land p 0xE0 =? 0xC0 then
                 (Z.lor (Z.shiftl (Z.land p 0x1F) 6) (Z.land p1 0x3F), 2%nat)
               else match l with
                    | p2 :: l =>
                        if Z.land p 0xF0 =? 0xE0 then
                          (Z.lor (Z.lor (Z.shiftl (Z.land p 0x0F) 12)
                                        (Z.shiftl (Z.land p1 0x3F) 6)) (Z.land p2 0x3F), 3%nat)
                        else match l with
                             | p3 :: _ =>
                                 if Z.land p 0xF8 =? 0xF0 then
                                   (Z.lor (Z.lor (Z.lor (Z.shiftl (Z.land p 0x07) 18)
                                                        (Z.shiftl (Z.land p1 0x3F) 12))
                                                 (Z.shiftl (Z.land p2 0x3F) 6))
                                          (Z.land p3 0x3F), 4%nat)
                                 else (0, 1%nat)
                             | [] => (0, 1%nat)
                             end
                    | [] => (0, 1%nat)
                    end
           | [] => (0, 1%nat)
           end
  end.

Definition is_cjk (cp : Z) : bool :=
  existsb (λ r : Z * Z, (r.1 <=? cp) && (cp <=? r.2))
    [(0x4E00, 0x9FFF); (0x3400, 0x4DBF); (0x20000, 0x2A6DF); (0x3000, 0x303F);
     (0xFF00, 0xFFEF); (0xAC00, 0xD7AF); (0x3040, 0x309F); (0x30A0, 0x30FF)].

(** The counters [cjk_chars] and [total_chars]; [skip] bytes belong to the
    code point before. *)
Fixpoint count_chars (skip : nat) (l : list Z) (cjk total : Z) : Z * Z :=
  match l with
  | [] => (cjk, total)
  | b :: l' =>
      match skip with
      | S skip => count_chars skip l' cjk total
      | O =>
          let '(cp, len) := code_point l in
          count_chars (len - 1) l' (if is_cjk cp then cjk + 1 else cjk) (total + 1)
      end
  end.

Definition chineseRatio (text : string) : float :=
  if str_empty text then 0%float
  else
    let '(cjk, total) := count_chars 0 (bytes_of text) 0 0 in
    if 0 <? total then (int_to_double cjk / int_to_double total)%float else 0%float.

Definition kEnglishCharsPerToken : float := 4.0.
Definition kChineseCharsPerToken : float := 1.5.
Definition kPerMessageOverhead : Z := 4.

Definition estimateTokens (text : string) : Z :=
  if str_empty text then 0
  else
    let cjk_ratio := chineseRatio text in
    let avg := (cjk_ratio * kChineseCharsPerToken +
                (1 - cjk_ratio) * kEnglishCharsPerToken)%float in
    Z.max 1 (to_int (double_trunc (int_to_double (Z.of_nat (String.length text)) / avg)%float)).

Definition estimateMessages (messages : list Message) : Z :=
  foldl (λ total msg, total + (estimateTokens (m_content msg) + kPerMessageOverhead) +
                      estimateTokens (m_role msg)) 0 messages + 3.

End Pipeline.
