(* ===== verification/SemanticCache.v ===== *)
(** * SemanticCache: cached answers by similarity

    Models [src/src/cache/semantic_cache.cpp] with the key derivation of
    [conversation_id_resolver.cpp] and the summaries of
    [rule_based_summarizer.cpp] and [composite_summarizer.cpp].  A method is a
    program: a critical section of the cache's mutex is one atomic call, and
    the calls of the vector store lie outside of it, as in the code, so the
    theorems hold of every interleaving.  The embedder, the vector store,
    SHA-256 and the JSON text are parameters. *)
From Corelib Require Import PrimFloat SpecFloat.
From stdpp Require Import pretty.
From S2P Require Import Prelude.
From S2P Require Import Prog.
From S2P Require Import Json.
From S2P Require Import ErrorCodes.
From S2P Require Import ChatTypes.
From S2P Require Import Pipeline.
Import Json ErrorCodes ChatTypes Pipeline.
Local Open Scope Z_scope.

Module SemanticCache.

(** ** [float] *)

Notation float32 := spec_float.
Definition f32 (z : Z) : float32 := binary_normalize 24 128 z 0 false.
Definition f32_add : float32 → float32 → float32 := SFadd 24 128.
Definition f32_sub : float32 → float32 → float32 := SFsub 24 128.
Definition f32_mul : float32 → float32 → float32 := SFmul 24 128.
Definition f32_div : float32 → float32 → float32 := SFdiv 24 128.
(** The literal [n/d f]. *)
Definition f32_lit (n d : Z) : float32 := f32_div (f32 n) (f32 d).
(** [std::max] and [std::min]. *)
Definition f32_max (a b : float32) : float32 := if SFltb a b then b else a.
Definition f32_min (a b : float32) : float32 := if SFltb b a then b else a.

(** ** Data *)

Inductive ConversationHashMode := HashNone | HashFull | HashWindow.

Record ConversationHashConfig := {
  hash_mode : ConversationHashMode;
  hash_window : nat;
}.

Record CacheEntry := {
  e_id : string;
  e_prompt : string;
  e_response : string;
  e_model : string;
  e_partition_key : string;
  e_created_at : Z;
  e_last_accessed : Z;
}.

#[global] Instance entry_settable : Settable CacheEntry := λ e,
  {| e_id := e_id e; e_prompt := e_prompt e; e_response := e_response e; e_model := e_model e;
     e_partition_key := e_partition_key e; e_created_at := e_created_at e;
     e_last_accessed := e_last_accessed e |}.

Record CacheHit := {
  hit_response : string;
  hit_prompt : string;
  hit_similarity : float32;
}.

Record CacheKeyInfo := {
  k_partition_key : string;
  k_prompt : string;
  k_conversation_hash : string;
}.

Record AdaptiveThresholdConfig := {
  ad_enabled : bool;
  ad_min_threshold : float32;
  ad_max_threshold : float32;
  ad_adjustment_rate : float32;
  ad_window_size : nat;
  ad_target_low : float32;
  ad_target_high : float32;
}.

Record CachePolicy := {
  po_enabled : bool;
  po_skip_models : list string;
  po_max_temperature : float;
  po_skip_streaming : bool;
}.

Record QueryPattern := {
  qp_prompt : string;
  qp_frequency : Z;
  qp_last_seen : Z;
}.

Record CrossTenantConfig := {
  ct_enabled : bool;
  ct_min_similarity : float32;
}.

(** [lru_list_] is a list of nodes; [lru_map_] points at the node of an id. *)
Record Cache := {
  c_threshold : float32;
  c_entries : gmap string CacheEntry;
  c_lru_list : list (nat * string);
  c_lru_map : gmap string nat;
  c_next_node : nat;
  c_seq_counter : Z;
  c_put_counter : Z;
  c_hits : Z;
  c_misses : Z;
  c_puts : Z;
  c_hit_exact : Z;
  c_hit_semantic : Z;
  c_hit_conversation : Z;
  c_hit_window : list bool;
  c_similarity_window : list float32;
  c_feedback : list float;
  c_patterns : gmap string QueryPattern;
}.

#[global] Instance cache_settable : Settable Cache := λ c,
  {| c_threshold := c_threshold c; c_entries := c_entries c; c_lru_list := c_lru_list c;
     c_lru_map := c_lru_map c; c_next_node := c_next_node c; c_seq_counter := c_seq_counter c;
     c_put_counter := c_put_counter c; c_hits := c_hits c; c_misses := c_misses c;
     c_puts := c_puts c; c_hit_exact := c_hit_exact c; c_hit_semantic := c_hit_semantic c;
     c_hit_conversation := c_hit_conversation c; c_hit_window := c_hit_window c;
     c_similarity_window := c_similarity_window c; c_feedback := c_feedback c;
     c_patterns := c_patterns c |}.

Record CacheStats := {
  s_hit_count : Z;
  s_miss_count : Z;
  s_put_count : Z;
  s_entry_count : Z;
  s_hit_rate : float32;
  s_current_threshold : float32;
  s_hit_exact : Z;
  s_hit_semantic : Z;
  s_hit_conversation : Z;
}.

(** What the setters of the class fix; [sc_store] tells whether a cache store
    is set. *)
Record ScConfig := {
  sc_ttl : Z;           (** seconds *)
  sc_max_entries : Z;
  sc_store : bool;
  sc_context_aware : bool;
  sc_hash : ConversationHashConfig;
  sc_policy : CachePolicy;
  sc_adaptive : AdaptiveThresholdConfig;
  sc_cross_tenant : CrossTenantConfig;
}.

(** The clock counts nanoseconds. *)
Definition second : Z := 10 ^ 9.

Definition kEvictInterval : Z := 100.
Definition kMaxFeedbackWindow : nat := 1000.
Definition kMaxQueryPatterns : nat := 1000.
Definition kMaxWarmUpValueSize : Z := 1024 * 1024.
Definition kCacheKeyPrefix : string := "sc:".
Definition kMaxIdLen : nat := 256.

(** ** Calls *)

(** The persisted copies, by store key. *)
Notation Store := (gmap string string).

Inductive ScCmd (V : Type) : Type → Type :=
| Search (partition_key : string) (query : V) (threshold : float32) :
    ScCmd V (list (string * float32))
| SearchAllPartitions (query : V) (threshold : float32) : ScCmd V (list (string * float32))
| VInsert (partition_key id : string) (vec : V) : ScCmd V bool
| VRemove (partition_key id : string) : ScCmd V unit
| StoreKeys (limit : Z) : ScCmd V (list string)
| StoreGet (key : string) : ScCmd V (option string)
| IncMetric (name : string) : ScCmd V unit
| Locked {B} (f : Z → Cache → Store → B * (Cache * Store)) : ScCmd V B.
Arguments Search {V}.
Arguments SearchAllPartitions {V}.
Arguments VInsert {V}.
Arguments VRemove {V}.
Arguments StoreKeys {V}.
Arguments StoreGet {V}.
Arguments IncMetric {V}.
Arguments Locked {V B}.

(** ** Keys *)

Definition us : string := String "031"%char "".
Definition rs : string := String "030"%char "".
Definition gs : string := String "029"%char "".

Definition printable (c : Ascii.ascii) : bool :=
  (32 <=? byte_of c) && negb (byte_of c =? 127).

Definition sanitizeClientId (raw : string) : string :=
  String.string_of_list_ascii (take kMaxIdLen (List.filter printable (String.list_ascii_of_string raw))).

(** The messages before a trailing message of the user. *)
Definition context_messages (msgs : list Message) : list Message :=
  match last msgs with
  | Some m => if decide (m_role m = "user") then removelast msgs else msgs
  | None => msgs
  end.

Definition history_text (msgs : list Message) : string :=
  foldl (λ s m, s +:+ m_role m +:+ us +:+ m_content m +:+ rs) "" msgs.

Section keys.
Context (sha256 : string → string) (hash : string → Z).

Definition hashHistory (msgs : list Message) : string :=
  "hist-" +:+ String.substring 0 32 (sha256 (history_text (context_messages msgs))).

Definition firstTurnId (msgs : list Message) : string :=
  match last msgs with
  | None => ""
  | Some m => "first-" +:+ String.substring 0 32 (sha256 (m_role m +:+ ":" +:+ m_content m))
  end.

Definition client_id (req : ChatRequest) : string :=
  match cr_metadata req ≫= map_find "conversation_id" with
  | Some id => sanitizeClientId id
  | None => ""
  end.

Definition resolve (req : ChatRequest) : string :=
  match cr_messages req with
  | [] => ""
  | [_] => if str_empty (client_id req) then firstTurnId (cr_messages req) else client_id req
  | _ => if str_empty (client_id req) then hashHistory (cr_messages req) else client_id req
  end.

Definition makeNamespace (model : string) : string := "ns_" +:+ to_string (hash model).
Definition makeEntryId (ns : string) (seq : Z) : string := ns +:+ "_" +:+ to_string seq.

Definition last_user (msgs : list Message) : string :=
  from_option m_content "" (head (List.filter (λ m, bool_decide (m_role m = "user")) (rev msgs))).

Definition extractCacheKey : list Message → string := last_user.

(** The first prompt of the user that is not empty, from the end. *)
Definition last_prompt (msgs : list Message) : string :=
  from_option m_content "" (head (List.filter (λ m, bool_decide (m_role m = "user") &&
    negb (str_empty (m_content m))) (rev msgs))).

Definition first_system (msgs : list Message) : option Message :=
  head (List.filter (λ m, bool_decide (m_role m = "system") && negb (str_empty (m_content m))) msgs).

Definition mix (combined : Z) (s : string) : Z :=
  Z.lxor combined (u64 (hash s + 0x9e3779b9 + u64 (Z.shiftl combined 6) + Z.shiftr combined 2)).

Definition combine (combined : Z) (m : Message) : Z := mix (mix combined (m_role m)) (m_content m).

Definition computeConversationHash (messages : list Message) (config : ConversationHashConfig) : string :=
  if (length messages <=? 1)%nat then "" else
  let context := take (length messages - 1) messages in
  match hash_mode config with
  | HashNone => ""
  | HashFull => "conv_" +:+ to_string (foldl combine 0 context)
  | HashWindow =>
      let window := (hash_window config `min` length context)%nat in
      "conv_" +:+ to_string (foldl combine 0 (drop (length context - window) context))
  end.

Definition extractCacheKeyInfo (cfg : ScConfig) (messages : list Message) : CacheKeyInfo :=
  let sys := if sc_context_aware cfg
    then from_option (λ m, "sys_" +:+ to_string (hash (m_content m))) "" (first_system messages)
    else "" in
  let conv := computeConversationHash messages (sc_hash cfg) in
  {| k_partition_key := if str_empty conv then sys
                        else if str_empty sys then conv else sys +:+ "|" +:+ conv;
     k_prompt := last_prompt messages; k_conversation_hash := conv |}.

Definition computeConversationHashV2 (messages : list Message) (config : ConversationHashConfig)
    (summarizer : option (list Message → string)) : string :=
  let context := context_messages messages in
  match hash_mode config, context with
  | HashNone, _ | _, [] => ""
  | mode, _ =>
      let ctx := match mode with
        | HashWindow => drop (length context - (hash_window config `min` length context)) context
        | _ => context
        end in
      let summary := from_option (λ f, f ctx) "" summarizer in
      sha256 (history_text ctx +:+
              (if str_empty summary then "" else gs +:+ "|summary|" +:+ summary))
  end.

(** What the partition of a request is hashed from. *)
Definition key_blob (tenant_id conversation_id sys_hash conversation_hash : string) : string :=
  tenant_id +:+ us +:+ conversation_id +:+ us +:+ sys_hash +:+ us +:+ conversation_hash.

Definition extractCacheKeyInfoV2 (cfg : ScConfig) (messages : list Message)
    (tenant_id conversation_id : string) (summarizer : option (list Message → string)) :
    CacheKeyInfo :=
  match messages with
  | [] => {| k_partition_key := ""; k_prompt := ""; k_conversation_hash := "" |}
  | _ =>
      let sys_hash := from_option (λ m, sha256 (m_content m)) "" (first_system messages) in
      let conv := computeConversationHashV2 messages (sc_hash cfg) summarizer in
      {| k_partition_key := sha256 (key_blob tenant_id conversation_id sys_hash conv);
         k_prompt := last_user messages; k_conversation_hash := conv |}
  end.

End keys.

(** ** The least recently used list *)

(** [lru_list_.erase(node)]. *)
Definition erase_node (n : nat) (l : list (nat * string)) : list (nat * string) :=
  List.filter (λ p, negb (p.1 =? n)%nat) l.

Definition lru_drop (id : string) (c : Cache) : Cache :=
  match c_lru_map c !! id with
  | Some n => c <| c_lru_list := erase_node n (c_lru_list c) |>
                <| c_lru_map := delete id (c_lru_map c) |>
  | None => c
  end.

(** [push_front] and the pointer to it. *)
Definition lru_push_front (id : string) (c : Cache) : Cache :=
  c <| c_lru_list := (c_next_node c, id) :: c_lru_list c |>
    <| c_lru_map := <[id := c_next_node c]> (c_lru_map c) |>
    <| c_next_node := S (c_next_node c) |>.

Definition lru_push_back (id : string) (c : Cache) : Cache :=
  c <| c_lru_list := c_lru_list c ++ [(c_next_node c, id)] |>
    <| c_lru_map := <[id := c_next_node c]> (c_lru_map c) |>
    <| c_next_node := S (c_next_node c) |>.

Definition lru_touch (id : string) (c : Cache) : Cache :=
  match c_lru_map c !! id with
  | Some n => lru_push_front id (c <| c_lru_list := erase_node n (c_lru_list c) |>)
  | None => c
  end.

Definition drop_entry (id : string) (c : Cache) : Cache :=
  lru_drop id c <| c_entries := delete id (c_entries c) |>.

(** ** The cache *)

Section cache.
Context `{UnorderedIter} {V : Type} (embed : string → V) (sha256 : string → string) (hash : string → Z).
Context (dump : json → option string) (parse : string → option json).
Context (cfg : ScConfig) (summarizer : option (list Message → string))
  (resolver : option (ChatRequest → string)).
Notation sc := (prog (ScCmd V)).

(** A critical section that does not use the cache store. *)
Definition locked {B} (f : Z → Cache → B * Cache) : ScCmd V B :=
  Locked (λ now c s, let '(b, c) := f now c in (b, (c, s))).

Definition update (f : Cache → Cache) : ScCmd V unit := locked (λ _ c, (tt, f c)).

Definition expired (now : Z) (e : CacheEntry) : bool := sc_ttl cfg * second <? now - e_created_at e.

Definition other_model (model : string) (e : CacheEntry) : bool :=
  negb (str_empty model) && negb (str_empty (e_model e)) && negb (bool_decide (e_model e = model)).

(** ** Adaptive threshold *)

Definition computeP50 (c : Cache) : float32 :=
  default (f32 0) (std_sort SFltb (c_similarity_window c) !! (length (c_similarity_window c) / 2)%nat).

Definition maybeAdjustThreshold (c : Cache) : Cache :=
  let a := sc_adaptive cfg in
  let hits := length (List.filter id (c_hit_window c)) in
  let hit_rate := f32_div (f32 (Z.of_nat hits)) (f32 (Z.of_nat (length (c_hit_window c)))) in
  let p50_sim := computeP50 c in
  let thr := c_threshold c in
  let thr :=
    if SFltb hit_rate (ad_target_low a) && SFltb (f32_mul thr (f32_lit 9 10)) p50_sim
    then f32_max (ad_min_threshold a) (f32_sub thr (ad_adjustment_rate a))
    else if SFltb (ad_target_high a) hit_rate && SFltb p50_sim (f32_mul thr (f32_lit 105 100))
    then f32_min (ad_max_threshold a) (f32_add thr (f32_mul (ad_adjustment_rate a) (f32_lit 1 2)))
    else thr in
  c <| c_threshold := thr |> <| c_hit_window := [] |> <| c_similarity_window := [] |>.

(** The last [n] elements. *)
Definition keep_last {A} (n : nat) (l : list A) : list A := drop (length l - n) l.

Definition recordHitMiss (is_hit : bool) (max_similarity : float32) : sc unit :=
  if ad_enabled (sc_adaptive cfg) then
    call (update (λ c,
      let n := ad_window_size (sc_adaptive cfg) in
      let c := c <| c_hit_window := keep_last n (c_hit_window c ++ [is_hit]) |>
                 <| c_similarity_window := keep_last n (c_similarity_window c ++ [max_similarity]) |> in
      if (length (c_hit_window c) =? n)%nat then maybeAdjustThreshold c else c))
  else Ret tt.

(** ** Reading *)

Inductive HitType := HitExact | HitSemantic | HitConversation.

Definition classifyHitType (max_similarity : float32) (conversation_scoped : bool) : HitType :=
  if conversation_scoped then HitConversation
  else if SFleb (f32_lit 9999 10000) max_similarity then HitExact
  else HitSemantic.

Definition count_hit (t : HitType) (c : Cache) : Cache :=
  match t with
  | HitExact => c <| c_hit_exact := c_hit_exact c + 1 |>
  | HitSemantic => c <| c_hit_semantic := c_hit_semantic c + 1 |>
  | HitConversation => c <| c_hit_conversation := c_hit_conversation c + 1 |>
  end.

Definition getCrossTenant (prompt model : string) : sc (option CacheHit) :=
  results ← call (SearchAllPartitions (embed prompt) (ct_min_similarity (sc_cross_tenant cfg)));
  match results with
  | [] => Ret None
  | (id, score) :: _ =>
      hit ← call (locked (λ now c,
        (match c_entries c !! id with
         | Some e => if expired now e || other_model model e then None
                     else Some {| hit_response := e_response e; hit_prompt := e_prompt e;
                                  hit_similarity := score |}
         | None => None
         end, c)));
      when_ (bool_decide (is_Some hit)) (call (IncMetric "crossTenantCacheHitsTotal"));;
      Ret hit
  end.

Inductive Found := Hit (h : CacheHit) | Expired | Miss.

(** What a found id is worth, in one critical section. *)
Definition examine (id : string) (score : float32) (model partition_key : string) (now : Z) (c : Cache) :
    Found * Cache :=
  match c_entries c !! id with
  | None => (Miss, c)
  | Some e =>
      if expired now e then (Expired, drop_entry id c)
      else if other_model model e then (Miss, c)
      else if negb (bool_decide (e_partition_key e = partition_key)) then (Miss, c)
      else
        (Hit {| hit_response := e_response e; hit_prompt := e_prompt e; hit_similarity := score |},
         let c := lru_touch id c in
         c <| c_entries := <[id := e <| e_last_accessed := now |>]> (c_entries c) |>)
  end.

Definition get (prompt model partition_key : string) (conversation_scoped : bool) :
    sc (option CacheHit) :=
  threshold ← call (locked (λ _ c, (c_threshold c, c)));
  results ← call (Search partition_key (embed prompt) threshold);
  match results with
  | [] =>
      call (update (λ c, c <| c_misses := c_misses c + 1 |>));;
      recordHitMiss false (f32 0);;
      if ct_enabled (sc_cross_tenant cfg) then getCrossTenant prompt model else Ret None
  | (id, score) :: _ =>
      found ← call (locked (examine id score model partition_key));
      when_ (match found with Expired => negb (str_empty id) | _ => false end)
        (call (VRemove partition_key id));;
      match found with
      | Hit h =>
          call (update (λ c, c <| c_hits := c_hits c + 1 |>));;
          call (update (count_hit (classifyHitType score conversation_scoped)));;
          recordHitMiss true score;;
          Ret (Some h)
      | _ =>
          call (update (λ c, c <| c_misses := c_misses c + 1 |>));;
          recordHitMiss false score;;
          if ct_enabled (sc_cross_tenant cfg) then getCrossTenant prompt model else Ret None
      end
  end.

(** ** Writing *)

Definition partitions_of (l : list (string * CacheEntry)) : list (string * string) :=
  (λ p, (p.1, e_partition_key p.2)) <$> l.

(** The expired entries leave the cache; what is to be removed from the vector
    store is returned. *)
Definition evictExpiredLocked (now : Z) (c : Cache) : list (string * string) * Cache :=
  let old := List.filter (λ p, expired now p.2) (iter (c_entries c)) in
  (partitions_of old, foldl (λ c p, drop_entry p.1 c) c old).

Definition evictLRU (c : Cache) : list (string * string) * Cache :=
  match last (c_lru_list c) with
  | None => ([], c)
  | Some (_, id) =>
      ([(id, from_option e_partition_key "" (c_entries c !! id))],
       c <| c_lru_list := removelast (c_lru_list c) |>
         <| c_entries := delete id (c_entries c) |>
         <| c_lru_map := delete id (c_lru_map c) |>)
  end.

Definition cache_size (c : Cache) : Z := Z.of_nat (size (c_entries c)).

(** The first critical section of [put]: eviction and a fresh id. *)
Definition make_room (ns : string) (now : Z) (c : Cache) : (string * list (string * string)) * Cache :=
  let c := c <| c_put_counter := c_put_counter c + 1 |> in
  let '(removed, c) := if c_put_counter c mod kEvictInterval =? 0 then evictExpiredLocked now c
                       else ([], c) in
  let '(removed', c) := if sc_max_entries cfg <=? cache_size c then evictLRU c else ([], c) in
  ((makeEntryId ns (c_seq_counter c), removed ++ removed'),
   c <| c_seq_counter := u64 (c_seq_counter c + 1) |>).

Definition entry_json (e : CacheEntry) : json :=
  json_of_list [("id", JString (e_id e)); ("prompt", JString (e_prompt e));
                ("response", JString (e_response e)); ("model", JString (e_model e));
                ("partition_key", JString (e_partition_key e))].

(** An entry whose text is not UTF-8 is not persisted. *)
Definition persistEntry (id : string) (e : CacheEntry) (s : Store) : Store :=
  if sc_store cfg then
    match dump (entry_json e) with
    | Some text => <[kCacheKeyPrefix +:+ id := text]> s
    | None => s
    end
  else s.

(** The last critical section of [put]. *)
Definition commit (id prompt response model partition_key : string) (now : Z) (c : Cache) (s : Store) :
    unit * (Cache * Store) :=
  let e := {| e_id := id; e_prompt := prompt; e_response := response; e_model := model;
              e_partition_key := partition_key; e_created_at := now; e_last_accessed := now |} in
  (tt, (lru_push_front id (c <| c_entries := <[id := e]> (c_entries c) |>), persistEntry id e s)).

Definition remove_all : list (string * string) → sc unit := for_each (λ p, call (VRemove p.2 p.1)).

Definition put (prompt response model partition_key : string) : sc unit :=
  call (update (λ c, c <| c_puts := c_puts c + 1 |>));;
  '(id, removed) ← call (locked (make_room (makeNamespace hash model)));
  remove_all removed;;
  inserted ← call (VInsert partition_key id (embed prompt));
  if (inserted : bool) then call (Locked (commit id prompt response model partition_key)) else Ret tt.

Definition putFromContext (messages : list Message) (response model tenant_id conversation_id : string) :
    sc unit :=
  if po_enabled (sc_policy cfg) && existsb (String.eqb model) (po_skip_models (sc_policy cfg))
  then Ret tt
  else
    let info := extractCacheKeyInfoV2 sha256 cfg messages tenant_id conversation_id summarizer in
    if str_empty (k_prompt info) then Ret tt
    else put (k_prompt info) response model (k_partition_key info).

(** ** The rest of the class *)

Definition clear : sc unit :=
  ids ← call (locked (λ _ c,
    (partitions_of (iter (c_entries c)),
     c <| c_entries := ∅ |> <| c_lru_list := [] |> <| c_lru_map := ∅ |>)));
  remove_all ids.

Definition evictExpired : sc unit :=
  ids ← call (locked evictExpiredLocked);
  remove_all ids.

Definition getStats : sc CacheStats :=
  call (locked (λ _ c,
    let total := c_hits c + c_misses c in
    ({| s_hit_count := c_hits c; s_miss_count := c_misses c; s_put_count := c_puts c;
        s_entry_count := cache_size c;
        s_hit_rate := if 0 <? total then f32_div (f32 (c_hits c)) (f32 total) else f32 0;
        s_current_threshold := c_threshold c; s_hit_exact := c_hit_exact c;
        s_hit_semantic := c_hit_semantic c; s_hit_conversation := c_hit_conversation c |}, c))).

(** What a persisted text holds: id, prompt, response, model, partition. *)
Definition persisted (text : string) : option CacheEntry :=
  j ← parse text;
  id ← string_or "" "id" j;
  prompt ← string_or "" "prompt" j;
  response ← string_or "" "response" j;
  model ← string_or "" "model" j;
  pk ← string_or "" "partition_key" j;
  if str_empty id || str_empty prompt then None
  else Some {| e_id := id; e_prompt := prompt; e_response := response; e_model := model;
               e_partition_key := pk; e_created_at := 0; e_last_accessed := 0 |}.

Definition adopt (e : CacheEntry) (now : Z) (c : Cache) : bool * Cache :=
  match c_entries c !! e_id e with
  | Some _ => (false, c)
  | None =>
      if cache_size c <? sc_max_entries cfg then
        (true, lru_push_back (e_id e)
          (c <| c_entries := <[e_id e := e <| e_created_at := now |> <| e_last_accessed := now |>]>
                               (c_entries c) |>))
      else (false, c)
  end.

Fixpoint warm (keys : list string) (loaded : Z) : sc Z :=
  match keys with
  | [] => Ret loaded
  | key :: keys =>
      val ← call (StoreGet key);
      match val ≫= λ v, if kMaxWarmUpValueSize <? Z.of_nat (String.length v) then None else persisted v with
      | None => warm keys loaded
      | Some e =>
          should_insert ← call (locked (adopt e));
          if (should_insert : bool) then
            call (VInsert (e_partition_key e) (e_id e) (embed (e_prompt e)));;
            warm keys (loaded + 1)
          else warm keys loaded
      end
  end.

Definition warmUp : sc Z :=
  if sc_store cfg then
    keys ← call (StoreKeys (to_int (sc_max_entries cfg)));
    warm keys 0
  else Ret 0.

(** [None] is an exception of [item.value]; what was imported before stays. *)
Fixpoint import_items (items : list json) (imported : Z) : sc (option Z) :=
  match items with
  | [] => Ret (Some imported)
  | item :: items =>
      match prompt ← string_or "" "prompt" item; response ← string_or "" "response" item;
            model ← string_or "" "model" item; Some (prompt, response, model) with
      | None => Ret None
      | Some (prompt, response, model) =>
          if str_empty prompt || str_empty response then import_items items imported
          else put prompt response model "";; import_items items (imported + 1)
      end
  end.

Definition importFromJson (text : string) : sc (option Z) :=
  match parse text with
  | Some (JArray items) => import_items items 0
  | _ => Ret (Some 0)
  end.

(** The first of the least frequent patterns. *)
Definition rarest (l : list (string * QueryPattern)) : option (string * QueryPattern) :=
  match l with
  | [] => None
  | p :: l => Some (foldl (λ m p, if qp_frequency p.2 <? qp_frequency m.2 then p else m) p l)
  end.

Definition recordQueryPattern (prompt : string) : sc unit :=
  let key := to_string (hash prompt) in
  call (locked (λ now c, (tt,
    match c_patterns c !! key with
    | Some p =>
        c <| c_patterns := <[key := {| qp_prompt := qp_prompt p; qp_frequency := qp_frequency p + 1;
                                       qp_last_seen := now |}]> (c_patterns c) |>
    | None =>
        let patterns := if (kMaxQueryPatterns <=? size (c_patterns c))%nat
          then from_option (λ p, delete p.1 (c_patterns c)) (c_patterns c) (rarest (iter (c_patterns c)))
          else c_patterns c in
        c <| c_patterns := <[key := {| qp_prompt := prompt; qp_frequency := 1; qp_last_seen := now |}]>
                             patterns |>
    end))).

Definition getTopPatterns (limit : nat) : sc (list QueryPattern) :=
  call (locked (λ _ c,
    (take limit (std_sort (λ a b, qp_frequency b <? qp_frequency a) ((iter (c_patterns c)).*2)), c))).

Definition recordFeedback (prompt : string) (satisfaction : float) : sc unit :=
  call (IncMetric "cacheFeedbackTotal");;
  results ← call (Search "" (embed prompt) (f32 0));
  call (update (λ c,
    let c := c <| c_feedback := keep_last kMaxFeedbackWindow (c_feedback c ++ [satisfaction]) |> in
    match results with
    | (id, _) :: _ =>
        if (satisfaction <? 0.5)%float then
          match c_entries c !! id with
          | Some e =>
              c <| c_entries := <[id := e <| e_created_at :=
                     e_last_accessed e - (sc_ttl cfg - sc_ttl cfg / 2) * second |>]> (c_entries c) |>
          | None => c
          end
        else c
    | [] => c
    end)).

Definition getAverageSatisfaction : sc float :=
  call (locked (λ _ c,
    (match c_feedback c with
     | [] => 0%float
     | l => (foldl PrimFloat.add 0 l / int_to_double (Z.of_nat (length l)))%float
     end, c))).

Definition shouldCache (req : ChatRequest) : bool :=
  let p := sc_policy cfg in
  if negb (po_enabled p) then true
  else if existsb (String.eqb (cr_model req)) (po_skip_models p) then false
  else if from_option (λ t, (po_max_temperature p <? t)%float) false (cr_temperature req) then false
  else negb (po_skip_streaming p && cr_stream req).

Definition process {X} (ctx : RequestContext X) : sc (StageResult * RequestContext X) :=
  let req := x_chat_request ctx in
  if no_elems (cr_messages req) || x_has_tools ctx || negb (shouldCache req) then Ret (Continue, ctx)
  else
    let conv_id := from_option (λ f, f req) "" resolver in
    let info := extractCacheKeyInfoV2 sha256 cfg (cr_messages req) (x_tenant_id ctx) conv_id summarizer in
    if str_empty (k_prompt info) then Ret (Continue, ctx)
    else
      hit ← get (k_prompt info) (cr_model req) (k_partition_key info)
              (negb (str_empty (k_conversation_hash info)));
      match hit with
      | Some h =>
          Ret (ShortCircuit, ctx <| x_cache_hit := true |> <| x_cached_response := hit_response h |>)
      | None =>
          recordQueryPattern (k_prompt info);;
          Ret (Continue, ctx)
      end.

(** A new cache. *)
Definition empty_cache (threshold : float32) : Cache :=
  {| c_threshold := threshold; c_entries := ∅; c_lru_list := []; c_lru_map := ∅; c_next_node := 0;
     c_seq_counter := 0; c_put_counter := 0; c_hits := 0; c_misses := 0; c_puts := 0;
     c_hit_exact := 0; c_hit_semantic := 0; c_hit_conversation := 0; c_hit_window := [];
     c_similarity_window := []; c_feedback := []; c_patterns := ∅ |}.


End cache.


(** ** Summaries *)

Section summaries.
Context (mask : option (string → string)) (max_chars top_keywords : nat).

Definition is_word (c : Ascii.ascii) : bool :=
  let b := byte_of c in
  ((97 <=? b) && (b <=? 122)) || ((65 <=? b) && (b <=? 90)) || ((48 <=? b) && (b <=? 57)) || (128 <=? b).

Fixpoint words (cur : string) (s : string) : list string :=
  match s with
  | "" => if str_empty cur then [] else [cur]
  | String c s =>
      if is_word c then words (cur +:+ String c "") s
      else if str_empty cur then words "" s else cur :: words "" s
  end.

Definition tokenize : string → list string := words "".

Definition count_word (freq : gmap string Z) (w : string) : gmap string Z :=
  if (String.length w <? 2)%nat then freq else <[w := default 0 (freq !! w) + 1]> freq.

Definition by_frequency (a b : string * Z) : bool :=
  if a.2 =? b.2 then str_ltb a.1 b.1 else b.2 <? a.2.

(** The keywords that fit, joined by blanks; the first that does not fit ends
    the summary. *)
Fixpoint join_fitting (l : list string) (out : string) : string :=
  match l with
  | [] => out
  | w :: l =>
      let sep := if str_empty out then 0%nat else 1%nat in
      if (max_chars <? String.length out + sep + String.length w)%nat then out
      else join_fitting l (out +:+ (if str_empty out then "" else " ") +:+ w)
  end.

Definition summarize (msgs : list Message) : string :=
  if no_elems msgs || (top_keywords =? 0)%nat || (max_chars =? 0)%nat then ""
  else
    let freq := foldl count_word ∅
      (msgs ≫= λ m, tokenize (from_option (λ f, f (m_content m)) (m_content m) mask)) in
    join_fitting (take top_keywords (std_sort by_frequency (map_to_list freq)).*1) "".

(** [CompositeSummarizer::summarize] of the primary's and the fallback's. *)
Definition composite (primary fallback : option (list Message → string)) (msgs : list Message) : string :=
  let out := from_option (λ f, f msgs) "" primary in
  if str_empty out then from_option (λ f, f msgs) "" fallback else out.

Lemma join_fitting_length l out :
  (String.length out <= max_chars)%nat → (String.length (join_fitting l out) <= max_chars)%nat.
Proof.
  revert out. induction l as [|w l IH]; intros out Ho; [done|]. cbn [join_fitting].
  destruct (max_chars <? _)%nat eqn:Hf; [done|]. apply Nat.ltb_ge in Hf. apply IH.
  rw !string_length_app. destruct (str_empty out); simpl in *; lia.
Qed.

(** A summary keeps to its limit. *)
Lemma summarize_length msgs : (String.length (summarize msgs) <= max_chars)%nat.
Proof. unfold summarize. destruct (_ || _); [simpl; lia|]. apply join_fitting_length. simpl; lia. Qed.

End summaries.

(** ** Isolation *)

Section world.
Context `{UnorderedIter} {V VS : Type} (embed : string → V) (sha256 : string → string) (hash : string → Z).
Context (dump : json → option string) (parse : string → option json).
Context (cfg : ScConfig) (summarizer : option (list Message → string))
  (resolver : option (ChatRequest → string)).
(** The vector store, about which nothing is assumed. *)
Context (search : VS → string → V → float32 → list (string * float32)).
Context (search_all : VS → V → float32 → list (string * float32)).
Context (insert_vec : VS → string → string → V → bool * VS).
Context (remove_vec : VS → string → string → VS).

Record World := {
  w_cache : Cache;
  w_store : Store;
  w_vectors : VS;
  w_now : Z;
}.

Definition with_vectors (v : VS) (w : World) : World :=
  {| w_cache := w_cache w; w_store := w_store w; w_vectors := v; w_now := w_now w |}.

Definition exec (B : Type) (e : ScCmd V B) (w : World) : B * World :=
  match e in ScCmd _ B return B * World with
  | Search pk q thr => (search (w_vectors w) pk q thr, w)
  | SearchAllPartitions q thr => (search_all (w_vectors w) q thr, w)
  | VInsert pk id v =>
      let '(ok, vs) := insert_vec (w_vectors w) pk id v in (ok, with_vectors vs w)
  | VRemove pk id => (tt, with_vectors (remove_vec (w_vectors w) pk id) w)
  | StoreKeys limit => (take (Z.to_nat limit) (iter (w_store w)).*1, w)
  | StoreGet key => (w_store w !! key, w)
  | IncMetric _ => (tt, w)
  | Locked f =>
      let '(b, (c, s)) := f (w_now w) (w_cache w) (w_store w) in
      (b, {| w_cache := c; w_store := s; w_vectors := w_vectors w; w_now := w_now w |})
  end.

(** Time passes, the store forgets, the vector store changes. *)
Definition drift (w w' : World) : Prop := w_cache w' = w_cache w ∧ w_store w' ⊆ w_store w.

Notation get := (get embed cfg).
Notation put := (put embed hash dump cfg).
Notation putFromContext := (putFromContext embed sha256 hash dump cfg summarizer).
Notation warmUp := (warmUp embed parse cfg).
Notation importFromJson := (importFromJson embed hash dump parse cfg).
Notation process := (process embed sha256 hash cfg summarizer resolver).

(** Every entry was there before, with the same partition and response. *)
Definition keeps (c c' : Cache) : Prop :=
  ∀ id e, c_entries c' !! id = Some e → ∃ e0, c_entries c !! id = Some e0 ∧
    e_partition_key e = e_partition_key e0 ∧ e_response e = e_response e0.

Lemma keeps_same c c' : c_entries c' = c_entries c → keeps c c'.
Proof. intros Hc id e He. rw Hc in He. by exists e. Qed.

#[local] Instance keeps_preorder : PreOrder keeps.
Proof.
  split; [intros c; by apply keeps_same|]. intros c1 c2 c3 H12 H23 id e He.
  destruct (H23 id e He) as (e2 & (e1 & ? & ? & ?)%H12 & ? & ?). exists e1. by split_and!; [|etrans..].
Qed.

Lemma keeps_delete c id : keeps c (c <| c_entries := delete id (c_entries c) |>).
Proof. intros i e He. cbn in He. apply lookup_delete_Some in He as [_ He]. by exists e. Qed.

Lemma entries_lru_drop id c : c_entries (lru_drop id c) = c_entries c.
Proof. unfold lru_drop. by destruct (_ !! _). Qed.

Lemma entries_lru_touch id c : c_entries (lru_touch id c) = c_entries c.
Proof. unfold lru_touch. by destruct (_ !! _). Qed.

Lemma entries_drop_entry id c : c_entries (drop_entry id c) = delete id (c_entries c).
Proof. done. Qed.

Lemma keeps_drop_entry id c : keeps c (drop_entry id c).
Proof. intros i e He. cbn in He. apply lookup_delete_Some in He as [_ He]. by exists e. Qed.

Lemma keeps_evictExpired now c : keeps c (evictExpiredLocked cfg now c).2.
Proof.
  unfold evictExpiredLocked. cbn [snd]. generalize (List.filter (λ p, expired cfg now p.2) (iter (c_entries c))).
  intros l. revert c. induction l as [|p l IH]; intros c; [done|]. simpl.
  etrans; [apply (keeps_drop_entry p.1)|apply IH].
Qed.

Lemma keeps_evictLRU c : keeps c (evictLRU c).2.
Proof. unfold evictLRU. destruct (last _) as [[n id]|]; [|done].
  intros i e He. cbn in He. apply lookup_delete_Some in He as [_ He]. by exists e.
Qed.

Lemma keeps_make_room ns now c : keeps c (make_room cfg ns now c).2.
Proof.
  unfold make_room. set (c0 := c <| c_put_counter := _ |>).
  assert (keeps c c0) as Hc by by apply keeps_same.
  destruct (c_put_counter c0 mod kEvictInterval =? 0).
  - destruct (evictExpiredLocked cfg now c0) as [removed c1] eqn:He.
    assert (keeps c c1) as H1 by (pose proof (keeps_evictExpired now c0) as Hk; rw He in Hk; by etrans).
    destruct (sc_max_entries cfg <=? cache_size c1); [|cbn; etrans; [exact H1|by apply keeps_same]].
    pose proof (keeps_evictLRU c1) as Hk. destruct (evictLRU c1) as [removed' c2]. cbn in *.
    etrans; [exact H1|]. etrans; [exact Hk|by apply keeps_same].
  - destruct (sc_max_entries cfg <=? cache_size c0); [|cbn; etrans; [exact Hc|by apply keeps_same]].
    pose proof (keeps_evictLRU c0) as Hk. destruct (evictLRU c0) as [removed' c2]. cbn in *.
    etrans; [exact Hc|]. etrans; [exact Hk|by apply keeps_same].
Qed.

Lemma keeps_examine id score model pk now c :
  keeps c (examine cfg id score model pk now c).2.
Proof.
  unfold examine. destruct (c_entries c !! id) as [e|] eqn:He; [|done].
  destruct (expired cfg now e); [apply keeps_drop_entry|].
  repeat (case_match; [done|]). intros i e' Hi. cbn in Hi. rw entries_lru_touch in Hi.
  destruct (decide (id = i)) as [<-|Hne].
  - rw lookup_insert_eq in Hi. injection Hi as <-. by exists e.
  - rw lookup_insert_ne in Hi; [|done]. by exists e'.
Qed.

Lemma examine_hit id score model pk now c h c' :
  examine cfg id score model pk now c = (Hit h, c') →
  ∃ e, c_entries c !! id = Some e ∧ e_partition_key e = pk ∧ hit_response h = e_response e ∧
    expired cfg now e = false ∧ other_model model e = false.
Proof.
  unfold examine. destruct (c_entries c !! id) as [e|]; [|done].
  destruct (expired cfg now e) eqn:He; [done|]. destruct (other_model model e) eqn:Hm; [done|].
  destruct (bool_decide (e_partition_key e = pk)) eqn:Hp; [|done]. apply bool_decide_eq_true in Hp.
  intros [= <- _]. by exists e.
Qed.

#[local] Instance any_preorder : PreOrder (λ _ _ : World, True).
Proof. by split. Qed.

(** A predicate on what may be served from a partition. *)
Section served.
Variable good : string → string → Prop.
Hypothesis cross_off : ct_enabled (sc_cross_tenant cfg) = false.
Hypothesis dump_parse : ∀ e text, dump (entry_json e) = Some text → parse text = Some (entry_json e).

Definition good_entry (e : CacheEntry) : Prop := good (e_partition_key e) (e_response e).

Definition all_good (w : World) : Prop :=
  (∀ id e, c_entries (w_cache w) !! id = Some e → good_entry e) ∧
  (∀ k text e, w_store w !! k = Some text → persisted parse text = Some e → good_entry e).

Notation fine Q p := (∀ w, safe exec (λ _ _, True) (λ _ _, True) all_good (λ a _, Q a) p w).

Lemma fine_ret {A} (Q : A → Prop) a : Q a → fine Q (Ret a).
Proof. intros HQ w w' _ _. exact HQ. Qed.

Lemma fine_call {A B} (Q : A → Prop) (R : B → Prop) (e : ScCmd V B) (k : B → prog (ScCmd V) A) :
  (∀ w, all_good w → all_good (exec B e w).2 ∧ R (exec B e w).1) →
  (∀ b, R b → fine Q (k b)) → fine Q (call e ≫= k).
Proof. intros He Hk w w' _ Hw. destruct (He w' Hw) as [HI HR]. split_and!; [done|done|]. by apply Hk. Qed.

Lemma fine_bind {A B} (Q : A → Prop) (R : B → Prop) p (k : B → prog (ScCmd V) A) :
  fine R p → (∀ b, R b → fine Q (k b)) → fine Q (p ≫= k).
Proof.
  intros Hp Hk w. apply safe_bind; [apply _|]. eapply safe_mono; [|apply Hp].
  intros b w' _ HR. by apply Hk.
Qed.

Lemma fine_locked {A B} (Q : A → Prop) (R : B → Prop) (f : Z → Cache → B * Cache)
    (k : B → prog (ScCmd V) A) :
  (∀ now c, keeps c (f now c).2) →
  (∀ now c, (∀ id e, c_entries c !! id = Some e → good_entry e) → R (f now c).1) →
  (∀ b, R b → fine Q (k b)) → fine Q (call (locked f) ≫= k).
Proof.
  intros Hf HR Hk. apply (fine_call Q R); [|done]. intros w [He Hs]. simpl.
  specialize (Hf (w_now w) (w_cache w)). specialize (HR (w_now w) (w_cache w) He).
  destruct (f (w_now w) (w_cache w)) as [b c]. simpl in *. split; [|done]. split; [|exact Hs].
  intros id e (e0 & H0 & Hp & Hr)%Hf. unfold good_entry. rw Hp Hr. by apply (He id).
Qed.

Lemma fine_update {A} (Q : A → Prop) (f : Cache → Cache) (k : unit → prog (ScCmd V) A) :
  (∀ c, keeps c (f c)) → fine Q (k tt) → fine Q (call (update f) ≫= k).
Proof. intros Hf Hk. apply (fine_locked Q (λ _, True)); [by intros|done|]. by intros []. Qed.

(** A call that leaves the cache and the store alone. *)
Lemma fine_other {A B} (Q : A → Prop) (e : ScCmd V B) (k : B → prog (ScCmd V) A) :
  (∀ w, w_cache (exec B e w).2 = w_cache w ∧ w_store (exec B e w).2 = w_store w) →
  (∀ b, fine Q (k b)) → fine Q (call e ≫= k).
Proof.
  intros He Hk. apply (fine_call Q (λ _, True)); [|by auto]. intros w Hw. destruct (He w) as [Hc Hs].
  split; [|done]. unfold all_good. by rw Hc Hs.
Qed.

Lemma fine_remove l : fine (λ _ : unit, True) (remove_all l).
Proof.
  induction l as [|p l IH]; [by apply fine_ret|]. apply fine_other; [done|]. intros []. apply IH.
Qed.

Lemma fine_remove_all {A} (Q : A → Prop) l (k : unit → prog (ScCmd V) A) :
  fine Q (k tt) → fine Q (remove_all l ≫= k).
Proof. intros Hk. apply (fine_bind Q (λ _, True)); [apply fine_remove|by intros []]. Qed.

Lemma fine_recordHitMiss {A} (Q : A → Prop) is_hit sim (k : unit → prog (ScCmd V) A) :
  fine Q (k tt) → fine Q (recordHitMiss cfg is_hit sim ≫= k).
Proof.
  intros Hk. unfold recordHitMiss. destruct (ad_enabled _); [|exact Hk]. apply fine_update; [|exact Hk].
  intros c. apply keeps_same. by destruct (_ =? _)%nat.
Qed.

Lemma fine_get prompt model pk scoped :
  fine (λ r : option CacheHit, ∀ h, r = Some h → good pk (hit_response h)) (get prompt model pk scoped).
Proof.
  unfold SemanticCache.get. apply (fine_locked _ (λ _, True)); [intros; by apply keeps_same|done|].
  intros thr _. apply fine_other; [done|]. intros [|[id score] results].
  - apply fine_update; [intros; by apply keeps_same|]. apply fine_recordHitMiss. rw cross_off.
    by apply fine_ret.
  - apply (fine_locked _ (λ f, ∀ h, f = Hit h → good pk (hit_response h))).
    { intros. apply keeps_examine. }
    { intros now c Hc h Hh. destruct (examine cfg id score model pk now c) as [f c'] eqn:He. simpl in Hh.
      subst f. destruct (examine_hit _ _ _ _ _ _ _ _ He) as (e & Hi & <- & -> & _). by apply (Hc id). }
    intros f Hf.
    assert (∀ Q : option CacheHit → Prop, ∀ k : unit → prog (ScCmd V) (option CacheHit), fine Q (k tt) →
      fine Q (when_ (match f with Expired => negb (str_empty id) | _ => false end)
                (call (VRemove pk id)) ≫= k)) as Hwhen.
    { intros Q k Hk. destruct f; [exact Hk| |exact Hk]. destruct (negb _); [|exact Hk].
      apply fine_other; [done|]. by intros []. }
    apply Hwhen. clear Hwhen. destruct f as [h| |].
    + apply fine_update; [intros; by apply keeps_same|].
      apply fine_update; [intros; apply keeps_same; by destruct (classifyHitType score scoped)|].
      apply fine_recordHitMiss. apply fine_ret. intros ? [= <-]. by apply Hf.
    + apply fine_update; [intros; by apply keeps_same|]. apply fine_recordHitMiss. rw cross_off.
      by apply fine_ret.
    + apply fine_update; [intros; by apply keeps_same|]. apply fine_recordHitMiss. rw cross_off.
      by apply fine_ret.
Qed.

Lemma persisted_entry e text e' :
  dump (entry_json e) = Some text → persisted parse text = Some e' →
  e_partition_key e' = e_partition_key e ∧ e_response e' = e_response e.
Proof.
  intros Hp%dump_parse. unfold persisted. rw Hp. cbn [mbind option_bind].
  change ((if str_empty (e_id e) || str_empty (e_prompt e) then None
    else Some {| e_id := e_id e; e_prompt := e_prompt e; e_response := e_response e; e_model := e_model e;
                 e_partition_key := e_partition_key e; e_created_at := 0; e_last_accessed := 0 |}) = Some e' →
    e_partition_key e' = e_partition_key e ∧ e_response e' = e_response e).
  destruct (_ || _); [done|]. by intros [= <-].
Qed.

Lemma fine_put prompt response model pk :
  good pk response → fine (λ _ : unit, True) (put prompt response model pk).
Proof.
  intros Hg. unfold SemanticCache.put. apply fine_update; [intros; by apply keeps_same|].
  apply (fine_locked _ (λ _, True)); [intros; apply keeps_make_room|done|]. intros [id removed] _.
  apply fine_remove_all. apply fine_other; [intros w; simpl; by destruct (insert_vec _ _ _ _)|].
  intros [|]; [|by apply fine_ret].
  apply (fine_call _ (λ _, True) (Locked (commit dump cfg id prompt response model pk)) Ret);
    [|intros; by apply fine_ret].
  intros w [He Hs]. split; [|done]. simpl. split; cbn [w_cache w_store c_entries lru_push_front].
  - intros i e Hi. cbn in Hi. destruct (decide (id = i)) as [<-|Hne].
    + rw lookup_insert_eq in Hi. by injection Hi as <-.
    + rw lookup_insert_ne in Hi; [|done]. by apply (He i).
  - unfold persistEntry. destruct (sc_store cfg); [|exact Hs].
    destruct (dump (entry_json _)) as [text|] eqn:Hd; [|exact Hs]. intros k text' e' Hk Hp.
    destruct (decide (kCacheKeyPrefix +:+ id = k)) as [<-|Hne].
    + rw lookup_insert_eq in Hk. injection Hk as <-.
      destruct (persisted_entry _ _ _ Hd Hp) as [H1 H2]. unfold good_entry. by rw H1 H2.
    + rw lookup_insert_ne in Hk; [|done]. by apply (Hs k text').
Qed.

Lemma fine_warm keys loaded : fine (λ _ : Z, True) (warm embed parse cfg keys loaded).
Proof.
  revert loaded. induction keys as [|key keys IH]; intros loaded; [by apply fine_ret|]. cbn [warm].
  apply (fine_call _ (λ val, ∀ text e, val = Some text → persisted parse text = Some e → good_entry e)).
  { intros w [He Hs]. split; [by split|]. intros text e Hk Hp. by apply (Hs key text). }
  intros val Hval. destruct (val ≫= _) as [e|] eqn:Hv; [|apply IH].
  assert (good_entry e) as Hg.
  { destruct val as [v|]; [|done]. cbn in Hv. destruct (kMaxWarmUpValueSize <? _); [done|]. by apply (Hval v). }
  apply (fine_call _ (λ _, True)).
  - intros w [He Hs]. split; [|done]. simpl. unfold adopt.
    destruct (c_entries (w_cache w) !! e_id e); [by split|].
    destruct (cache_size (w_cache w) <? sc_max_entries cfg); [|by split]. split; [|exact Hs].
    intros i e' Hi. cbn in Hi. destruct (decide (e_id e = i)) as [<-|Hne].
    + rw lookup_insert_eq in Hi. by injection Hi as <-.
    + rw lookup_insert_ne in Hi; [|done]. by apply (He i).
  - intros [|] _; [|apply IH]. apply fine_other; [intros w; simpl; by destruct (insert_vec _ _ _ _)|].
    intros _. apply IH.
Qed.

Lemma fine_import items imported :
  (∀ r, good "" r) → fine (λ _ : option Z, True) (import_items embed hash dump cfg items imported).
Proof.
  intros Hg. revert imported. induction items as [|item items IH]; intros imported; [by apply fine_ret|].
  cbn [import_items]. destruct (string_or "" "prompt" item ≫= _) as [[[p r] m]|]; [|by apply fine_ret].
  destruct (_ || _); [apply IH|]. apply (fine_bind _ (λ _, True)); [by apply fine_put|]. intros [] _. apply IH.
Qed.


Lemma fine_clear : fine (λ _ : unit, True) clear.
Proof.
  apply (fine_locked _ (λ _, True)); [|done|].
  - intros now c id e He. cbn in He. by rw lookup_empty in He.
  - intros ids _. apply fine_remove.
Qed.

Lemma fine_evictExpired : fine (λ _ : unit, True) (evictExpired cfg).
Proof.
  apply (fine_locked _ (λ _, True)); [intros; apply keeps_evictExpired|done|].
  intros ids _. apply fine_remove.
Qed.

Lemma fine_recordFeedback prompt satisfaction :
  fine (λ _ : unit, True) (recordFeedback embed cfg prompt satisfaction).
Proof.
  apply fine_other; [done|]. intros _. apply fine_other; [done|]. intros results.
  apply (fine_update (λ _, True) _ Ret); [|by apply fine_ret]. intros c id e He. cbn in He.
  destruct results as [|[i s] results]; [by exists e|]. destruct (satisfaction <? 0.5)%float; [|by exists e].
  destruct (c_entries c !! i) as [e0|] eqn:Hi; [|by exists e]. cbn in He.
  destruct (decide (i = id)) as [<-|Hne].
  - rw lookup_insert_eq in He. injection He as <-. by exists e0.
  - rw lookup_insert_ne in He; [|done]. by exists e.
Qed.

Lemma fine_recordQueryPattern {A} (Q : A → Prop) prompt (k : unit → prog (ScCmd V) A) :
  fine Q (k tt) → fine Q (recordQueryPattern hash prompt ≫= k).
Proof.
  intros Hk. apply (fine_locked _ (λ _, True)); [|done|by intros []].
  intros now c. apply keeps_same. by destruct (c_patterns c !! _).
Qed.

Lemma fine_process {X} (ctx : RequestContext X) :
  fine (λ r, r.1 = ShortCircuit → ∃ conversation_id, good
      (k_partition_key (extractCacheKeyInfoV2 sha256 cfg (cr_messages (x_chat_request ctx))
         (x_tenant_id ctx) conversation_id summarizer)) (x_cached_response r.2) ∧
      cr_messages (x_chat_request ctx) ≠ [])
    (process ctx).
Proof.
  unfold SemanticCache.process. destruct (_ || _ || _) eqn:Hno; [by apply fine_ret|].
  destruct (str_empty _); [by apply fine_ret|].
  apply (fine_bind _ _ _ _ (fine_get _ _ _ _)). intros [h|] Hh.
  - apply fine_ret. intros _. eexists. split; [by apply (Hh h)|].
    intros Hm. by rw Hm in Hno.
  - apply fine_recordQueryPattern. by apply fine_ret.
Qed.

Lemma fine_putFromContext messages response model tenant conversation_id :
  (messages ≠ [] → good (k_partition_key
     (extractCacheKeyInfoV2 sha256 cfg messages tenant conversation_id summarizer)) response) →
  fine (λ _ : unit, True) (putFromContext messages response model tenant conversation_id).
Proof.
  intros Hg. unfold SemanticCache.putFromContext. destruct (_ && _); [by apply fine_ret|].
  destruct (str_empty _) eqn:He; [by apply fine_ret|]. apply fine_put, Hg. by intros ->.
Qed.


End served.
(** Two different texts with the same digest. *)
Definition collision : Prop := ∃ a b, a ≠ b ∧ sha256 a = sha256 b.

Lemma blob_tenant t conv s ch t' conv' s' ch' :
  ¬ has_char "031" t → ¬ has_char "031" t' →
  key_blob t conv s ch = key_blob t' conv' s' ch' → t = t'.
Proof.
  intros Ht Ht' Heq. unfold key_blob in Heq.
  assert (∀ (a b r r' : string), ¬ has_char "031" a → ¬ has_char "031" b → a +:+ us +:+ r = b +:+ us +:+ r' → a = b)
    as Hsplit; [|by eapply Hsplit].
  clear. induction a as [|x a IH]; intros [|y b] r r' Ha Hb Heq; [done| | |].
  - injection Heq as <- _. destruct Hb. by left.
  - injection Heq as -> _. destruct Ha. by left.
  - injection Heq as -> Heq. f_equal. eapply IH; [| |exact Heq]; intros Hc; [apply Ha|apply Hb]; by right.
Qed.

(** [owner] says which tenants a response was given to.  The requests: a
    lookup for a tenant, whose result is what was served to it; the answer to
    a tenant's request being stored; and the rest of the cache's interface. *)
Variable owner : string → string → Prop.

Inductive request {X} : prog (ScCmd V) (option (string * string)) → Prop :=
| req_process (ctx : RequestContext X) :
    ¬ has_char "031" (x_tenant_id ctx) →
    request (r ← process ctx;
             Ret (if decide (r.1 = ShortCircuit) then Some (x_tenant_id ctx, x_cached_response r.2)
                  else None))
| req_put messages response model tenant conversation_id :
    ¬ has_char "031" tenant → owner tenant response →
    request (putFromContext messages response model tenant conversation_id;; Ret None)
| req_import text : request (importFromJson text;; Ret None)
| req_warm : request (warmUp;; Ret None)
| req_evict : request (evictExpired cfg;; Ret None)
| req_clear : request (clear;; Ret None)
| req_feedback prompt satisfaction : request (recordFeedback embed cfg prompt satisfaction;; Ret None).

(** What may be served from a partition: answers of the tenant the partition
    belongs to; nothing is looked up in the partition of imports. *)
Definition owned (pk response : string) : Prop :=
  pk = "" ∨ ∃ tenant conv sys ch, ¬ has_char "031" tenant ∧
    pk = sha256 (key_blob tenant conv sys ch) ∧ owner tenant response.

Section isolation.
Hypothesis cross_off : ct_enabled (sc_cross_tenant cfg) = false.
Hypothesis dump_parse : ∀ e text, dump (entry_json e) = Some text → parse text = Some (entry_json e).
Hypothesis digest : ∀ s, sha256 s ≠ "".

Lemma owned_serves messages tenant conversation_id response :
  messages ≠ [] → ¬ has_char "031" tenant →
  owned (k_partition_key (extractCacheKeyInfoV2 sha256 cfg messages tenant conversation_id summarizer))
    response →
  owner tenant response ∨ collision.
Proof.
  intros Hm Ht. destruct messages as [|m messages]; [done|]. cbn [extractCacheKeyInfoV2 k_partition_key].
  intros [He|(t & conv & s & ch & Ht' & Heq & Ho)]; [by destruct (digest _ He)|].
  match type of Heq with sha256 ?a = sha256 ?b => destruct (decide (a = b)) as [Hab|Hab]; [left|right; by exists a, b] end.
  by rw (blob_tenant _ _ _ _ _ _ _ _ Ht Ht' Hab).
Qed.

Lemma owned_stored messages tenant conversation_id response :
  messages ≠ [] → ¬ has_char "031" tenant → owner tenant response →
  owned (k_partition_key (extractCacheKeyInfoV2 sha256 cfg messages tenant conversation_id summarizer))
    response.
Proof.
  intros Hm Ht Ho. destruct messages as [|m messages]; [done|]. right. cbn [extractCacheKeyInfoV2 k_partition_key].
  by eexists tenant, _, _, _.
Qed.

Lemma request_safe {X} p w :
  @request X p →
  safe exec (λ _ _, True) (λ _ _, True) (all_good owned)
    (λ a _, ∀ t r, a = Some (t, r) → owner t r ∨ collision) p w.
Proof.
  assert (∀ A (p : prog (ScCmd V) A),
    (∀ w, safe exec (λ _ _, True) (λ _ _, True) (all_good owned) (λ _ _, True) p w) →
    ∀ w, safe exec (λ _ _, True) (λ _ _, True) (all_good owned)
      (λ a _, ∀ t r, a = Some (t, r) → owner t r ∨ collision) (p;; Ret None) w) as Hdone.
  { intros A q Hq. apply (fine_bind owned _ (λ _, True)); [exact Hq|]. intros a _. by apply fine_ret. }
  intros Hp. revert w. destruct Hp as [ctx Ht|messages response model tenant conv Ht Ho|text| | | |prompt s].
  - apply (fine_bind owned _ _ _ _ (fine_process owned cross_off ctx)). intros r Hr. apply fine_ret.
    intros t response Heq. destruct (decide (r.1 = ShortCircuit)) as [Hs|]; [|done]. injection Heq as <- <-.
    destruct (Hr Hs) as (conv & Hg & Hm). by eapply owned_serves.
  - apply Hdone. apply (fine_putFromContext owned dump_parse). intros Hm. by apply owned_stored.
  - apply Hdone. unfold SemanticCache.importFromJson. destruct (parse text) as [[]|]; try by apply fine_ret.
    apply (fine_import owned dump_parse). by left.
  - apply Hdone. unfold SemanticCache.warmUp. destruct (sc_store cfg); [|by apply fine_ret].
    apply fine_other; [done|]. intros keys. apply fine_warm.
  - apply Hdone. apply fine_evictExpired.
  - apply Hdone. apply fine_clear.
  - apply Hdone. apply fine_recordFeedback.
Qed.

End isolation.

(** C7. Tenants do not see each other's answers: as long as sharing is off, under
    every interleaving of lookups, stores, imports, evictions and restores,
    with whatever the vector store returns, an answer that the cache serves to
    a tenant is one that was stored for that tenant, unless two different
    partition texts have the same SHA-256 digest.  The process starts with an
    empty cache and an empty store, tenant ids are free of the separator 0x1f of
    the partition texts, and the parser reads back what the printer wrote. *)
Theorem cache_isolation {X} w ts w' i tenant response :
  ct_enabled (sc_cross_tenant cfg) = false →
  (∀ e text, dump (entry_json e) = Some text → parse text = Some (entry_json e)) →
  (∀ s, sha256 s ≠ "") →
  c_entries (w_cache w) = ∅ → w_store w = ∅ →
  rtc (pool_step exec drift (@request X)) ([], w) (ts, w') →
  ts !! i = Some (Ret (Some (tenant, response))) →
  owner tenant response ∨ collision.
Proof.
  intros Hcross Hdump Hdigest He Hs Hsteps Hi.
  destruct (pool_safe exec (λ _ _, True) (λ _ _, True) (all_good owned)
    (λ a _, ∀ t r, a = Some (t, r) → owner t r ∨ collision) drift (@request X) [] w ts w')
    as (_ & HI & Hts).
  - done.
  - done.
  - intros w1 w2 [Hc Hd] [Hge Hgs]. split; [done|]. split; [by rw Hc|].
    intros k text e Hk Hp. eapply Hgs; [by eapply lookup_weaken|done].
  - intros p w0. by apply request_safe.
  - done.
  - split; [intros id e; by rw He lookup_empty|intros k text e; by rw Hs lookup_empty].
  - by apply Forall_nil.
  - rw Forall_lookup in Hts. by apply (Hts i _ Hi w').
Qed.

End world.


(** ** Recency *)

(** The entries, the most recently used first. *)
Definition view_with (es : gmap string CacheEntry) (l : list (nat * string)) : list (string * CacheEntry) :=
  omap (λ p, pair p.2 <$> es !! p.2) l.
Definition view (c : Cache) : list (string * CacheEntry) := view_with (c_entries c) (c_lru_list c).

(** The list, the map into it and the entries agree. *)
Record lru_ok (c : Cache) : Prop := {
  lo_nodes : NoDup (c_lru_list c).*1;
  lo_fresh : Forall (λ p, p.1 < c_next_node c)%nat (c_lru_list c);
  lo_ids : NoDup (c_lru_list c).*2;
  lo_map : ∀ id n, c_lru_map c !! id = Some n ↔ (n, id) ∈ c_lru_list c;
  lo_dom : ∀ id, is_Some (c_entries c !! id) ↔ id ∈ (c_lru_list c).*2;
}.

(** The ids were handed out by the counter, as they are until a restart. *)
Definition numbered (c : Cache) : Prop :=
  ∀ id, is_Some (c_entries c !! id) → ∃ ns seq, id = makeEntryId ns seq ∧ 0 <= seq < c_seq_counter c.

Lemma view_with_ext es es' l :
  (∀ id, id ∈ l.*2 → es !! id = es' !! id) → view_with es l = view_with es' l.
Proof.
  intros He. unfold view_with. induction l as [|p l IH]; [done|]. csimpl.
  rw (He p.2); [|by left]. rw IH //. intros id Hid. apply He. by right.
Qed.

Lemma view_with_filter es (P : string → bool) l :
  view_with es (filter (λ p, P p.2 = true) l) = filter (λ p, P p.1 = true) (view_with es l).
Proof.
  unfold view_with. induction l as [|p l IH]; [done|]. rw filter_cons.
  destruct (decide (P p.2 = true)) as [Hp|Hp]; csimpl; destruct (es !! p.2) as [e|]; csimpl; rw ?filter_cons; simpl; rw IH.
  - by rw decide_True.
  - done.
  - by rw decide_False.
  - done.
Qed.

Lemma view_ids c : lru_ok c → (view c).*1 = (c_lru_list c).*2.
Proof.
  intros Hok. unfold view, view_with.
  assert (∀ l, (∀ id, id ∈ l.*2 → is_Some (c_entries c !! id)) →
    (omap (λ p : nat * string, pair p.2 <$> c_entries c !! p.2) l).*1 = l.*2) as H'; [|apply H', lo_dom, Hok].
  induction l as [|p l IH]; intros Hl; [done|]. csimpl.
  destruct (Hl p.2) as [e ->]; [by left|]. simpl. f_equal. apply IH. intros id Hid. apply Hl. by right.
Qed.

Lemma view_lookup c id e : lru_ok c → (id, e) ∈ view c ↔ c_entries c !! id = Some e.
Proof.
  intros Hok. unfold view, view_with. rw list_elem_of_omap. split.
  - intros (p & Hp & Heq). destruct (c_entries c !! p.2) as [e'|] eqn:He; [|done].
    simpl in Heq. by injection Heq as <- <-.
  - intros He. assert (id ∈ (c_lru_list c).*2) as Hid by (apply lo_dom; [done|by eexists]).
    apply list_elem_of_fmap in Hid as (p & -> & Hp). exists p. split; [done|]. by rw He.
Qed.

Lemma view_NoDup c : lru_ok c → NoDup (view c).*1.
Proof. intros Hok. rw view_ids //. by apply lo_ids. Qed.

Lemma view_size c : lru_ok c → size (c_entries c) = length (view c).
Proof.
  intros Hok. rw -length_map_to_list. apply Permutation_length, NoDup_Permutation.
  - apply NoDup_map_to_list.
  - eapply NoDup_fmap_1. by apply view_NoDup.
  - intros [id e]. by rw elem_of_map_to_list view_lookup.
Qed.

Lemma NoDup_key {A B} (f : A → B) l x y : NoDup (f <$> l) → x ∈ l → y ∈ l → f x = f y → x = y.
Proof.
  intros Hd. induction l as [|z l IH]; [by intros ?%elem_of_nil|]. csimpl in Hd.
  apply NoDup_cons in Hd as [Hz Hd].
  intros [->|Hx]%elem_of_cons [->|Hy]%elem_of_cons Hf; [done| | |by apply IH].
  - destruct Hz. rw Hf. by apply list_elem_of_fmap_2.
  - destruct Hz. rw -Hf. by apply list_elem_of_fmap_2.
Qed.

(** Another id. *)
Definition other (id i : string) : bool := negb (bool_decide (i = id)).

Lemma other_true id i : other id i = true ↔ i ≠ id.
Proof. unfold other. by rw negb_true_iff bool_decide_eq_false. Qed.

Lemma other_self id : other id id = false.
Proof. unfold other. by rw bool_decide_true. Qed.

Lemma erase_node_ids n id l :
  NoDup l.*1 → NoDup l.*2 → (n, id) ∈ l → erase_node n l = filter (λ p, other id p.2 = true) l.
Proof.
  intros Hn Hid Hin. unfold erase_node.
  assert (∀ p, p ∈ l → p.1 = n ↔ p.2 = id) as Hiff.
  { intros [m i] Hp. simpl. split; intros ->.
    - by injection (NoDup_key fst l _ _ Hn Hp Hin eq_refl).
    - by injection (NoDup_key snd l _ _ Hid Hp Hin eq_refl). }
  clear Hn Hid Hin. induction l as [|p l IH]; [done|]. simpl. rw filter_cons.
  pose proof (Hiff p ltac:(by left)) as Hp. rw IH; [|intros q Hq; apply Hiff; by right].
  destruct (p.1 =? n)%nat eqn:Heq; simpl.
  - apply Nat.eqb_eq in Heq. rw decide_False; [done|]. rw other_true. tauto.
  - apply Nat.eqb_neq in Heq. rw decide_True; [done|]. rw other_true. tauto.
Qed.


Definition without (id : string) (l : list (string * CacheEntry)) : list (string * CacheEntry) :=
  filter (λ p, other id p.1 = true) l.

Lemma NoDup_fmap_filter {A B} (f : A → B) (P : A → Prop) `{∀ x, Decision (P x)} l :
  NoDup (f <$> l) → NoDup (f <$> filter P l).
Proof.
  induction l as [|x l IH]; [done|]. csimpl. intros [Hx Hl]%NoDup_cons. rw filter_cons.
  case_decide; [|by apply IH]. csimpl. apply NoDup_cons. split; [|by apply IH].
  intros (y & Hy & [_ Hin]%list_elem_of_filter)%list_elem_of_fmap. destruct Hx. rw Hy.
  by apply list_elem_of_fmap_2.
Qed.

Lemma filter_id {A} (P : A → Prop) `{∀ x, Decision (P x)} (l : list A) :
  (∀ x, x ∈ l → P x) → filter P l = l.
Proof.
  induction l as [|x l IH]; intros Hl; [done|]. rw filter_cons decide_True; [|apply Hl; by left].
  f_equal. apply IH. intros y Hy. apply Hl. by right.
Qed.

Lemma lookup_other {A} (m : gmap string A) id i :
  delete id m !! i = if other id i then m !! i else None.
Proof.
  unfold other. case_bool_decide as Hd; [subst; apply lookup_delete_eq|]. by rw lookup_delete_ne.
Qed.

(** Part of the list and the entries it names. *)
Lemma lru_ok_filter (P : string → bool) c l m es :
  lru_ok c → l = filter (λ p, P p.2 = true) (c_lru_list c) →
  (∀ id, m !! id = if P id then c_lru_map c !! id else None) →
  (∀ id, es !! id = if P id then c_entries c !! id else None) →
  let c' := c <| c_lru_list := l |> <| c_lru_map := m |> <| c_entries := es |> in
  lru_ok c' ∧ view c' = filter (λ p, P p.1 = true) (view c).
Proof.
  intros Hok -> Hm He c'.
  assert (∀ id, id ∈ (filter (λ p, P p.2 = true) (c_lru_list c)).*2 ↔ P id = true ∧ id ∈ (c_lru_list c).*2) as Hids.
  { intros id. rw !list_elem_of_fmap. split.
    - intros (p & -> & [Hp Hin]%list_elem_of_filter). split; [done|by exists p].
    - intros [Hp (p & -> & Hin)]. exists p. split; [done|]. by apply list_elem_of_filter. }
  split; [split; cbn|].
  - apply NoDup_fmap_filter, Hok.
  - apply Forall_forall. intros p [_ Hp]%list_elem_of_filter. by eapply Forall_forall in Hp; [|apply Hok].
  - apply NoDup_fmap_filter, Hok.
  - intros id n. rw Hm list_elem_of_filter -(lo_map _ Hok). simpl. destruct (P id); naive_solver.
  - intros id. rw He Hids -(lo_dom _ Hok). destruct (P id); [naive_solver|]. split; [by intros []|naive_solver].
  - unfold view, c'. cbn. rw -view_with_filter. apply view_with_ext. intros id [Hp _]%Hids.
    by rw He Hp.
Qed.

Lemma drop_entry_ok id c :
  lru_ok c → lru_ok (drop_entry id c) ∧ view (drop_entry id c) = without id (view c).
Proof.
  intros Hok.
  assert (drop_entry id c = c <| c_lru_list := filter (λ p, other id p.2 = true) (c_lru_list c) |>
    <| c_lru_map := delete id (c_lru_map c) |> <| c_entries := delete id (c_entries c) |>) as ->.
  { unfold drop_entry, lru_drop. destruct (c_lru_map c !! id) as [n|] eqn:Hn.
    - rw -(erase_node_ids n id); [done|apply Hok..|]. by apply Hok.
    - rw (delete_id (c_lru_map c)) //. rw (_ : filter (λ p, other id p.2 = true) (c_lru_list c) = c_lru_list c); [by destruct c|].
      apply filter_id. intros [m i] Hp. apply other_true. intros Heq. simpl in Heq. subst i.
      apply (lo_map _ Hok) in Hp. by rw Hn in Hp. }
  apply (lru_ok_filter (other id) c _ (delete id (c_lru_map c)) (delete id (c_entries c)) Hok eq_refl).
  - intros i. apply lookup_other.
  - intros i. apply lookup_other.
Qed.

Lemma evictLRU_ok c :
  lru_ok c → lru_ok (evictLRU c).2 ∧ view (evictLRU c).2 = removelast (view c).
Proof.
  intros Hok. unfold evictLRU. destruct (last (c_lru_list c)) as [[n id]|] eqn:Hl.
  - apply last_Some in Hl as [l Hl]. cbn [snd].
    pose proof (lo_ids _ Hok) as Hnd. rw Hl fmap_app NoDup_app in Hnd. destruct Hnd as (_ & Hnd & _).
    assert (∀ p, p ∈ l → other id p.2 = true) as Hne.
    { intros p Hp. apply other_true. intros Heq. apply (Hnd p.2); [by apply list_elem_of_fmap_2|rw Heq; by left]. }
    assert (removelast (c_lru_list c) = filter (λ p, other id p.2 = true) (c_lru_list c)) as Hf.
    { rw Hl removelast_last filter_app filter_id //. rw filter_cons decide_False; [|by rw /= other_self].
      by rw app_nil_r. }
    rw Hf.
    destruct (lru_ok_filter (other id) c _ (delete id (c_lru_map c)) (delete id (c_entries c)) Hok eq_refl)
      as [Hok' Hv].
    { intros i. apply lookup_other. }
    { intros i. apply lookup_other. }
    split; [exact Hok'|]. etrans; [exact Hv|].
    destruct (lo_dom _ Hok id) as [_ [e He]]; [rw Hl fmap_app; apply elem_of_app; right; by left|].
    unfold view. rw Hl. unfold view_with. rw omap_app. csimpl. rw He. simpl. rw removelast_last filter_app.
    rw filter_cons decide_False; [|by rw /= other_self]. rw app_nil_r. apply filter_id.
    intros [i e'] (p & Hp & Heq)%list_elem_of_omap. destruct (c_entries c !! p.2); [|done].
    simpl in Heq. injection Heq as <- _. by apply Hne.
  - apply last_None in Hl. split; [done|]. unfold view. by rw Hl.
Qed.

Lemma push_front_ok id e c :
  lru_ok c → id ∉ (c_lru_list c).*2 →
  let c' := lru_push_front id (c <| c_entries := <[id := e]> (c_entries c) |>) in
  lru_ok c' ∧ view c' = (id, e) :: view c.
Proof.
  intros Hok Hid c'. split; [split; cbn|].
  - apply NoDup_cons. split; [|apply Hok]. intros (p & Hp & Hin)%list_elem_of_fmap.
    eapply Forall_forall in Hin; [|apply Hok]. simpl in Hin. lia.
  - constructor; [simpl; lia|]. eapply Forall_impl; [apply Hok|]. simpl. lia.
  - apply NoDup_cons. split; [done|apply Hok].
  - intros i n. rw elem_of_cons -(lo_map _ Hok). destruct (decide (id = i)) as [<-|Hne].
    + rw lookup_insert_eq. split; [intros [= <-]; by left|]. intros [[= ->]|Hm]; [done|].
      apply (lo_map _ Hok) in Hm. destruct Hid. by apply (list_elem_of_fmap_2' snd _ (n, id)).
    + rw lookup_insert_ne; [|done]. naive_solver.
  - intros i. rw elem_of_cons -(lo_dom _ Hok). destruct (decide (id = i)) as [<-|Hne].
    + rw lookup_insert_eq. naive_solver.
    + rw lookup_insert_ne; [|done]. naive_solver.
  - unfold view, c'. cbn [c_lru_list c_entries lru_push_front]. cbn. unfold view_with. csimpl.
    rw lookup_insert_eq. simpl. f_equal. apply view_with_ext. intros i Hi. rw lookup_insert_ne; [done|].
    by intros ->.
Qed.

Lemma push_back_ok id e c :
  lru_ok c → id ∉ (c_lru_list c).*2 →
  let c' := lru_push_back id (c <| c_entries := <[id := e]> (c_entries c) |>) in
  lru_ok c' ∧ view c' = view c ++ [(id, e)].
Proof.
  intros Hok Hid c'. split; [split; cbn|].
  - rw fmap_app. apply NoDup_app. split_and!; [apply Hok| |apply NoDup_singleton].
    intros n (p & -> & Hin)%list_elem_of_fmap Hn%list_elem_of_singleton.
    eapply Forall_forall in Hin; [|apply Hok]. simpl in Hin, Hn. lia.
  - apply Forall_app. split; [|apply Forall_singleton; simpl; lia].
    eapply Forall_impl; [apply Hok|]. simpl. lia.
  - rw fmap_app. apply NoDup_app. split_and!; [apply Hok| |apply NoDup_singleton].
    intros i Hi ->%list_elem_of_singleton. done.
  - intros i n. rw elem_of_app list_elem_of_singleton -(lo_map _ Hok). destruct (decide (id = i)) as [<-|Hne].
    + rw lookup_insert_eq. split; [intros [= <-]; by right|]. intros [Hm|[= ->]]; [|done].
      apply (lo_map _ Hok) in Hm. destruct Hid. by apply (list_elem_of_fmap_2' snd _ (n, id)).
    + rw lookup_insert_ne; [|done]. naive_solver.
  - intros i. rw fmap_app elem_of_app list_elem_of_singleton -(lo_dom _ Hok). destruct (decide (id = i)) as [<-|Hne].
    + rw lookup_insert_eq. naive_solver.
    + rw lookup_insert_ne; [|done]. naive_solver.
  - unfold view, c'. cbn [c_lru_list c_entries lru_push_back]. cbn. unfold view_with. rw omap_app. csimpl.
    rw lookup_insert_eq. simpl. f_equal. apply view_with_ext. intros i Hi. rw lookup_insert_ne; [done|].
    by intros ->.
Qed.


(** ** Ids *)

Lemma digit_plain n : pretty_N_char n ≠ "_"%char.
Proof. destruct n as [|p]; [done|]. by repeat (destruct p as [p|p|]; try done). Qed.

Lemma decimal_plain n s : ¬ has_char "_" s → ¬ has_char "_" (pretty_N_go n s).
Proof.
  revert s. induction (N.lt_wf_0 n) as [n _ IH]. intros s Hs.
  destruct (decide (0 < n)%N) as [Hn|Hn]; [|assert (n = 0%N) as -> by lia; by rw pretty_N_go_0].
  rw pretty_N_go_step //. apply IH; [apply N.div_lt; lia|].
  intros [Hc|Hc]%elem_of_cons; [by destruct (digit_plain (n mod 10))|done].
Qed.

Lemma to_string_plain z : ¬ has_char "_" (to_string z).
Proof.
  unfold to_string, pretty, pretty_Z, pretty, pretty_positive, pretty, pretty_N.
  assert (¬ has_char "_" "") as He by by intros ?%elem_of_nil.
  destruct z as [|p|p]; [unfold has_char; by apply (bool_decide_eq_false (_ ∈ _))| |].
  - case_decide; [done|]. by apply decimal_plain.
  - intros [Hc|Hc]%has_char_app; [by apply list_elem_of_singleton in Hc|]. revert Hc.
    case_decide; [done|]. by apply decimal_plain.
Qed.

(** The number at the end of an id. *)
Lemma makeEntryId_seq ns seq ns' seq' : makeEntryId ns seq = makeEntryId ns' seq' → seq = seq'.
Proof.
  assert (∀ a b s t : string, ¬ has_char "_" s → ¬ has_char "_" t →
    a +:+ "_" +:+ s = b +:+ "_" +:+ t → s = t) as Hsplit.
  { induction a as [|x a IH]; intros [|y b] s t Hs Ht Heq.
    - by injection Heq.
    - injection Heq as _ Heq. change ("" +:+ s) with s in Heq. destruct Hs. rw Heq. apply has_char_app. right. by left.
    - injection Heq as _ Heq. change ("" +:+ t) with t in Heq. destruct Ht. rw -Heq. apply has_char_app. right. by left.
    - injection Heq as _ Heq. by apply (IH b). }
  intros Heq%Hsplit; [|apply to_string_plain..]. by apply (inj pretty).
Qed.


(** ** Runs of one request after another *)

Section recency.
Context `{UnorderedIter} (cfg : ScConfig).

Definition live (now : Z) (l : list (string * CacheEntry)) : list (string * CacheEntry) :=
  filter (λ p, expired cfg now p.2 = false) l.

Lemma filter_ext_elem {A} (P Q : A → Prop) `{∀ x, Decision (P x)} `{∀ x, Decision (Q x)} (l : list A) :
  (∀ x, x ∈ l → P x ↔ Q x) → filter P l = filter Q l.
Proof.
  induction l as [|x l IH]; intros Hl; [done|]. rw !filter_cons.
  rw IH; [|intros y Hy; apply Hl; by right]. pose proof (Hl x ltac:(by left)).
  repeat case_decide; tauto.
Qed.

Lemma foldl_without l v :
  foldl (λ v p, without p.1 v) v l = filter (λ p, forallb (λ q : string * CacheEntry, other q.1 p.1) l = true) v.
Proof.
  revert v. induction l as [|q l IH]; intros v; [by rw filter_id|]. simpl. rw IH. unfold without.
  rw list_filter_filter. apply filter_ext_elem. intros p _. rw andb_true_iff. tauto.
Qed.

Lemma drop_all_ok l c :
  lru_ok c → let c' := foldl (λ c (p : string * CacheEntry), drop_entry p.1 c) c l in
  lru_ok c' ∧ view c' = foldl (λ v p, without p.1 v) (view c) l ∧
  c_seq_counter c' = c_seq_counter c ∧ c_put_counter c' = c_put_counter c.
Proof.
  revert c. induction l as [|p l IH]; intros c Hok; [done|]. simpl.
  destruct (drop_entry_ok p.1 c Hok) as [Hok' Hv]. destruct (IH _ Hok') as (H1 & H2 & H3 & H4).
  split_and!; [done| |rw H3|rw H4]; [by rw H2 Hv|..]; unfold drop_entry, lru_drop; by destruct (_ !! p.1).
Qed.

Lemma evictExpired_ok now c :
  lru_ok c → let c' := (evictExpiredLocked cfg now c).2 in
  lru_ok c' ∧ view c' = live now (view c) ∧
  c_seq_counter c' = c_seq_counter c ∧ c_put_counter c' = c_put_counter c.
Proof.
  intros Hok. unfold evictExpiredLocked. cbn [snd].
  set (old := List.filter _ _). destruct (drop_all_ok old c Hok) as (H1 & H2 & H3 & H4).
  split_and!; [done| |done|done]. rw H2 foldl_without. apply filter_ext_elem. intros [id e] Hin.
  apply view_lookup in Hin; [|done]. rw forallb_forall. simpl. split.
  - intros Ho. destruct (expired cfg now e) eqn:He; [|done].
    assert (other id id = true) as Hs; [|by rw other_self in Hs]. apply (Ho (id, e)).
    apply filter_In. split; [|done]. apply list_elem_of_In. by apply elem_of_iter.
  - intros He [i e'] [Hi He']%filter_In. simpl in *. apply other_true. intros ->.
    apply list_elem_of_In, elem_of_iter in Hi. rw Hin in Hi. injection Hi as <-. by rw He in He'.
Qed.

(** What is left when [put] has made room. *)
Definition room (now put_counter : Z) (l : list (string * CacheEntry)) : list (string * CacheEntry) :=
  let l := if (put_counter + 1) mod kEvictInterval =? 0 then live now l else l in
  if sc_max_entries cfg <=? Z.of_nat (length l) then removelast l else l.

Lemma room_incl now n l p : p ∈ room now n l → p ∈ l.
Proof.
  unfold room. intros Hp.
  assert (p ∈ if (n + 1) mod kEvictInterval =? 0 then live now l else l) as Hl.
  { destruct (sc_max_entries cfg <=? _); [|done]. rw removelast_firstn_len in Hp.
    by eapply elem_of_take in Hp as (? & Hp & _); apply list_elem_of_lookup; eexists. }
  destruct (_ =? 0); [|done]. by apply list_elem_of_filter in Hl as [_ Hl].
Qed.

Lemma make_room_ok ns now c :
  lru_ok c → c_entries c !! makeEntryId ns (c_seq_counter c) = None →
  let '((id, removed), c') := make_room cfg ns now c in
  lru_ok c' ∧ view c' = room now (c_put_counter c) (view c) ∧ id = makeEntryId ns (c_seq_counter c) ∧
  id ∉ (c_lru_list c').*2 ∧ c_seq_counter c' = u64 (c_seq_counter c + 1).
Proof.
  intros Hok Hfree. unfold make_room.
  set (c0 := c <| c_put_counter := c_put_counter c + 1 |>).
  assert (lru_ok c0) as Hok0 by (destruct Hok; by split).
  set (step1 := if _ =? 0 then _ else _).
  assert (lru_ok step1.2 ∧ view step1.2 = (if (c_put_counter c + 1) mod kEvictInterval =? 0
    then live now (view c) else view c) ∧ c_seq_counter step1.2 = c_seq_counter c ∧
    c_put_counter step1.2 = c_put_counter c + 1) as (H1 & H2 & H3 & H4).
  { unfold step1. change (c_put_counter c0) with (c_put_counter c + 1).
    destruct (_ =? 0); [|done]. apply (evictExpired_ok now c0 Hok0). }
  destruct step1 as [removed c1]. simpl in *.
  set (step2 := if _ <=? _ then _ else _).
  assert (lru_ok step2.2 ∧ view step2.2 = room now (c_put_counter c) (view c) ∧
    c_seq_counter step2.2 = c_seq_counter c ∧ c_put_counter step2.2 = c_put_counter c + 1)
    as (G1 & G2 & G3 & G4).
  { subst step2. unfold room, cache_size. rw (view_size c1 H1) H2.
    destruct (sc_max_entries cfg <=? _); [|by split_and!].
    destruct (evictLRU_ok c1 H1) as [E1 E2]. split_and!; [done|by rw E2 H2|..];
      unfold evictLRU; by destruct (last _) as [[]|]. }
  destruct step2 as [removed' c2]. simpl in *.
  split_and!; [by destruct G1|exact G2|by rw G3| |by rw G3].
  cbn. rw -view_ids // G2 G3. intros (p & Hp & Hin)%list_elem_of_fmap. apply room_incl in Hin.
  destruct p as [i e]. simpl in Hp. subst i. apply view_lookup in Hin; [|done]. by rw Hfree in Hin.
Qed.

End recency.


Section runs.
Context `{UnorderedIter} {V VS : Type} (embed : string → V) (hash : string → Z).
Context (dump : json → option string) (cfg : ScConfig).
Context (search : VS → string → V → float32 → list (string * float32)).
Context (search_all : VS → V → float32 → list (string * float32)).
Context (insert_vec : VS → string → string → V → bool * VS).
Context (remove_vec : VS → string → string → VS).
Notation exec := (exec search search_all insert_vec remove_vec).
Notation get := (get embed cfg).
Notation put := (put embed hash dump cfg).

Definition forget (vs : VS) (removed : list (string * string)) : VS :=
  foldl (λ vs p, remove_vec vs p.2 p.1) vs removed.

Lemma run_remove_all l (w : World) :
  (run exec (remove_all l) w).2 = with_vectors (forget (w_vectors w) l) w.
Proof.
  revert w. induction l as [|p l IH]; intros w; [by destruct w|].
  change (run exec (remove_all (p :: l)) w) with
    (run exec (remove_all (V := V) l) (with_vectors (remove_vec (w_vectors w) p.2 p.1) w)). by rw IH.
Qed.

(** A lookup of a found id in the recency list. *)
Definition looked (now : Z) (model pk id : string) (score : float32) (l : list (string * CacheEntry)) :
    option CacheHit * list (string * CacheEntry) :=
  match snd <$> head (filter (λ p, p.1 = id) l) with
  | None => (None, l)
  | Some e =>
      if expired cfg now e then (None, without id l)
      else if other_model model e || negb (bool_decide (e_partition_key e = pk)) then (None, l)
      else (Some {| hit_response := e_response e; hit_prompt := e_prompt e; hit_similarity := score |},
            (id, e <| e_last_accessed := now |>) :: without id l)
  end.

Lemma view_find c id : lru_ok c → snd <$> head (filter (λ p, p.1 = id) (view c)) = c_entries c !! id.
Proof.
  intros Hok. destruct (head (filter (λ p, p.1 = id) (view c))) as [[i e]|] eqn:Hh.
  - apply head_Some_elem_of in Hh. apply list_elem_of_filter in Hh as [<- Hin]. simpl.
    symmetry. by apply view_lookup.
  - apply head_None in Hh. destruct (c_entries c !! id) as [e|] eqn:He; [|done].
    apply view_lookup in He; [|done]. assert ((id, e) ∈ filter (λ p, p.1 = id) (view c)) as Hin
      by by apply list_elem_of_filter. rw Hh in Hin. by apply elem_of_nil in Hin.
Qed.

Lemma examine_ok id score model pk now c :
  lru_ok c →
  let r := examine cfg id score model pk now c in
  lru_ok r.2 ∧ ((match r.1 with Hit h => Some h | _ => None end), view r.2) =
    looked now model pk id score (view c).
Proof.
  intros Hok. unfold examine, looked. rw view_find //.
  destruct (c_entries c !! id) as [e|] eqn:He; [|done].
  destruct (expired cfg now e).
  { destruct (drop_entry_ok id c Hok) as [Ho Hv]. split; [exact Ho|]. cbn [fst snd]. by rw Hv. }
  destruct (other_model model e); [done|]. destruct (bool_decide _); [|done]. cbn [negb orb fst snd].
  destruct (drop_entry_ok id c Hok) as [Hok' Hv].
  set (e' := e <| e_last_accessed := now |>).
  assert (id ∈ (c_lru_list c).*2) as Hin by (apply (lo_dom _ Hok); by eexists).
  assert (lru_touch id c <| c_entries := <[id := e']> (c_entries (lru_touch id c)) |> =
    lru_push_front id (drop_entry id c <| c_entries := <[id := e']> (c_entries (drop_entry id c)) |>)) as Heq.
  { apply list_elem_of_fmap in Hin as ([n i] & -> & Hin). apply (lo_map _ Hok) in Hin. simpl in *.
    unfold lru_touch, drop_entry, lru_drop. rw Hin. unfold lru_push_front. cbn.
    by rw !insert_delete_eq. }
  cbn [c_entries] in Heq. rw Heq.
  destruct (push_front_ok id e' (drop_entry id c) Hok') as [H1 H2].
  - rw -view_ids // Hv. unfold without. intros (p & Hp & [Ho _]%list_elem_of_filter)%list_elem_of_fmap.
    rw -Hp other_self in Ho. done.
  - split; [exact H1|]. by rw H2 Hv.
Qed.

Lemma examine_rest id score model pk now c :
  lru_ok c →
  let r := examine cfg id score model pk now c in
  c_seq_counter r.2 = c_seq_counter c ∧
  (match r.1 with Expired => true | _ => false end) = from_option (expired cfg now) false (snd <$> head (filter (λ p, p.1 = id) (view c))).
Proof.
  intros Hok. rw view_find //. unfold examine. destruct (c_entries c !! id) as [e|]; [|done].
  cbn [from_option]. destruct (expired cfg now e).
  { split; [|done]. unfold drop_entry, lru_drop. by destruct (c_lru_map c !! id). }
  destruct (other_model model e); [done|]. destruct (bool_decide _); [|done]. split; [|done].
  cbn. unfold lru_touch. by destruct (c_lru_map c !! id).
Qed.

(** The counters around a lookup leave the list alone. *)
Definition same_list (c c' : Cache) : Prop :=
  (lru_ok c → lru_ok c') ∧ view c' = view c ∧ c_seq_counter c' = c_seq_counter c.

Definition with_cache (c : Cache) (w : World (VS := VS)) : World :=
  {| w_cache := c; w_store := w_store w; w_vectors := w_vectors w; w_now := w_now w |}.

Lemma run_recordHitMiss {A} is_hit sim (k : unit → prog (ScCmd V) A) (w : World) :
  ∃ c, run exec (recordHitMiss cfg is_hit sim ≫= k) w = run exec (k tt) (with_cache c w) ∧
    same_list (w_cache w) c.
Proof.
  unfold recordHitMiss. destruct (ad_enabled _).
  - rw run_call. eexists. split; [done|].
    split; [|cbn; by destruct (_ =? _)%nat]. intros []. split; cbn; by destruct (_ =? _)%nat.
  - exists (w_cache w). split; [by destruct w|done].
Qed.

Lemma room_length now n l :
  Z.of_nat (length l) <= Z.max 1 (sc_max_entries cfg) →
  Z.of_nat (length (room cfg now n l)) + 1 <= Z.max 1 (sc_max_entries cfg).
Proof.
  intros Hl. unfold room.
  assert (∀ l' : list (string * CacheEntry), (length l' <= length l)%nat →
    Z.of_nat (length (if sc_max_entries cfg <=? Z.of_nat (length l') then removelast l' else l')) + 1
    <= Z.max 1 (sc_max_entries cfg)) as Hr.
  { intros l' Hl'. destruct (sc_max_entries cfg <=? _) eqn:Hm; [|apply Z.leb_gt in Hm; lia].
    rw removelast_firstn_len length_take. destruct l' as [|x l']; simpl in *; lia. }
  destruct (_ =? 0); apply Hr; [apply length_filter|done].
Qed.

(** The id that the next answer gets. *)
Definition next_id (model : string) (c : Cache) : string :=
  makeEntryId (makeNamespace hash model) (c_seq_counter c).

Lemma numbered_free model c :
  numbered c → c_entries c !! next_id model c = None.
Proof.
  intros Hn. destruct (c_entries c !! next_id model c) eqn:He; [|done].
  destruct (Hn (next_id model c)) as (ns & seq & Heq%makeEntryId_seq & Hs); [by rw He|]. lia.
Qed.

Lemma run_put (w : World (VS := VS)) prompt response model pk :
  lru_ok (w_cache w) → c_entries (w_cache w) !! next_id model (w_cache w) = None →
  let w' := (run exec (put prompt response model pk) w).2 in
  let kept := room cfg (w_now w) (c_put_counter (w_cache w)) (view (w_cache w)) in
  let id := next_id model (w_cache w) in
  lru_ok (w_cache w') ∧ c_seq_counter (w_cache w') = u64 (c_seq_counter (w_cache w) + 1) ∧
  ∃ removed, view (w_cache w') =
    if (insert_vec (forget (w_vectors w) removed) pk id (embed prompt)).1
    then (id, {| e_id := id; e_prompt := prompt; e_response := response; e_model := model;
                 e_partition_key := pk; e_created_at := w_now w; e_last_accessed := w_now w |}) :: kept
    else kept.
Proof.
  intros Hok Hfree. unfold SemanticCache.put. rw run_call. cbn [exec update locked].
  set (c1 := w_cache w <| c_puts := _ |>).
  assert (lru_ok c1) as Hok1 by (destruct Hok; by split).
  rw run_call. cbn.
  pose proof (make_room_ok cfg (makeNamespace hash model) (w_now w) c1 Hok1 Hfree) as Hroom.
  destruct (make_room cfg (makeNamespace hash model) (w_now w) c1) as [[id removed] c2].
  destruct Hroom as (Hok2 & Hv & -> & Hfresh & Hs). cbn.
  set (w2 := {| w_cache := c2; w_store := w_store w; w_vectors := w_vectors w; w_now := w_now w |}).
  pose proof (run_remove_all removed w2) as Hrm. rw run_bind.
  destruct (run exec (remove_all removed) w2) as [[] w3]. simpl in Hrm. subst w3. cbn.
  change (c_seq_counter c1) with (c_seq_counter (w_cache w)) in *.
  fold (next_id model (w_cache w)) in *. set (id := next_id model (w_cache w)) in *.
  destruct (insert_vec (forget (w_vectors w) removed) pk id (embed prompt)) as [[|] vs] eqn:Hins; cbn.
  - set (e := {| e_id := id |}). destruct (push_front_ok id e c2 Hok2 Hfresh) as [H1 H2].
    split; [exact H1|]. split; [exact Hs|]. exists removed. rw Hins. cbn. etrans; [exact H2|]. by rw Hv.
  - split; [exact Hok2|]. split; [exact Hs|]. exists removed. rw Hins. exact Hv.
Qed.

(** What a lookup finds in the partitions of all tenants, where they share. *)
Definition shared (vs : VS) (now : Z) (prompt model : string) (l : list (string * CacheEntry)) :
    option CacheHit :=
  if ct_enabled (sc_cross_tenant cfg) then
    match search_all vs (embed prompt) (ct_min_similarity (sc_cross_tenant cfg)) with
    | [] => None
    | (id, score) :: _ =>
        e ← snd <$> head (filter (λ p, p.1 = id) l);
        if expired cfg now e || other_model model e then None
        else Some {| hit_response := e_response e; hit_prompt := e_prompt e; hit_similarity := score |}
    end
  else None.

(** An expired id leaves the vector store as well. *)
Definition swept (vs : VS) (now : Z) (pk : string) (found : option string) (l : list (string * CacheEntry)) : VS :=
  match found with
  | Some id =>
      if bool_decide (id ≠ "") && from_option (expired cfg now) false (snd <$> head (filter (λ p, p.1 = id) l))
      then remove_vec vs pk id else vs
  | None => vs
  end.

(** A miss of the own partition, then the others. *)
Lemma run_missed (w : World (VS := VS)) sim prompt model :
  lru_ok (w_cache w) →
  let '(r, w') := run exec (call (update (λ c, c <| c_misses := c_misses c + 1 |>));;
    recordHitMiss cfg false sim;;
    if ct_enabled (sc_cross_tenant cfg) then getCrossTenant embed cfg prompt model else Ret None) w in
  lru_ok (w_cache w') ∧ c_seq_counter (w_cache w') = c_seq_counter (w_cache w) ∧
  w_vectors w' = w_vectors w ∧
  (r, view (w_cache w')) = (shared (w_vectors w) (w_now w) prompt model (view (w_cache w)), view (w_cache w)).
Proof.
  intros Hok. rw run_call. cbn [SemanticCache.exec update locked fst snd].
  set (w1 := {| w_cache := _; w_store := _; w_vectors := _; w_now := _ |}).
  assert (same_list (w_cache w) (w_cache w1)) as (Hl & Hv & Hs) by (split_and!; [intros []; by split|done..]).
  match goal with |- context [run _ (recordHitMiss _ _ _ ≫= ?k) _] =>
    destruct (run_recordHitMiss false sim k w1) as (c & -> & Hl' & Hv' & Hs') end.
  assert (lru_ok c) as Hc by by apply Hl', Hl. rw Hs in Hs'. rw Hv in Hv'.
  unfold shared. destruct (ct_enabled _); [|cbn; by rw Hs' Hv'].
  unfold getCrossTenant. rw run_call. cbn [SemanticCache.exec fst snd w_vectors with_cache].
  destruct (search_all _ _ _) as [|[id score] results]; [cbn; by rw Hs' Hv'|].
  rw run_call. cbn [SemanticCache.exec locked fst snd w_now w_cache w_store with_cache w_vectors w1].
  rw -Hv' view_find //. destruct (c_entries c !! id) as [e|]; cbn; [|by rw Hs'].
  destruct (_ || _); cbn; by rw Hs'.
Qed.

Lemma run_get (w : World (VS := VS)) prompt model pk scoped :
  lru_ok (w_cache w) →
  let l := view (w_cache w) in
  let results := search (w_vectors w) pk (embed prompt) (c_threshold (w_cache w)) in
  let vs := swept (w_vectors w) (w_now w) pk (fst <$> head results) l in
  let '(r, w') := run exec (get prompt model pk scoped) w in
  lru_ok (w_cache w') ∧ c_seq_counter (w_cache w') = c_seq_counter (w_cache w) ∧ w_vectors w' = vs ∧
  (r, view (w_cache w')) =
    match results with
    | [] => (shared vs (w_now w) prompt model l, l)
    | (id, score) :: _ =>
        match looked (w_now w) model pk id score l with
        | (Some h, l') => (Some h, l')
        | (None, l') => (shared vs (w_now w) prompt model l', l')
        end
    end.
Proof.
  intros Hok. cbv zeta. unfold SemanticCache.get. do 2 (rw run_call; cbn [SemanticCache.exec locked fst snd]).
  cbn [w_vectors w_cache]. destruct (search _ _ _ _) as [|[id score] results].
  - apply (run_missed {| w_cache := w_cache w; w_store := w_store w; w_vectors := w_vectors w; w_now := w_now w |}).
    done.
  - rw run_call. cbn [SemanticCache.exec locked w_now w_cache w_store w_vectors head fmap option_fmap option_map fst].
    destruct (examine_ok id score model pk (w_now w) (w_cache w) Hok) as [Hok1 Hlook].
    destruct (examine_rest id score model pk (w_now w) (w_cache w) Hok) as [Hseq Hexp]. cbn [swept]. rw -Hexp.
    destruct (examine cfg id score model pk (w_now w) (w_cache w)) as [f c1]. cbn [fst snd] in *.
    rw -Hlook -Hseq. clear Hlook Hseq Hexp.
    set (vs := if _ && _ then _ else _).
    match goal with |- context [run _ (when_ ?b (call ?e) ≫= ?k) ?w1] =>
      assert (run exec (when_ b (call e) ≫= k) w1 = run exec (k tt) (with_vectors vs w1)) as -> end.
    { subst vs. unfold str_empty. destruct f; cbn; try (by rw andb_false_r); by destruct id. }
    destruct f as [h| |].
    + do 2 (rw run_call; cbn [SemanticCache.exec update locked fst snd]).
      match goal with |- context [run _ (recordHitMiss _ _ _ ≫= ?k) ?w1] =>
        destruct (run_recordHitMiss true score k w1) as (c & -> & Hl & Hv & Hs) end.
      cbn in *. rw Hv Hs. destruct Hok1. destruct (classifyHitType _ _); split_and!; try done; apply Hl; by split.
    + apply run_missed. done.
    + apply run_missed. done.
Qed.

(** *** Restoring and clearing *)

(** A persisted entry as [warmUp] takes it back. *)
Definition restored (parse : string → option json) (w : World (VS := VS)) (p : string * CacheEntry) : Prop :=
  ∃ key text e, w_store w !! key = Some text ∧ persisted parse text = Some e ∧
    p = (e_id e, e <| e_created_at := w_now w |> <| e_last_accessed := w_now w |>).

Lemma adopt_ok e now c :
  lru_ok c →
  let '(b, c') := adopt cfg e now c in
  lru_ok c' ∧ c_seq_counter c' = c_seq_counter c ∧
  if b then Z.of_nat (length (view c)) < sc_max_entries cfg ∧
    view c' = view c ++ [(e_id e, e <| e_created_at := now |> <| e_last_accessed := now |>)]
  else view c' = view c.
Proof.
  intros Hok. unfold adopt, cache_size. rw view_size //. destruct (c_entries c !! e_id e) eqn:He; [done|].
  destruct (_ <? _) eqn:Hm; [|done]. apply Z.ltb_lt in Hm.
  destruct (push_back_ok (e_id e) (e <| e_created_at := now |> <| e_last_accessed := now |>) c Hok) as [H1 H2].
  { rw -(lo_dom _ Hok) He. by intros []. }
  by split_and!.
Qed.

Lemma run_warm parse keys loaded (w : World (VS := VS)) :
  lru_ok (w_cache w) →
  let '(n, w') := run exec (warm embed parse cfg keys loaded) w in
  ∃ new, lru_ok (w_cache w') ∧ c_seq_counter (w_cache w') = c_seq_counter (w_cache w) ∧
    view (w_cache w') = view (w_cache w) ++ new ∧ n = loaded + Z.of_nat (length new) ∧
    Forall (restored parse w) new ∧
    (new = [] ∨ Z.of_nat (length (view (w_cache w'))) <= sc_max_entries cfg).
Proof.
  revert loaded w. induction keys as [|key keys IH]; intros loaded w Hok.
  { exists []. rw app_nil_r. cbn. split_and!; [done..|lia|done|by left]. }
  cbn [warm]. rw run_call. cbn [SemanticCache.exec fst snd].
  destruct (_ ≫= _) as [e|] eqn:He; [|by apply IH].
  rw run_call. cbn [SemanticCache.exec locked].
  pose proof (adopt_ok e (w_now w) (w_cache w) Hok) as Ha.
  destruct (adopt cfg e (w_now w) (w_cache w)) as [b c]. destruct Ha as (Hok1 & Hs & Hv). cbn [fst snd].
  destruct b.
  - rw run_call. cbn [SemanticCache.exec w_cache w_store w_vectors w_now].
    destruct (insert_vec _ _ _ _) as [b vs]. cbn [fst snd].
    set (w1 := with_vectors _ _). specialize (IH (loaded + 1) w1 Hok1).
    destruct (run exec (warm embed parse cfg keys (loaded + 1)) w1) as [n w'].
    destruct IH as (new & H1 & H2 & H3 & H4 & H5 & H6). destruct Hv as [Hm Hv].
    set (p := (e_id e, e <| e_created_at := w_now w |> <| e_last_accessed := w_now w |>)) in *.
    change (w_cache w1) with c in *. exists (p :: new).
    split_and!; [done|by rw H2|by rw H3 Hv -app_assoc|simpl; lia| |].
    + apply Forall_cons. split; [|exact H5]. destruct (w_store w !! key) as [text|] eqn:Ht; [|done].
      simpl in He. destruct (_ <? _); [done|]. by exists key, text, e.
    + right. destruct H6 as [->|H6]; [|done]. rw H3 Hv !length_app /=. lia.
  - specialize (IH loaded {| w_cache := c; w_store := w_store w; w_vectors := w_vectors w; w_now := w_now w |} Hok1).
    cbn [w_cache] in IH. rw Hv Hs in IH. exact IH.
Qed.

Lemma numbered_incl (c c' : Cache) id :
  lru_ok c → lru_ok c' → numbered c → c_seq_counter c <= c_seq_counter c' →
  (∃ ns seq, id = makeEntryId ns seq ∧ 0 <= seq < c_seq_counter c') →
  (∀ p, p ∈ view c' → p.1 = id ∨ p.1 ∈ (view c).*1) → numbered c'.
Proof.
  intros Hok Hok' Hn Hle Hid Hsub i [e He].
  apply view_lookup in He; [|done]. destruct (Hsub _ He) as [Hi|Hin]; [simpl in Hi; by subst i|]. simpl in Hin.
  rw view_ids // -(lo_dom _ Hok) in Hin. destruct (Hn i Hin) as (ns & seq & -> & Hs). exists ns, seq.
  split; [done|lia].
Qed.

Lemma numbered_kept (c c' : Cache) :
  lru_ok c → lru_ok c' → numbered c → c_seq_counter c' = c_seq_counter c →
  (∀ p, p ∈ view c' → p.1 ∈ (view c).*1) → numbered c'.
Proof.
  intros Hok Hok' Hn Heq Hsub i [e He]. apply view_lookup in He; [|done].
  apply Hsub in He. simpl in He. rw view_ids // -(lo_dom _ Hok) in He. rw Heq. by apply Hn.
Qed.

Lemma looked_incl now model pk id score l p :
  p ∈ (looked now model pk id score l).2 → p.1 ∈ l.*1.
Proof.
  unfold looked. destruct (head (filter _ l)) as [[i e]|] eqn:Hh; cbn; [|apply list_elem_of_fmap_2].
  apply head_Some_elem_of, list_elem_of_filter in Hh as [Hi Hin]. simpl in Hi. subst i.
  assert (∀ q, q ∈ without id l → q.1 ∈ l.*1) as Hw.
  { intros q [_ Hq]%list_elem_of_filter. by apply list_elem_of_fmap_2. }
  destruct (expired _ _ _); [apply Hw|]. destruct (_ || _); [apply list_elem_of_fmap_2|].
  intros [->|Hp]%elem_of_cons; [by apply (list_elem_of_fmap_2' fst _ (id, e))|by apply Hw].
Qed.

(** A cache within its limit. *)
Definition bounded (c : Cache) : Prop := Z.of_nat (length (view c)) <= Z.max 1 (sc_max_entries cfg).

(** C40. The cache is a list by recency with a limit, for operations that follow
    one another.  A stored answer goes to the front, once the expired entries
    are gone (at every hundredth call) and the least recently used one where
    the limit is reached; an answer the vector store refuses is not kept.  This
    holds while the id that the answer gets is not held already: always, until
    [warmUp] has restored the ids of an earlier process, and then for the ids
    that were not restored ([restart_overwrites] shows the others).  A lookup
    answers with the entry that the vector store names, if it is neither expired
    nor of another model or partition, and moves it to the front; an expired one
    leaves the cache and the vector store.  Where the tenants share, a miss is
    answered with the first entry named among all partitions, which stays where
    it is.  [warmUp] appends entries of the store at the back while there is
    room.  Nothing else changes, and no operation exceeds the limit.  (Insertions
    that overlap can exceed it: [concurrent_puts_exceed].) *)
Theorem cache_recency parse (w : World (VS := VS)) :
  lru_ok (w_cache w) →
  let c := w_cache w in
  let l := view c in
  (∀ prompt response model pk,
    let id := next_id model c in
    numbered c ∨ c_entries c !! id = None →
    let c' := w_cache (run exec (put prompt response model pk) w).2 in
    let kept := room cfg (w_now w) (c_put_counter c) l in
    lru_ok c' ∧ (bounded c → bounded c') ∧ (numbered c ∧ 0 <= c_seq_counter c < 2 ^ 64 - 1 → numbered c') ∧
    ∃ removed, view c' =
      if (insert_vec (forget (w_vectors w) removed) pk id (embed prompt)).1
      then (id, {| e_id := id; e_prompt := prompt; e_response := response; e_model := model;
                   e_partition_key := pk; e_created_at := w_now w; e_last_accessed := w_now w |}) :: kept
      else kept) ∧
  (∀ prompt model pk scoped,
    let results := search (w_vectors w) pk (embed prompt) (c_threshold c) in
    let vs := swept (w_vectors w) (w_now w) pk (fst <$> head results) l in
    let '(r, w') := run exec (get prompt model pk scoped) w in
    lru_ok (w_cache w') ∧ (numbered c → numbered (w_cache w')) ∧ w_vectors w' = vs ∧
    (r, view (w_cache w')) =
      match results with
      | [] => (shared vs (w_now w) prompt model l, l)
      | (id, score) :: _ =>
          match looked (w_now w) model pk id score l with
          | (Some h, l') => (Some h, l')
          | (None, l') => (shared vs (w_now w) prompt model l', l')
          end
      end) ∧
  (let '(n, w') := run exec (warmUp embed parse cfg) w in
   ∃ new, lru_ok (w_cache w') ∧ view (w_cache w') = l ++ new ∧ n = Z.of_nat (length new) ∧
     Forall (restored parse w) new ∧ (bounded c → bounded (w_cache w'))).
Proof.
  intros Hok c l. split_and!.
  - intros prompt response model pk id Hfree.
    assert (c_entries c !! id = None) as Hnone by (destruct Hfree; [by apply numbered_free|done]).
    destruct (run_put w prompt response model pk Hok Hnone) as (Hok' & Hs & removed & Hv). cbv zeta in *.
    fold c l id in Hv, Hs. split_and!; [done| | |by exists removed].
    + intros Hl. pose proof (room_length (w_now w) (c_put_counter c) l Hl). unfold bounded. rw Hv.
      destruct (insert_vec _ _ _ _).1; simpl; lia.
    + intros [Hn Hc]. rw u64_id in Hs; [|lia]. apply (numbered_incl c _ id); [done..|lia| |].
      * exists (makeNamespace hash model), (c_seq_counter c). split; [done|lia].
      * rw Hv. intros p Hp. destruct (insert_vec _ _ _ _).1; [apply elem_of_cons in Hp as [->|Hp]; [by left|]|];
          right; apply list_elem_of_fmap_2; by eapply room_incl.
  - intros prompt model pk scoped results vs. pose proof (run_get w prompt model pk scoped Hok) as Hg.
    cbv zeta in Hg. fold c l results vs in Hg. destruct (run exec _ w) as [r w'].
    destruct Hg as (Hok' & Hs & Hvs & Hr). split_and!; [done| |done|done]. intros Hn.
    apply (numbered_kept c); [done..|]. fold l. intros p.
    assert (view (w_cache w') = l ∨ ∃ id score, view (w_cache w') = (looked (w_now w) model pk id score l).2) as Hv.
    { destruct results as [|[id score] ?]; [by left; injection Hr|right; exists id, score].
      destruct (looked _ _ _ _ _ _) as [[h|] l']; by injection Hr. }
    destruct Hv as [->|(id & score & ->)]; [apply list_elem_of_fmap_2|apply looked_incl].
  - unfold warmUp. destruct (sc_store cfg).
    + rw run_call. cbn [SemanticCache.exec fst snd].
      match goal with |- context [warm _ _ _ ?ks _] => pose proof (run_warm parse ks 0 w Hok) as Hw end.
      destruct (run exec (warm _ _ _ _ _) w) as [n w']. destruct Hw as (new & H1 & H2 & H3 & H4 & H5 & H6).
      exists new. split_and!; [done..|lia|done|]. intros Hb. unfold bounded in *. destruct H6 as [->|H6]; [|lia].
      by rw H3 app_nil_r.
    + exists []. rw app_nil_r. by split_and!.
Qed.
End runs.



(** ** Runs *)

(** A vector store that finds equal prompts. *)
Notation Vectors := (list (string * string * string)).
Definition toy_search (vs : Vectors) (pk q : string) (thr : float32) : list (string * float32) :=
  omap (λ '(p, id, v), if decide (p = pk ∧ v = q) then Some (id, f32 1) else None) vs.
Definition toy_search_all (vs : Vectors) (q : string) (thr : float32) : list (string * float32) := [].
Definition toy_insert (vs : Vectors) (pk id v : string) : bool * Vectors := (true, (pk, id, v) :: vs).
Definition toy_remove (vs : Vectors) (pk id : string) : Vectors :=
  List.filter (λ '(p, i, _), negb (bool_decide (p = pk ∧ i = id))) vs.
Definition toy_exec : ∀ B, ScCmd string B → World (VS := Vectors) → B * World :=
  exec toy_search toy_search_all toy_insert toy_remove.

Definition toy_sha256 (s : string) : string := "h" +:+ s.
Definition toy_hash (s : string) : Z := 7.

Definition toy_cfg (max : Z) : ScConfig :=
  {| sc_ttl := 3600; sc_max_entries := max; sc_store := true; sc_context_aware := false;
     sc_hash := {| hash_mode := HashNone; hash_window := 4 |};
     sc_policy := {| po_enabled := false; po_skip_models := []; po_max_temperature := 1;
                     po_skip_streaming := false |};
     sc_adaptive := {| ad_enabled := false; ad_min_threshold := f32 0; ad_max_threshold := f32 1;
                       ad_adjustment_rate := f32 0; ad_window_size := 1; ad_target_low := f32 0;
                       ad_target_high := f32 1 |};
     sc_cross_tenant := {| ct_enabled := false; ct_min_similarity := f32 1 |} |}.

Definition toy_messages : list Message :=
  [{| m_role := "user"; m_content := "hello"; m_content_parts := JNull; m_tool_calls := [];
      m_tool_call_id := ""; m_name := "" |}].

Definition toy_ctx (tenant model : string) : RequestContext unit :=
  {| x_request_id := "r"; x_api_key := "k"; x_tenant_id := tenant;
     x_chat_request := {| cr_model := model; cr_messages := toy_messages; cr_temperature := None;
       cr_max_tokens := None; cr_stream := false; cr_extra := JNull; cr_tools := JNull;
       cr_tool_choice := JNull; cr_metadata := None |};
     x_target_model := ""; x_cache_hit := false; x_cached_response := "";
     x_token_usage := no_usage; x_start_time := 0; x_accumulated_response := "";
     x_stream_model := ""; x_is_streaming := false; x_chunk_output := ""; x_auth_context := None;
     x_ab_experiment := ""; x_ab_variant := ""; x_normalized_messages := [];
     x_input_preprocessed := false; x_image_scan_messages := []; x_tokens_estimated := 0;
     x_tokens_saved_compression := 0; x_accumulated_tool_calls := JNull; x_has_tools := false;
     x_stream_rejected := false; x_reject_stage := ""; x_response_headers := ∅;
     x_request_headers := ∅; x_rest := tt |}.

(** The answer stored for [acme], and its persisted text. *)
Definition toy_entry : CacheEntry :=
  {| e_id := "ns_7_0"; e_prompt := "hello"; e_response := "hi"; e_model := "m1";
     e_partition_key := toy_sha256 (key_blob "acme" "" "" ""); e_created_at := 0; e_last_accessed := 0 |}.

Definition toy_members (j : json) : list (option string) :=
  (λ k, json_member k j ≫= as_string) <$> ["id"; "prompt"; "response"; "model"; "partition_key"].
Definition toy_dump (j : json) : option string :=
  if decide (toy_members j = toy_members (entry_json toy_entry)) then Some "{entry}" else None.
Definition toy_parse (s : string) : option json :=
  if decide (s = "{entry}") then Some (entry_json toy_entry)
  else if decide (s = "[hello]") then Some (JArray [json_of_list [("prompt", JString "hello");
    ("response", JString "hi")]])
  else None.

Lemma toy_dump_parse e text : toy_dump (entry_json e) = Some text → toy_parse text = Some (entry_json e).
Proof.
  unfold toy_dump. destruct (decide _) as [Hm|]; [|done]. intros [= <-].
  change (Some (entry_json toy_entry) = Some (entry_json e)).
  change ([Some (e_id e); Some (e_prompt e); Some (e_response e); Some (e_model e); Some (e_partition_key e)] =
    [Some (e_id toy_entry); Some (e_prompt toy_entry); Some (e_response toy_entry); Some (e_model toy_entry);
     Some (e_partition_key toy_entry)]) in Hm.
  injection Hm as H1 H2 H3 H4 H5. unfold entry_json. by rw H1 H2 H3 H4 H5.
Qed.

Definition toy_world : World (VS := Vectors) :=
  {| w_cache := empty_cache (f32_lit 9 10); w_store := ∅; w_vectors := []; w_now := 5 |}.

Definition toy_owner (tenant response : string) : Prop := tenant = "acme" ∧ response = "hi".

Definition toy_put (tenant model : string) : prog (ScCmd string) (option (string * string)) :=
  putFromContext id toy_sha256 toy_hash toy_dump (toy_cfg 1) None toy_messages "hi" model tenant "";;
  Ret None.
Definition toy_lookup (tenant model : string) : prog (ScCmd string) (option (string * string)) :=
  r ← process id toy_sha256 toy_hash (toy_cfg 1) None None (toy_ctx tenant model);
  Ret (if decide (r.1 = ShortCircuit) then Some (tenant, x_cached_response r.2) else None).

Definition toy_pool : list (prog (ScCmd string) (option (string * string))) * World :=
  run_sched toy_exec (replicate 10 0%nat ++ replicate 10 1%nat) [toy_put "acme" "m1"; toy_lookup "acme" "m1"]
    toy_world.

Lemma toy_pool_serves : toy_pool.1 = [Ret None; Ret (Some ("acme", "hi"))].
Proof. vm_compute. reflexivity. Qed.

Lemma no_us s : bool_decide ("031"%char ∈ String.list_ascii_of_string s) = false → ¬ has_char "031" s.
Proof. apply bool_decide_eq_false. Qed.

Lemma cache_isolation_witness : toy_owner "acme" "hi" ∨ collision toy_sha256.
Proof.
  apply (cache_isolation id toy_sha256 toy_hash toy_dump toy_parse (toy_cfg 1) None None toy_search
    toy_search_all toy_insert toy_remove toy_owner (X := unit) toy_world toy_pool.1 toy_pool.2 1%nat "acme" "hi").
  - done.
  - exact toy_dump_parse.
  - done.
  - done.
  - done.
  - rw -surjective_pairing. apply run_sched_spawned. apply Forall_cons. split; [|apply Forall_singleton].
    + apply (req_put _ _ _ _ _ _ _ _ _ toy_messages "hi" "m1" "acme" ""); [by apply no_us|done].
    + apply (req_process _ _ _ _ _ _ _ _ _ (toy_ctx "acme" "m1")). by apply no_us.
  - by rw toy_pool_serves.
Defined.

(** A full cache gives up its least recently used entry. *)
Lemma cache_recency_witness :
  let w := (run toy_exec (toy_put "acme" "m1") toy_world).2 in
  let w' := (run toy_exec (put id toy_hash toy_dump (toy_cfg 1) "bye" "ciao" "m1" "other") w).2 in
  lru_ok (w_cache w') ∧ numbered (w_cache w') ∧ (view (w_cache w')).*1 = ["ns_7_1"].
Proof.
  cbv zeta. set (w := (run toy_exec (toy_put "acme" "m1") toy_world).2).
  assert (lru_ok (w_cache toy_world)) as H0.
  { split; [by apply NoDup_nil|by apply Forall_nil|by apply NoDup_nil|..].
    - intros id n. by rw elem_of_nil.
    - intros id. rw elem_of_nil. split; [by intros []|done]. }
  assert (numbered (w_cache toy_world)) as Hn0 by by intros id [].
  pose proof (λ w Hok, proj1 (cache_recency id toy_hash toy_dump (toy_cfg 1) toy_search toy_search_all toy_insert
    toy_remove toy_parse w Hok)) as Hput. cbv zeta in Hput.
  destruct (Hput toy_world H0 "hello" "hi" "m1" (e_partition_key toy_entry) (or_introl Hn0)) as (Hok & _ & Hn & _).
  assert (numbered (w_cache w)) as Hn1 by (apply Hn; split; [exact Hn0|done]).
  destruct (Hput w Hok "bye" "ciao" "m1" "other" (or_introl Hn1)) as (Hok' & _ & Hn' & _).
  split; [exact Hok'|]. split; [apply Hn'; split; [exact Hn1|done]|vm_compute; reflexivity].
Defined.

(** ** What goes wrong *)

(** An answer is stored under the model that gave it and looked up under the
    model that was asked for: where the router chooses another, there is no
    hit. *)
Lemma routed_model_missed :
  (run toy_exec (toy_lookup "acme" "auto") (run toy_exec (toy_put "acme" "m1") toy_world).2).1 = None.
Proof. vm_compute. reflexivity. Qed.

(** Imported answers go to a partition that no lookup searches. *)
Lemma import_unreachable :
  let r := run toy_exec (importFromJson id toy_hash toy_dump toy_parse (toy_cfg 10) "[hello]") toy_world in
  r.1 = Some 1 ∧ (run toy_exec (toy_lookup "" "m1") r.2).1 = None ∧
  (run toy_exec (toy_lookup "acme" "m1") r.2).1 = None.
Proof. vm_compute. split_and!; reflexivity. Qed.

(** After a restart the ids start again: the first answer stored for another
    tenant takes the id of a restored entry, which is lost although there is
    room. *)
Lemma restart_overwrites :
  let restarted := {| w_cache := empty_cache (f32_lit 9 10); w_store := {["sc:ns_7_0" := "{entry}"]};
                      w_vectors := []; w_now := 5 |} in
  let w := (run toy_exec (warmUp id toy_parse (toy_cfg 10)) restarted).2 in
  let w' := (run toy_exec (put id toy_hash toy_dump (toy_cfg 10) "hello" "salut" "m1" "other") w).2 in
  (run toy_exec (toy_lookup "acme" "m1") w).1 = Some ("acme", "hi") ∧
  (run toy_exec (toy_lookup "acme" "m1") w').1 = None ∧ size (c_entries (w_cache w')) = 1%nat.
Proof. vm_compute. split_and!; reflexivity. Qed.

(** Room is made in one critical section and the entry stored in another: two
    insertions that overlap both find an empty cache of one entry. *)
Lemma concurrent_puts_exceed :
  let puts := [toy_put "acme" "m1"; toy_put "other" "m1"] in
  let w := (run_sched toy_exec ([0; 0; 1; 1]%nat ++ replicate 5 0%nat ++ replicate 5 1%nat) puts toy_world).2 in
  sc_max_entries (toy_cfg 1) = 1 ∧ size (c_entries (w_cache w)) = 2%nat.
Proof. vm_compute. split; reflexivity. Qed.

End SemanticCache.
