(* ===== verification/CostTracker.v ===== *)
(** * CostTracker: the cost ledger and the budget guard

    Models [src/src/observe/cost_tracker.cpp] (prices, the ledger, its
    summaries and windows, and the stage that bills a request),
    [src/src/server/proxy_billing.h] and [src/src/server/budget_guard_stage.cpp].
    Costs are [double]s and counts [int]s; [now] is a reading of the steady
    clock in nanoseconds.  The members of a request's context that only these
    stages use are read by the functions of [CostInfo]. *)
From Corelib Require Import PrimFloat.
From S2P Require Import Prelude.
From S2P Require Import Json.
From S2P Require Import ErrorCodes.
From S2P Require Import IsoTime.
From S2P Require Import ChatTypes.
From S2P Require Import Pipeline.
From S2P Require Import RateLimiter.
Import Json ErrorCodes ChatTypes Pipeline.
Local Open Scope Z_scope.

Module CostTracker.

Record ModelPricing := {
  cost_per_1k_input : float;
  cost_per_1k_output : float;
}.

Record CostRecord := {
  k_request_id : string;
  k_tenant_id : string;
  k_app_id : string;
  k_model : string;
  k_input_tokens : Z;
  k_output_tokens : Z;
  k_input_cost : float;
  k_output_cost : float;
  k_total_cost : float;
  k_timestamp : string;
  k_modality : string;
  k_routing_decision_reason : string;
  k_baseline_cost : float;
}.
#[global] Instance record_settable : Settable CostRecord := λ r,
  {| k_request_id := k_request_id r; k_tenant_id := k_tenant_id r; k_app_id := k_app_id r;
     k_model := k_model r; k_input_tokens := k_input_tokens r; k_output_tokens := k_output_tokens r;
     k_input_cost := k_input_cost r; k_output_cost := k_output_cost r;
     k_total_cost := k_total_cost r; k_timestamp := k_timestamp r; k_modality := k_modality r;
     k_routing_decision_reason := k_routing_decision_reason r;
     k_baseline_cost := k_baseline_cost r |}.

Record CostSummary := {
  s_total_cost : float;
  s_input_tokens : Z;
  s_output_tokens : Z;
  s_request_count : Z;
  s_baseline_cost : float;
}.

Record CostEntry := {
  ce_model : string;
  ce_tenant_id : string;
  ce_cost : float;
  ce_timestamp : Z;
}.

Record CostTracker := {
  pricing : gmap string ModelPricing;
  records : list CostRecord;
  cost_log : list CostEntry;
  store : bool;
  baseline_model : string;
}.

Definition max_records : Z := 100000.

(** ** Prices *)

Definition setPricing (model : string) (input output : float) (t : CostTracker) : CostTracker :=
  {| pricing := <[model := {| cost_per_1k_input := input; cost_per_1k_output := output |}]> (pricing t);
     records := records t; cost_log := cost_log t; store := store t;
     baseline_model := if str_empty (baseline_model t) then model else baseline_model t |}.

Definition setBaselineModel (model : string) (t : CostTracker) : CostTracker :=
  {| pricing := pricing t; records := records t; cost_log := cost_log t; store := store t;
     baseline_model := model |}.

(** [(tokens / 1000.0) * rate]. *)
Definition price (tokens : Z) (rate : float) : float := (int_to_double tokens / 1000 * rate)%float.

Definition baseline_cost (t : CostTracker) (input output : Z) : float :=
  if str_empty (baseline_model t) then 0%float
  else match pricing t !! baseline_model t with
       | Some p => (price input (cost_per_1k_input p) + price output (cost_per_1k_output p))%float
       | None => 0%float
       end.

Definition calculate (t : CostTracker) (model : string) (input output : Z) : CostRecord :=
  let '(input_cost, output_cost) :=
    match pricing t !! model with
    | Some p => (price input (cost_per_1k_input p), price output (cost_per_1k_output p))
    | None => (0%float, 0%float)
    end in
  {| k_request_id := ""; k_tenant_id := ""; k_app_id := ""; k_model := model;
     k_input_tokens := input; k_output_tokens := output; k_input_cost := input_cost;
     k_output_cost := output_cost; k_total_cost := (input_cost + output_cost)%float;
     k_timestamp := ""; k_modality := "chat"; k_routing_decision_reason := "";
     k_baseline_cost := baseline_cost t input output |}.

(** ** The ledger *)

(** A full list loses its first element. *)
Definition make_room {A} (l : list A) : list A :=
  if max_records <=? Z.of_nat (length l) then tail l else l.

(** The tracker afterwards and the record that is stored, if there is a store. *)
Definition record (now : Z) (rec_in : CostRecord) (t : CostTracker) : CostTracker * option CostRecord :=
  let rec := rec_in <| k_baseline_cost :=
    baseline_cost t (k_input_tokens rec_in) (k_output_tokens rec_in) |> in
  ({| pricing := pricing t; records := make_room (records t) ++ [rec];
      cost_log := make_room (cost_log t) ++
        [{| ce_model := k_model rec; ce_tenant_id := k_tenant_id rec; ce_cost := k_total_cost rec;
            ce_timestamp := now |}];
      store := store t; baseline_model := baseline_model t |},
   if store t then Some rec else None).

(** The rows of the store, oldest first; [cap] is 0 for the default. *)
Definition loadFromStore (rows : list CostRecord) (cap : Z) (t : CostTracker) : CostTracker :=
  if store t then
    let effective_cap := if cap =? 0 then max_records else Z.min cap max_records in
    let n := Z.of_nat (length rows) in
    {| pricing := pricing t;
       records := if effective_cap <? n then drop (Z.to_nat (n - effective_cap)) rows else rows;
       cost_log := cost_log t; store := store t; baseline_model := baseline_model t |}
  else t.

Definition clear (t : CostTracker) : CostTracker :=
  {| pricing := pricing t; records := []; cost_log := []; store := store t;
     baseline_model := baseline_model t |}.

(** ** Summaries *)

Definition no_costs : CostSummary :=
  {| s_total_cost := 0; s_input_tokens := 0; s_output_tokens := 0; s_request_count := 0;
     s_baseline_cost := 0 |}.

Definition add_record (s : CostSummary) (r : CostRecord) : CostSummary :=
  {| s_total_cost := (s_total_cost s + k_total_cost r)%float;
     s_input_tokens := to_int (s_input_tokens s + k_input_tokens r);
     s_output_tokens := to_int (s_output_tokens s + k_output_tokens r);
     s_request_count := to_int (s_request_count s + 1);
     s_baseline_cost := (s_baseline_cost s + k_baseline_cost r)%float |}.

(** The loops over the ledger. *)
Definition summarize (p : CostRecord → bool) (l : list CostRecord) : CostSummary :=
  foldl (λ s r, if p r then add_record s r else s) no_costs l.

Definition summaryByTenant (tenant_id : string) (t : CostTracker) : CostSummary :=
  summarize (λ r, String.eqb (k_tenant_id r) tenant_id) (records t).
Definition summaryByModel (model : string) (t : CostTracker) : CostSummary :=
  summarize (λ r, String.eqb (k_model r) model) (records t).
Definition summaryByModality (modality : string) (t : CostTracker) : CostSummary :=
  summarize (λ r, String.eqb (k_modality r) modality) (records t).
Definition totalSummary (t : CostTracker) : CostSummary := summarize (λ _, true) (records t).

Definition summariesByModality (tenant_filter : string) (t : CostTracker) : gmap string CostSummary :=
  foldl (λ out r,
    if negb (str_empty tenant_filter) && negb (String.eqb (k_tenant_id r) tenant_filter) then out
    else <[k_modality r := add_record (default no_costs (out !! k_modality r)) r]> out)
    ∅ (records t).

Definition cost_since (p : CostEntry → bool) (cutoff : Z) (l : list CostEntry) : float :=
  foldl (λ sum e, if p e && (cutoff <=? ce_timestamp e) then (sum + ce_cost e)%float else sum)
    0%float l.

Definition getCostInWindow (now : Z) (model : string) (window : Z) (t : CostTracker) : float :=
  cost_since (λ e, String.eqb (ce_model e) model) (now - window) (cost_log t).
Definition getTotalCostInWindow (now window : Z) (t : CostTracker) : float :=
  cost_since (λ _, true) (now - window) (cost_log t).
Definition getTenantCostInWindow (now : Z) (tenant_id : string) (window : Z) (t : CostTracker) : float :=
  if str_empty tenant_id then 0%float
  else cost_since (λ e, String.eqb (ce_tenant_id e) tenant_id) (now - window) (cost_log t).

(** ** Billing a request *)

Class CostInfo (X : Type) := {
  app_id : X → string;
  routing_decision_reason : X → string;
  quality_score : X → float;
}.

(** What other components are told. *)
Inductive CostNote :=
| Attribution (request_id tenant_id app_id model : string) (cost : float) (tokens : Z)
| Usage (model : string) (cost quality : float)
| CostSpike (cost : float).

Definition process `{CostInfo X} (attribution optimizer detector : bool) (now clock : Z)
    (ctx : RequestContext X) (t : CostTracker) :
    StageResult * CostTracker * option CostRecord * list CostNote :=
  let model := if str_empty (x_target_model ctx) then cr_model (x_chat_request ctx)
               else x_target_model ctx in
  let rec := calculate t model (prompt_tokens (x_token_usage ctx))
               (completion_tokens (x_token_usage ctx)) in
  let rec := rec <| k_request_id := x_request_id ctx |> <| k_tenant_id := x_tenant_id ctx |>
                 <| k_app_id := app_id (x_rest ctx) |> <| k_timestamp := IsoTime.iso clock |>
                 <| k_routing_decision_reason := routing_decision_reason (x_rest ctx) |> in
  let '(t, stored) := record now rec t in
  let quality := if (0 <=? quality_score (x_rest ctx))%float then quality_score (x_rest ctx) else 0%float in
  (Continue, t, stored,
   (if attribution then [Attribution (k_request_id rec) (k_tenant_id rec) (k_app_id rec) (k_model rec)
                           (k_total_cost rec) (to_int (k_input_tokens rec + k_output_tokens rec))]
    else []) ++
   (if optimizer then [Usage (k_model rec) (k_total_cost rec) quality] else []) ++
   (if detector then [CostSpike (k_total_cost rec)] else [])).

(** ** Proxied requests *)

Definition int_member (k : string) (u : json) : option Z :=
  match json_member k u with Some (JInteger z) => Some (to_int z) | _ => None end.

Definition parseProxyUsageTokens (parse : string → option json) (body : string) : Z * Z :=
  match parse body with
  | Some j =>
      match json_member "usage" j with
      | Some (JObject m) =>
          let u := JObject m in
          let pick a b := match int_member a u with
                          | Some z => z
                          | None => default 0 (int_member b u)
                          end in
          let input := pick "prompt_tokens" "input_tokens" in
          let output := pick "completion_tokens" "output_tokens" in
          if (input =? 0) && (output =? 0) then (default 0 (int_member "total_tokens" u), output)
          else (input, output)
      | _ => (0, 0)
      end
  | None => (0, 0)
  end.

Definition buildProxyCostRecord (parse : string → option json) (t : CostTracker)
    (endpoint model tenant_id request_id timestamp : string) (resp : ProxyResponse) : CostRecord :=
  let '(input, output) := parseProxyUsageTokens parse (ps_body resp) in
  calculate t model input output
    <| k_request_id := request_id |> <| k_tenant_id := tenant_id |>
    <| k_modality := RateLimiter.modalityToString (RateLimiter.modalityFromEndpoint endpoint) |>
    <| k_routing_decision_reason := "proxy_passthrough" |> <| k_timestamp := timestamp |>.

(** ** The budget guard *)

Record BudgetGuardConfig := {
  bg_enabled : bool;
  per_tenant_24h_usd : float;
  per_request_max_usd : float;
  fail_open_on_error : bool;
  downgrade_header_name : string;
  downgrade_header_value : string;
  downgrade_tier : string;
}.

Definition day : Z := 86400 * 1000000000.

Definition estimateRequestCost {X} (t : option CostTracker) (ctx : RequestContext X) : float :=
  match t with
  | None => 0%float
  | Some t =>
      let model := if str_empty (x_target_model ctx) then cr_model (x_chat_request ctx)
                   else x_target_model ctx in
      if str_empty model then 0%float
      else
        let est_input := if 0 <? x_tokens_estimated ctx then x_tokens_estimated ctx else 64 in
        k_total_cost (calculate t model est_input est_input)
  end.

Definition with_extra (extra : json) (req : ChatRequest) : ChatRequest :=
  {| cr_model := cr_model req; cr_messages := cr_messages req; cr_temperature := cr_temperature req;
     cr_max_tokens := cr_max_tokens req; cr_stream := cr_stream req; cr_extra := extra;
     cr_tools := cr_tools req; cr_tool_choice := cr_tool_choice req; cr_metadata := cr_metadata req |}.

(** The downgrade of a request over its budget: the result, the context and the
    labels of the metric, if it counts.  An [extra] member that is neither null
    nor an object makes the assignment throw. *)
Definition downgrade {X} (cfg : BudgetGuardConfig) (reason : string) (ctx : RequestContext X) :
    StageResult * RequestContext X * option (string * string) :=
  match json_assign "quality_tier" (JString (downgrade_tier cfg)) (cr_extra (x_chat_request ctx)) with
  | None => (if fail_open_on_error cfg then Continue else Reject, ctx, None)
  | Some extra =>
      let ctx := ctx <| x_chat_request := with_extra extra (x_chat_request ctx) |> in
      let ctx := if str_empty (downgrade_header_name cfg) then ctx
                 else ctx <| x_response_headers :=
                   <[downgrade_header_name cfg := downgrade_header_value cfg]>
                     (x_response_headers ctx) |> in
      (Continue, ctx, Some (x_tenant_id ctx, reason))
  end.

Definition guard_budget {X} (cfg : BudgetGuardConfig) (tracker : option CostTracker) (now : Z)
    (ctx : RequestContext X) : StageResult * RequestContext X * option (string * string) :=
  if negb (bg_enabled cfg) then (Continue, ctx, None)
  else if str_empty (x_tenant_id ctx) then (Continue, ctx, None)
  else
    let request_cost := estimateRequestCost tracker ctx in
    let tenant_24h := from_option (getTenantCostInWindow now (x_tenant_id ctx) day) 0%float tracker in
    let exceeds_24h := (per_tenant_24h_usd cfg <? tenant_24h + request_cost)%float in
    let exceeds_request := (per_request_max_usd cfg <? request_cost)%float in
    if negb exceeds_24h && negb exceeds_request then (Continue, ctx, None)
    else downgrade cfg (if exceeds_24h then "tenant_24h" else "request_estimate") ctx.

(** ** The ledger is a window of what was recorded *)

(** The last [max_records] elements. *)
Definition recent {A} (l : list A) : list A := drop (length l - Z.to_nat max_records) l.

(** The record the ledger keeps for what a caller hands in. *)
Definition billed (t : CostTracker) (r : CostRecord) : CostRecord :=
  r <| k_baseline_cost := baseline_cost t (k_input_tokens r) (k_output_tokens r) |>.

Definition log_entry (e : Z * CostRecord) : CostEntry :=
  {| ce_model := k_model e.2; ce_tenant_id := k_tenant_id e.2; ce_cost := k_total_cost e.2;
     ce_timestamp := e.1 |}.

Definition bounded (t : CostTracker) : Prop :=
  Z.of_nat (length (records t)) <= max_records ∧ Z.of_nat (length (cost_log t)) <= max_records.

(** Recording one after another. *)
Fixpoint record_all (es : list (Z * CostRecord)) (t : CostTracker) : CostTracker * list CostRecord :=
  match es with
  | [] => (t, [])
  | (now, r) :: es =>
      let '(t, stored) := record now r t in
      let '(t, rest) := record_all es t in (t, option_list stored ++ rest)
  end.

Lemma make_room_recent {A} (l : list A) x :
  Z.of_nat (length l) <= max_records → make_room l ++ [x] = recent (l ++ [x]).
Proof.
  intros Hl. unfold make_room, recent. rw length_app. cbn [length].
  assert (0 < max_records) as Hm by done. set (cap := max_records) in *. clearbody cap.
  destruct (cap <=? Z.of_nat (length l)) eqn:Hc.
  - replace (length l + 1 - Z.to_nat cap)%nat with 1%nat by lia. apply Z.leb_le in Hc. destruct l; [simpl in Hc; lia|done].
  - replace (length l + 1 - Z.to_nat cap)%nat with 0%nat by lia. done.
Qed.

Lemma recent_recent {A} (l l' : list A) : recent (recent l ++ l') = recent (l ++ l').
Proof.
  unfold recent. generalize (Z.to_nat max_records). intros cap.
  rw !length_app length_drop. destruct (decide (length l <= cap)%nat).
  - replace (length l - cap)%nat with 0%nat by lia. rw drop_0. do 2 f_equal. lia.
  - rw -drop_app_le; [|lia]. rw drop_drop. f_equal. lia.
Qed.

Lemma recent_short {A} (l : list A) : Z.of_nat (length l) <= max_records → recent l = l.
Proof.
  intros Hl. unfold recent. replace (length l - Z.to_nat max_records)%nat with 0%nat; [done|].
  set (cap := max_records) in *. clearbody cap. lia.
Qed.

Lemma recent_length {A} (l : list A) : Z.of_nat (length (recent l)) <= max_records.
Proof.
  unfold recent. rw length_drop. assert (0 <= max_records) by done.
  set (cap := max_records) in *. clearbody cap. lia.
Qed.

Lemma record_all_window es t :
  bounded t →
  records (record_all es t).1 = recent (records t ++ (billed t <$> es.*2)) ∧
  cost_log (record_all es t).1 = recent (cost_log t ++ (log_entry <$> es)) ∧
  (record_all es t).2 = (if store t then billed t <$> es.*2 else []).
Proof.
  revert t. induction es as [|[now r] es IH]; intros t Hb.
  { simpl. rw !app_nil_r !recent_short; [by destruct (store t)|apply Hb..]. }
  cbn [record_all]. unfold record. fold (billed t r).
  set (t' := {| pricing := _ |}).
  assert (bounded t') as Hb'.
  { unfold t', bounded. cbn [records cost_log]. rw !make_room_recent; [|apply Hb..].
    split; apply recent_length. }
  destruct (IH t' Hb') as (H1 & H2 & H3). destruct (record_all es t') as [t'' rest].
  cbn [fst snd] in *. rw H1 H2 H3. unfold t' at 1 3 5. cbn [records cost_log store].
  rw !make_room_recent; [|apply Hb..]. rw !recent_recent -!(assoc_L (++)).
  split_and!; [done|done|]. by destruct (store t).
Qed.

(** The ledger always holds exactly the last 100000 requests in their order,
    and so does the log of the windows.  The baseline of a record, which the
    savings are computed from, is the price of its tokens at the baseline
    model's rates, whatever value the caller put there, in the ledger and in
    the store alike. *)
Theorem ledger_window es t :
  bounded t →
  records (record_all es t).1 = recent (records t ++ (billed t <$> es.*2)) ∧
  cost_log (record_all es t).1 = recent (cost_log t ++ (log_entry <$> es)) ∧
  (record_all es t).2 = (if store t then billed t <$> es.*2 else []).
Proof. apply record_all_window. Qed.

Lemma recent_suffix {A} (l l' : list A) :
  max_records <= Z.of_nat (length l') → ∃ k, recent (l ++ l') = drop k l'.
Proof.
  intros Hn. unfold recent. set (cap := max_records) in *. clearbody cap. rw length_app.
  exists (length l + length l' - Z.to_nat cap - length l)%nat. rw drop_app_ge; [done|lia].
Qed.

(** Other tenants can push a tenant's spending out of the window: after
    100000 requests of others its cost of the last day is zero. *)
Lemma window_evicted es t tenant now window :
  bounded t → max_records <= Z.of_nat (length es) →
  Forall (λ e, k_tenant_id e.2 ≠ tenant) es →
  getTenantCostInWindow now tenant window (record_all es t).1 = 0%float.
Proof.
  intros Hb Hn Hf. unfold getTenantCostInWindow, cost_since. destruct (str_empty tenant); [done|].
  rw (proj1 (proj2 (record_all_window es t Hb))).
  destruct (recent_suffix (cost_log t) (log_entry <$> es)) as [k ->]; [by rw length_fmap|].
  rw -fmap_drop. apply (Forall_drop _ k) in Hf. induction Hf as [|e l He _ IH]; [done|].
  csimpl. by rw (proj2 (String.eqb_neq _ _) He).
Qed.


(** ** Summaries *)

(** The records a caller with the filter [tenant_filter] may see. *)
Definition in_scope (tenant_filter : string) (r : CostRecord) : bool :=
  str_empty tenant_filter || String.eqb (k_tenant_id r) tenant_filter.

Lemma summarize_snoc p l r :
  summarize p (l ++ [r]) = if p r then add_record (summarize p l) r else summarize p l.
Proof. unfold summarize. by rw foldl_app. Qed.

Lemma summarize_none p l : Forall (λ r, p r = false) l → summarize p l = no_costs.
Proof.
  induction l as [|r l IH] using rev_ind; [done|]. rw summarize_snoc.
  intros [Hl [Hr _]%Forall_cons]%Forall_app. rw Hr. by apply IH.
Qed.

(** The report by modality of one pass over the ledger is, entry for entry, the
    sum over the records of that modality in the caller's scope: with a tenant
    filter no record of another tenant contributes to any entry, and a
    modality is listed just when the scope has a record of it. *)
Theorem modality_report tenant_filter t m :
  summariesByModality tenant_filter t !! m =
  let p r := in_scope tenant_filter r && String.eqb (k_modality r) m in
  if existsb p (records t) then Some (summarize p (records t)) else None.
Proof.
  cbv zeta. unfold summariesByModality. induction (records t) as [|r l IH] using rev_ind; [done|].
  rw foldl_app existsb_app summarize_snoc. cbn [foldl existsb]. rw orb_false_r.
  assert (negb (str_empty tenant_filter) && negb (String.eqb (k_tenant_id r) tenant_filter) =
          negb (in_scope tenant_filter r)) as ->.
  { unfold in_scope. by destruct (str_empty _), (String.eqb _ _). }
  destruct (in_scope tenant_filter r) eqn:Hs; cbn [negb andb]; [|by rw orb_false_r].
  destruct (String.eqb (k_modality r) m) eqn:Hm.
  - apply String.eqb_eq in Hm. subst m. rw lookup_insert_eq orb_true_r. f_equal. f_equal.
    rw IH. destruct (existsb _ l) eqn:He; [done|]. symmetry. apply summarize_none.
    apply Forall_forall. intros x Hx. apply not_true_iff_false. intros Hp.
    apply not_true_iff_false in He. apply He. apply existsb_exists. exists x. by rw -list_elem_of_In.
  - apply String.eqb_neq in Hm. by rw lookup_insert_ne // orb_false_r.
Qed.

(** ** The guard *)

Definition over_budget {X} (cfg : BudgetGuardConfig) (t : option CostTracker) (now : Z)
    (ctx : RequestContext X) : bool :=
  let cost := estimateRequestCost t ctx in
  let spent := from_option (getTenantCostInWindow now (x_tenant_id ctx) day) 0%float t in
  (per_tenant_24h_usd cfg <? spent + cost)%float || (per_request_max_usd cfg <? cost)%float.

(** The request goes on in the cheaper tier and is otherwise the same. *)
Definition downgraded {X} (cfg : BudgetGuardConfig) (ctx ctx' : RequestContext X) : Prop :=
  let extra := cr_extra (x_chat_request ctx) in
  let extra' := cr_extra (x_chat_request ctx') in
  json_member "quality_tier" extra' = Some (JString (downgrade_tier cfg)) ∧
  (∀ k, k ≠ "quality_tier" → json_member k extra' = json_member k extra) ∧
  with_extra extra (x_chat_request ctx') = x_chat_request ctx ∧
  x_response_headers ctx' =
    (if str_empty (downgrade_header_name cfg) then x_response_headers ctx
     else <[downgrade_header_name cfg := downgrade_header_value cfg]> (x_response_headers ctx)).

Lemma assign_member k v j j' :
  json_assign k v j = Some j' →
  json_member k j' = Some v ∧ ∀ k', k' ≠ k → json_member k' j' = json_member k' j.
Proof.
  destruct j as [| | | | | |m]; try done; intros [= <-]; simpl.
  - rw decide_True //. split; [done|]. intros k' Hk. by rw decide_False.
  - rw map_find_assign decide_True //. split; [done|]. intros k' Hk.
    by rw map_find_assign decide_False.
Qed.

Lemma downgrade_spec {X} cfg reason (ctx : RequestContext X) :
  let extra := cr_extra (x_chat_request ctx) in
  let '(result, ctx', metric) := downgrade cfg reason ctx in
  if is_null extra || is_object extra then result = Continue ∧ downgraded cfg ctx ctx'
  else ctx' = ctx ∧ result = if fail_open_on_error cfg then Continue else Reject.
Proof.
  cbv zeta. unfold downgrade. destruct (json_assign _ _ _) as [extra'|] eqn:Hj.
  - assert (is_null (cr_extra (x_chat_request ctx)) || is_object (cr_extra (x_chat_request ctx)) = true) as ->
      by by destruct (cr_extra _).
    apply assign_member in Hj as [H1 H2]. split; [done|]. unfold downgraded.
    destruct (str_empty (downgrade_header_name cfg)) eqn:Hn;
      split_and!; [done|done|by destruct (x_chat_request ctx)|done|done|done|by destruct (x_chat_request ctx)|done].
  - assert (is_null (cr_extra (x_chat_request ctx)) || is_object (cr_extra (x_chat_request ctx)) = false) as ->
      by by destruct (cr_extra _).
    done.
Qed.

(** C38. For a request with a tenant, the guard, when it is on, leaves a request
    within the budget as it is.  A request that exceeds the budget goes on in
    the cheaper tier, if the [extra] member of its body is absent or an object,
    with the response header that tells the client; the header is set whenever
    its name is not empty, an empty value included.  Otherwise the tier cannot
    be set: the request goes on undiminished in the default configuration, and
    is rejected, like any other rejection of the pipeline, when the guard is
    configured to fail closed. *)
Theorem budget_guard {X} cfg t now (ctx : RequestContext X) :
  bg_enabled cfg = true → x_tenant_id ctx ≠ "" →
  let extra := cr_extra (x_chat_request ctx) in
  let '(result, ctx', metric) := guard_budget cfg t now ctx in
  if negb (over_budget cfg t now ctx) then result = Continue ∧ ctx' = ctx ∧ metric = None
  else if is_null extra || is_object extra then result = Continue ∧ downgraded cfg ctx ctx'
  else ctx' = ctx ∧ result = if fail_open_on_error cfg then Continue else Reject.
Proof.
  intros He Ht. cbv zeta. unfold guard_budget, over_budget. rw He (proj2 (str_empty_false _) Ht).
  cbn [negb]. destruct (_ <? _)%float, (_ <? _)%float; cbn [negb orb andb];
    try apply downgrade_spec; done.
Qed.

(** ** Runs *)

Definition toy_tracker : CostTracker :=
  setPricing "mini" 0.25 0.5 (setPricing "big" 2 4
    {| pricing := ∅; records := []; cost_log := []; store := true; baseline_model := "" |}).

(** A caller that claims a baseline of its own. *)
Definition toy_entry : CostRecord :=
  calculate toy_tracker "mini" 1000 1000 <| k_tenant_id := "acme" |> <| k_baseline_cost := 1e9%float |>.

Definition spent : CostTracker := (record_all [(0, toy_entry); (1, toy_entry)] toy_tracker).1.

Lemma ledger_window_witness :
  records spent = [toy_entry <| k_baseline_cost := 6%float |>; toy_entry <| k_baseline_cost := 6%float |>].
Proof.
  unfold spent. destruct (ledger_window [(0, toy_entry); (1, toy_entry)] toy_tracker) as (H & _ & _).
  - split; vm_compute; by intros [=].
  - rw H. vm_compute. reflexivity.
Defined.

Definition toy_guard : BudgetGuardConfig :=
  {| bg_enabled := true; per_tenant_24h_usd := 1; per_request_max_usd := 100;
     fail_open_on_error := true; downgrade_header_name := "X-AegisGate-Budget-Guard";
     downgrade_header_value := "triggered"; downgrade_tier := "economy" |}.

(** A request of the tenant that has used its budget up, with [extra]. *)
Definition toy_context (extra : json) : RequestContext unit :=
  {| x_request_id := "r"; x_api_key := "k"; x_tenant_id := "acme";
     x_chat_request := {| cr_model := "big"; cr_messages := []; cr_temperature := None;
       cr_max_tokens := None; cr_stream := false; cr_extra := extra; cr_tools := JNull;
       cr_tool_choice := JNull; cr_metadata := None |};
     x_target_model := ""; x_cache_hit := false; x_cached_response := "";
     x_token_usage := no_usage; x_start_time := 0; x_accumulated_response := "";
     x_stream_model := ""; x_is_streaming := false; x_chunk_output := ""; x_auth_context := None;
     x_ab_experiment := ""; x_ab_variant := ""; x_normalized_messages := [];
     x_input_preprocessed := false; x_image_scan_messages := []; x_tokens_estimated := 0;
     x_tokens_saved_compression := 0; x_accumulated_tool_calls := JNull; x_has_tools := false;
     x_stream_rejected := false; x_reject_stage := ""; x_response_headers := ∅;
     x_request_headers := ∅; x_rest := tt |}.

Lemma budget_guard_witness :
  downgraded toy_guard (toy_context JNull) (guard_budget toy_guard (Some spent) 2 (toy_context JNull)).1.2 ∧
  guard_budget toy_guard (Some spent) 2 (toy_context (JArray [])) =
    (Continue, toy_context (JArray []), None).
Proof.
  pose proof (budget_guard toy_guard (Some spent) 2 (toy_context JNull) eq_refl) as H1.
  assert (over_budget toy_guard (Some spent) 2 (toy_context JNull) = true) as Ho
    by (vm_compute; reflexivity).
  rw Ho in H1. destruct (guard_budget toy_guard (Some spent) 2 (toy_context JNull)) as [[r c] m].
  split; [by apply H1|vm_compute; reflexivity].
Defined.

End CostTracker.
