(* ===== verification/Gateway.v ===== *)
(** * Gateway: a chat request from the key to the answer

    Models the request paths of [src/src/server/gateway_runtime.cpp]:
    [processRequest] and [processStreamingRequest] with their helpers, and the
    headers [response_finalizer.h], [cache_savings.h] and [ab_attribution.h].
    The runtime composes parts that have their own mutable state (key
    resolution, abuse detector, guardrail stages, rate limiters, router,
    upstreams, cache, metrics); each use of one is a call ([GwCmd]), and the
    theorems hold whatever the parts answer.  The callbacks of a stream are
    calls, too.  [None] as the result of a request is an exception that leaves
    the runtime. *)
From Corelib Require Import PrimFloat.
From S2P Require Import Prelude.
From S2P Require Import Prog.
From S2P Require Import Trace.
From S2P Require Import Json.
From S2P Require Import ErrorCodes.
From S2P Require Import Fallback.
From S2P Require Import IsoTime.
From S2P Require Import Identity.
From S2P Require Import ChatTypes.
From S2P Require Import Pipeline.
From S2P Require Import AbuseDetector.
Import ErrorCodes Json ChatTypes Pipeline.
Local Open Scope Z_scope.

Module Gateway.

(** ** The parts *)

Export AbuseDetector(Action(..)).

(** A limiter: the shared one, or one constructed for this request. *)
Inductive Limiter :=
| SharedLimiter
| FreshLimiter (max_tokens refill_rate : float).

Inductive Saving :=
| SavedByCompression (model : string) (tokens : Z) (tenant : string)
| SavedByCache (model : string) (prompt response : Z) (tenant : string).

(** What a streaming client receives. *)
Inductive ClientEvent :=
| OnDelta (d : StreamDelta)
| OnDone (usage : TokenUsage) (tokens_saved : Z)
| OnError (err : GatewayError).

Definition Labels := list (string * string).

(** A stream answers with the deltas it delivers and its end: an error, a
    completion, or [None] for an exception that leaves the call. *)
Inductive GwCmd (X : Type) : Type → Type :=
| Connections (up : bool) : GwCmd X unit
| Inc (counter : string) (labels : Labels) (by_ : float) : GwCmd X unit
| Observe (histogram : string) (labels : Labels) (v : float) : GwCmd X unit
| Steady : GwCmd X Z
| System : GwCmd X Z
| Sequence : GwCmd X Z
| ResolveKey (api_key : string) : GwCmd X (option AuthContext)
| ObserveKey (api_key text : string) : GwCmd X Action
| RecordRejection (api_key : string) : GwCmd X unit
| Process (stage : string) (ctx : RequestContext X) :
    GwCmd X (option (StageResult * RequestContext X))
| ProcessChunk (stage : string) (ctx : RequestContext X) (chunk : string) :
    GwCmd X (option (StageResult * RequestContext X))
| RecordSaving (s : Saving) : GwCmd X unit
| TenantRow (id : string) : GwCmd X (option Tenant)
| CostInPeriod (tenant from to : string) : GwCmd X float
| TryAcquire (l : Limiter) (key : string) (cost : float) : GwCmd X bool
| SelectModel (ctx : RequestContext X) : GwCmd X (option (string * RequestContext X))
| Complete (req : ChatRequest) (model : string) : GwCmd X (Exception + ChatResponse)
| Stream (req : ChatRequest) (model : string) :
    GwCmd X (list StreamDelta * option (GatewayError + TokenUsage))
| ReportOutcome (model : string) (ms : float) (ok : bool) : GwCmd X unit
| ConversationId (req : ChatRequest) : GwCmd X string
| CachePut (messages : list Message) (text model tenant conversation : string) : GwCmd X unit
| Client (e : ClientEvent) : GwCmd X unit.
Arguments Connections {X}.
Arguments Inc {X}.
Arguments Observe {X}.
Arguments Steady {X}.
Arguments System {X}.
Arguments Sequence {X}.
Arguments ResolveKey {X}.
Arguments ObserveKey {X}.
Arguments RecordRejection {X}.
Arguments Process {X}.
Arguments ProcessChunk {X}.
Arguments RecordSaving {X}.
Arguments TenantRow {X}.
Arguments CostInPeriod {X}.
Arguments TryAcquire {X}.
Arguments SelectModel {X}.
Arguments Complete {X}.
Arguments Stream {X}.
Arguments ReportOutcome {X}.
Arguments ConversationId {X}.
Arguments CachePut {X}.
Arguments Client {X}.

(** Which parts are configured, and the settings the runtime reads itself. *)
Record GwConfig := {
  g_auth_service : bool;
  g_rbac : bool;
  g_abuse : option (float * nat);   (** throttle factor and text limit *)
  g_savings : bool;
  g_inbound : list string;
  g_outbound : list string;
  g_store : bool;
  g_cache : bool;
  g_resolver : bool;
  g_request_timeout : Z;
}.

Record ProcessResult := {
  success : bool;
  response : ChatResponse;
  error : GatewayError;
  tokens_saved : Z;
  result_headers : gmap string string;
}.

Definition no_response : ChatResponse :=
  {| r_id := ""; r_model := ""; r_content := ""; r_usage := no_usage; r_finish_reason := "";
     r_tool_calls := [] |}.

Definition no_error : GatewayError :=
  {| http_status := 0; error_code := ""; error_type := ""; message := ""; internal_detail := "" |}.

(** ** Helpers *)

Definition rejectStageToErrorCode (stage : string) : ErrorCode :=
  if decide (stage = "PIIFilter") then PiiBlocked
  else if decide (stage = "TopicGuard") then TopicViolation
  else if decide (stage = "ExternalSafetyStage") then ContentFiltered
  else if decide (stage = "BudgetGuardStage") then BudgetExceeded
  else InjectionDetected.

Definition abuseCostMultiplier (throttle_factor : float) (action : Action) : float :=
  match action with
  | Throttle =>
      if (0 <? throttle_factor)%float && (throttle_factor <? 1)%float
      then (1 / throttle_factor)%float else 2%float
  | _ => 1%float
  end.

(** The text of the last message of the user, cut to [max_bytes]. *)
Definition extractAbuseText (messages : list Message) (max_bytes : nat) : string :=
  let out := from_option m_content ""
               (list_find (λ m, m_role m = "user") (rev messages) ≫= λ im, Some im.2) in
  String.substring 0 (max_bytes `min` String.length out) out.

Definition isModelAllowed (tenant : Tenant) (model : string) : bool :=
  match t_model_whitelist tenant with
  | [] => true
  | l => existsb (String.eqb model) l
  end.

Definition err_with (status : Z) (code : ErrorCode) (msg : string) : GatewayError :=
  {| http_status := status; error_code := toAegisCode code; error_type := toErrorType code;
     message := msg; internal_detail := "" |}.
Definition err_of (status : Z) (code : ErrorCode) : GatewayError :=
  err_with status code (toDefaultMessage code).

(** [std::chrono::duration<double>] and its milliseconds, of nanoseconds. *)
Definition seconds (ns : Z) : float := (int_to_double ns / 1e9)%float.
Definition millis (ns : Z) : float := (int_to_double ns / 1e6)%float.

Definition model_status (m s : string) : Labels := [("model", m); ("status", s)].

(** ** The request, gate by gate *)

Section gateway.
Context {X : Type} (fresh : X) (cfg : GwConfig).
Notation Ctx := (RequestContext X).
Notation gw := (prog (GwCmd X)).

(** A phase either lets the request pass or answers with an error; [None] is
    an exception. *)
Notation Phase A := (gw (option (GatewayError + A))).

Definition pass {A} (a : A) : Phase A := Ret (Some (inr a)).

Definition then_ {A B} (p : Phase A) (f : A → Phase B) : Phase B :=
  r ← p;
  match r with
  | None => Ret None
  | Some (inl err) => Ret (Some (inl err))
  | Some (inr a) => f a
  end.
Notation "x ⟵ p ; q" := (then_ p (λ x, q)) (at level 20, p at level 100, q at level 200).

Definition inc (counter : string) (labels : Labels) : gw unit := call (Inc counter labels 1%float).

(** Every error return first releases the connection. *)
Definition deny {A} (err : GatewayError) : Phase A :=
  call (Connections false);; Ret (Some (inl err)).

Definition generateRequestId : gw string :=
  ts ← call System;
  seq ← call Sequence;
  Ret ("chatcmpl-" +:+ to_string ts +:+ "-" +:+ to_string seq).

Definition open_request (streaming : bool) (request : ChatRequest) (api_key : string)
    (request_headers : gmap string string) : gw Ctx :=
  call (Connections true);;
  start ← call Steady;
  request_id ← generateRequestId;
  Ret {| x_request_id := request_id; x_api_key := api_key; x_tenant_id := "";
         x_chat_request := request; x_target_model := ""; x_cache_hit := false;
         x_cached_response := ""; x_token_usage := no_usage; x_start_time := start;
         x_accumulated_response := ""; x_stream_model := ""; x_is_streaming := streaming;
         x_chunk_output := ""; x_auth_context := None; x_ab_experiment := ""; x_ab_variant := "";
         x_normalized_messages := []; x_input_preprocessed := false; x_image_scan_messages := [];
         x_tokens_estimated := 0; x_tokens_saved_compression := 0;
         x_accumulated_tool_calls := JNull; x_has_tools := hasToolsRequest request;
         x_stream_rejected := false; x_reject_stage := ""; x_response_headers := ∅;
         x_request_headers := request_headers; x_rest := fresh |}.

Definition authenticate (api_key : string) (ctx : Ctx) : Phase Ctx :=
  if g_auth_service cfg then
    auth_ctx ← call (ResolveKey api_key);
    match auth_ctx with
    | Some a => pass (ctx <| x_auth_context := Some a |> <| x_tenant_id := c_tenant_id a |>)
    | None => if g_rbac cfg then deny (err_of 401 InvalidApiKey) else pass ctx
    end
  else pass ctx.

(** The multiplier of the request's cost. *)
Definition screen_abuse (api_key text : string) : Phase float :=
  match g_abuse cfg with
  | None => pass 1%float
  | Some (throttle_factor, _) =>
      action ← call (ObserveKey api_key text);
      match action with
      | Block => deny (err_of 429 AbuseDetected)
      | _ => pass (abuseCostMultiplier throttle_factor action)
      end
  end.

Definition abuse_text (messages : list Message) : string :=
  match g_abuse cfg with
  | None => ""
  | Some (_, max_bytes) => extractAbuseText messages max_bytes
  end.

Definition run_stages (stages : list string) (ctx : Ctx) : gw (option (PipelineResult * Ctx)) :=
  execute (λ stage ctx, call (Process stage ctx)) stages ctx.

Definition inbound (api_key : string) (ctx : Ctx) : Phase (PipelineResult * Ctx) :=
  r ← run_stages (g_inbound cfg) ctx;
  match r with
  | None => Ret None
  | Some (Rejected, ctx) =>
      when_ (bool_decide (is_Some (g_abuse cfg))) (call (RecordRejection api_key));;
      inc "guardrailBlocksTotal" [];;
      inc "requestsTotal" (model_status (cr_model (x_chat_request ctx)) "rejected");;
      deny (err_of 403 (rejectStageToErrorCode (x_reject_stage ctx)))
  | Some (PipelineError, ctx) => deny (err_with 500 InternalError "Internal pipeline error")
  | Some (r, ctx) => pass (r, ctx)
  end.

(** The tenant and the model that savings are attributed to. *)
Definition context_tenant (ctx : Ctx) : string :=
  from_option c_tenant_id "" (x_auth_context ctx).
Definition billed_model (ctx : Ctx) : string :=
  if str_empty (x_target_model ctx) then cr_model (x_chat_request ctx) else x_target_model ctx.

Definition record_compression (ctx : Ctx) : gw unit :=
  when_ (0 <? x_tokens_saved_compression ctx)
    (call (Inc "tokensSavedTotal" [("method", "compression")]
             (int_to_double (x_tokens_saved_compression ctx)));;
     when_ (g_savings cfg)
       (call (RecordSaving (SavedByCompression (billed_model ctx)
                (x_tokens_saved_compression ctx) (context_tenant ctx))))).

Definition cacheSavedPromptTokens (ctx : Ctx) : Z :=
  if 0 <? x_tokens_estimated ctx then x_tokens_estimated ctx
  else estimateMessages (cr_messages (x_chat_request ctx)).

(** The accounting of a cache hit; the metric names the requested model on the
    non-streaming path and the (still empty) routed one on the other. *)
Definition record_cache_hit (streaming : bool) (start : Z) (ctx : Ctx) : gw Z :=
  inc "cacheHitsTotal" [];;
  let saved_tokens := cacheSavedPromptTokens ctx in
  let response_tokens := estimateTokens (x_cached_response ctx) in
  when_ (0 <? saved_tokens)
    (call (Inc "tokensSavedTotal" [("method", "cache")] (int_to_double saved_tokens)));;
  when_ (g_savings cfg)
    (call (RecordSaving (SavedByCache (billed_model ctx) saved_tokens response_tokens
             (context_tenant ctx))));;
  now ← call Steady;
  call (Observe "requestDuration" [] (seconds (now - start)));;
  inc "requestsTotal" (model_status
    (if streaming then x_target_model ctx else cr_model (x_chat_request ctx)) "cache_hit");;
  call (Connections false);;
  Ret saved_tokens.

(** ** Tenant limits *)

(** The limiter of a tenant: one of its own when it has a limit. *)
Definition tenant_limiter (tenant : option Tenant) : Limiter :=
  match tenant with
  | Some t =>
      if 0 <? t_rate_limit_tokens t
      then FreshLimiter (int_to_double (t_rate_limit_tokens t))
             (if (0 <? t_rate_limit_refill t)%float then t_rate_limit_refill t else 1%float)
      else SharedLimiter
  | None => SharedLimiter
  end.

Definition resolveTenantPolicy (ctx : Ctx) : gw (option Tenant * Limiter) :=
  match x_auth_context ctx with
  | Some a =>
      if g_store cfg then
        tenant ← call (TenantRow (c_tenant_id a));
        Ret (tenant, tenant_limiter tenant)
      else Ret (None, SharedLimiter)
  | None => Ret (None, SharedLimiter)
  end.

(** [strftime] with a fixed time of the day. *)
Definition day_text (t : IsoTime.tm) (time : string) : string :=
  IsoTime.year_text (IsoTime.tm_year t) +:+ "-" +:+ IsoTime.decimal 2 (IsoTime.tm_mon t) +:+ "-" +:+
  IsoTime.decimal 2 (IsoTime.tm_mday t) +:+ "T" +:+ time +:+ "Z".
Definition month_text (y m : Z) : string :=
  IsoTime.year_text y +:+ "-" +:+ IsoTime.decimal 2 m +:+ "-01T00:00:00Z".
Definition next_month (t : IsoTime.tm) : string :=
  if 11 <? IsoTime.tm_mon t then month_text (IsoTime.tm_year t + 1) 1
  else month_text (IsoTime.tm_year t) (IsoTime.tm_mon t + 1).

(** The cost of the period is at or over the limit. *)
Definition over_limit (limit : float) (tenant from to : string) : gw bool :=
  if (0 <? limit)%float then
    cost ← call (CostInPeriod tenant from to);
    Ret (limit <=? cost)%float
  else Ret false.

Definition checkTenantCostLimits (ctx : Ctx) (tenant : Tenant) : gw (option GatewayError) :=
  if g_store cfg then
    now ← call System;
    let buf := IsoTime.gmtime (now / 10 ^ 9) in
    daily ← over_limit (t_daily_cost_limit tenant) (context_tenant ctx)
              (day_text buf "00:00:00") (day_text buf "23:59:59");
    if daily : bool then Ret (Some (err_with 429 CostLimitExceeded "Daily cost limit exceeded"))
    else
      monthly ← over_limit (t_monthly_cost_limit tenant) (context_tenant ctx)
                  (month_text (IsoTime.tm_year buf) (IsoTime.tm_mon buf)) (next_month buf);
      Ret (if monthly : bool
           then Some (err_with 429 CostLimitExceeded "Monthly cost limit exceeded") else None)
  else Ret None.

Definition limiter_key (api_key : string) (ctx : Ctx) : string :=
  let tenant := context_tenant ctx in
  if str_empty tenant then (if str_empty api_key then "anonymous" else api_key) else tenant.

Definition estimated_cost (messages : list Message) (multiplier : float) : float :=
  (foldl (λ acc msg, acc + int_to_double (Z.of_nat (String.length (m_content msg))) / 3) 1 messages
   * multiplier)%float.

Definition limit_rate (api_key : string) (multiplier : float) (ctx : Ctx) : Phase (option Tenant) :=
  '(tenant, limiter) ← resolveTenantPolicy ctx;
  allowed ← call (TryAcquire limiter (limiter_key api_key ctx)
                    (estimated_cost (cr_messages (x_chat_request ctx)) multiplier));
  if allowed : bool then pass tenant
  else
    inc "rateLimitedTotal" [];;
    inc "requestsTotal" (model_status (cr_model (x_chat_request ctx)) "rate_limited");;
    deny (err_of 429 RateLimitExceeded).

Definition limit_cost (tenant : option Tenant) (ctx : Ctx) : Phase unit :=
  match tenant with
  | None => pass tt
  | Some t =>
      over ← checkTenantCostLimits ctx t;
      match over with Some err => deny err | None => pass tt end
  end.

(** ** Routing *)

Definition recordAbAttribution (ctx : Ctx) : gw Ctx :=
  if str_empty (x_ab_experiment ctx) || str_empty (x_ab_variant ctx) then Ret ctx
  else
    inc "abExperimentAssignedTotal"
      [("experiment", x_ab_experiment ctx); ("variant", x_ab_variant ctx)];;
    Ret (ctx <| x_response_headers :=
           <["X-AegisGate-AB-Variant" := x_ab_variant ctx]> (x_response_headers ctx) |>).

Definition route (streaming : bool) (start : Z) (tenant : option Tenant) (ctx : Ctx) : Phase Ctx :=
  r ← call (SelectModel ctx);
  match r with
  | None => Ret None
  | Some (model, ctx) =>
      if str_empty model then deny (err_of 503 NoModelAvailable)
      else
        let ctx := ctx <| x_target_model := model |> in
        ctx ← recordAbAttribution (if streaming then ctx <| x_stream_model := model |> else ctx);
        if from_option (λ t, negb (isModelAllowed t model)) false tenant
        then deny (err_of 403 ModelNotAllowed)
        else if 0 <? g_request_timeout cfg then
          now ← call Steady;
          if (int_to_double (g_request_timeout cfg) <=? seconds (now - start))%float
          then deny (err_with 504 UpstreamTimeout
                       "Gateway request timeout exceeded before upstream call")
          else pass ctx
        else pass ctx
  end.

(** ** All gates *)

(** A request that passed: answered by the cache, or to be sent upstream. *)
Inductive Passed :=
| FromCache (ctx : Ctx) (saved_tokens : Z)
| ToUpstream (ctx : Ctx).

Definition gates (streaming : bool) (api_key : string) (ctx : Ctx) : Phase Passed :=
  let start := x_start_time ctx in
  ctx ⟵ authenticate api_key ctx;
  multiplier ⟵ screen_abuse api_key (abuse_text (cr_messages (x_chat_request ctx)));
  rc ⟵ inbound api_key ctx;
  let '(result, ctx) := rc in
  record_compression ctx;;
  if bool_decide (result = ShortCircuited) && x_cache_hit ctx then
    saved ← record_cache_hit streaming start ctx;
    pass (FromCache ctx saved)
  else
    tenant ⟵ limit_rate api_key multiplier ctx;
    _ ⟵ limit_cost tenant ctx;
    ctx ⟵ route streaming start tenant ctx;
    pass (ToUpstream ctx).

(** ** The upstream call, not streaming *)

Definition failed (err : GatewayError) : ProcessResult :=
  {| success := false; response := no_response; error := err; tokens_saved := 0;
     result_headers := ∅ |}.

Definition succeeded (resp : ChatResponse) (saved : Z) (ctx : Ctx) : ProcessResult :=
  {| success := true; response := resp; error := no_error; tokens_saved := saved;
     result_headers := x_response_headers ctx |}.

Definition cached_response (ctx : Ctx) : ChatResponse :=
  {| r_id := x_request_id ctx; r_model := cr_model (x_chat_request ctx);
     r_content := x_cached_response ctx; r_usage := no_usage; r_finish_reason := "stop";
     r_tool_calls := [] |}.

(** The cache write of both paths. *)
Definition write_cache (ctx : Ctx) : gw unit :=
  if g_cache cfg && negb (no_elems (cr_messages (x_chat_request ctx))) && negb (x_has_tools ctx) then
    conv_id ← (if g_resolver cfg then call (ConversationId (x_chat_request ctx)) else Ret "");
    call (CachePut (cr_messages (x_chat_request ctx)) (x_accumulated_response ctx)
            (x_target_model ctx) (x_tenant_id ctx) conv_id)
  else Ret tt.

Definition with_content (text : string) (resp : ChatResponse) : ChatResponse :=
  {| r_id := r_id resp; r_model := r_model resp; r_content := text; r_usage := r_usage resp;
     r_finish_reason := r_finish_reason resp; r_tool_calls := r_tool_calls resp |}.
Definition with_id (id : string) (resp : ChatResponse) : ChatResponse :=
  {| r_id := id; r_model := r_model resp; r_content := r_content resp; r_usage := r_usage resp;
     r_finish_reason := r_finish_reason resp; r_tool_calls := r_tool_calls resp |}.

Definition finalizeNonStreamingResponse (resp : ChatResponse) (ctx : Ctx) : gw ChatResponse :=
  write_cache ctx;;
  Ret (with_content (x_accumulated_response ctx) resp).

(** The [catch] block. *)
Definition upstream_failed (upstream_start : Z) (e : Exception) (ctx : Ctx) : gw ProcessResult :=
  now ← call Steady;
  call (Observe "upstreamDuration" [("model", x_target_model ctx)] (seconds (now - upstream_start)));;
  now ← call Steady;
  call (ReportOutcome (x_target_model ctx) (int_to_double ((now - upstream_start) / 10 ^ 6)) false);;
  inc "fallbackTotal" [];;
  inc "requestsTotal" (model_status (x_target_model ctx) "error");;
  call (Connections false);;
  Ret (failed (Fallback.surface e)).

Definition deliver (start : Z) (resp : ChatResponse) (ctx : Ctx) : gw (option ProcessResult) :=
  r ← run_stages (g_outbound cfg) ctx;
  match r with
  | None => Ret None
  | Some (Rejected, ctx) =>
      inc "guardrailBlocksTotal" [];;
      inc "requestsTotal" (model_status (x_target_model ctx) "rejected");;
      call (Connections false);;
      Ret (Some (failed (err_of 403 ContentFiltered)))
  | Some (_, ctx) =>
      resp ← finalizeNonStreamingResponse resp ctx;
      now ← call Steady;
      call (Observe "requestDuration" [] (seconds (now - start)));;
      inc "requestsTotal" (model_status (x_target_model ctx) "ok");;
      call (Inc "tokensTotal" [] (int_to_double (total_tokens (x_token_usage ctx))));;
      call (Connections false);;
      Ret (Some (succeeded resp (x_tokens_saved_compression ctx) ctx))
  end.

(** The context with the answer that the outbound stages see. *)
Definition with_answer (resp : ChatResponse) (ctx : Ctx) : Ctx :=
  ctx <| x_token_usage := r_usage resp |> <| x_accumulated_response := r_content resp |>.

Definition upstream (start : Z) (ctx : Ctx) : gw (option ProcessResult) :=
  upstream_start ← call Steady;
  r ← call (Complete (x_chat_request ctx) (x_target_model ctx));
  match r with
  | inl e => res ← upstream_failed upstream_start e ctx; Ret (Some res)
  | inr resp =>
      let ctx := with_answer resp ctx in
      let resp := with_id (x_request_id ctx) resp in
      now ← call Steady;
      call (Observe "upstreamDuration" [("model", x_target_model ctx)]
              (seconds (now - upstream_start)));;
      now ← call Steady;
      call (ReportOutcome (x_target_model ctx) (millis (now - upstream_start)) true);;
      deliver start resp ctx
  end.

Definition processRequest (request : ChatRequest) (api_key : string)
    (request_headers : gmap string string) : gw (option ProcessResult) :=
  ctx ← open_request false request api_key request_headers;
  r ← gates false api_key ctx;
  match r with
  | None => Ret None
  | Some (inl err) => Ret (Some (failed err))
  | Some (inr (FromCache ctx saved)) => Ret (Some (succeeded (cached_response ctx) saved ctx))
  | Some (inr (ToUpstream ctx')) => upstream (x_start_time ctx) ctx'
  end.

(** ** Streaming *)

Definition send (e : ClientEvent) : gw unit := call (Client e).

(** The elements a range-[for] over a JSON value visits. *)
Definition json_elems (j : json) : list json :=
  match j with JNull => [] | JArray l => l | JObject m => m.*2 | _ => [j] end.

(** The tool calls of a delta appended to those so far; [None] is the
    exception of [push_back]. *)
Definition add_tool_calls (calls delta : json) : option json :=
  match delta with
  | JNull => Some calls
  | _ =>
      match calls, json_elems delta with
      | JNull, l => Some (JArray l)
      | JArray l', l => Some (JArray (l' ++ l))
      | _, [] => Some calls
      | _, _ => None
      end
  end.

(** The text and the tool calls of a delta are kept in the context. *)
Definition absorb (ctx : Ctx) (delta : StreamDelta) : option Ctx :=
  calls ← add_tool_calls (x_accumulated_tool_calls ctx) (d_tool_calls_delta delta);
  Some (ctx <| x_accumulated_response := x_accumulated_response ctx +:+ d_content delta |>
            <| x_accumulated_tool_calls := calls |>).

(** The delta with the text of the outbound stages, if they left any. *)
Definition filtered_delta (delta : StreamDelta) (filtered : string) : StreamDelta :=
  if str_empty filtered then delta
  else {| d_content := filtered; d_tool_calls_delta := d_tool_calls_delta delta;
          d_finish_reason := d_finish_reason delta |}.

Definition on_delta (ctx : Ctx) (delta : StreamDelta) : gw (option Ctx) :=
  match absorb ctx delta with
  | None => Ret None
  | Some ctx =>
      if x_stream_rejected ctx then Ret (Some ctx)
      else if str_empty (d_content delta) then send (OnDelta delta);; Ret (Some ctx)
      else
        r ← executeChunk (λ stage ctx chunk, call (ProcessChunk stage ctx chunk))
              (g_outbound cfg) ctx (d_content delta);
        match r with
        | None => Ret None
        | Some (Rejected, _, ctx) => Ret (Some (ctx <| x_stream_rejected := true |>))
        | Some (_, filtered, ctx) =>
            send (OnDelta (filtered_delta delta filtered));; Ret (Some ctx)
        end
  end.

Fixpoint on_deltas (ctx : Ctx) (deltas : list StreamDelta) : gw (option Ctx) :=
  match deltas with
  | [] => Ret (Some ctx)
  | d :: deltas =>
      r ← on_delta ctx d;
      match r with None => Ret None | Some ctx => on_deltas ctx deltas end
  end.

Definition on_done (start upstream_start : Z) (usage : TokenUsage) (ctx : Ctx) : gw (option unit) :=
  let ctx := ctx <| x_token_usage := usage |> in
  now ← call Steady;
  call (Observe "upstreamDuration" [("model", x_target_model ctx)] (seconds (now - upstream_start)));;
  r ← run_stages (g_outbound cfg) ctx;
  match r with
  | None => Ret None
  | Some (result, ctx) =>
      if x_stream_rejected ctx || bool_decide (result = Rejected) then
        inc "guardrailBlocksTotal" [];;
        inc "requestsTotal" (model_status (x_target_model ctx) "rejected");;
        call (Connections false);;
        send (OnError (err_of 403 ContentFiltered));;
        Ret (Some tt)
      else
        write_cache ctx;;
        now ← call Steady;
        call (ReportOutcome (x_target_model ctx) (millis (now - upstream_start)) true);;
        now ← call Steady;
        call (Observe "requestDuration" [] (seconds (now - start)));;
        inc "requestsTotal" (model_status (x_target_model ctx) "ok");;
        call (Inc "tokensTotal" [] (int_to_double (total_tokens usage)));;
        call (Connections false);;
        send (OnDone usage (x_tokens_saved_compression ctx));;
        Ret (Some tt)
  end.

Definition on_error (upstream_start : Z) (err : GatewayError) (ctx : Ctx) : gw unit :=
  now ← call Steady;
  call (Observe "upstreamDuration" [] (seconds (now - upstream_start)));;
  now ← call Steady;
  call (ReportOutcome (x_target_model ctx) (millis (now - upstream_start)) false);;
  inc "fallbackTotal" [];;
  inc "requestsTotal" (model_status (x_target_model ctx) "error");;
  call (Connections false);;
  send (OnError err).

(** The callbacks run in this order, on the transport's thread and possibly
    after the function has returned; nothing follows the call in it. *)
Definition stream_upstream (start : Z) (ctx : Ctx) : gw (option unit) :=
  upstream_start ← call Steady;
  '(deltas, end_) ← call (Stream (x_chat_request ctx) (x_target_model ctx));
  r ← on_deltas ctx deltas;
  match r with
  | None => Ret None
  | Some ctx =>
      match end_ with
      | None => Ret None
      | Some (inr usage) => on_done start upstream_start usage ctx
      | Some (inl err) => on_error upstream_start err ctx;; Ret (Some tt)
      end
  end.

Definition processStreamingRequest (request : ChatRequest) (api_key : string)
    (request_headers : gmap string string) : gw (option unit) :=
  ctx ← open_request true request api_key request_headers;
  r ← gates true api_key ctx;
  match r with
  | None => Ret None
  | Some (inl err) => send (OnError err);; Ret (Some tt)
  | Some (inr (FromCache ctx saved)) =>
      send (OnDelta {| d_content := x_cached_response ctx; d_tool_calls_delta := JNull;
                       d_finish_reason := "" |});;
      send (OnDone no_usage saved);;
      Ret (Some tt)
  | Some (inr (ToUpstream ctx')) => stream_upstream (x_start_time ctx) ctx'
  end.

End gateway.
End Gateway.
