(* ===== verification/GatewayFacts.v ===== *)
(** * GatewayFacts: what every run of a chat request does

    Properties of [Gateway] that hold for all traces, that is whatever the key
    service, the guardrail stages, the limiters, the router, the upstreams and
    the cache answer: which checks precede an upstream call, what the client
    receives, when the connection gauge is released. *)
From Corelib Require Import PrimFloat.
From S2P Require Import Prelude.
From S2P Require Import Prog.
From S2P Require Import Trace.
From S2P Require Import Json.
From S2P Require Import ErrorCodes.
From S2P Require Import Fallback.
From S2P Require Import Identity.
From S2P Require Import Auth.
From S2P Require Import ChatTypes.
From S2P Require Import Pipeline.
From S2P Require Import IsoTime.
From S2P Require Import Gateway.
Import ErrorCodes Json ChatTypes Pipeline Gateway.
Local Open Scope Z_scope.

Module GatewayFacts.

(** ** Reading a trace *)

Section reading.
Context {X : Type}.
Notation GwEvent := (Event (GwCmd X)).

(** The change of the connection gauge. *)
Definition gauge (ev : GwEvent) : Z :=
  let 'Ev e _ := ev in
  match e with Connections true => 1 | Connections false => -1 | _ => 0 end.

Definition connections (tr : list GwEvent) : Z := foldr (λ ev n, gauge ev + n) 0 tr.

(** The calls that leave the gateway: upstream, to the cache, to the client. *)
Definition visible (ev : GwEvent) : bool :=
  let 'Ev e _ := ev in
  match e with Complete _ _ | Stream _ _ | CachePut _ _ _ _ _ | Client _ => true | _ => false end.

Definition visibles (tr : list GwEvent) : list GwEvent := filter (λ ev, visible ev = true) tr.

Lemma connections_app tr1 tr2 : connections (tr1 ++ tr2) = connections tr1 + connections tr2.
Proof. induction tr1 as [|ev tr1 IH]; [done|]. rw /= IH. lia. Qed.

Lemma connections_cons ev tr : connections (ev :: tr) = gauge ev + connections tr.
Proof. done. Qed.

Lemma visibles_app tr1 tr2 : visibles (tr1 ++ tr2) = visibles tr1 ++ visibles tr2.
Proof. apply filter_app. Qed.

Lemma visibles_nil : visibles [] = [].
Proof. done. Qed.

Lemma visibles_hidden ev tr : visible ev = false → visibles (ev :: tr) = visibles tr.
Proof. intros Hv. unfold visibles. rw filter_cons_False //. by rw Hv. Qed.

Lemma visibles_shown ev tr : visible ev = true → visibles (ev :: tr) = ev :: visibles tr.
Proof. intros Hv. unfold visibles. rw filter_cons_True //. Qed.

End reading.

(** Counts the connections and the visible calls of a trace that is spelled out. *)
Ltac tally :=
  repeat first
    [ rewrite connections_app | rewrite connections_cons | rewrite visibles_app | rewrite visibles_nil
    | rewrite visibles_hidden; [|reflexivity] | rewrite visibles_shown; [|reflexivity] | rewrite app_nil_r ];
  cbn [gauge connections foldr].

Section facts.
Context {X : Type} (fresh : X) (cfg : GwConfig).
Notation Ctx := (RequestContext X).
Notation GwEvent := (Event (GwCmd X)).

(** A phase makes no visible call and releases the connection exactly when it
    answers with an error. *)
Definition phase_quiet {A} (tr : list GwEvent) (r : option (GatewayError + A)) : Prop :=
  visibles tr = [] ∧ connections tr = match r with Some (inl _) => -1 | _ => 0 end.

Lemma trace_then {A B} (p : prog (GwCmd X) (option (GatewayError + A)))
    (f : A → prog (GwCmd X) (option (GatewayError + B))) tr r :
  trace (then_ p f) tr r →
  ∃ tr1 tr2 a, tr = tr1 ++ tr2 ∧ trace p tr1 a ∧
    match a with
    | None => r = None ∧ tr2 = []
    | Some (inl err) => r = Some (inl err) ∧ tr2 = []
    | Some (inr a) => trace (f a) tr2 r
    end.
Proof.
  unfold then_. intros (tr1 & tr2 & a & -> & H1 & H2)%trace_bind. exists tr1, tr2, a.
  split_and!; [done|done|]. destruct a as [[err|a]|]; [by destruct H2|done|by destruct H2].
Qed.

(** Phases in a row. *)
Lemma then_quiet {A B} (p : prog (GwCmd X) (option (GatewayError + A)))
    (f : A → prog (GwCmd X) (option (GatewayError + B))) (P : list GwEvent → A → Prop) tr r :
  (∀ tr a, trace p tr a → phase_quiet tr a ∧ ∀ x, a = Some (inr x) → P tr x) →
  trace (then_ p f) tr r →
  (phase_quiet tr r ∧ ∀ x, r ≠ Some (inr x)) ∨
  ∃ tr1 tr2 a, tr = tr1 ++ tr2 ∧ visibles tr1 = [] ∧ connections tr1 = 0 ∧ P tr1 a ∧
    trace (f a) tr2 r.
Proof.
  intros Hp (tr1 & tr2 & a & -> & H1 & H2)%trace_then. destruct (Hp _ _ H1) as [[Hv Hc] HP].
  destruct a as [[err|a]|]; [left|right|left].
  - destruct H2 as [-> ->]. by rw app_nil_r.
  - exists tr1, tr2, a. split_and!; [done|done|done|by apply HP|done].
  - destruct H2 as [-> ->]. by rw app_nil_r.
Qed.

Lemma trace_deny {A} err tr (r : option (GatewayError + A)) :
  trace (deny (X := X) err) tr r → tr = [Ev (Connections false) tt] ∧ r = Some (inl err).
Proof. by intros ([] & tr' & -> & -> & ->). Qed.

Lemma trace_authenticate key (ctx : Ctx) tr r :
  trace (authenticate cfg key ctx) tr r →
  phase_quiet tr r ∧
  ∀ ctx', r = Some (inr ctx') →
    x_chat_request ctx' = x_chat_request ctx ∧
    if g_auth_service cfg then
      ∃ a, Ev (ResolveKey key) a ∈ tr ∧ (g_rbac cfg = true → is_Some a) ∧
        x_auth_context ctx' = (if a then a else x_auth_context ctx)
    else ctx' = ctx.
Proof.
  unfold authenticate, pass. destruct (g_auth_service cfg); intros H.
  - destruct H as (a & tr' & -> & H). destruct a as [a|]; [|destruct (g_rbac cfg)].
    + destruct H as [-> ->]. split; [by split; tally|]. intros ctx' [= <-]. split; [done|].
      exists (Some a). split_and!; [by left|by eexists|done].
    + apply trace_deny in H as [-> ->]. split; [by split; tally|done].
    + destruct H as [-> ->]. split; [by split; tally|]. intros ctx' [= <-]. split; [done|].
      exists None. by split_and!; [left|..].
  - destruct H as [-> ->]. split; [done|]. by intros ctx' [= <-].
Qed.

(** The multiplier the abuse detector's answer stands for. *)
Definition screened (key text : string) (multiplier : float) (h : list GwEvent) : Prop :=
  match g_abuse cfg with
  | None => multiplier = 1%float
  | Some (factor, _) =>
      ∃ action, Ev (ObserveKey key text) action ∈ h ∧ action ≠ Block ∧
        multiplier = abuseCostMultiplier factor action
  end.

Lemma trace_screen key text tr r :
  trace (screen_abuse (X := X) cfg key text) tr r →
  phase_quiet tr r ∧ ∀ m, r = Some (inr m) → screened key text m tr.
Proof.
  unfold screen_abuse, screened, pass. destruct (g_abuse cfg) as [[factor max]|]; intros H.
  - destruct H as (action & tr' & -> & H). destruct action.
    1-3: destruct H as [-> ->]; (split; [by split; tally|]); intros m [= <-];
      eexists; (split; [by left|done]).
    apply trace_deny in H as [-> ->]. split; [by split; tally|done].
  - destruct H as [-> ->]. split; [done|]. by intros m [= <-].
Qed.

(** The stages answered so that the pipeline ends with this result, and none
    of them rejected. *)
Inductive stages_passed (h : list GwEvent) : list string → Ctx → PipelineResult → Ctx → Prop :=
| passed_all ctx : stages_passed h [] ctx Success ctx
| passed_continue stage stages ctx ctx1 result ctx2 :
    Ev (Process stage ctx) (Some (Continue, ctx1)) ∈ h →
    stages_passed h stages ctx1 result ctx2 →
    stages_passed h (stage :: stages) ctx result ctx2
| passed_short stage stages ctx ctx1 :
    Ev (Process stage ctx) (Some (ShortCircuit, ctx1)) ∈ h →
    stages_passed h (stage :: stages) ctx ShortCircuited ctx1
| passed_error stage stages ctx ctx1 :
    Ev (Process stage ctx) (Some (StageError, ctx1)) ∈ h →
    stages_passed h (stage :: stages) ctx PipelineError ctx1.

Lemma stages_passed_mono h h' stages ctx result ctx' :
  h ⊆ h' → stages_passed h stages ctx result ctx' → stages_passed h' stages ctx result ctx'.
Proof.
  intros Hh. induction 1; [apply passed_all|eapply passed_continue|apply passed_short|apply passed_error];
    try (by apply Hh); done.
Qed.

Lemma trace_stages stages (ctx : Ctx) tr r :
  trace (run_stages stages ctx) tr r →
  visibles tr = [] ∧ connections tr = 0 ∧
  ∀ result ctx', r = Some (result, ctx') →
    result ≠ Rejected → stages_passed tr stages ctx result ctx'.
Proof.
  unfold run_stages. revert ctx tr r. induction stages as [|stage stages IH]; intros ctx tr r H.
  { destruct H as [-> ->]. split_and!; [done..|]. intros result ctx' [= <- <-] _. constructor. }
  destruct H as (ans & tr' & -> & H). tally.
  destruct ans as [[[] ctx1]|].
  - destruct (IH _ _ _ H) as (Hv & Hc & Hs). split_and!; [done|lia|].
    intros result ctx' Hr Hne. eapply passed_continue; [by left|].
    eapply stages_passed_mono; [|by apply Hs]. intros ev Hev. by right.
  - destruct H as [-> ->]. split_and!; [done..|]. intros ?? [= <- <-] _. apply passed_short. by left.
  - destruct H as [-> ->]. split_and!; [done..|]. by intros ?? [= <- <-].
  - destruct H as [-> ->]. split_and!; [done..|]. intros ?? [= <- <-] _. apply passed_error. by left.
  - destruct H as [-> ->]. by split_and!.
Qed.

(** No stage ends the pipeline before its end other than by a rejection. *)
Definition no_early_end (h : list GwEvent) : Prop :=
  ∀ stage ctx a ctx', Ev (Process stage ctx) (Some (a, ctx')) ∈ h → a = Continue ∨ a = Reject.

Lemma stages_no_early_end h stages ctx result ctx' :
  stages_passed h stages ctx result ctx' → no_early_end h → result = Success.
Proof.
  intros H Hh. induction H as [|????????? IH|?? c1 c2 Hin|?? c1 c2 Hin]; [done|done|..];
    by destruct (Hh _ _ _ _ Hin).
Qed.

Lemma trace_when_hidden c (e : GwCmd X unit) tr u :
  visible (Ev e tt) = false → gauge (Ev e tt) = 0 → trace (when_ c (call e)) tr u →
  visibles tr = [] ∧ connections tr = 0.
Proof.
  intros Hv Hg [[_ H]|[_ ->]]%trace_when; [|done]. apply trace_call in H as ->. destruct u.
  by rw visibles_hidden // connections_cons Hg.
Qed.

Lemma trace_inbound key (ctx : Ctx) tr r :
  trace (inbound cfg key ctx) tr r →
  phase_quiet tr r ∧
  ∀ result ctx', r = Some (inr (result, ctx')) →
    stages_passed tr (g_inbound cfg) ctx result ctx' ∧ (result = Success ∨ result = ShortCircuited).
Proof.
  unfold inbound, pass. intros (tr1 & tr2 & a & -> & (Hv & Hc & Hs)%trace_stages & H)%trace_bind.
  destruct a as [[[] ctx1]|].
  - destruct H as [-> ->]. rw app_nil_r. split; [done|]. intros ?? [= <- <-]. split; [by apply Hs|by left].
  - apply trace_bind in H as (tr3 & tr4 & u & -> & Hw & H). apply trace_when_hidden in Hw as [Hw1 Hw2]; [|done..].
    destruct H as (? & ? & -> & H). destruct H as (? & ? & -> & H). apply trace_deny in H as [-> ->].
    split; [|done]. split; tally; [by rw Hv Hw1|lia].
  - apply trace_deny in H as [-> ->]. split; [|done]. split; tally; [by rw Hv|lia].
  - destruct H as [-> ->]. rw app_nil_r. split; [done|]. intros ?? [= <- <-]. split; [by apply Hs|by right].
  - destruct H as [-> ->]. rw app_nil_r. by split.
Qed.

Lemma trace_compression (ctx : Ctx) tr u :
  trace (record_compression cfg ctx) tr u → visibles tr = [] ∧ connections tr = 0.
Proof.
  unfold record_compression. intros [[_ H]|[_ ->]]%trace_when; [|done].
  destruct H as (? & tr' & -> & H). apply trace_when_hidden in H as [Hv Hc]; [|done..]. by tally.
Qed.

Lemma trace_cache_hit streaming start (ctx : Ctx) tr saved :
  trace (record_cache_hit cfg streaming start ctx) tr saved →
  visibles tr = [] ∧ connections tr = -1.
Proof.
  unfold record_cache_hit, inc. intros H. trace_next H.
  trace_split H as [Hv Hc]%trace_when_hidden; [|done..].
  trace_split H as [Hv' Hc']%trace_when_hidden; [|done..].
  do 5 trace_next H. tally. by rw Hv Hv' Hc Hc'.
Qed.

(** The row of the request's tenant, as the runtime read it. *)
Definition tenant_read (ctx : Ctx) (row : option Tenant) (h : list GwEvent) : Prop :=
  match x_auth_context ctx with
  | Some a => if g_store cfg then Ev (TenantRow (c_tenant_id a)) row ∈ h else row = None
  | None => row = None
  end.

(** The limiter of the tenant let the request's cost through. *)
Definition rate_allowed (key : string) (multiplier : float) (row : option Tenant) (ctx : Ctx)
    (h : list GwEvent) : Prop :=
  Ev (TryAcquire (tenant_limiter row) (limiter_key key ctx)
        (estimated_cost (cr_messages (x_chat_request ctx)) multiplier)) true ∈ h.

Lemma trace_policy (ctx : Ctx) tr r :
  trace (resolveTenantPolicy cfg ctx) tr r →
  visibles tr = [] ∧ connections tr = 0 ∧ tenant_read ctx r.1 tr ∧ r.2 = tenant_limiter r.1.
Proof.
  unfold resolveTenantPolicy, tenant_read. intros H.
  destruct (x_auth_context ctx) as [a|]; [destruct (g_store cfg)|].
  - trace_next H. trace_next H. split_and!; [by tally..| |done]. by left.
  - by trace_next H.
  - by trace_next H.
Qed.

Lemma trace_limit_rate key multiplier (ctx : Ctx) tr r :
  trace (limit_rate cfg key multiplier ctx) tr r →
  phase_quiet tr r ∧
  ∀ row, r = Some (inr row) → tenant_read ctx row tr ∧ rate_allowed key multiplier row ctx tr.
Proof.
  unfold limit_rate, pass, inc. intros H. trace_split H as (Hv & Hc & Ht & Hlim)%trace_policy.
  destruct x1 as [row limiter]. cbn [fst snd] in Hlim. subst limiter. trace_next H. destruct x1.
  - trace_next H. split; [by split; tally; rw ?Hv ?Hc|]. intros row' [= <-]. split.
    + unfold tenant_read in *. repeat case_match; try done. set_solver.
    + unfold rate_allowed. set_solver.
  - do 2 trace_next H. apply trace_deny in H as [-> ->]. split; [|done].
    by split; tally; rw ?Hv ?Hc.
Qed.

(** A limit, if there is one, is above the cost of the period. *)
Definition cost_within (limit : float) (tenant from to : string) (h : list GwEvent) : Prop :=
  (0 <? limit)%float = true →
  ∃ cost, Ev (CostInPeriod tenant from to) cost ∈ h ∧ (limit <=? cost)%float = false.

(** The limits of a tenant against the costs of the day and of the month in
    which the clock was read. *)
Definition costs_within (t : Tenant) (tenant : string) (h : list GwEvent) : Prop :=
  ∃ now, Ev System now ∈ h ∧
    let date := IsoTime.gmtime (now / 10 ^ 9) in
    cost_within (t_daily_cost_limit t) tenant (day_text date "00:00:00") (day_text date "23:59:59") h ∧
    cost_within (t_monthly_cost_limit t) tenant
      (month_text (IsoTime.tm_year date) (IsoTime.tm_mon date)) (next_month date) h.

Lemma cost_within_mono limit tenant from to h h' :
  h ⊆ h' → cost_within limit tenant from to h → cost_within limit tenant from to h'.
Proof. intros Hh Hc Hl. destruct (Hc Hl) as (c & Hin & Hle). exists c. auto. Qed.

Lemma costs_within_mono t tenant h h' : h ⊆ h' → costs_within t tenant h → costs_within t tenant h'.
Proof.
  intros Hh (now & Hn & Hd & Hm). exists now. split; [by apply Hh|].
  split; (eapply cost_within_mono; [exact Hh|done]).
Qed.

Lemma trace_over_limit limit tenant from to tr (r : bool) :
  trace (over_limit (X := X) limit tenant from to) tr r →
  visibles tr = [] ∧ connections tr = 0 ∧ (r = false → cost_within limit tenant from to tr).
Proof.
  unfold over_limit, cost_within. intros H. destruct (0 <? limit)%float.
  - do 2 trace_next H. split_and!; [by tally..|]. intros Hle _. eexists _. split; [by left|done].
  - trace_next H. by split_and!.
Qed.

Lemma trace_limit_cost row (ctx : Ctx) tr r :
  trace (limit_cost cfg row ctx) tr r →
  phase_quiet tr r ∧
  ∀ u t, r = Some (inr u) → row = Some t → g_store cfg = true → costs_within t (context_tenant ctx) tr.
Proof.
  unfold limit_cost, checkTenantCostLimits, pass. intros H.
  destruct row as [t|]; [|by trace_next H].
  destruct (g_store cfg); [|by trace_split H as [-> ->]; trace_next H].
  apply trace_bind in H as (tr1 & tr2 & over & -> & H1 & H). trace_next H1.
  apply trace_bind in H1 as (tr3 & tr4 & daily & -> & (Hv & Hc & Hd)%trace_over_limit & H1).
  destruct daily.
  - trace_next H1. apply trace_deny in H as [-> ->]. split; [|done].
    split; tally; [by rw Hv|lia].
  - apply trace_bind in H1 as (tr5 & tr6 & monthly & -> & (Hv' & Hc' & Hm)%trace_over_limit & H1).
    trace_next H1. destruct monthly.
    + apply trace_deny in H as [-> ->]. split; [|done]. split; tally; [by rw Hv Hv'|lia].
    + trace_next H. split; [split; tally; [by rw Hv Hv'|lia]|]. intros u t' _ [= <-] _.
      eexists. split; [by left|]. split; (eapply cost_within_mono; [|by auto]); set_solver.
Qed.

Lemma trace_ab (ctx : Ctx) tr ctx' :
  trace (recordAbAttribution ctx) tr ctx' →
  visibles tr = [] ∧ connections tr = 0 ∧
  ∃ headers, ctx' = ctx <| x_response_headers := headers |>.
Proof.
  unfold recordAbAttribution, inc. intros H. destruct (_ || _).
  - trace_next H. split_and!; [done..|]. exists (x_response_headers ctx). by destruct ctx.
  - do 2 trace_next H. split_and!; [by tally..|]. by eexists.
Qed.

(** The router chose the model the request goes to, for the context it got. *)
Definition routed (ctx : Ctx) (row : option Tenant) (h : list GwEvent) (ctx' : Ctx) : Prop :=
  ∃ ctx2, Ev (SelectModel ctx) (Some (x_target_model ctx', ctx2)) ∈ h ∧
    x_target_model ctx' ≠ "" ∧
    (∀ t, row = Some t → isModelAllowed t (x_target_model ctx') = true) ∧
    x_chat_request ctx' = x_chat_request ctx2 ∧ x_tenant_id ctx' = x_tenant_id ctx2 ∧
    x_has_tools ctx' = x_has_tools ctx2.

Lemma trace_route streaming start row (ctx : Ctx) tr r :
  trace (route cfg streaming start row ctx) tr r →
  phase_quiet tr r ∧ ∀ ctx', r = Some (inr ctx') → routed ctx row tr ctx'.
Proof.
  unfold route, pass. intros H. trace_next H.
  destruct x as [[model ctx2]|]; [|trace_next H; split; [by split; tally|done]].
  destruct (str_empty model) eqn:Hm; [apply trace_deny in H as [-> ->]; split; [by split; tally|done]|].
  apply str_empty_false in Hm. 
  apply trace_bind in H as (tr1 & tr2 & ctx3 & -> & (Hv & Hc & headers & Hctx)%trace_ab & H).
  destruct (from_option _ false row) eqn:Hallow.
  { apply trace_deny in H as [-> ->]. split; [|done]. split; tally; [by rw Hv|lia]. }
  assert (∀ t, row = Some t → isModelAllowed t model = true) as Hrow.
  { intros t ->. simpl in Hallow. by destruct (isModelAllowed t model). }
  assert (∀ tr, routed ctx row (Ev (SelectModel ctx) (Some (model, ctx2)) :: tr) ctx3) as Hr.
  { intros tr. exists ctx2. subst ctx3. destruct streaming; (split; [by left|done]). }
  destruct (0 <? g_request_timeout cfg).
  - trace_next H. destruct (_ <=? _)%float.
    + apply trace_deny in H as [-> ->]. split; [|done]. split; tally; [by rw Hv|lia].
    + trace_next H. split; [split; tally; [by rw Hv|lia]|]. intros ctx' [= <-]. apply Hr.
  - trace_next H. split; [split; tally; [by rw Hv|lia]|]. intros ctx' [= <-]. apply Hr.
Qed.

(** The key was resolved, when there is a service for it, and must have been
    known when access control is on. *)
Definition authorized (key : string) (ctx : Ctx) (h : list GwEvent) : Prop :=
  if g_auth_service cfg then
    Ev (ResolveKey key) (x_auth_context ctx) ∈ h ∧
    (g_rbac cfg = true → is_Some (x_auth_context ctx))
  else x_auth_context ctx = None.

(** The request passed the key, the abuse detector and the guardrails, which
    left it in [ctx]. *)
Definition entered (request : ChatRequest) (key : string) (h : list GwEvent)
    (multiplier : float) (result : PipelineResult) (ctx : Ctx) : Prop :=
  ∃ ctx0, x_chat_request ctx0 = request ∧ authorized key ctx0 h ∧
    screened key (abuse_text cfg (cr_messages request)) multiplier h ∧
    stages_passed h (g_inbound cfg) ctx0 result ctx.

(** ... and the limits of the tenant and the router.  The guardrails end with
    [Success], or with a stage that short-circuits without a cache hit, behind
    which the request goes on. *)
Definition cleared (request : ChatRequest) (key : string) (h : list GwEvent)
    (result : PipelineResult) (ctx' : Ctx) : Prop :=
  ∃ multiplier ctx row,
    entered request key h multiplier result ctx ∧
    (result = Success ∨ result = ShortCircuited ∧ x_cache_hit ctx = false) ∧
    tenant_read ctx row h ∧ rate_allowed key multiplier row ctx h ∧
    (∀ t, row = Some t → costs_within t (context_tenant ctx) h) ∧
    routed ctx row h ctx'.

Lemma entered_mono request key h h' multiplier result ctx :
  h ⊆ h' → entered request key h multiplier result ctx →
  entered request key h' multiplier result ctx.
Proof.
  intros Hh (ctx0 & Hr & Ha & Hs & Hp). exists ctx0. split_and!; [done| | |by eapply stages_passed_mono].
  - unfold authorized in *. destruct (g_auth_service cfg); [|done]. destruct Ha. by auto.
  - unfold screened in *. destruct (g_abuse cfg) as [[factor ?]|]; [|done].
    destruct Hs as (act & ? & ? & ?). exists act. by auto.
Qed.

Lemma cleared_mono request key h h' result ctx :
  h ⊆ h' → cleared request key h result ctx → cleared request key h' result ctx.
Proof.
  intros Hh (m & ctx1 & row & He & Hres & Ht & Hl & Hc & (ctx2 & Hs & Hrest)).
  exists m, ctx1, row. split_and!; [by eapply entered_mono|done| | | |].
  - unfold tenant_read in *. destruct (x_auth_context ctx1); [|done].
    destruct (g_store cfg); [|done]. by auto.
  - by apply Hh.
  - intros t Hrow. eapply costs_within_mono; [done|by apply Hc].
  - exists ctx2. by auto.
Qed.

(** A stage short-circuits only with a cache hit. *)
Definition hits_only (h : list GwEvent) : Prop :=
  ∀ stage ctx ctx', Ev (Process stage ctx) (Some (ShortCircuit, ctx')) ∈ h → x_cache_hit ctx' = true.

Lemma stages_hits_only h stages ctx ctx' :
  hits_only h → stages_passed h stages ctx ShortCircuited ctx' → x_cache_hit ctx' = true.
Proof.
  intros Hh. remember ShortCircuited as result eqn:Hr. induction 1; try done; [by apply IHstages_passed|].
  by eapply Hh.
Qed.

Lemma cleared_hits_only request key h result ctx :
  cleared request key h result ctx → hits_only h → result = Success.
Proof.
  intros (m & ctx1 & row & (ctx0 & _ & _ & _ & Hp) & [->|[-> Hc]] & _) Hh; [done|].
  by rw (stages_hits_only _ _ _ _ Hh Hp) in Hc.
Qed.

(** What [gates] does, by its result. *)
Definition gate_change (r : option (GatewayError + Passed (X := X))) : Z :=
  match r with Some (inl _) | Some (inr (FromCache _ _)) => -1 | _ => 0 end.

Definition gated (request : ChatRequest) (key : string) (h : list GwEvent)
    (r : option (GatewayError + Passed (X := X))) : Prop :=
  match r with
  | Some (inr (FromCache ctx _)) =>
      ∃ multiplier, entered request key h multiplier ShortCircuited ctx ∧ x_cache_hit ctx = true
  | Some (inr (ToUpstream ctx)) => ∃ result, cleared request key h result ctx
  | _ => True
  end.

Definition gates_end (request : ChatRequest) (key : string) (h : list GwEvent)
    (r : option (GatewayError + Passed (X := X))) : Prop :=
  visibles h = [] ∧ connections h = gate_change r ∧ gated request key h r.

(** One phase of the gates after a quiet history [pre]. *)
Lemma gates_then {A} (p : prog (GwCmd X) (option (GatewayError + A))) f (P : list GwEvent → A → Prop)
    request key pre tr r :
  (∀ tr a, trace p tr a → phase_quiet tr a ∧ ∀ x, a = Some (inr x) → P tr x) →
  visibles pre = [] → connections pre = 0 → trace (then_ p f) tr r →
  (∀ tr1 a tr2, visibles (pre ++ tr1) = [] → connections (pre ++ tr1) = 0 → P tr1 a →
     trace (f a) tr2 r → gates_end request key ((pre ++ tr1) ++ tr2) r) →
  gates_end request key (pre ++ tr) r.
Proof.
  intros Hp Hv Hc [[[Hv' Hc'] Hr]|(tr1 & tr2 & a & -> & Hv1 & Hc1 & HP & H)]%(then_quiet _ _ P) Hk;
    [| |done].
  - unfold gates_end. rw visibles_app Hv Hv' connections_app Hc Hc'.
    destruct r as [[err|x]|]; [done|by destruct (Hr x)|done].
  - rw (assoc app). apply (Hk _ a); [by rw visibles_app Hv Hv1|by rw connections_app Hc Hc1|done|done].
Qed.

Lemma trace_limits streaming start request key multiplier result (ctx : Ctx) pre tr r :
  visibles pre = [] → connections pre = 0 → entered request key pre multiplier result ctx →
  result = Success ∨ result = ShortCircuited ∧ x_cache_hit ctx = false →
  trace (then_ (limit_rate cfg key multiplier ctx) (λ row,
         then_ (limit_cost cfg row ctx) (λ _,
         then_ (route cfg streaming start row ctx) (λ ctx, pass (ToUpstream ctx))))) tr r →
  gates_end request key (pre ++ tr) r.
Proof.
  intros Hv Hc He Hres H.
  eapply gates_then; [apply trace_limit_rate|done|done|exact H|]. clear H tr Hv Hc.
  intros tr1 row tr Hv Hc [Ht Hr] H. cbv beta in H.
  eapply (gates_then _ _ (λ tr _, ∀ t, row = Some t → g_store cfg = true → _));
    [|done|done|exact H|]; clear H tr Hv Hc.
  { intros tr a [Hq Hl]%trace_limit_cost. split; [done|]. intros u Hu t. by apply (Hl u t). }
  intros tr2 u tr Hv Hc Hl H. cbv beta in H.
  eapply gates_then; [apply trace_route|done|done|exact H|]. clear H tr Hv Hc.
  intros tr3 ctx' tr Hv Hc Hrt H. destruct H as [-> ->]. rw app_nil_r.
  split_and!; [done|done|]. exists result, multiplier, ctx, row.
  split_and!; [eapply entered_mono; [|done]; set_solver|done| | | |].
  - unfold tenant_read in *. destruct (x_auth_context ctx); [|done].
    destruct (g_store cfg); [set_solver|done].
  - unfold rate_allowed in *. set_solver.
  - intros t ->. assert (g_store cfg = true) as Hst.
    { unfold tenant_read in Ht. destruct (x_auth_context ctx); [|done]. by destruct (g_store cfg). }
    eapply costs_within_mono; [|by apply Hl]. set_solver.
  - destruct Hrt as (ctx2 & Hin & Hrest). exists ctx2. split; [set_solver|done].
Qed.

Lemma trace_gates streaming key (ctx : Ctx) tr r :
  x_auth_context ctx = None → trace (gates cfg streaming key ctx) tr r →
  gates_end (x_chat_request ctx) key tr r.
Proof.
  intros Hnone H. unfold gates in H. rw -(app_nil_l tr).
  eapply gates_then; [apply trace_authenticate|done|done|exact H|]. clear H tr.
  intros tr1 ctx0 tr Hv Hc [Hreq Hauth] H. cbv beta in H.
  eapply gates_then; [apply trace_screen|done|done|exact H|]. clear H tr Hv Hc.
  intros tr2 multiplier tr Hv Hc Hs H. cbv beta in H.
  eapply (gates_then _ _ (λ tr rc, stages_passed tr (g_inbound cfg) ctx0 rc.1 rc.2 ∧
    (rc.1 = Success ∨ rc.1 = ShortCircuited))); [|done|done|exact H|]; clear H tr Hv Hc.
  { intros tr a Ha%trace_inbound. destruct Ha as [Hq Hr]. split; [done|].
    intros [res ctx1] ->. by apply Hr. }
  intros tr3 [result ctx1] tr Hv Hc [Hp Hres] H. cbv beta in H. simpl in Hp, Hres.
  set (pre := (([] ++ tr1) ++ tr2) ++ tr3) in *.
  assert (entered (x_chat_request ctx) key pre multiplier result ctx1) as He.
  { exists ctx0. rw Hreq in Hs. split_and!; [done| | |eapply stages_passed_mono; [|done]; set_solver].
    - unfold authorized. destruct (g_auth_service cfg); [|by rw Hauth].
      destruct Hauth as (a & Hin & Hrb & ->). destruct a; [|rw Hnone]; (split; [set_solver|done]).
    - unfold screened in *. destruct (g_abuse cfg) as [[factor ?]|]; [|done].
      destruct Hs as (act & ? & ?). exists act. split; [set_solver|done]. }
  clearbody pre.
  apply trace_bind in H as (tr4 & tr5 & [] & -> & [Hv4 Hc4]%trace_compression & H). cbv beta in H.
  rw (assoc app). assert (entered (x_chat_request ctx) key (pre ++ tr4) multiplier result ctx1) as He'
    by (eapply entered_mono; [|done]; set_solver).
  destruct (bool_decide (result = ShortCircuited) && x_cache_hit ctx1) eqn:Hhit.
  - apply andb_true_iff in Hhit as [->%bool_decide_eq_true Hhit].
    apply trace_bind in H as (tr6 & tr7 & saved & -> & [Hv6 Hc6]%trace_cache_hit & [-> ->]).
    rw app_nil_r. unfold gates_end. rw !visibles_app Hv Hv4 Hv6 !connections_app Hc Hc4 Hc6.
    split_and!; [done|done|]. exists multiplier. split; [|done].
    eapply entered_mono; [|done]. set_solver.
  - eapply trace_limits; [by rw visibles_app Hv Hv4|by rw connections_app Hc Hc4|done| |exact H].
    destruct Hres as [->| ->]; [by left|right]. by rw bool_decide_true // in Hhit.
Qed.

(** ** Upstream and back *)

Lemma trace_open streaming request key headers tr (ctx : Ctx) :
  trace (open_request fresh streaming request key headers) tr ctx →
  visibles tr = [] ∧ connections tr = 1 ∧ x_auth_context ctx = None ∧ x_chat_request ctx = request.
Proof.
  unfold open_request, generateRequestId. intros H. do 2 trace_next H.
  trace_split H as H1. do 3 trace_next H1. trace_next H. split_and!; [by tally..|done|done].
Qed.

(** The cache writes of a context that was delivered. *)
Definition cache_writes (ctx : Ctx) (conversation : string) : list GwEvent :=
  if g_cache cfg && negb (no_elems (cr_messages (x_chat_request ctx))) && negb (x_has_tools ctx)
  then [Ev (CachePut (cr_messages (x_chat_request ctx)) (x_accumulated_response ctx)
             (x_target_model ctx) (x_tenant_id ctx) conversation) tt]
  else [].

Lemma trace_write_cache (ctx : Ctx) tr u :
  trace (write_cache cfg ctx) tr u →
  connections tr = 0 ∧ ∃ conversation, visibles tr = cache_writes ctx conversation.
Proof.
  unfold write_cache, cache_writes. intros H. destruct (_ && _ && _).
  - apply trace_bind in H as (tr1 & tr2 & conv & -> & H1 & H). trace_next H.
    destruct (g_resolver cfg); trace_next H1; tally; (split; [done|]); destruct u; by eexists.
  - trace_next H. split; [done|]. by exists "".
Qed.

(** What the outbound stages let through: the answer with the text they left,
    which is also what goes into the cache. *)
Definition delivered (resp : ChatResponse) (ctx : Ctx) (tr : list GwEvent) (res : ProcessResult) : Prop :=
  ∃ result ctx' conversation,
    stages_passed tr (g_outbound cfg) ctx result ctx' ∧
    res = succeeded (with_content (x_accumulated_response ctx') resp)
            (x_tokens_saved_compression ctx') ctx' ∧
    visibles tr = cache_writes ctx' conversation.

Lemma trace_deliver start resp (ctx : Ctx) tr r :
  trace (deliver cfg start resp ctx) tr r →
  match r with
  | None => connections tr = 0 ∧ visibles tr = []
  | Some res => connections tr = -1 ∧
      (res = failed (err_of 403 ContentFiltered) ∧ visibles tr = [] ∨ delivered resp ctx tr res)
  end.
Proof.
  unfold deliver, finalizeNonStreamingResponse, inc. intros H.
  apply trace_bind in H as (tr1 & tr2 & a & -> & (Hv & Hc & Hs)%trace_stages & H).
  destruct a as [[result ctx']|]; [|trace_next H; by rw app_nil_r].
  destruct (decide (result = Rejected)) as [->|Hne].
  { do 4 trace_next H. split; [tally; lia|]. left. split; [done|]. tally. by rw Hv. }
  specialize (Hs _ _ eq_refl Hne).
  destruct result; [|done|..];
    (apply trace_bind in H as (tr3 & tr4 & resp' & -> & H1 & H);
     apply trace_bind in H1 as (tr5 & tr6 & u & -> & (Hc' & conv & Hv')%trace_write_cache & H1);
     trace_next H1; do 6 trace_next H; (split; [tally; lia|]); right;
     eexists _, ctx', conv; split_and!;
     [eapply stages_passed_mono; [|done]; set_solver|done|tally; by rw Hv Hv']).
Qed.

(** The outcome of the upstream call of [processRequest]. *)
Lemma trace_upstream start (ctx : Ctx) tr r :
  trace (upstream cfg start ctx) tr r →
  connections tr = match r with Some _ => -1 | None => 0 end ∧
  ∃ pre answer post,
    tr = pre ++ Ev (Complete (x_chat_request ctx) (x_target_model ctx)) answer :: post ∧
    visibles pre = [] ∧
    match answer with
    | inl e => r = Some (failed (Fallback.surface e)) ∧ visibles post = []
    | inr resp =>
        (r = None ∨ r = Some (failed (err_of 403 ContentFiltered))) ∧ visibles post = [] ∨
        ∃ res, r = Some res ∧
          delivered (with_id (x_request_id ctx) resp) (with_answer resp ctx) post res
    end.
Proof.
  unfold upstream, upstream_failed, inc. intros H. do 2 trace_next H. destruct x1 as [e|resp].
  - trace_split H as H1. do 8 trace_next H1. trace_next H.
    split; [by tally|]. eexists [_], (inl e), _. split_and!; [done|by tally|done|by tally].
  - do 4 trace_next H. apply trace_deliver in H.
    destruct r as [res|].
    + destruct H as [Hc H]. split; [tally; lia|]. eexists [_], (inr resp), _.
      split_and!; [done|by tally|]. destruct H as [[-> Hv]|(result & ctx' & conv & Hs & -> & Hv)].
      * left. split; [by right|]. by tally.
      * right. eexists _. split; [done|]. exists result, ctx', conv. split_and!; [|done|by tally].
        eapply stages_passed_mono; [|done]. set_solver.
    + destruct H as [Hc H]. split; [tally; lia|]. eexists [_], (inr resp), _.
      split_and!; [done|by tally|]. left. split; [by left|]. by tally.
Qed.

(** ** Streams *)

Definition client (e : ClientEvent) : GwEvent := Ev (Client e) tt.

(** A stage rejected a chunk. *)
Definition chunk_reject (ev : GwEvent) : bool :=
  let 'Ev e b := ev in
  match e in GwCmd _ B return B → bool with
  | ProcessChunk _ _ _ => λ b, match b with Some (Reject, _) => true | _ => false end
  | _ => λ _, false
  end b.

Definition no_reject (tr : list GwEvent) : Prop := Forall (λ ev, chunk_reject ev = false) tr.

Ltac no_rejects :=
  unfold no_reject in *;
  repeat first [assumption|apply Forall_nil_2|apply Forall_cons_2; [reflexivity|]|apply Forall_app_2].

(** The outbound stages turned a chunk into another text. *)
Inductive chunk_passed (h : list GwEvent) : list string → Ctx → string → string → Prop :=
| chunk_all ctx s : chunk_passed h [] ctx s s
| chunk_continue stage stages ctx ctx1 s out :
    Ev (ProcessChunk stage (ctx <| x_chunk_output := "" |>) s) (Some (Continue, ctx1)) ∈ h →
    chunk_passed h stages ctx1 (if str_empty (x_chunk_output ctx1) then s else x_chunk_output ctx1)
      out →
    chunk_passed h (stage :: stages) ctx s out
| chunk_short stage stages ctx ctx1 s :
    Ev (ProcessChunk stage (ctx <| x_chunk_output := "" |>) s) (Some (ShortCircuit, ctx1)) ∈ h →
    chunk_passed h (stage :: stages) ctx s s
| chunk_error stage stages ctx ctx1 s :
    Ev (ProcessChunk stage (ctx <| x_chunk_output := "" |>) s) (Some (StageError, ctx1)) ∈ h →
    chunk_passed h (stage :: stages) ctx s "".

Lemma chunk_passed_mono h h' stages ctx s out :
  h ⊆ h' → chunk_passed h stages ctx s out → chunk_passed h' stages ctx s out.
Proof.
  intros Hh. induction 1; [apply chunk_all|eapply chunk_continue|eapply chunk_short|eapply chunk_error];
    try (by apply Hh); done.
Qed.

(** A rejection ends the chunk, any other result leaves a text. *)
Lemma trace_chunk stages (ctx : Ctx) s tr r :
  trace (executeChunk (λ stage ctx chunk, call (ProcessChunk stage ctx chunk)) stages ctx s) tr r →
  visibles tr = [] ∧ connections tr = 0 ∧
  (no_reject tr ∧ (∀ res out ctx', r = Some (res, out, ctx') →
     res ≠ Rejected ∧ chunk_passed tr stages ctx s out) ∨
   ∃ tr1 ev ctx', tr = tr1 ++ [ev] ∧ no_reject tr1 ∧ chunk_reject ev = true ∧
     r = Some (Rejected, "", ctx')).
Proof.
  revert ctx s tr r. induction stages as [|stage stages IH]; intros ctx s tr r H.
  { destruct H as [-> ->]. split_and!; [done..|left]. split; [by constructor|].
    intros ??? [= <- <- <-]. split; [done|constructor]. }
  destruct H as (ans & tr' & -> & H). rw visibles_hidden // connections_cons.
  destruct ans as [[[] ctx1]|].
  - destruct (IH _ _ _ _ H) as (Hv & Hc & [[Hn Hr]|(tr1 & ev & ctx' & -> & Hn & Hev & ->)]).
    + split_and!; [done|simpl; lia|left]. split; [by constructor|].
      intros res out ctx' Hres. destruct (Hr _ _ _ Hres) as [? Hp]. split; [done|].
      eapply chunk_continue; [by left|]. eapply chunk_passed_mono; [|done]. set_solver.
    + split_and!; [done|simpl; lia|right]. eexists (_ :: tr1), ev, ctx'.
      split_and!; [done|by constructor|done|done].
  - destruct H as [-> ->]. split_and!; [done..|left]. split; [by repeat constructor|].
    intros ??? [= <- <- <-]. split; [done|]. eapply chunk_short. by left.
  - destruct H as [-> ->]. split_and!; [done..|right]. eexists [], _, ctx1.
    split_and!; [done|constructor|done|done].
  - destruct H as [-> ->]. split_and!; [done..|left]. split; [by repeat constructor|].
    intros ??? [= <- <- <-]. split; [done|]. eapply chunk_error. by left.
  - destruct H as [-> ->]. split_and!; [done..|left]. split; [by repeat constructor|done].
Qed.

(** A delta the client receives: without text, or with the text the outbound
    stages left.  A text they made empty is the upstream's text instead. *)
Definition screened_delta (h : list GwEvent) (d : StreamDelta) : Prop :=
  d_content d = "" ∨
  ∃ ctx raw out, chunk_passed h (g_outbound cfg) ctx raw out ∧
    d_content d = if str_empty out then raw else out.

Lemma screened_delta_mono h h' d : h ⊆ h' → screened_delta h d → screened_delta h' d.
Proof.
  intros Hh [?|(ctx & raw & out & Hp & ?)]; [by left|right]. exists ctx, raw, out.
  split; [by eapply chunk_passed_mono|done].
Qed.

(** One rejection at most, and nothing visible after it. *)
Definition cut_off (tr : list GwEvent) (P : list GwEvent → Prop) : Prop :=
  no_reject tr ∨
  ∃ tr1 ev tr2, tr = tr1 ++ ev :: tr2 ∧ no_reject tr1 ∧ chunk_reject ev = true ∧
    no_reject tr2 ∧ P tr2.

(** One delta of the upstream. *)
Lemma trace_delta (ctx : Ctx) delta tr r :
  trace (on_delta cfg ctx delta) tr r →
  connections tr = 0 ∧
  (no_reject tr ∧
     (visibles tr = [] ∨ ∃ d, visibles tr = [client (OnDelta d)] ∧ screened_delta tr d) ∧
     (x_stream_rejected ctx = true →
        tr = [] ∧ ∀ ctx', r = Some ctx' → x_stream_rejected ctx' = true) ∨
   ∃ tr1 ev ctx', tr = tr1 ++ [ev] ∧ no_reject tr1 ∧ chunk_reject ev = true ∧ visibles tr = [] ∧
     r = Some ctx' ∧ x_stream_rejected ctx = false ∧ x_stream_rejected ctx' = true).
Proof.
  unfold on_delta, send. intros H.
  destruct (absorb ctx delta) as [ctx0|] eqn:Ha; [|trace_next H; split; [done|left]; split_and!;
    [constructor|by left|done]].
  assert (x_stream_rejected ctx0 = x_stream_rejected ctx) as Hflag.
  { unfold absorb in Ha. destruct (add_tool_calls _ _); [|done]. by injection Ha as <-. }
  rw -Hflag. clear Ha Hflag ctx. destruct (x_stream_rejected ctx0) eqn:Hrej.
  { trace_next H. split; [done|left]. split_and!; [constructor|by left|]. intros _.
    split; [done|]. by intros ctx' [= <-]. }
  destruct (str_empty (d_content delta)) eqn:He.
  { do 2 trace_next H. destruct x. split; [by tally|left].
    split_and!; [by repeat constructor| |done]. right. exists delta. split; [by tally|].
    left. by apply str_empty_spec. }
  apply trace_bind in H as (tr1 & tr2 & a & -> & Hch & H).
  destruct (trace_chunk _ _ _ _ _ Hch) as (Hv & Hc & [[Hn Hr]|(tr3 & ev & ctx' & -> & Hn & Hev & ->)]).
  2: { trace_next H. rw app_nil_r. split; [done|right]. exists tr3, ev. eexists. by split_and!. }
  destruct a as [[[res filtered] ctx']|]; [|trace_next H; rw app_nil_r; split; [done|left];
    split_and!; [done|by left|done]].
  destruct (Hr _ _ _ eq_refl) as [Hne Hp].
  assert (tr2 = [client (OnDelta (filtered_delta delta filtered))]) as ->
    by (destruct res; [|done|..]; do 2 trace_next H; by destruct x).
  split; [by tally; rw Hc|left]. split_and!; [by apply Forall_app; split; [|repeat constructor]| |done].
  right. eexists. split; [by tally; rw Hv|]. right. exists ctx0, (d_content delta), filtered.
  split; [eapply chunk_passed_mono; [|done]; set_solver|]. unfold filtered_delta. by destruct (str_empty filtered).
Qed.

(** All deltas of the upstream: what the client gets was screened, and after
    a rejected chunk it gets nothing. *)
Lemma trace_deltas deltas (ctx : Ctx) tr r :
  trace (on_deltas cfg ctx deltas) tr r →
  connections tr = 0 ∧
  (∃ ds, visibles tr = client ∘ OnDelta <$> ds ∧ Forall (screened_delta tr) ds) ∧
  (x_stream_rejected ctx = true → tr = [] ∧ ∀ ctx', r = Some ctx' → x_stream_rejected ctx' = true) ∧
  cut_off tr (λ tr2, visibles tr2 = [] ∧ ∀ ctx', r = Some ctx' → x_stream_rejected ctx' = true).
Proof.
  revert ctx tr r. induction deltas as [|d deltas IH]; intros ctx tr r H.
  { destruct H as [-> ->]. split_and!; [done|by exists []| |by left; constructor].
    intros Hf. split; [done|]. by intros ctx' [= <-]. }
  cbn [on_deltas] in H. apply trace_bind in H as (tr1 & tr2 & a & -> & H1 & H).
  apply trace_delta in H1 as [Hc [(Hn & Hv & Hf)|(tr3 & ev & ctx' & -> & Hn & Hev & Hv & -> & Hf & Hf')]].
  - assert (∃ ds, visibles tr1 = client ∘ OnDelta <$> ds ∧ Forall (screened_delta tr1) ds) as (ds1 & Hv1 & Hs1).
    { destruct Hv as [->|(d' & -> & Hs)]; [by exists []|]. exists [d']. split; [done|]. by apply Forall_singleton. }
    assert (∀ tr', Forall (screened_delta (tr1 ++ tr')) ds1) as Hs1'.
    { intros tr'. eapply Forall_impl; [done|]. intros d'. apply screened_delta_mono. set_solver. }
    destruct a as [ctx1|].
    2: { trace_next H. rw app_nil_r. split_and!; [done|by exists ds1| |by left].
         intros Hfl. by destruct (Hf Hfl). }
    destruct (IH _ _ _ H) as (Hc2 & (ds2 & Hv2 & Hs2) & Hf2 & Hcut). split_and!.
    + rw connections_app. lia.
    + exists (ds1 ++ ds2). rw visibles_app Hv1 Hv2 fmap_app. split; [done|]. apply Forall_app.
      split; [done|]. eapply Forall_impl; [done|]. intros d'. apply screened_delta_mono. set_solver.
    + intros Hfl. destruct (Hf Hfl) as [-> Hfl1]. destruct Hf2 as [-> ?]; [by apply Hfl1|]. done.
    + destruct Hcut as [Hn2|(t1 & ev & t2 & -> & Hn1 & Hev & Hn2 & Hq)].
      * left. by apply Forall_app.
      * right. exists (tr1 ++ t1), ev, t2. rw -assoc. split_and!; try apply Hq; try done.
        by apply Forall_app.
  - destruct (IH _ _ _ H) as (Hc2 & _ & Hf2 & _). destruct (Hf2 Hf') as [-> Hfin].
    rw app_nil_r. split_and!; [done|exists []; by rw Hv| |].
    + by rw Hf.
    + right. exists tr3, ev, []. split_and!; try done. constructor.
Qed.

(** The stages leave the flag of a rejected stream alone. *)
Definition flag_kept (ev : GwEvent) : bool :=
  let 'Ev e b := ev in
  match e in GwCmd _ B return B → bool with
  | Process _ ctx => λ b,
      match b with
      | Some (_, ctx') => Bool.eqb (x_stream_rejected ctx') (x_stream_rejected ctx)
      | None => true
      end
  | _ => λ _, true
  end b.

Definition keeps_flag (tr : list GwEvent) : Prop := Forall (λ ev, flag_kept ev = true) tr.

Lemma keeps_flag_sub tr tr' : tr ⊆ tr' → keeps_flag tr' → keeps_flag tr.
Proof. unfold keeps_flag. rw !Forall_forall. by auto. Qed.

Lemma stages_keep_flag stages (ctx : Ctx) tr r :
  trace (run_stages stages ctx) tr r →
  no_reject tr ∧ (keeps_flag tr → ∀ res ctx', r = Some (res, ctx') →
    x_stream_rejected ctx' = x_stream_rejected ctx).
Proof.
  unfold run_stages. revert ctx tr r. induction stages as [|stage stages IH]; intros ctx tr r H.
  { destruct H as [-> ->]. split; [constructor|]. by intros _ ?? [= <- <-]. }
  destruct H as (ans & tr' & -> & H).
  assert (∀ res ctx1, ans = Some (res, ctx1) → keeps_flag (Ev (Process stage ctx) ans :: tr') →
    x_stream_rejected ctx1 = x_stream_rejected ctx) as Hfirst.
  { intros res ctx1 -> [Hk _]%Forall_cons. by apply Bool.eqb_prop. }
  destruct ans as [[[] ctx1]|].
  1: { destruct (IH _ _ _ H) as [Hn Hf]. split; [by constructor|]. intros Hk res ctx' Hr.
       assert (keeps_flag tr') as Hk' by (eapply keeps_flag_sub; [|exact Hk]; set_solver).
       rw (Hf Hk' _ _ Hr).
       by apply (Hfirst Continue). }
  all: destruct H as [-> ->]; (split; [by repeat constructor|]); intros Hk ?? Hr; simplify_eq; simpl;
    by eapply Hfirst.
Qed.

Lemma write_cache_no_reject (ctx : Ctx) tr u : trace (write_cache cfg ctx) tr u → no_reject tr.
Proof.
  unfold write_cache. intros H. destruct (_ && _ && _); [|trace_next H; constructor].
  apply trace_bind in H as (tr1 & tr2 & conv & -> & H1 & H). trace_next H.
  destruct (g_resolver cfg); trace_next H1; by repeat constructor.
Qed.

(** The end of a stream as the client sees it, with the cache write before. *)
Definition stream_end (ctx : Ctx) (vis : list GwEvent) : Prop :=
  vis = [client (OnError (err_of 403 ContentFiltered))] ∨
  ∃ usage ctx' conversation, vis =
    cache_writes ctx' conversation ++ [client (OnDone usage (x_tokens_saved_compression ctx'))].

Lemma trace_done start upstream_start usage (ctx : Ctx) tr r :
  trace (on_done cfg start upstream_start usage ctx) tr r →
  no_reject tr ∧
  match r with
  | None => connections tr = 0 ∧ visibles tr = []
  | Some _ => connections tr = -1 ∧ stream_end ctx (visibles tr)
  end ∧
  (keeps_flag tr → x_stream_rejected ctx = true →
     visibles tr = [] ∨ visibles tr = [client (OnError (err_of 403 ContentFiltered))]).
Proof.
  unfold on_done, inc, send. intros H. do 2 trace_next H.
  match type of H with trace (run_stages _ ?c ≫= _) _ _ => set (ctx0 := c) in H end.
  assert (x_stream_rejected ctx0 = x_stream_rejected ctx) as Hf0 by done. clearbody ctx0.
  apply trace_bind in H as (tr1 & tr2 & a & -> & Hst & H).
  destruct (trace_stages _ _ _ _ Hst) as (Hv & Hc & Hs).
  destruct (stages_keep_flag _ _ _ _ Hst) as [Hn Hf].
  destruct a as [[result ctx']|].
  2: { trace_next H. rw app_nil_r. split; [by repeat constructor|]. split; [by tally|]. left. by tally. }
  specialize (λ Hk, Hf Hk _ _ eq_refl).
  destruct (x_stream_rejected ctx' || _) eqn:Hrej.
  - do 5 trace_next H. destruct x1, x2, x3, x4. split.
    { no_rejects. }
    split; [split; [tally; lia|left; tally; by rw Hv]|]. intros _ _. right. tally. by rw Hv.
  - apply trace_bind in H as (tr3 & tr4 & u & -> & Hw & H).
    pose proof (write_cache_no_reject _ _ _ Hw) as Hnw.
    apply trace_write_cache in Hw as (Hcw & conv & Hvw). do 9 trace_next H. destruct x8.
    split; [no_rejects|].
    split.
    + split; [tally; lia|]. right. exists usage, ctx', conv. tally. by rw Hv Hvw.
    + intros Hk Hfl. exfalso. rw -Hf0 in Hfl. rw -Hf in Hfl; [by rw Hfl in Hrej|].
      eapply keeps_flag_sub; [|done]. set_solver.
Qed.

(** ** Whole requests *)

(** A reply out of the cache: the request had passed the key, the abuse
    detector and the guardrails. *)
Definition cached_reply (request : ChatRequest) (key : string) (tr : list GwEvent)
    (ctx : Ctx) : Prop :=
  ∃ multiplier, entered request key tr multiplier ShortCircuited ctx ∧ x_cache_hit ctx = true.

(** What a [Complete] call leads to. *)
Definition answered (ctx : Ctx) (answer : Exception + ChatResponse) (post : list GwEvent)
    (r : option ProcessResult) : Prop :=
  match answer with
  | inl e => r = Some (failed (Fallback.surface e)) ∧ visibles post = []
  | inr resp =>
      (r = None ∨ r = Some (failed (err_of 403 ContentFiltered))) ∧ visibles post = [] ∨
      ∃ res, r = Some res ∧ delivered (with_id (x_request_id ctx) resp) (with_answer resp ctx) post res
  end.

Lemma request_shape request key headers tr r :
  trace (processRequest fresh cfg request key headers) tr r →
  connections tr = match r with Some _ => 0 | None => 1 end ∧
  (visibles tr = [] ∧ (∀ res, r = Some res → success res = true →
     ∃ ctx saved, cached_reply request key tr ctx ∧ res = succeeded (cached_response ctx) saved ctx) ∨
   ∃ pre ctx answer post,
     tr = pre ++ Ev (Complete (x_chat_request ctx) (x_target_model ctx)) answer :: post ∧
     visibles pre = [] ∧ (∃ result, cleared request key pre result ctx) ∧ answered ctx answer post r).
Proof.
  unfold processRequest. intros H.
  apply trace_bind in H as (tr1 & tr2 & ctx & -> & (Hv & Hc & Hnone & <-)%trace_open & H).
  apply trace_bind in H as (tr3 & tr4 & a & -> & (Hv3 & Hc3 & Hg)%trace_gates & H); [|done].
  destruct a as [[err|[ctx' saved|ctx']]|]; simpl in Hc3, Hg.
  - trace_next H. split; [tally; lia|left]. split; [tally; by rw Hv Hv3|]. by intros res [= <-].
  - trace_next H. split; [tally; lia|left]. split; [tally; by rw Hv Hv3|]. intros res [= <-] _.
    exists ctx', saved. split; [|done]. destruct Hg as (m & He & Hh). exists m. split; [|done].
    eapply entered_mono; [|done]. set_solver.
  - apply trace_upstream in H as (Hc4 & pre & answer & post & -> & Hv4 & Ha).
    split; [rw connections_app Hc connections_app Hc3 Hc4; by destruct r|right].
    exists (tr1 ++ tr3 ++ pre), ctx', answer, post. split_and!; [by rw -!assoc| | |done].
    + tally. by rw Hv Hv3 Hv4.
    + destruct Hg as [result Hg]. exists result. eapply cleared_mono; [|done]. set_solver.
  - trace_next H. split; [tally; lia|left]. split; [tally; by rw Hv Hv3|done].
Qed.

(** What the client of a stream gets from the upstream: screened deltas, then,
    unless an exception left the runtime, one terminal callback. *)
Definition streamed (post : list GwEvent) (r : option unit) : Prop :=
  (∃ ds last, visibles post = (client ∘ OnDelta <$> ds) ++ last ∧
     Forall (screened_delta post) ds ∧
     match r with
     | None => last = []
     | Some _ => (∃ e, last = [client (OnError e)]) ∨
         ∃ usage ctx conversation, last =
           cache_writes ctx conversation ++ [client (OnDone usage (x_tokens_saved_compression ctx))]
     end) ∧
  (keeps_flag post →
     cut_off post (λ tr2, visibles tr2 = [] ∨ ∃ e, visibles tr2 = [client (OnError e)])).

Lemma cut_off_app tr1 tr2 P Q :
  cut_off tr1 P → no_reject tr2 → (∀ tr, P tr → Q (tr ++ tr2)) → cut_off (tr1 ++ tr2) Q.
Proof.
  intros [Hn|(t1 & ev & t2 & -> & Hn1 & Hev & Hn2 & HP)] Hn' HQ; [left; no_rejects|right].
  exists t1, ev, (t2 ++ tr2). split_and!; [by rw -assoc|done|done|no_rejects|by apply HQ].
Qed.

Lemma trace_error upstream_start err (ctx : Ctx) tr u :
  trace (on_error upstream_start err ctx) tr u →
  connections tr = -1 ∧ visibles tr = [client (OnError err)] ∧ no_reject tr.
Proof.
  unfold on_error, inc, send. intros H. do 8 trace_next H. destruct u.
  split_and!; [by tally..|no_rejects].
Qed.

Lemma trace_stream start (ctx : Ctx) tr r :
  trace (stream_upstream cfg start ctx) tr r →
  connections tr = match r with Some _ => -1 | None => 0 end ∧
  ∃ pre answer post,
    tr = pre ++ Ev (Stream (x_chat_request ctx) (x_target_model ctx)) answer :: post ∧
    visibles pre = [] ∧ streamed post r.
Proof.
  unfold stream_upstream. intros H. do 2 trace_next H. destruct x1 as [deltas end_].
  apply trace_bind in H as (tr1 & tr2 & a & -> & (Hc & (ds & Hv & Hs) & _ & Hcut)%trace_deltas & H).
  assert (∀ post, Forall (screened_delta (tr1 ++ post)) ds) as Hs'.
  { intros post. eapply Forall_impl; [done|]. intros d. apply screened_delta_mono. set_solver. }
  destruct a as [ctx'|].
  2: { trace_next H. split; [tally; lia|]. eexists [_], _, _. split_and!; [done|by tally|]. split.
       - exists ds, []. tally. by rw Hv.
       - intros _. eapply cut_off_app; [done|no_rejects|]. intros tr [Hq _]. left. by rw app_nil_r. }
  assert (∀ last, connections tr2 = match r with Some _ => -1 | None => 0 end →
    visibles tr2 = last → no_reject tr2 →
    match r with None => last = [] | Some _ => (∃ e, last = [client (OnError e)]) ∨
         ∃ usage ctx conversation, last =
           cache_writes ctx conversation ++ [client (OnDone usage (x_tokens_saved_compression ctx))]
     end → (keeps_flag tr2 → x_stream_rejected ctx' = true →
       visibles tr2 = [] ∨ ∃ e, visibles tr2 = [client (OnError e)]) →
    connections tr2 = match r with Some _ => -1 | None => 0 end ∧ streamed (tr1 ++ tr2) r) as Hfin.
  { intros last Hc2 Hv2 Hn2 Hl Hk. split; [done|]. split.
    - exists ds, last. rw visibles_app Hv Hv2. by split_and!.
    - intros Hkf. eapply cut_off_app; [done|done|]. intros tr [Hq Hfl]. rw visibles_app Hq app_nil_l.
      apply Hk; [eapply keeps_flag_sub; [|done]; set_solver|by apply Hfl]. }
  assert (connections tr2 = match r with Some _ => -1 | None => 0 end ∧ streamed (tr1 ++ tr2) r) as [Hc2 Hst].
  { destruct end_ as [[err|usage]|].
    - apply trace_bind in H as (tr3 & tr4 & u & -> & (Hc3 & Hv3 & Hn3)%trace_error & H).
      trace_next H. rw app_nil_r in Hfin |- *. eapply Hfin; [done|done|done|left; by eexists|].
      intros _ _. right. by eexists.
    - apply trace_done in H as (Hn & Hr & Hk). destruct r as [[]|].
      + destruct Hr as [Hc3 He]. eapply Hfin; [done|done|done| |].
        * destruct He as [->|(u & c & conv & ->)]; [left; by eexists|right; by eexists _, _, _].
        * intros Hkf Hfl. destruct (Hk Hkf Hfl) as [->| ->]; [by left|right; by eexists].
      + destruct Hr as [Hc3 He]. eapply Hfin; [done|done|done|done|]. by left.
    - trace_next H. eapply Hfin; [done|done|no_rejects|done|]. by left. }
  split; [tally; lia|]. eexists [_], _, _. split_and!; [done|by tally|done].
Qed.

Lemma stream_shape request key headers tr r :
  trace (processStreamingRequest fresh cfg request key headers) tr r →
  connections tr = match r with Some _ => 0 | None => 1 end ∧
  (r = None ∧ visibles tr = [] ∨
   (∃ e, r = Some tt ∧ visibles tr = [client (OnError e)]) ∨
   (∃ ctx d saved, r = Some tt ∧ cached_reply request key tr ctx ∧
      d_content d = x_cached_response ctx ∧
      visibles tr = [client (OnDelta d); client (OnDone no_usage saved)]) ∨
   ∃ pre ctx answer post,
     tr = pre ++ Ev (Stream (x_chat_request ctx) (x_target_model ctx)) answer :: post ∧
     visibles pre = [] ∧ (∃ result, cleared request key pre result ctx) ∧ streamed post r).
Proof.
  unfold processStreamingRequest, send. intros H.
  apply trace_bind in H as (tr1 & tr2 & ctx & -> & (Hv & Hc & Hnone & <-)%trace_open & H).
  apply trace_bind in H as (tr3 & tr4 & a & -> & (Hv3 & Hc3 & Hg)%trace_gates & H); [|done].
  destruct a as [[err|[ctx' saved|ctx']]|]; simpl in Hc3, Hg.
  - do 2 trace_next H. destruct x. split; [tally; lia|right; left]. exists err. split; [done|].
    tally. by rw Hv Hv3.
  - do 3 trace_next H. destruct x, x1. split; [tally; lia|right; right; left].
    eexists ctx', _, saved. split_and!; [done| | |tally; by rw Hv Hv3]; [|done].
    destruct Hg as (m & He & Hh). exists m. split; [|done]. eapply entered_mono; [|done]. set_solver.
  - apply trace_stream in H as (Hc4 & pre & answer & post & -> & Hv4 & Ha).
    split; [rw connections_app Hc connections_app Hc3 Hc4; by destruct r|right; right; right].
    exists (tr1 ++ tr3 ++ pre), ctx', answer, post. split_and!; [by rw -!assoc| | |done].
    + tally. by rw Hv Hv3 Hv4.
    + destruct Hg as [result Hg]. exists result. eapply cleared_mono; [|done]. set_solver.
  - trace_next H. split; [tally; lia|left]. split; [done|]. tally. by rw Hv Hv3.
Qed.

(** ** Upstream calls and callbacks in a trace *)

Definition upstream_call (ev : GwEvent) : option (ChatRequest * string) :=
  let 'Ev e _ := ev in
  match e with Complete req m | Stream req m => Some (req, m) | _ => None end.

Definition upstreams (tr : list GwEvent) : list (ChatRequest * string) := omap upstream_call tr.

Definition client_event (ev : GwEvent) : option ClientEvent :=
  let 'Ev e _ := ev in match e with Client c => Some c | _ => None end.

Definition clients (tr : list GwEvent) : list ClientEvent := omap client_event tr.

(** Both are among the visible calls. *)
Lemma omap_visibles {A} (f : GwEvent → option A) tr :
  (∀ ev, is_Some (f ev) → visible ev = true) → omap f tr = omap f (visibles tr).
Proof.
  intros Hf. induction tr as [|ev tr IH]; [done|].
  destruct (visible ev) eqn:Hv; [rw visibles_shown //|rw visibles_hidden //]; csimpl; rw IH.
  - done.
  - destruct (f ev) eqn:He; [|done]. by rw Hf in Hv.
Qed.

Lemma upstreams_visibles tr : upstreams tr = upstreams (visibles tr).
Proof. apply omap_visibles. intros [B e b]. destruct e; by intros [? ?]. Qed.

Lemma clients_visibles tr : clients tr = clients (visibles tr).
Proof. apply omap_visibles. intros [B e b]. destruct e; by intros [? ?]. Qed.

Lemma cache_writes_silent (ctx : Ctx) conv :
  upstreams (cache_writes ctx conv) = [] ∧ clients (cache_writes ctx conv) = [].
Proof. unfold cache_writes. by destruct (_ && _ && _). Qed.

Lemma answered_upstreams (ctx : Ctx) answer post r : answered ctx answer post r → upstreams post = [].
Proof.
  rw upstreams_visibles. destruct answer as [e|resp]; [by intros [_ ->]|].
  intros [[_ ->]|(res & _ & result & ctx' & conv & _ & _ & ->)]; [done|].
  apply cache_writes_silent.
Qed.

(** The callbacks of a stream. *)
Lemma streamed_clients post r :
  streamed post r →
  upstreams post = [] ∧
  ∃ ds last, clients post = (OnDelta <$> ds) ++ last ∧ Forall (screened_delta post) ds ∧
    match r with
    | None => last = []
    | Some _ => ∃ e, last = [e] ∧ ∀ d, e ≠ OnDelta d
    end.
Proof.
  intros [(ds & last & Hv & Hs & Hl) _]. rw upstreams_visibles clients_visibles Hv.
  unfold upstreams, clients in *. rw !omap_app.
  assert (omap upstream_call (client ∘ OnDelta <$> ds) = [] ∧
          omap client_event (client ∘ OnDelta <$> ds) = OnDelta <$> ds) as [-> ->].
  { clear. induction ds as [|d ds [IH1 IH2]]; [done|]. csimpl. by rw IH1 IH2. }
  assert (omap upstream_call last = [] ∧
    match r with None => omap client_event last = [] | Some _ =>
      ∃ e, omap client_event last = [e] ∧ ∀ d, e ≠ OnDelta d end) as [-> Hlast].
  { destruct r as [[]|]; [|by subst last].
    destruct Hl as [(e & ->)|(usage & ctx & conv & ->)].
    - split; [done|]. by eexists.
    - rw !omap_app. destruct (cache_writes_silent ctx conv) as [Hu Hcl].
      unfold upstreams, clients in Hu, Hcl. rw Hu Hcl. split; [done|]. by eexists. }
  split; [done|]. exists ds, (omap client_event last). by split_and!.
Qed.

(** The callbacks of a streaming request. *)
Lemma stream_clients request key headers tr r :
  trace (processStreamingRequest fresh cfg request key headers) tr r →
  ∃ ds last, clients tr = (OnDelta <$> ds) ++ last ∧
    match r with None => last = [] | Some _ => ∃ e, last = [e] ∧ ∀ d, e ≠ OnDelta d end ∧
    Forall (λ d, screened_delta tr d ∨
      ∃ ctx, cached_reply request key tr ctx ∧ d_content d = x_cached_response ctx) ds.
Proof.
  intros [_ H]%stream_shape.
  destruct H as [[-> Hv]|[(e & -> & Hv)|[(ctx & d & saved & -> & Hc & Hd & Hv)|H]]].
  - exists [], []. by rw clients_visibles Hv.
  - exists [], [OnError e]. rw clients_visibles Hv. split_and!; [done|by eexists|done].
  - exists [d], [OnDone no_usage saved]. rw clients_visibles Hv. split_and!; [done|by eexists|].
    apply Forall_singleton. right. by exists ctx.
  - destruct H as (pre & ctx & answer & post & -> & Hv & Hcl & Ha).
    destruct (streamed_clients _ _ Ha) as (_ & ds & last & Hcs & Hs & Hl). exists ds, last.
    assert (clients pre = []) as Hpre by by rw clients_visibles Hv. unfold clients in *.
    rw omap_app Hpre. csimpl. rw Hcs. split_and!; [done|done|].
    eapply Forall_impl; [done|]. intros d Hd. left. eapply screened_delta_mono; [|done]. set_solver.
Qed.

(** The answers of the key service. *)
Definition resolution (key : string) (ev : GwEvent) : option (option AuthContext) :=
  let 'Ev e b := ev in
  match e in GwCmd _ B return B → option (option AuthContext) with
  | ResolveKey k => λ b, if decide (k = key) then Some b else None
  | _ => λ _, None
  end b.

Definition resolutions (key : string) (tr : list GwEvent) : list (option AuthContext) :=
  omap (resolution key) tr.

(** A request is served: it reaches a model, or is answered from the cache. *)
Definition served (request : ChatRequest) (key : string) (headers : gmap string string)
    (tr : list GwEvent) : Prop :=
  (∃ r, trace (processRequest fresh cfg request key headers) tr r ∧
     (upstreams tr ≠ [] ∨ ∃ res, r = Some res ∧ success res = true)) ∨
  (∃ r, trace (processStreamingRequest fresh cfg request key headers) tr r ∧
     (upstreams tr ≠ [] ∨ ∃ d, OnDelta d ∈ clients tr)).

Lemma served_entered request key headers tr :
  served request key headers tr →
  ∃ multiplier result ctx, entered request key tr multiplier result ctx.
Proof.
  assert (∀ pre ev post ctx, tr = pre ++ ev :: post → (∃ result, cleared request key pre result ctx) →
    ∃ multiplier result ctx, entered request key tr multiplier result ctx) as Hup.
  { intros pre ev post ctx -> (res & m & ctx1 & row & He & _). exists m, res, ctx1.
    eapply entered_mono; [|done]. set_solver. }
  intros [(r & [_ H]%request_shape & Hs)|(r & [_ H]%stream_shape & Hs)].
  - destruct H as [[Hv Hr]|(pre & ctx & answer & post & Htr & _ & Hcl & _)]; [|by eapply Hup].
    destruct Hs as [Hu|(res & -> & Hs)]; [by rw upstreams_visibles Hv in Hu|].
    destruct (Hr _ eq_refl Hs) as (ctx & saved & (m & He & _) & _). by exists m, ShortCircuited, ctx.
  - assert (visibles tr = [] ∨ (∃ e, visibles tr = [client (OnError e)]) → False) as Hno.
    { rw upstreams_visibles clients_visibles in Hs.
      intros [Hv|[e Hv]]; rw Hv in Hs; destruct Hs as [?|[d Hd]]; try done; set_solver. }
    destruct H as [[_ Hv]|[(e & _ & Hv)|[(ctx & d & saved & _ & (m & He & _) & _)|H]]].
    + destruct Hno. by left.
    + destruct Hno. right. by exists e.
    + by exists m, ShortCircuited, ctx.
    + destruct H as (pre & ctx & answer & post & Htr & _ & Hcl & _). by eapply Hup.
Qed.

End facts.

(** ** Properties *)

Section properties.
Context {X : Type} (fresh : X) (cfg : GwConfig).

(** C1. No chat request, streaming or not, reaches a model before it has been
    cleared: at most one upstream call is made, and before it the key was
    resolved (successfully when RBAC is on), the abuse detector did not block,
    the inbound stages ran in their order on the context the previous one left,
    the limiter of the tenant (the shared one where the tenant has no limit of
    its own) accepted the cost of the request under the key of its tenant, the
    cost of the current day and of the current month was below each limit the
    tenant has, and the router chose the model, which the tenant may use.  What
    is sent is the request as the last stage and the router left it.  Every
    inbound stage let the request pass, provided that a stage short-circuits
    only with a cache hit; one that short-circuits without a hit skips the
    stages behind it, and the request goes on. *)
Theorem gateway_gated request key headers tr :
  (∃ r, trace (processRequest fresh cfg request key headers) tr r) ∨
  (∃ r, trace (processStreamingRequest fresh cfg request key headers) tr r) →
  upstreams tr = [] ∨
  ∃ pre ev post ctx result, tr = pre ++ ev :: post ∧
    upstream_call ev = Some (x_chat_request ctx, x_target_model ctx) ∧
    upstreams pre = [] ∧ upstreams post = [] ∧ cleared cfg request key pre result ctx ∧
    (hits_only pre → result = Success).
Proof.
  intros [[r [_ H]%request_shape]|[r [_ H]%stream_shape]].
  - destruct H as [[Hv _]|(pre & ctx & answer & post & -> & Hv & [result Hcl] & Ha)];
      [left; by rw upstreams_visibles Hv|right].
    eexists pre, _, post, ctx, result.
    split_and!; [done|done|by rw upstreams_visibles Hv| |done|by eapply cleared_hits_only].
    by eapply answered_upstreams.
  - destruct H as [[_ Hv]|[(e & _ & Hv)|[(ctx & d & saved & _ & _ & _ & Hv)|H]]];
      [left; by rw upstreams_visibles Hv..|right].
    destruct H as (pre & ctx & answer & post & -> & Hv & [result Hcl] & Ha).
    eexists pre, _, post, ctx, result.
    split_and!; [done|done|by rw upstreams_visibles Hv| |done|by eapply cleared_hits_only].
    by eapply streamed_clients.
Qed.

(** C30. The gauge of active connections: a request that returns, with whatever
    answer, has released its connection exactly once; one that is left by an
    exception (of a stage, of the router, or of the connector while it streams)
    still holds it. *)
Theorem gateway_connections request key headers tr :
  (∀ r, trace (processRequest fresh cfg request key headers) tr r →
     connections tr = if r then 0 else 1) ∧
  (∀ r, trace (processStreamingRequest fresh cfg request key headers) tr r →
     connections tr = if r then 0 else 1).
Proof.
  split; intros r; [intros [-> _]%request_shape|intros [-> _]%stream_shape]; by destruct r.
Qed.

(** C5. A successful answer of [processRequest] is either the cached answer of a
    request that passed the key, the abuse detector and the inbound stages up to
    the cache, and then no model was called and nothing stored; or it is the
    answer of the one upstream call that the request was cleared for, with the
    id of the request and with the text that the outbound stages made of it, and
    what is stored in the cache, if anything, is that text, under the messages,
    the tenant and the model of the context that the stages left.  The outbound
    stages ran in their order, each on the context the previous one left, and
    none rejected; all of them ran, provided that none ended with an error or a
    short circuit, behind which the code skips the remaining stages and returns
    the text as it is then. *)
Theorem gateway_reply request key headers tr res :
  trace (processRequest fresh cfg request key headers) tr (Some res) → success res = true →
  (∃ ctx saved, cached_reply cfg request key tr ctx ∧
     res = succeeded (cached_response ctx) saved ctx ∧ visibles tr = []) ∨
  ∃ pre inbound_result ctx resp post result ctx' conversation,
    tr = pre ++ Ev (Complete (x_chat_request ctx) (x_target_model ctx)) (inr resp) :: post ∧
    cleared cfg request key pre inbound_result ctx ∧
    stages_passed post (g_outbound cfg) (with_answer resp ctx) result ctx' ∧ (no_early_end post → result = Success) ∧
    res = succeeded (with_content (x_accumulated_response ctx') (with_id (x_request_id ctx) resp))
            (x_tokens_saved_compression ctx') ctx' ∧
    visibles tr = Ev (Complete (x_chat_request ctx) (x_target_model ctx)) (inr resp) ::
                  cache_writes cfg ctx' conversation.
Proof.
  intros [_ H]%request_shape Hs.
  destruct H as [[Hv Hr]|(pre & ctx & answer & post & -> & Hv & [inres Hcl] & Ha)].
  { left. destruct (Hr res eq_refl Hs) as (ctx & saved & Hc & ->). by exists ctx, saved. }
  right. destruct answer as [e|resp]; [destruct Ha as [[= ->] _]; done|].
  destruct Ha as [[[?|[= ->]] _]|(res' & [= <-] & result & ctx' & conv & Hp & -> & Hv')];
    [done..|].
  exists pre, inres, ctx, resp, post, result, ctx', conv.
  split_and!; [done|done|done|by eapply stages_no_early_end|done|].
  by rw visibles_app Hv visibles_shown // Hv'.
Qed.

(** C4. A streaming client receives deltas and then, unless an exception left the
    runtime, exactly one terminal callback.  Every delta is the cached answer
    of a request that passed the guardrails, or has no text, or has the text
    the outbound stages made of a chunk (the chunk itself where they left
    nothing).  After a chunk that a stage rejected the client gets no more
    delta and no completion, only an error, and nothing is written to the
    cache, provided that the stages leave the flag of the rejection alone. *)
Theorem gateway_stream request key headers tr r :
  trace (processStreamingRequest fresh cfg request key headers) tr r → keeps_flag tr →
  (∃ ds last, clients tr = (OnDelta <$> ds) ++ last ∧
     match r with None => last = [] | Some _ => ∃ e, last = [e] ∧ ∀ d, e ≠ OnDelta d end ∧
     Forall (λ d, screened_delta cfg tr d ∨
       ∃ ctx, cached_reply cfg request key tr ctx ∧ d_content d = x_cached_response ctx) ds) ∧
  (upstreams tr = [] ∨
   ∃ pre ev post, tr = pre ++ ev :: post ∧ is_Some (upstream_call ev) ∧ clients pre = [] ∧
     cut_off post (λ tr2, visibles tr2 = [] ∨ ∃ e, visibles tr2 = [client (OnError e)])).
Proof.
  intros Ht Hk. split; [by eapply stream_clients|]. apply stream_shape in Ht as [_ H].
  destruct H as [[-> Hv]|[(e & -> & Hv)|[(ctx & d & saved & -> & Hc & Hd & Hv)|H]]];
    [left; by rw upstreams_visibles Hv..|right].
  destruct H as (pre & ctx & answer & post & -> & Hv & Hcl & Ha).
  eexists pre, _, post. split_and!; [done|by eexists|by rw clients_visibles Hv|].
  apply Ha. eapply keeps_flag_sub; [|done]. set_solver.
Qed.

(** The key is one of the store's that is neither revoked nor expired and
    belongs to an active user of an active tenant. *)
Definition key_holder `{UnorderedIter} env (key : string) (w : IdWorld) : Prop :=
  ∃ id k, rows (iw_store w) ApiKeys !! id = Some k ∧ Auth.key_opens env key k ∧
    Auth.key_usable (iw_store w) (Identity.seconds (iw_clock w)) k.

(** The authentication service answered the look-ups of a key in a trace, in
    these worlds, in order; no two keys of a store have the same hash. *)
Definition looked_up `{UnorderedIter} env deps (key : string) (ws : list IdWorld)
    (tr : list (Event (GwCmd X))) : Prop :=
  Forall2 (λ r w, Auth.hashes_unique (iw_store w) ∧
                  r = (run (id_exec env) (Auth.resolve env deps key) w).1)
    (resolutions key tr) ws.

Lemma served_key `{UnorderedIter} env deps ws request key headers tr :
  g_auth_service cfg = true → g_rbac cfg = true → Auth.ad_rbac deps = true →
  looked_up env deps key ws tr → served fresh cfg request key headers tr →
  ∃ w, w ∈ ws ∧ key_holder env key w.
Proof.
  intros Hauth Hrbac Hdeps Hres (m & res & ctx & ctx0 & _ & Ha & _)%served_entered.
  unfold authorized in Ha. rw Hauth in Ha. destruct Ha as [Hin Hsome].
  assert (x_auth_context ctx0 ∈ resolutions key tr) as Hin'.
  { apply list_elem_of_omap. eexists. split; [exact Hin|]. simpl. by rw decide_True. }
  apply list_elem_of_lookup in Hin' as [i Hi].
  destruct (Forall2_lookup_l _ _ _ _ _ Hres Hi) as (w & Hw & Huniq & Hr).
  destruct (Hsome Hrbac) as [a Ha]. rw Ha in Hr.
  assert (key ≠ "") as Hkey by by intros ->.
  destruct (Auth.resolve_spec env deps key w Hdeps Hkey Huniq) as (r & Hrun & Hspec).
  rw Hrun in Hr. simpl in Hr. destruct (proj1 (Hspec a) (eq_sym Hr)) as (id & k & Hk & Ho & Hu & _).
  exists w. split; [by eapply list_elem_of_lookup_2|]. by exists id, k.
Qed.

End properties.

(** ** A run *)

Definition toy_request : ChatRequest :=
  {| cr_model := "auto";
     cr_messages := [{| m_role := "user"; m_content := "my card is 4111"; m_content_parts := JNull;
                        m_tool_calls := []; m_tool_call_id := ""; m_name := "" |}];
     cr_temperature := None; cr_max_tokens := None; cr_stream := false; cr_extra := JNull;
     cr_tools := JNull; cr_tool_choice := JNull; cr_metadata := None |}.

Definition masked_request : ChatRequest :=
  {| cr_model := "auto";
     cr_messages := [{| m_role := "user"; m_content := "my card is ****"; m_content_parts := JNull;
                        m_tool_calls := []; m_tool_call_id := ""; m_name := "" |}];
     cr_temperature := None; cr_max_tokens := None; cr_stream := false; cr_extra := JNull;
     cr_tools := JNull; cr_tool_choice := JNull; cr_metadata := None |}.

Definition toy_config : GwConfig :=
  {| g_auth_service := true; g_rbac := true; g_abuse := Some (0.5%float, 100%nat);
     g_savings := true; g_inbound := ["PIIFilter"; "SemanticCache"];
     g_outbound := ["ContentFilter"]; g_store := true; g_cache := true; g_resolver := true;
     g_request_timeout := 30 |}.

Definition toy_usage : TokenUsage :=
  {| prompt_tokens := 5; completion_tokens := 2; total_tokens := 7 |}.

Definition toy_delta (text : string) : StreamDelta :=
  {| d_content := text; d_tool_calls_delta := JNull; d_finish_reason := "" |}.

Definition short_circuit (ev : Event (GwCmd unit)) : bool :=
  let 'Ev e b := ev in
  match e in GwCmd _ B return B → bool with
  | Process _ _ => λ b, match b with Some (ShortCircuit, _) => true | _ => false end
  | _ => λ _, false
  end b.

(** The guardrail masks the request, the content filter the answer; a chunk
    with a bad word is rejected. *)
Definition toy_stage (stage : string) (ctx : RequestContext unit) : RequestContext unit :=
  if decide (stage = "PIIFilter") then ctx <| x_chat_request := masked_request |>
  else if decide (stage = "ContentFilter") then ctx <| x_accumulated_response := "clean" |>
  else ctx.

Definition toy_exec (B : Type) (e : GwCmd unit B) (w : unit) : B * unit :=
  (match e in GwCmd _ B return B with
   | Connections _ | Inc _ _ _ | Observe _ _ _ | RecordRejection _ | RecordSaving _
   | ReportOutcome _ _ _ | CachePut _ _ _ _ _ | Client _ => tt
   | Steady | Sequence => 0
   | System => Auth.toy_time
   | ResolveKey key => (run (id_exec Auth.toy_env) (Auth.resolve Auth.toy_env Auth.toy_deps key)
                          Auth.toy_world).1
   | ObserveKey _ _ => Throttle
   | Process stage ctx => Some (Continue, toy_stage stage ctx)
   | ProcessChunk _ ctx chunk =>
       Some (if decide (chunk = "bad") then (Reject, ctx)
             else (Continue, ctx <| x_chunk_output := "[" +:+ chunk +:+ "]" |>))
   | TenantRow id => Some (Auth.toy_tenant id)
   | CostInPeriod _ _ _ => 0%float
   | TryAcquire _ _ _ => true
   | SelectModel ctx => Some ("m1", ctx)
   | Complete _ _ => inr {| r_id := ""; r_model := "m1"; r_content := "dirty"; r_usage := toy_usage;
                            r_finish_reason := "stop"; r_tool_calls := [] |}
   | Stream _ _ => ([toy_delta "good"; toy_delta "bad"; toy_delta "late"], Some (inr toy_usage))
   | ConversationId _ => "c"
   end, w).

Definition toy_token : string := "sk-alice-secret".
Definition toy_handler : prog (GwCmd unit) (option ProcessResult) :=
  processRequest tt toy_config toy_request toy_token ∅.
Definition toy_streamer : prog (GwCmd unit) (option unit) :=
  processStreamingRequest tt toy_config toy_request toy_token ∅.

Lemma toy_upstreams : upstreams (recorded toy_exec toy_handler tt) = [(masked_request, "m1")].
Proof. by vm_compute. Qed.

Lemma toy_reply :
  (λ res, (r_content (response res), success res)) <$> (run toy_exec toy_handler tt).1 =
  Some ("clean", true).
Proof. vm_compute. reflexivity. Qed.

Lemma toy_hits : hits_only (recorded toy_exec toy_handler tt).
Proof.
  assert (Forall (λ ev, short_circuit ev = false) (recorded toy_exec toy_handler tt)) as Hall.
  { apply (bool_decide_unpack _). vm_compute. exact I. }
  rw Forall_forall in Hall. intros stage c c' Hin. by specialize (Hall _ Hin).
Qed.

Lemma gateway_gated_witness :
  ∃ pre ev post ctx, recorded toy_exec toy_handler tt = pre ++ ev :: post ∧
    upstream_call ev = Some (masked_request, "m1") ∧
    cleared toy_config toy_request toy_token pre Success ctx.
Proof.
  destruct (gateway_gated tt toy_config toy_request toy_token ∅ (recorded toy_exec toy_handler tt))
    as [Hno|(pre & ev & post & ctx & result & Htr & Hev & Hpre & Hpost & Hcl & Hhits)].
  - left. eexists. apply recorded_trace.
  - by rw toy_upstreams in Hno.
  - exists pre, ev, post, ctx. split_and!; [done| |].
    2: { rw -Hhits //. intros stage c c' Hin. apply (toy_hits stage c). rw Htr. set_solver. }
    rw Hev. pose proof toy_upstreams as Hu. rw Htr in Hu. unfold upstreams in *.
    rw omap_app Hpre in Hu. csimpl in Hu. rw Hev Hpost in Hu. by injection Hu as -> ->.
Defined.

Lemma gateway_reply_witness :
  ∃ res, (run toy_exec toy_handler tt).1 = Some res ∧ r_content (response res) = "clean" ∧
    ∃ pre req model resp post,
      recorded toy_exec toy_handler tt = pre ++ Ev (Complete req model) (inr resp) :: post.
Proof.
  destruct ((run toy_exec toy_handler tt).1) as [res|] eqn:Hrun; [|by vm_compute in Hrun].
  pose proof toy_reply as Hr. rw Hrun in Hr. injection Hr as Hc Hs. exists res. split_and!; [done|done|].
  destruct (gateway_reply tt toy_config toy_request toy_token ∅ (recorded toy_exec toy_handler tt) res)
    as [(ctx & saved & _ & _ & Hv)|H]; [rw -Hrun; apply recorded_trace|done| |].
  - pose proof toy_upstreams as Hu. by rw upstreams_visibles Hv in Hu.
  - destruct H as (pre & inres & ctx & resp & post & result & ctx' & conv & Htr & _).
    by eexists pre, _, _, resp, post.
Defined.

Lemma gateway_stream_witness :
  clients (recorded toy_exec toy_streamer tt) =
    [OnDelta (toy_delta "[good]"); OnError (err_of 403 ContentFiltered)] ∧
  ∃ pre ev post, recorded toy_exec toy_streamer tt = pre ++ ev :: post ∧
    is_Some (upstream_call ev) ∧
    cut_off post (λ tr2, visibles tr2 = [] ∨ ∃ e, visibles tr2 = [client (OnError e)]).
Proof.
  split; [by vm_compute|].
  destruct (gateway_stream tt toy_config toy_request toy_token ∅ (recorded toy_exec toy_streamer tt)
    (run toy_exec toy_streamer tt).1) as [_ H].
  - apply recorded_trace.
  - apply (bool_decide_unpack _). by vm_compute.
  - destruct H as [H|(pre & ev & post & Htr & Hev & _ & Hcut)]; [by vm_compute in H|].
    by exists pre, ev, post.
Defined.

Lemma gateway_connections_witness :
  connections (recorded toy_exec toy_handler tt) = 0 ∧
  connections (recorded toy_exec toy_streamer tt) = 0.
Proof.
  destruct (gateway_connections tt toy_config toy_request toy_token ∅ (recorded toy_exec toy_handler tt))
    as [Hreq _].
  destruct (gateway_connections tt toy_config toy_request toy_token ∅ (recorded toy_exec toy_streamer tt))
    as [_ Hstr].
  rw (Hreq _ (recorded_trace toy_exec toy_handler tt)).
  rw (Hstr _ (recorded_trace toy_exec toy_streamer tt)).
  split.
  - pose proof toy_reply as Hr. by destruct ((run toy_exec toy_handler tt).1).
  - assert ((run toy_exec toy_streamer tt).1 = Some tt) as -> by (vm_compute; reflexivity). done.
Defined.

End GatewayFacts.
