(* ===== verification/Sse.v ===== *)
(** * Sse: the answer as a stream of server-sent events

    Models [src/src/server/sse_response.cpp]: the frames of a streamed answer
    and the writer that sends them, or collects them for a plain response.  The
    callbacks of [Gateway.processStreamingRequest] drive the writer
    ([api_controller.cpp], the streaming branch of [chatCompletions]). *)
From Corelib Require Import PrimFloat.
From S2P Require Import Prelude.
From S2P Require Import Prog.
From S2P Require Import Trace.
From S2P Require Import Json.
From S2P Require Import ErrorCodes.
From S2P Require Import ChatTypes.
From S2P Require Import Upstream.
From S2P Require Import Connector.
From S2P Require Import Gateway.
From S2P Require Import GatewayFacts.
Import ErrorCodes Json ChatTypes.
Local Open Scope Z_scope.

Module Sse.

Record HttpResponse := {
  h_status : Z;
  h_content_type : string;
  h_headers : list (string * string);
  h_body : string;
}.

(** What the writer does to its client. *)
Inductive SseOut :=
| StreamSend (data : string)
| StreamClose
| Respond (r : HttpResponse).

(** [w_open]: [stream_] is set; [w_callback]: the writer was made with a
    callback for one plain response. *)
Record SseResponseWriter := {
  w_streaming : bool;
  w_open : bool;
  w_callback : bool;
  w_buffer : string;
  w_chunk_index : Z;
}.
#[global] Instance writer_settable : Settable SseResponseWriter := λ w,
  {| w_streaming := w_streaming w; w_open := w_open w; w_callback := w_callback w;
     w_buffer := w_buffer w; w_chunk_index := w_chunk_index w |}.

Definition stream_writer : SseResponseWriter :=
  {| w_streaming := true; w_open := true; w_callback := false; w_buffer := ""; w_chunk_index := 0 |}.
Definition callback_writer : SseResponseWriter :=
  {| w_streaming := false; w_open := false; w_callback := true; w_buffer := "";
     w_chunk_index := 0 |}.

Section sse.
Context (dump : json → option string).

(** ** Frames *)

Definition blank : string := String Upstream.lf (String Upstream.lf "").
Definition frame (payload : string) : string := "data: " +:+ payload +:+ blank.

Definition chunk_json (model chunk_id : string) (choice : json) : json :=
  JObject (map_assign "choices" (JArray [choice])
    (map_assign "model" (JString model)
      (map_assign "object" (JString "chat.completion.chunk") [("id", JString chunk_id)]))).

Definition formatSseChunk (content model chunk_id : string) : option string :=
  frame <$> dump (chunk_json model chunk_id
    (json_of_list [("index", JInteger 0); ("delta", json_of_list [("content", JString content)]);
                   ("finish_reason", JNull)])).

(** The [delta] member: null until something is assigned. *)
Definition delta_json (delta : StreamDelta) : json :=
  let m := Connector.put_if (negb (str_empty (d_content delta))) "content"
             (JString (d_content delta)) [] in
  let m := Connector.put_if (is_array (d_tool_calls_delta delta)) "tool_calls"
             (d_tool_calls_delta delta) m in
  match m with [] => JNull | _ => JObject m end.

Definition delta_choice (delta : StreamDelta) : json :=
  JObject (map_assign "finish_reason"
    (if str_empty (d_finish_reason delta) then JNull else JString (d_finish_reason delta))
    (map_assign "delta" (delta_json delta) [("index", JInteger 0)])).

Definition formatSseDelta (delta : StreamDelta) (model chunk_id : string) : option string :=
  frame <$> dump (chunk_json model chunk_id (delta_choice delta)).

Definition formatSseDone : string := frame "[DONE]".

Definition error_json (error : GatewayError) : json :=
  JObject [("error", JObject (map_assign "message" (JString (message error))
    (map_assign "type" (JString (error_type error)) [("code", JString (error_code error))])))].

Definition formatSseError (error : GatewayError) : option string := frame <$> dump (error_json error).

(** ** The writer *)

(** What is written goes to the stream or to the buffer. *)
Definition put (data : string) (w : SseResponseWriter) : list SseOut * SseResponseWriter :=
  if w_streaming w && w_open w then ([StreamSend data], w)
  else ([], w <| w_buffer := w_buffer w +:+ data |>).

Definition next_chunk (w : SseResponseWriter) : string * SseResponseWriter :=
  ("chatcmpl-stream-" +:+ to_string (w_chunk_index w),
   w <| w_chunk_index := to_int (w_chunk_index w + 1) |>).

(** [None] is the exception of [dump]. *)
Definition writeChunk (content model : string) (w : SseResponseWriter) :
    option (list SseOut * SseResponseWriter) :=
  let '(chunk_id, w) := next_chunk w in
  formatted ← formatSseChunk content model chunk_id;
  Some (put formatted w).

Definition writeDelta (delta : StreamDelta) (model : string) (w : SseResponseWriter) :
    option (list SseOut * SseResponseWriter) :=
  let '(chunk_id, w) := next_chunk w in
  formatted ← formatSseDelta delta model chunk_id;
  Some (put formatted w).

Definition meta_json (usage : TokenUsage) (tokens_saved : Z) : json :=
  JObject [("aegisgate", JObject (map_assign "usage"
    (JObject (map_assign "total_tokens" (JInteger (total_tokens usage))
       (map_assign "completion_tokens" (JInteger (completion_tokens usage))
          [("prompt_tokens", JInteger (prompt_tokens usage))])))
    [("tokens_saved", JInteger tokens_saved)]))].

Definition event_stream (body : string) : HttpResponse :=
  {| h_status := 200; h_content_type := "text/event-stream";
     h_headers := [("Cache-Control", "no-cache"); ("Connection", "keep-alive")]; h_body := body |}.

Definition writeDone (usage : TokenUsage) (tokens_saved : Z) (w : SseResponseWriter) :
    option (list SseOut * SseResponseWriter) :=
  '(out, w) ← (if (0 <? total_tokens usage) || (0 <? tokens_saved)
               then meta ← dump (meta_json usage tokens_saved); Some (put (frame meta) w)
               else Some ([], w));
  if w_streaming w && w_open w then
    Some (out ++ [StreamSend formatSseDone; StreamClose], w <| w_open := false |>)
  else if w_callback w then
    let buffer := w_buffer w +:+ formatSseDone in
    Some (out ++ [Respond (event_stream buffer)], w <| w_buffer := buffer |>)
  else Some (out, w).

Definition writeError (error : GatewayError) (w : SseResponseWriter) :
    option (list SseOut * SseResponseWriter) :=
  if w_streaming w && w_open w then
    formatted ← formatSseError error;
    Some ([StreamSend formatted; StreamSend formatSseDone; StreamClose], w <| w_open := false |>)
  else if w_callback w then
    body ← dump (error_json error);
    Some ([Respond {| h_status := http_status error; h_content_type := "application/json";
                      h_headers := []; h_body := body |}], w)
  else Some ([], w).

(** The callbacks of a streaming request, of the model [model]. *)
Definition on_event (model : string) (e : Gateway.ClientEvent) (w : SseResponseWriter) :
    option (list SseOut * SseResponseWriter) :=
  match e with
  | Gateway.OnDelta d => writeDelta d model w
  | Gateway.OnDone usage tokens_saved => writeDone usage tokens_saved w
  | Gateway.OnError err => writeError err w
  end.

Fixpoint on_events (model : string) (es : list Gateway.ClientEvent) (w : SseResponseWriter) :
    option (list SseOut * SseResponseWriter) :=
  match es with
  | [] => Some ([], w)
  | e :: es =>
      '(out, w) ← on_event model e w;
      '(out', w) ← on_events model es w;
      Some (out ++ out', w)
  end.

End sse.

(** ** Reading the stream back *)

Definition sent_data (o : SseOut) : option string :=
  match o with StreamSend data => Some data | _ => None end.
Definition wire (out : list SseOut) : string := Upstream.joined (omap sent_data out).

Definition chunk_line (e : Upstream.TransferEvent) : option string :=
  match e with Upstream.OnChunk line => Some line | _ => None end.

(** The compact form of the JSON library is one line, and it reads back. *)
Record SseText (dump : json → option string) (parse : string → option json) : Prop := {
  text_json : JsonText dump parse;
  text_line : ∀ v s, dump v = Some s → ¬ has_char Upstream.lf s ∧ ¬ has_char "013"%char s;
  text_done : parse "[DONE]" = None;
}.

Definition int_range (z : Z) : Prop := - 2 ^ 31 <= z < 2 ^ 31.

(** The tool calls of a delta are an array, if any; counts are [int]s. *)
Definition event_ok (e : Gateway.ClientEvent) : Prop :=
  match e with
  | Gateway.OnDelta d =>
      json_wf (d_tool_calls_delta d) ∧
      (is_null (d_tool_calls_delta d) || is_array (d_tool_calls_delta d)) = true
  | Gateway.OnDone u n =>
      int_range (prompt_tokens u) ∧ int_range (completion_tokens u) ∧ int_range (total_tokens u) ∧
      int_range n
  | Gateway.OnError _ => True
  end.

Definition delta_of (e : Gateway.ClientEvent) : option StreamDelta :=
  match e with Gateway.OnDelta d => Some d | _ => None end.

(** *** Frames and lines *)

Lemma joined_app l1 l2 : Upstream.joined (l1 ++ l2) = Upstream.joined l1 +:+ Upstream.joined l2.
Proof. induction l1 as [|s l1 IH]; [done|]. simpl. by rw IH string_app_assoc. Qed.

Lemma data_line : ¬ has_char Upstream.lf "data: " ∧ ¬ has_char "013"%char "data: ".
Proof. unfold has_char. split; by apply (bool_decide_eq_false (_ ∈ _)). Qed.

Lemma frame_pieces payloads :
  Forall (λ p, ¬ has_char Upstream.lf p) payloads →
  Upstream.pieces_of (Upstream.joined (frame <$> payloads)) =
  (payloads ≫= λ p, ["data: " +:+ p; ""], "").
Proof.
  induction 1 as [|p payloads Hp _ IH]; [done|].
  change (Upstream.joined (frame <$> p :: payloads)) with (frame p +:+ Upstream.joined (frame <$> payloads)).
  set (rest := Upstream.joined (frame <$> payloads)) in *.
  assert (frame p +:+ rest = ("data: " +:+ p) +:+ String Upstream.lf ("" +:+ String Upstream.lf rest)) as ->.
  { unfold frame, blank. by rw !string_app_assoc. }
  rw Upstream.pieces_of_line; [|].
  - rw Upstream.pieces_of_line; [|by intros ?%elem_of_nil]. by rw IH.
  - rw has_char_app. intros [Hd|?]; [|done]. by apply (proj1 data_line).
Qed.


Lemma clean_data p :
  ¬ has_char "013"%char p → Upstream.clean_line ("data: " +:+ p) = Some ("data: " +:+ p).
Proof.
  intros Hp. rw Upstream.clean_line_spec Upstream.strip_cr_keep //. intros q Hq.
  assert (has_char "013"%char ("data: " +:+ p)) as [Hd|?]%has_char_app; [|by apply (proj2 data_line)|done].
  rw Hq has_char_app. right. by left.
Qed.

(** The lines that a client reads from frames are the payloads. *)
Lemma frame_lines payloads :
  Forall (λ p, ¬ has_char Upstream.lf p ∧ ¬ has_char "013"%char p) payloads →
  omap Upstream.clean_line (payloads ≫= λ p, ["data: " +:+ p; ""]) = (λ p, "data: " +:+ p) <$> payloads.
Proof.
  induction 1 as [|p payloads [_ Hp] _ IH]; [done|].
  change (_ :: payloads ≫= ?f) with (f p ++ (payloads ≫= f)). rw omap_app IH.
  cbn [omap list_omap]. by rw clean_data.
Qed.

Lemma curl_payloads pieces payloads :
  Forall (λ p, ¬ has_char Upstream.lf p ∧ ¬ has_char "013"%char p) payloads →
  Upstream.joined pieces = Upstream.joined (frame <$> payloads) →
  omap chunk_line (Upstream.curl_stream pieces (inr 200)) = (λ p, "data: " +:+ p) <$> payloads.
Proof.
  intros Hp Hj. unfold Upstream.curl_stream.
  rw Upstream.transfer_lines //; [|by intros ?%elem_of_nil].
  cbn [Upstream.line_buffer Upstream.accumulated_body].
  change ("" +:+ Upstream.joined pieces) with (Upstream.joined pieces). rw Hj frame_pieces.
  - rw omap_app -(frame_lines payloads) //. rw app_nil_r.
    generalize (omap Upstream.clean_line (payloads ≫= λ p, ["data: " +:+ p; ""])). intros l.
    induction l as [|s l IH]; [done|]. csimpl. by rw IH.
  - eapply Forall_impl; [done|]. by intros p [? _].
Qed.


(** *** Frames and deltas *)

Lemma json_wf_int z : int_range z → json_wf (JInteger z).
Proof. unfold int_range. simpl. lia. Qed.

Create HintDb wf.
#[local] Hint Resolve json_wf_assign json_wf_single json_wf_nil json_wf_int : wf.
#[local] Hint Extern 1 (json_wf _) => exact I : wf.

Lemma put_if_wf c k v m : json_wf v → json_wf (JObject m) → json_wf (JObject (Connector.put_if c k v m)).
Proof. intros. destruct c; simpl; [by apply json_wf_assign|done]. Qed.

Lemma chunk_json_wf model id choice : json_wf choice → json_wf (chunk_json model id choice).
Proof. intros Hc. unfold chunk_json. apply json_wf_assign; [by split|]. auto 6 with wf. Qed.

Lemma delta_choice_wf d : json_wf (d_tool_calls_delta d) → json_wf (delta_choice d).
Proof.
  intros Hd. unfold delta_choice. apply json_wf_assign; [by destruct (str_empty _)|].
  apply json_wf_assign; [|apply json_wf_single; simpl; lia]. unfold delta_json.
  assert (json_wf (JObject (Connector.put_if (is_array (d_tool_calls_delta d)) "tool_calls"
    (d_tool_calls_delta d) (Connector.put_if (negb (str_empty (d_content d))) "content"
    (JString (d_content d)) [])))) as Hw by (repeat apply put_if_wf; auto with wf).
  revert Hw. by destruct (Connector.put_if (is_array _) _ _ _).
Qed.

(** What a delta's frame is read as. *)
Lemma delta_frame model id d :
  event_ok (Gateway.OnDelta d) →
  Connector.openai_delta (chunk_json model id (delta_choice d)) = Some d.
Proof.
  destruct d as [content calls finish]. intros [_ Hk]. simpl in Hk.
  unfold chunk_json, delta_choice, delta_json, str_empty, Connector.put_if.
  cbn [d_content d_tool_calls_delta d_finish_reason].
  destruct (decide (content = "")) as [->|Hc];
    [rw (bool_decide_true ("" = "")) //|rw (bool_decide_false (content = "")) //];
  (destruct (decide (finish = "")) as [->|Hf];
    [rw (bool_decide_true ("" = "")) //|rw (bool_decide_false (finish = "")) //]);
  by destruct calls.
Qed.


Section reading.
Context (dump : json → option string) (parse : string → option json) (HT : SseText dump parse).
Notation openai_chunk := (Connector.openai_chunk parse).

Lemma read_frame v s :
  json_wf v → dump v = Some s → openai_chunk ("data: " +:+ s) = Connector.openai_delta v.
Proof.
  intros Hw Hd. unfold Connector.openai_chunk.
  assert (Connector.sse_data ("data: " +:+ s) = Some s) as ->.
  { unfold Connector.sse_data. change 6%nat with (String.length "data: ").
    rw (substring_app_l "data: " s). exact (f_equal Some (substr_from_app "data: " s)). }
  rw decide_False.
  - by rw (parse_dump _ _ (text_json _ _ HT) _ _ Hw Hd).
  - intros ->. pose proof (parse_dump _ _ (text_json _ _ HT) _ _ Hw Hd) as Hp.
    by rw (text_done _ _ HT) in Hp.
Qed.

(** The frames of the deltas; [p] is a frame's payload. *)
Definition frame_of (model : string) (d : StreamDelta) (p : string) : Prop :=
  ∃ id, dump (chunk_json model id (delta_choice d)) = Some p.

Lemma write_deltas model ds last w out w' :
  w_streaming w = true → w_open w = true →
  on_events dump model ((Gateway.OnDelta <$> ds) ++ last) w = Some (out, w') →
  ∃ ps out' w'', Forall2 (frame_of model) ds ps ∧ out = (StreamSend ∘ frame <$> ps) ++ out' ∧
    w_streaming w'' = true ∧ w_open w'' = true ∧ on_events dump model last w'' = Some (out', w').
Proof.
  revert w out. induction ds as [|d ds IH]; intros w out Hs Ho.
  { intros H. by exists [], out, w. }
  cbn [fmap list_fmap app on_events on_event].
  unfold writeDelta, next_chunk, formatSseDelta. intros ([out1 w1] & H1 & H)%bind_Some.
  apply bind_Some in H1 as (f & (p & Hp & ->)%fmap_Some & [= H1]). unfold put in H1. simpl in H1.
  rw Hs Ho /= in H1. injection H1 as <- <-.
  apply bind_Some in H as ([out2 w2] & H2 & [= <- ->]).
  apply IH in H2 as (ps & out' & w'' & Hf & -> & Hs' & Ho' & Hl); [|done|done].
  exists (p :: ps), out', w''. split_and!; try done. constructor; [by eexists|done].
Qed.

(** Payloads that are not deltas. *)
Definition other_payload (p : string) : Prop :=
  openai_chunk ("data: " +:+ p) = Some Connector.no_delta ∧
  ¬ has_char Upstream.lf p ∧ ¬ has_char "013"%char p.

Lemma done_payload : other_payload "[DONE]".
Proof. split; [done|]. unfold has_char. split; by apply (bool_decide_eq_false (_ ∈ _)). Qed.

Lemma object_payload k v s : k ≠ "choices" → json_wf v → dump (JObject [(k, v)]) = Some s → other_payload s.
Proof.
  intros Hk Hw Hd. split; [|by apply (text_line _ _ HT) in Hd]. rw (read_frame _ _ (json_wf_single k v Hw) Hd).
  unfold Connector.openai_delta, Connector.first_choice. simpl. by rw decide_False.
Qed.

Lemma write_last model e w out w' :
  w_streaming w = true → w_open w = true → event_ok e → delta_of e = None →
  on_event dump model e w = Some (out, w') →
  ∃ ps, out = (StreamSend ∘ frame <$> ps ++ ["[DONE]"]) ++ [StreamClose] ∧ Forall other_payload ps.
Proof.
  intros Hs Ho Hok He. destruct e as [d|u n|err]; [done| |]; simpl.
  - unfold writeDone, put. intros ([out1 w1] & H1 & H)%bind_Some.
    assert (w1 = w ∧ ∃ ps, out1 = StreamSend ∘ frame <$> ps ∧ Forall other_payload ps) as (-> & ps & -> & Hps).
    { destruct (_ || _).
      - rw Hs Ho /= in H1. apply bind_Some in H1 as (p & Hp & [= <- <-]). split; [done|]. exists [p].
        split; [done|]. constructor; [|done]. eapply object_payload; [|..|exact Hp]; [done|].
        destruct Hok as (H1 & H2 & H3 & H4). auto 8 with wf.
      - injection H1 as <- <-. split; [done|]. by exists []. }
    rw Hs Ho /= in H. injection H as <- <-. exists ps. split; [|done].
    rw fmap_app -(assoc_L (++)). done.
  - unfold writeError. rw Hs Ho /=. intros (f & (p & Hp & ->)%fmap_Some & [= <- <-])%bind_Some.
    exists [p]. split; [done|]. constructor; [|done]. eapply object_payload; [|..|exact Hp]; [done|].
    auto 6 with wf.
Qed.

(** What the lines of the frames show. *)
Lemma shown_frames model ds ps qs :
  Forall (λ d, event_ok (Gateway.OnDelta d)) ds → Forall2 (frame_of model) ds ps →
  Forall other_payload qs →
  Connector.shown (H := Connector.OpenAIConnector parse) ((λ p, "data: " +:+ p) <$> ps ++ qs) =
    filter (λ d, Connector.delta_empty d = false) ds ∧
  Forall (λ p, ¬ has_char Upstream.lf p ∧ ¬ has_char "013"%char p) (ps ++ qs).
Proof.
  intros Hok Hf Hq. split.
  - unfold Connector.shown. rw fmap_app omap_app filter_app.
    assert (filter (λ d, Connector.delta_empty d = false)
      (omap Connector.parseStreamChunk ((λ p, "data: " +:+ p) <$> qs)) = []) as ->.
    { clear -Hq. induction Hq as [|q qs [Hq _] _ IH]; [done|].
      change (_ <$> q :: qs) with (("data: " +:+ q) :: ((λ p, "data: " +:+ p) <$> qs)).
      cbn [omap list_omap Connector.parseStreamChunk Connector.OpenAIConnector]. rw Hq.
      by rw filter_cons_False. }
    rw app_nil_r. f_equal. induction Hf as [|d p ds ps (id & Hp) _ IH]; [done|].
    apply Forall_cons in Hok as [Hd Hok].
    change (_ <$> p :: ps) with (("data: " +:+ p) :: ((λ p, "data: " +:+ p) <$> ps)).
    cbn [omap list_omap Connector.parseStreamChunk Connector.OpenAIConnector].
    rw (read_frame _ _ (chunk_json_wf _ _ _ (delta_choice_wf _ (proj1 Hd))) Hp) delta_frame //. f_equal.
    by apply IH.
  - apply Forall_app. split; [|by eapply Forall_impl; [done|]; intros q [_ ?]].
    clear Hok. induction Hf as [|d p ds ps (id & Hp) _ IH]; constructor; [|done].
    by apply (text_line _ _ HT) in Hp.
Qed.


End reading.


(** ** The stream arrives *)

(** C34. A client that speaks the same protocol gets the answer the gateway's
    pipeline let through: the bytes the writer sends for a streaming request
    end with one [DONE] frame, after which the stream is closed, and however
    the transport cuts them, an OpenAI connector that reads them shows exactly
    the deltas of the request's callbacks, in order, none added and none lost,
    and takes the accounting and error frames for no part of the answer. *)
Theorem sse_delivers dump parse {X} (fresh : X) cfg request key headers tr out w pieces :
  SseText dump parse →
  trace (Gateway.processStreamingRequest fresh cfg request key headers) tr (Some tt) →
  Forall event_ok (GatewayFacts.clients tr) →
  on_events dump (cr_model request) (GatewayFacts.clients tr) stream_writer = Some (out, w) →
  Upstream.joined pieces = wire out →
  (∃ sends, out = (StreamSend <$> sends) ++ [StreamSend formatSseDone; StreamClose]) ∧
  Connector.shown (H := Connector.OpenAIConnector parse)
    (omap chunk_line (Upstream.curl_stream pieces (inr 200))) =
  filter (λ d, Connector.delta_empty d = false) (omap delta_of (GatewayFacts.clients tr)).
Proof.
  intros HT (ds & last & Hc & (e & -> & He) & _)%GatewayFacts.stream_clients Hok Hw Hp.
  rw Hc in Hok, Hw |- *. apply Forall_app in Hok as [Hds [Hoke _]%Forall_cons].
  assert (delta_of e = None) as Hne by by destruct e; [exfalso; by eapply He|..].
  apply write_deltas in Hw as (ps & out' & w'' & Hf & Hout & Hs & Ho & Hl); [|done|done].
  cbn [on_events] in Hl. apply bind_Some in Hl as ([o1 w1] & H1 & [= <- _]).
  apply (write_last _ _ HT) in H1 as (qs & -> & Hq); [|done..|done].
  rw app_nil_r (assoc_L (++)) -fmap_app in Hout.
  assert (Forall (λ d, event_ok (Gateway.OnDelta d)) ds) as Hds' by by rw Forall_fmap in Hds.
  destruct (shown_frames _ _ HT _ _ _ (qs ++ ["[DONE]"]) Hds' Hf) as [Hsh Hps].
  { apply Forall_app. split; [done|]. constructor; [apply done_payload|done]. }
  split.
  - exists (frame <$> ps ++ qs). rw Hout -list_fmap_compose (assoc_L (++) ps) fmap_app -(assoc_L (++)) //.
  - rw (curl_payloads pieces (ps ++ qs ++ ["[DONE]"])) //.
    + rw Hsh omap_app /= Hne app_nil_r. f_equal. clear. by induction ds; csimpl; f_equal.
    + rw Hp /wire Hout omap_app app_nil_r. f_equal. generalize (ps ++ qs ++ ["[DONE]"]).
      clear. intros l. by induction l; csimpl; f_equal.
Qed.

(** ** A stream *)

(** A writer and a reader of the two values of the stream. *)
Definition toy_table : list (json * string) :=
  [(chunk_json "auto" "chatcmpl-stream-0" (delta_choice (GatewayFacts.toy_delta "[good]")), "{delta}");
   (error_json (Gateway.err_of 403 ContentFiltered), "{error}")].

Lemma toy_text : SseText (table_dump toy_table) (table_parse toy_table).
Proof.
  split.
  - apply table_text; [apply (bool_decide_unpack _); by vm_compute|].
    repeat constructor; simpl; try done; unfold keys_sorted; simpl; repeat constructor.
  - intros v s Hv%table_dump_elem. unfold has_char.
    assert (Forall (λ e, Upstream.lf ∉ String.list_ascii_of_string e.2 ∧
      "013"%char ∉ String.list_ascii_of_string e.2) toy_table) as Hf
      by (apply (bool_decide_unpack _); by vm_compute).
    rw Forall_forall in Hf. exact (Hf _ Hv).
  - by vm_compute.
Qed.

Definition toy_out : list SseOut :=
  [StreamSend (frame "{delta}"); StreamSend (frame "{error}"); StreamSend formatSseDone; StreamClose].

Lemma toy_clients :
  (run GatewayFacts.toy_exec GatewayFacts.toy_streamer tt).1 = Some tt ∧
  GatewayFacts.clients (recorded GatewayFacts.toy_exec GatewayFacts.toy_streamer tt) =
    [Gateway.OnDelta (GatewayFacts.toy_delta "[good]");
     Gateway.OnError (Gateway.err_of 403 ContentFiltered)].
Proof. split; vm_compute; reflexivity. Qed.

Lemma toy_written :
  on_events (table_dump toy_table) "auto"
    [Gateway.OnDelta (GatewayFacts.toy_delta "[good]");
     Gateway.OnError (Gateway.err_of 403 ContentFiltered)] stream_writer =
  Some (toy_out, stream_writer <| w_open := false |> <| w_chunk_index := 1 |>).
Proof. vm_compute. reflexivity. Qed.

Lemma sse_delivers_witness :
  Connector.shown (H := Connector.OpenAIConnector (table_parse toy_table))
    (omap chunk_line (Upstream.curl_stream
       [frame "{delta}" +:+ "dat"; "a: {error}" +:+ blank; formatSseDone] (inr 200))) =
  [GatewayFacts.toy_delta "[good]"].
Proof.
  destruct (sse_delivers (table_dump toy_table) (table_parse toy_table) tt GatewayFacts.toy_config
    GatewayFacts.toy_request GatewayFacts.toy_token ∅
    (recorded GatewayFacts.toy_exec GatewayFacts.toy_streamer tt) toy_out
    (stream_writer <| w_open := false |> <| w_chunk_index := 1 |>)
    [frame "{delta}" +:+ "dat"; "a: {error}" +:+ blank; formatSseDone]) as [_ H].
  - apply toy_text.
  - rw -(proj1 toy_clients). apply recorded_trace.
  - rw (proj2 toy_clients). by repeat constructor.
  - rw (proj2 toy_clients). exact toy_written.
  - vm_compute. reflexivity.
  - rw H (proj2 toy_clients). vm_compute. reflexivity.
Defined.

End Sse.
