(* ===== verification/Proxy.v ===== *)
(** * Proxy: embeddings, images and audio

    Models [processProxyRequest] of [src/src/server/gateway_runtime.cpp], the
    router and the handlers of [src/src/multimodal/modality_router.cpp],
    [openai_modality_handlers.cpp] and [openai_modality_upstream_adapter.h],
    and the lookups of [src/src/gateway/connector/registry.cpp].  The key
    service, the abuse detector, the limiters, the connectors, the metrics, the
    audit log and the ledger are calls; theorems hold whatever they answer. *)
From Corelib Require Import PrimFloat.
From S2P Require Import Prelude.
From S2P Require Import Prog.
From S2P Require Import Trace.
From S2P Require Import Json.
From S2P Require Import ErrorCodes.
From S2P Require Import IsoTime.
From S2P Require Import Identity.
From S2P Require Import ChatTypes.
From S2P Require Import Connector.
From S2P Require Import RateLimiter.
From S2P Require Import CostTracker.
From S2P Require Import AbuseDetector.
From S2P Require Import Gateway.
Import ErrorCodes Json ChatTypes.
Local Open Scope Z_scope.

Module Proxy.

(** ** Connectors and handlers *)

(** A registered connector: a name, the models it lists, and the kind that
    decides about endpoints. *)
Record Provider := {
  pv_name : string;
  pv_models : list string;
  pv_openai : bool;
}.

Definition provider_supports (endpoint : string) (c : Provider) : bool :=
  pv_openai c && Connector.supportsEndpoint endpoint.

Definition findByModel (model : string) (connectors : list Provider) : option Provider :=
  snd <$> list_find (λ c, existsb (String.eqb model) (pv_models c) = true) connectors.

Definition findByProvider (name : string) (connectors : list Provider) : option Provider :=
  snd <$> list_find (λ c, pv_name c = name) connectors.

Definition first_supporting (endpoint : string) (connectors : list Provider) : option Provider :=
  snd <$> list_find (λ c, provider_supports endpoint c = true) connectors.

(** An OpenAI handler of a modality, its rate and its connector. *)
Record ModalityHandler := {
  mh_modality : RateLimiter.Modality;
  mh_rate : float;
  mh_connector : option Provider;
}.

Definition body_size (req : ProxyRequest) : float :=
  int_to_double (Z.of_nat (String.length (pr_raw_body req))).

Definition estimateByBodyKb (req : ProxyRequest) (rate : float) : float :=
  (body_size req / 1024 * rate)%float.

Definition estimateCost (h : ModalityHandler) (req : ProxyRequest) : float :=
  match mh_modality h with
  | RateLimiter.Embedding => (body_size req / 4 / 1000 * mh_rate h)%float
  | RateLimiter.AudioTranscribe => (body_size req / (64 * 1024) * mh_rate h)%float
  | RateLimiter.AudioSpeech => estimateByBodyKb req (mh_rate h)
  | _ => mh_rate h
  end.

Inductive Strategy := Cheapest | RoundRobin | FastestP99.

Record ModalityRouter := {
  handlers : gmap RateLimiter.Modality (list ModalityHandler);
  policies : gmap RateLimiter.Modality Strategy;
}.

Definition registerHandler (h : ModalityHandler) (r : ModalityRouter) : ModalityRouter :=
  {| handlers := <[mh_modality h := default [] (handlers r !! mh_modality h) ++ [h]]> (handlers r);
     policies := policies r |}.

Definition setRoutingPolicy (m : RateLimiter.Modality) (s : Strategy) (r : ModalityRouter) :
    ModalityRouter :=
  {| handlers := handlers r; policies := <[m := s]> (policies r) |}.

Definition handlerCount (m : RateLimiter.Modality) (r : ModalityRouter) : nat :=
  length (default [] (handlers r !! m)).

(** The loop of the cheapest: the first of the least estimates. *)
Fixpoint cheapest (req : ProxyRequest) (best : ModalityHandler) (best_cost : float)
    (l : list ModalityHandler) : ModalityHandler :=
  match l with
  | [] => best
  | h :: l =>
      let c := estimateCost h req in
      if (c <? best_cost)%float then cheapest req h c l else cheapest req best best_cost l
  end.

(** ** The request *)

(** The audit log and the ledger answer with the exception they throw, if any. *)
Inductive PxCmd : Type → Type :=
| Connections (up : bool) : PxCmd unit
| Inc (counter : string) (labels : Gateway.Labels) : PxCmd unit
| Observe (histogram : string) (v : float) : PxCmd unit
| Steady : PxCmd Z
| System : PxCmd Z
| RobinCounter : PxCmd Z
| ResolveKey (api_key : string) : PxCmd (option AuthContext)
| ObserveKey (api_key text : string) : PxCmd AbuseDetector.Action
| Allow (key : string) (cost : float) : PxCmd bool
| AllowModality (m : RateLimiter.Modality) (identity : string) : PxCmd bool
| Forward (to : Provider) (req : ProxyRequest) : PxCmd (Exception + ProxyResponse)
| AuditForward (request_id detail : string) : PxCmd (option Exception)
| Bill (r : CostTracker.CostRecord) : PxCmd (option Exception).

Record PxConfig := {
  px_auth_service : bool;
  px_rbac : bool;
  px_abuse : option (float * nat);
  px_router : option ModalityRouter;
  px_quotas : option (list RateLimiter.Modality);
  px_connectors : list Provider;
  px_audit : bool;
  px_tracker : option CostTracker.CostTracker;
}.

Record ProxyResult := {
  px_success : bool;
  px_response : ProxyResponse;
  px_error : GatewayError;
}.

Definition no_proxy_response : ProxyResponse :=
  {| ps_http_status := 200; ps_body := ""; ps_content_type := "application/json" |}.

Section proxy.
Context (parse : string → option json) (cfg : PxConfig).
Notation px := (prog PxCmd).

(** [mod_handler], or none. *)
Definition selectHandler (r : ModalityRouter) (m : RateLimiter.Modality) (req : ProxyRequest) :
    px (option ModalityHandler) :=
  match default [] (handlers r !! m) with
  | [] => Ret None
  | [h] => Ret (Some h)
  | h :: l =>
      match default Cheapest (policies r !! m) with
      | Cheapest => Ret (Some (cheapest req h (estimateCost h req) l))
      | RoundRobin =>
          n ← call RobinCounter;
          Ret ((h :: l) !! Z.to_nat (n mod Z.of_nat (length (h :: l))))
      | FastestP99 => Ret (Some h)
      end
  end.

(** The adapter of a handler. *)
Definition handle (h : ModalityHandler) (req : ProxyRequest) : px (Exception + ProxyResponse) :=
  match mh_connector h with
  | None =>
      let q := String "034"%char "" in
      Ret (inr {| ps_http_status := 503;
        ps_body := "{" +:+ q +:+ "error" +:+ q +:+ ":{" +:+ q +:+ "code" +:+ q +:+ ":" +:+ q +:+
          "upstream_unavailable" +:+ q +:+ "," +:+ q +:+ "message" +:+ q +:+ ":" +:+ q +:+
          "openai connector not registered" +:+ q +:+ "}}";
        ps_content_type := "application/json" |})
  | Some c => call (Forward c req)
  end.

Definition failure (err : GatewayError) : ProxyResult :=
  {| px_success := false; px_response := no_proxy_response; px_error := err |}.

(** An early error return. *)
Definition deny (err : GatewayError) : px ProxyResult :=
  call (Connections false);; Ret (failure err).

Definition proxy_label (req : ProxyRequest) : string :=
  if str_empty (pr_model req) then "proxy" else pr_model req.

Definition status_ok (status : Z) : bool := (200 <=? status) && (status <? 300).

Definition upstream_error (e : Exception) : GatewayError :=
  {| http_status := 502; error_code := toAegisCode UpstreamError; error_type := toErrorType UpstreamError;
     message := toDefaultMessage UpstreamError; internal_detail := what e |}.

(** The [catch] block. *)
Definition caught (upstream_start : Z) (req : ProxyRequest) (e : Exception) : px ProxyResult :=
  now ← call Steady;
  call (Observe "upstreamDuration" (Gateway.seconds (now - upstream_start)));;
  call (Inc "requestsTotal" (Gateway.model_status (proxy_label req) "error"));;
  call (Connections false);;
  Ret (failure (upstream_error e)).

(** The rest of the [try] block, or the exception of the upstream. *)
Definition finish (start upstream_start : Z) (tenant : string) (req : ProxyRequest)
    (answer : Exception + ProxyResponse) : px ProxyResult :=
  match answer with
  | inl e => caught upstream_start req e
  | inr resp =>
      let ok := status_ok (ps_http_status resp) in
      now ← call Steady;
      call (Observe "upstreamDuration" (Gateway.seconds (now - upstream_start)));;
      now ← call Steady;
      call (Observe "requestDuration" (Gateway.seconds (now - start)));;
      call (Inc "requestsTotal" (Gateway.model_status (proxy_label req) (if ok then "ok" else "error")));;
      call (Connections false);;
      let request_id := "proxy-" +:+ to_string start in
      thrown ← (if px_audit cfg
                then call (AuditForward request_id
                       ("endpoint=" +:+ pr_endpoint req +:+ " model=" +:+ pr_model req))
                else Ret None);
      match thrown with
      | Some e => caught upstream_start req e
      | None =>
          thrown ← match px_tracker cfg with
                   | Some t =>
                       if ok then
                         clock ← call System;
                         call (Bill (CostTracker.buildProxyCostRecord parse t (pr_endpoint req)
                                       (pr_model req) tenant request_id (IsoTime.iso clock) resp))
                       else Ret None
                   | None => Ret None
                   end;
          match thrown with
          | Some e => caught upstream_start req e
          | None =>
              Ret (if ok then {| px_success := true; px_response := resp; px_error := Gateway.no_error |}
                   else {| px_success := false; px_response := resp;
                           px_error := Gateway.err_with (ps_http_status resp) UpstreamError
                             ("Upstream returned " +:+ to_string (ps_http_status resp)) |})
          end
      end
  end.

(** Where a request is forwarded to: a handler's upstream or a connector. *)
Definition legacy_connector (req : ProxyRequest) : option Provider :=
  match (if str_empty (pr_model req) then None else findByModel (pr_model req) (px_connectors cfg)) with
  | Some c => Some c
  | None => first_supporting (pr_endpoint req) (px_connectors cfg)
  end.

Definition forward (start : Z) (tenant : string) (handler : option ModalityHandler)
    (req : ProxyRequest) : px ProxyResult :=
  match handler with
  | Some h =>
      upstream_start ← call Steady;
      answer ← handle h req;
      finish start upstream_start tenant req answer
  | None =>
      match legacy_connector req with
      | None => deny (Gateway.err_of 404 UnsupportedEndpoint)
      | Some c =>
          if negb (provider_supports (pr_endpoint req) c) then
            deny (Gateway.err_with 404 UnsupportedEndpoint
              ("Endpoint " +:+ pr_endpoint req +:+ " not supported by provider " +:+ pv_name c))
          else
            upstream_start ← call Steady;
            answer ← call (Forward c req);
            finish start upstream_start tenant req answer
      end
  end.

Definition select (req : ProxyRequest) : px (RateLimiter.Modality * option ModalityHandler) :=
  match px_router cfg with
  | None => Ret (RateLimiter.Unknown, None)
  | Some r =>
      let m := RateLimiter.modalityFromEndpoint (pr_endpoint req) in
      if decide (m ≠ RateLimiter.Unknown ∧ (0 < handlerCount m r)%nat)
      then h ← selectHandler r m req; Ret (m, h)
      else Ret (m, None)
  end.

(** [enforceModalityQuota] on the configured quotas. *)
Definition quota_applies (m : RateLimiter.Modality) : bool :=
  match px_quotas cfg with
  | None => false
  | Some l => bool_decide (m ≠ RateLimiter.Unknown) && bool_decide (m ∈ l)
  end.

Definition dispatch (start : Z) (key tenant : string) (req : ProxyRequest) : px ProxyResult :=
  '(m, handler) ← select req;
  allowed ← (if quota_applies m then call (AllowModality m key) else Ret true);
  if (allowed : bool) then forward start tenant handler req
  else
    call (Inc "modalityRateLimitedTotal" [("modality", RateLimiter.modalityToString m)]);;
    deny (RateLimiter.quota_error m key).

Definition extractAbuseTextFromRaw (raw : string) (max_bytes : nat) : string :=
  String.substring 0 (String.length raw `min` max_bytes) raw.

(** The request from the abuse detector on. *)
Definition limited (start : Z) (tenant : string) (req : ProxyRequest) (api_key : string) :
    px ProxyResult :=
  action ← match px_abuse cfg with
           | None => Ret (Some AbuseDetector.Allow)
           | Some (_, max_bytes) =>
               a ← call (ObserveKey api_key (extractAbuseTextFromRaw (pr_raw_body req) max_bytes));
               Ret (match a with AbuseDetector.Block => None | a => Some a end)
           end;
  match action with
  | None => deny (Gateway.err_of 429 AbuseDetected)
  | Some action =>
      let multiplier := match px_abuse cfg with
                        | None => 1%float
                        | Some (factor, _) => Gateway.abuseCostMultiplier factor action
                        end in
      let rl_key := if str_empty api_key then "anonymous" else api_key in
      allowed ← call (Allow rl_key multiplier);
      if (allowed : bool) then dispatch start rl_key tenant req
      else
        call (Inc "rateLimitedTotal" []);;
        call (Inc "requestsTotal" (Gateway.model_status (proxy_label req) "rate_limited"));;
        deny (Gateway.err_of 429 RateLimitExceeded)
  end.

Definition processProxyRequest (req : ProxyRequest) (api_key : string) : px ProxyResult :=
  call (Connections true);;
  start ← call Steady;
  auth_ctx ← (if px_auth_service cfg then call (ResolveKey api_key) else Ret None);
  match auth_ctx with
  | Some a => limited start (c_tenant_id a) req api_key
  | None =>
      if px_auth_service cfg && px_rbac cfg then deny (Gateway.err_of 401 InvalidApiKey)
      else limited start "" req api_key
  end.

End proxy.

(** ** What a proxied request does *)

Notation PxEvent := (Event PxCmd).

Definition gauge (ev : PxEvent) : Z :=
  let 'Ev e _ := ev in match e with Connections true => 1 | Connections false => -1 | _ => 0 end.
Definition connections (tr : list PxEvent) : Z := foldr (λ ev n, gauge ev + n) 0 tr.

Definition forwarded (ev : PxEvent) : option (Provider * ProxyRequest) :=
  let 'Ev e _ := ev in match e with Forward c req => Some (c, req) | _ => None end.

(** A record that the ledger took. *)
Definition bill (ev : PxEvent) : option CostTracker.CostRecord :=
  let 'Ev e b := ev in
  match e in PxCmd B return B → option CostTracker.CostRecord with
  | Bill r => λ thrown, match thrown with None => Some r | Some _ => None end
  | _ => λ _, None
  end b.

(** An exception of the audit log or of the ledger, behind the release of the
    connection. *)
Definition late (ev : PxEvent) : option Exception :=
  let 'Ev e b := ev in
  match e in PxCmd B return B → option Exception with
  | AuditForward _ _ => λ thrown, thrown
  | Bill _ => λ thrown, thrown
  | _ => λ _, None
  end b.

Lemma gauge_app tr1 tr2 : connections (tr1 ++ tr2) = connections tr1 + connections tr2.
Proof. induction tr1 as [|ev tr1 IH]; simpl; [done|]. rw IH. lia. Qed.

Lemma gauge_cons ev tr : connections (ev :: tr) = gauge ev + connections tr.
Proof. done. Qed.

Section facts.
Context (parse : string → option json) (cfg : PxConfig).

(** The answer to the client, by the answer of the provider and a late
    exception. *)
Definition reply (answer : Exception + ProxyResponse) (thrown : option Exception) : ProxyResult :=
  match answer, thrown with
  | inl e, _ | inr _, Some e => failure (upstream_error e)
  | inr resp, None =>
      if decide (200 <= ps_http_status resp < 300)
      then {| px_success := true; px_response := resp; px_error := Gateway.no_error |}
      else {| px_success := false; px_response := resp;
              px_error := Gateway.err_with (ps_http_status resp) UpstreamError
                ("Upstream returned " +:+ to_string (ps_http_status resp)) |}
  end.

(** The ledger gets one record of the provider's answer, for the tenant, when
    that was a success and nothing was thrown; else none. *)
Definition billed (start : Z) (tenant : string) (req : ProxyRequest) (answer : Exception + ProxyResponse)
    (h : list PxEvent) : Prop :=
  match px_tracker cfg, answer, omap late h with
  | Some t, inr resp, [] =>
      if decide (200 <= ps_http_status resp < 300)
      then ∃ clock, Ev System clock ∈ h ∧
             omap bill h = [CostTracker.buildProxyCostRecord parse t (pr_endpoint req) (pr_model req) tenant
                              ("proxy-" +:+ to_string start) (IsoTime.iso clock) resp]
      else omap bill h = []
  | _, _, _ => omap bill h = []
  end.

(** The connection is released once, and once more for a late exception. *)
Definition released (tr : list PxEvent) : Prop := connections tr = -1 - Z.of_nat (length (omap late tr)).

Definition quiet (tr : list PxEvent) : Prop :=
  connections tr = 0 ∧ omap forwarded tr = [] ∧ omap bill tr = [] ∧ omap late tr = [].

Lemma quiet_app tr1 tr2 : quiet tr1 → quiet tr2 → quiet (tr1 ++ tr2).
Proof. intros (H1 & H2 & H3 & H4) (H5 & H6 & H7 & H8). unfold quiet. by rw gauge_app !omap_app H1 H2 H3 H4. Qed.

Lemma trace_refuse err tr r :
  trace (deny err) tr r → released tr ∧ omap forwarded tr = [] ∧ omap bill tr = [] ∧ px_success r = false.
Proof. intros H. unfold deny in H. trace_next H. by destruct H as [-> ->]. Qed.

Lemma trace_caught upstream_start req e tr r :
  trace (caught upstream_start req e) tr r →
  connections tr = -1 ∧ omap forwarded tr = [] ∧ omap bill tr = [] ∧ omap late tr = [] ∧
  r = failure (upstream_error e).
Proof. intros H. unfold caught in H. do 4 trace_next H. by destruct H as [-> ->]. Qed.

Lemma status_ok_spec status : status_ok status = bool_decide (200 <= status < 300).
Proof. unfold status_ok. case_bool_decide; lia. Qed.

(** The release of the connection, and what may be thrown behind it. *)
Lemma trace_finish start upstream_start tenant req answer tr r :
  trace (finish parse cfg start upstream_start tenant req answer) tr r →
  released tr ∧ omap forwarded tr = [] ∧ r = reply answer (head (omap late tr)) ∧
  billed start tenant req answer tr.
Proof.
  unfold finish, released, billed. intros H. destruct answer as [e|resp].
  { apply trace_caught in H as (Hc & Hf & Hb & Hl & ->). rw Hl Hb Hf Hc. by destruct (px_tracker cfg). }
  do 6 trace_next H. apply trace_bind in H as (tr1 & tr2 & thrown & -> & Ha & H).
  assert (connections tr1 = 0 ∧ omap forwarded tr1 = [] ∧ omap bill tr1 = [] ∧ omap late tr1 = option_list thrown)
    as (Hc1 & Hf1 & Hb1 & Hl1).
  { destruct (px_audit cfg); [|by destruct Ha as [-> ->]]. trace_next Ha. by destruct thrown. }
  destruct thrown as [e|].
  { apply trace_caught in H as (Hc & Hf & Hb & Hl & ->).
    rw !gauge_cons gauge_app. cbn [omap list_omap forwarded bill late]. rw !omap_app Hc1 Hc Hf1 Hf Hb1 Hb Hl1 Hl.
    by destruct (px_tracker cfg). }
  apply trace_bind in H as (tr3 & tr4 & thrown & -> & Hb & H).
  assert (connections tr3 = 0 ∧ omap forwarded tr3 = [] ∧ omap late tr3 = option_list thrown ∧
    match px_tracker cfg, thrown with
    | Some t, None => if decide (200 <= ps_http_status resp < 300)
        then ∃ clock, Ev System clock ∈ tr3 ∧
             omap bill tr3 = [CostTracker.buildProxyCostRecord parse t (pr_endpoint req) (pr_model req) tenant
                              ("proxy-" +:+ to_string start) (IsoTime.iso clock) resp]
        else omap bill tr3 = []
    | _, _ => omap bill tr3 = []
    end) as (Hc3 & Hf3 & Hl3 & Hb3).
  { rw status_ok_spec in Hb. destruct (px_tracker cfg); [|by destruct Hb as [-> ->]].
    case_bool_decide; [rw decide_True //|rw decide_False //; by destruct Hb as [-> ->]].
    trace_next Hb. trace_next Hb. destruct thrown; [done|]. split_and!; [done..|].
    eexists. split; [by left|done]. }
  destruct thrown as [e|].
  { apply trace_caught in H as (Hc & Hf & Hb4 & Hl & ->).
    rw !gauge_cons !gauge_app. cbn [omap list_omap forwarded bill late].
    rw !omap_app Hc1 Hc3 Hc Hf1 Hf3 Hf Hb1 Hb4 Hl1 Hl3 Hl.
    destruct (px_tracker cfg); by rw Hb3. }
  destruct H as [-> ->]. rw app_nil_r !gauge_cons gauge_app. cbn [omap list_omap forwarded bill late].
  rw !omap_app Hc1 Hc3 Hf1 Hf3 Hl1 Hl3 Hb1. split_and!; [done|done| |].
  - rw status_ok_spec. unfold reply. cbn. case_bool_decide; by case_decide.
  - cbn. destruct (px_tracker cfg); [|done]. case_decide; [|done]. destruct Hb3 as (clock & Hin & Hb3).
    exists clock. split; [|done]. do 6 right. apply elem_of_app. by right.
Qed.

(** The parts of a request, from one on to the end: nothing is forwarded, and
    the client gets an error; or one request is, after the events [P] speaks
    of, and the answer and the bill follow from the provider's answer. *)
Definition proxied (P : list PxEvent → Provider → Prop) (start : Z) (tenant : string) (req : ProxyRequest)
    (tr : list PxEvent) (r : ProxyResult) : Prop :=
  released tr ∧
  (omap forwarded tr = [] ∧ omap bill tr = [] ∧ px_success r = false ∨
   ∃ pre c answer post, tr = pre ++ Ev (Forward c req) answer :: post ∧
     omap forwarded pre = [] ∧ omap bill pre = [] ∧ omap forwarded post = [] ∧ P pre c ∧
     r = reply answer (head (omap late post)) ∧ billed start tenant req answer post).

Lemma proxied_after (P Q : list PxEvent → Provider → Prop) start tenant req pre tr r :
  quiet pre → (∀ pre' c, P pre' c → Q (pre ++ pre') c) →
  proxied P start tenant req tr r → proxied Q start tenant req (pre ++ tr) r.
Proof.
  intros (Hc & Hf & Hb & Hl) HPQ [H1 H2]. unfold proxied, released in *. rw gauge_app !omap_app Hc Hb Hf Hl H1.
  split; [done|]. destruct H2 as [H2|(pre' & c & a & post & -> & Hf' & Hb' & Hfp & HP & Hr & Hbl)]; [by left|right].
  exists (pre ++ pre'), c, a, post. rw !omap_app Hf Hb Hf' Hb' (assoc_L (++)). split_and!; auto.
Qed.

Lemma proxied_denied P start tenant req err tr r : trace (deny err) tr r → proxied P start tenant req tr r.
Proof. intros (Hc & Hf & Hb & Hr)%trace_refuse. split; [done|by left]. Qed.

(** The request goes to a handler of its modality or to a connector that
    supports the endpoint. *)
Definition chosen (handler : option ModalityHandler) (req : ProxyRequest) (c : Provider) : Prop :=
  match handler with
  | Some h => mh_connector h = Some c
  | None => legacy_connector cfg req = Some c ∧ c ∈ px_connectors cfg ∧
      provider_supports (pr_endpoint req) c = true
  end.

Lemma legacy_connector_registered req c : legacy_connector cfg req = Some c → c ∈ px_connectors cfg.
Proof.
  assert (∀ (P : Provider → Prop) `{!∀ c, Decision (P c)} l,
    snd <$> list_find P l = Some c → c ∈ l) as Hfind.
  { intros P ? l ([i c'] & (Hl & _)%list_find_Some & ->)%fmap_Some. by eapply list_elem_of_lookup_2. }
  unfold legacy_connector, findByModel, first_supporting.
  destruct (if str_empty _ then _ else _) as [c'|] eqn:Hc; [|by apply Hfind].
  intros [= ->]. destruct (str_empty _); [done|]. by apply Hfind in Hc.
Qed.

Lemma trace_forward start tenant handler req tr r :
  trace (forward parse cfg start tenant handler req) tr r →
  proxied (λ _ c, chosen handler req c) start tenant req tr r.
Proof.
  unfold forward. intros H.
  assert (∀ c start' tr, chosen handler req c →
    trace (answer ← call (Forward c req); finish parse cfg start start' tenant req answer) tr r →
    proxied (λ _ c, chosen handler req c) start tenant req tr r) as Hgo.
  { intros c start' tr' Hc Ht. trace_next Ht. apply trace_finish in Ht as (H1 & H2 & H3 & H4).
    split; [exact H1|]. right. by exists [], c, x, x0. }
  destruct handler as [h|].
  - trace_next H. apply (proxied_after (λ _ c, chosen (Some h) req c) _ _ _ _ [Ev Steady x]); [done..|].
    unfold handle in H. destruct (mh_connector h) as [c|] eqn:Hh; [by eapply Hgo|].
    apply trace_bind in H as (tr1 & tr2 & answer & -> & [-> ->] & H). rw app_nil_l.
    apply trace_finish in H as (H1 & H2 & -> & H4). split; [done|left]. split_and!; [done| |].
    + unfold billed in H4. by destruct (px_tracker cfg), (omap late tr2).
    + by destruct (omap late tr2).
  - destruct (legacy_connector cfg req) as [c|] eqn:Hl; [|by eapply proxied_denied].
    destruct (provider_supports (pr_endpoint req) c) eqn:Hs; cbn [negb] in H;
      [|by eapply proxied_denied].
    trace_next H.
    apply (proxied_after (λ _ c, chosen None req c) _ _ _ _ [Ev Steady x]); [done..|].
    eapply Hgo; [|done]. split_and!; [done| |done]. by apply legacy_connector_registered in Hl.
Qed.

(** The provider a request may go to. *)
Definition eligible (req : ProxyRequest) (c : Provider) : Prop :=
  (∃ router h, px_router cfg = Some router ∧ mh_connector h = Some c ∧
     h ∈ default [] (handlers router !! RateLimiter.modalityFromEndpoint (pr_endpoint req))) ∨
  legacy_connector cfg req = Some c ∧ c ∈ px_connectors cfg ∧
  provider_supports (pr_endpoint req) c = true.

(** The modality that is metered: none without a router. *)
Definition metered (req : ProxyRequest) : RateLimiter.Modality :=
  match px_router cfg with
  | Some _ => RateLimiter.modalityFromEndpoint (pr_endpoint req)
  | None => RateLimiter.Unknown
  end.

Lemma cheapest_elem req best cost l : cheapest req best cost l = best ∨ cheapest req best cost l ∈ l.
Proof.
  revert best cost. induction l as [|h l IH]; intros best cost; simpl; [by left|].
  destruct (_ <? _)%float; [destruct (IH h (estimateCost h req)) as [->|?]|destruct (IH best cost) as [->|?]];
    set_solver.
Qed.

Lemma trace_select req tr m handler :
  trace (select cfg req) tr (m, handler) →
  m = metered req ∧ quiet tr ∧
  ∀ c, chosen handler req c → eligible req c.
Proof.
  unfold select, metered, eligible. destruct (px_router cfg) as [router|]; intros H.
  2: { destruct H as [-> [= -> ->]]. split_and!; try done. intros c Hc. by right. }
  case_decide; [|destruct H as [-> [= -> ->]]; split_and!; try done; intros c Hc; by right].
  apply trace_bind in H as (tr1 & tr2 & h & -> & Hh & [-> [= -> ->]]). rw app_nil_r.
  unfold selectHandler in Hh. set (m := RateLimiter.modalityFromEndpoint _) in *.
  set (hs := default [] (handlers router !! m)) in *.
  assert (quiet tr1 ∧ ∀ h', h = Some h' → h' ∈ hs) as (H1 & H2).
  { destruct hs as [|h1 [|h2 l]]; [by destruct Hh as [-> ->]|..].
    - destruct Hh as [-> ->]. split_and!; try done. intros ? [= <-]. by left.
    - destruct (default Cheapest (policies router !! m)).
      + destruct Hh as [-> Hh]. split_and!; try done. intros h' ->.
        assert (h' = cheapest req h1 (estimateCost h1 req) (h2 :: l)) as -> by congruence.
        destruct (cheapest_elem req h1 (estimateCost h1 req) (h2 :: l)) as [->|?]; [by left|by right].
      + trace_next Hh. destruct Hh as [-> ->]. split_and!; try done. intros h' Hh.
        by eapply list_elem_of_lookup_2.
      + destruct Hh as [-> ->]. split_and!; try done. intros ? [= <-]. by left. }
  split_and!; try done. intros c Hc. destruct h as [h|]; [left|by right]. exists router, h. by eauto.
Qed.


Definition limit_key (api_key : string) : string :=
  if str_empty api_key then "anonymous" else api_key.

(** The quota of the request's modality accepted it. *)
Definition within_quota (key : string) (req : ProxyRequest) (h : list PxEvent) : Prop :=
  quota_applies cfg (metered req) = true → Ev (AllowModality (metered req) key) true ∈ h.

Lemma trace_dispatch start key tenant req tr r :
  trace (dispatch parse cfg start key tenant req) tr r →
  proxied (λ h c, eligible req c ∧ within_quota key req h) start tenant req tr r.
Proof.
  unfold dispatch. intros H.
  apply trace_bind in H as (tr1 & tr2 & [m handler] & -> & (-> & Hquiet & Hch)%trace_select & H).
  apply trace_bind in H as (tr3 & tr4 & allowed & -> & Hq & H).
  assert (quiet tr3 ∧ (allowed = true → within_quota key req tr3)) as (Hquiet3 & Hw).
  { unfold within_quota. destruct (quota_applies cfg (metered req)).
    - trace_next Hq. split; [done|]. intros -> _. by left.
    - by destruct Hq as [-> ->]. }
  rw (assoc_L (++)). destruct allowed.
  - apply trace_forward in H. eapply proxied_after; [by apply quiet_app| |exact H].
    intros pre c Hcc. split; [by apply Hch|].
    intros Hqa. apply elem_of_app. left. apply elem_of_app. right. by apply Hw.
  - trace_next H. eapply (proxied_after (λ _ _, False)); [by apply quiet_app|done|].
    eapply (proxied_after (λ _ _, False) _ _ _ _ [_]); [done..|]. by eapply proxied_denied.
Qed.

(** The abuse detector did not block and the limiter accepted the cost. *)
Definition paced (api_key : string) (req : ProxyRequest) (h : list PxEvent) : Prop :=
  match px_abuse cfg with
  | None => Ev (Allow (limit_key api_key) 1%float) true ∈ h
  | Some (factor, max_bytes) =>
      ∃ action, action ≠ AbuseDetector.Block ∧
        Ev (ObserveKey api_key (extractAbuseTextFromRaw (pr_raw_body req) max_bytes)) action ∈ h ∧
        Ev (Allow (limit_key api_key) (Gateway.abuseCostMultiplier factor action)) true ∈ h
  end.


Definition admitted (api_key : string) (req : ProxyRequest) (h : list PxEvent) (c : Provider) : Prop :=
  paced api_key req h ∧ within_quota (limit_key api_key) req h ∧ eligible req c.

Lemma trace_limited start tenant req api_key tr r :
  trace (limited parse cfg start tenant req api_key) tr r →
  proxied (admitted api_key req) start tenant req tr r.
Proof.
  unfold limited. intros H. apply trace_bind in H as (tr1 & tr2 & action & -> & Ha & H).
  assert (quiet tr1) as Hq.
  { destruct (px_abuse cfg) as [[factor n]|]; [trace_next Ha|]; by destruct Ha as [-> ->]. }
  destruct action as [action|].
  2: { eapply (proxied_after (λ _ _, False)); [done..|]. by eapply proxied_denied. }
  trace_next H. change (if str_empty api_key then "anonymous" else api_key) with (limit_key api_key) in *.
  set (multiplier := match px_abuse cfg with
                     | None => 1%float
                     | Some (factor, _) => Gateway.abuseCostMultiplier factor action
                     end) in *.
  set (ev := Ev (Allow (limit_key api_key) multiplier) x).
  change (tr1 ++ ev :: x0) with (tr1 ++ [ev] ++ x0). rw (assoc_L (++)).
  assert (quiet (tr1 ++ [ev])) as Hq' by by apply quiet_app.
  destruct x.
  - apply trace_dispatch in H. eapply proxied_after; [done..| |exact H].
    intros pre c [He Hw]. unfold admitted. split_and!; [|intros Hqa; by apply elem_of_app; right; apply Hw|done].
    unfold paced, ev, multiplier. destruct (px_abuse cfg) as [[factor n]|].
    + trace_next Ha. destruct Ha as [-> Ha]. exists action. destruct x; simplify_eq Ha; set_solver.
    + set_solver.
  - do 2 trace_next H. eapply (proxied_after (λ _ _, False)); [done..|].
    apply (proxied_after (λ _ _, False) _ _ _ _ [_; _]); [done..|]. by eapply proxied_denied.
Qed.

End facts.

Section properties.
Context (parse : string → option json) (cfg : PxConfig).

(** The key was resolved, successfully if RBAC is on. *)
Definition resolved (api_key : string) (tenant : string) (h : list PxEvent) : Prop :=
  if px_auth_service cfg then
    ∃ a, Ev (ResolveKey api_key) a ∈ h ∧ (px_rbac cfg = true → is_Some a) ∧
      tenant = from_option c_tenant_id "" a
  else tenant = "".

(** What a request does that goes past the key. *)
Definition outcome (start : Z) (tenant api_key : string) (req : ProxyRequest) (tr : list PxEvent)
    (r : ProxyResult) : Prop :=
  omap forwarded tr = [] ∧ omap bill tr = [] ∧ px_success r = false ∨
  ∃ pre c answer post,
    tr = pre ++ Ev (Forward c req) answer :: post ∧
    omap forwarded pre = [] ∧ omap bill pre = [] ∧ omap forwarded post = [] ∧
    resolved api_key tenant pre ∧ admitted cfg api_key req pre c ∧
    r = reply answer (head (omap late post)) ∧ billed parse cfg start tenant req answer post.

Lemma trace_proxy req api_key tr r :
  trace (processProxyRequest parse cfg req api_key) tr r →
  connections tr = - Z.of_nat (length (omap late tr)) ∧
  ∃ start tenant, Ev Steady start ∈ tr ∧ outcome start tenant api_key req tr r.
Proof.
  unfold processProxyRequest. intros H.
  apply trace_call_bind in H as (up & tr0 & -> & H). apply trace_call_bind in H as (start & tr' & -> & H).
  apply trace_bind in H as (tr1 & tr2 & a & -> & Ha & H).
  assert (quiet tr1 ∧ if px_auth_service cfg then tr1 = [Ev (ResolveKey api_key) a] else a = None)
    as ((Hc & Hf & Hb & Hlate) & Hr).
  { destruct (px_auth_service cfg); [by trace_next Ha|by destruct Ha as [-> ->]]. }
  set (pre := Ev (Connections true) up :: Ev Steady start :: tr1).
  change (Ev (Connections true) up :: Ev Steady start :: tr1 ++ tr2) with (pre ++ tr2).
  assert (omap forwarded pre = [] ∧ omap bill pre = [] ∧ omap late pre = []) as (Hfp & Hbp & Hlp) by done.
  assert (∀ tenant P, proxied parse cfg P start tenant req tr2 r →
    (∀ h c, P h c → resolved api_key tenant (pre ++ h) ∧ admitted cfg api_key req (pre ++ h) c) →
    connections (pre ++ tr2) = - Z.of_nat (length (omap late (pre ++ tr2))) ∧
    ∃ start tenant, Ev Steady start ∈ pre ++ tr2 ∧ outcome start tenant api_key req (pre ++ tr2) r) as Hgo.
  { intros tenant P (H1 & H2) HP. unfold released in H1. rw gauge_app !gauge_cons Hc H1 omap_app Hlp.
    split; [cbn; lia|]. exists start, tenant. split; [apply elem_of_app; left; by right; left|].
    destruct H2 as [(H2 & H3 & H4)|(pre' & c & an & post & -> & Hf' & Hb' & Hpost & Hp & Hres & Hbl)]; [left|right].
    - by rw !omap_app Hbp Hfp H2 H3.
    - exists (pre ++ pre'), c, an, post. rw !omap_app Hfp Hbp Hf' Hb' (assoc_L (++)).
      destruct (HP _ _ Hp). by split_and!. }
  assert (∀ tenant, trace (limited parse cfg start tenant req api_key) tr2 r →
    (∀ h, resolved api_key tenant (pre ++ h)) →
    connections (pre ++ tr2) = - Z.of_nat (length (omap late (pre ++ tr2))) ∧
    ∃ start tenant, Ev Steady start ∈ pre ++ tr2 ∧ outcome start tenant api_key req (pre ++ tr2) r) as Hlim.
  { intros tenant Hl Hres. eapply Hgo; [by eapply trace_limited|].
    intros h c (Hp & Hq & He). split; [done|]. split_and!; [|intros ?; set_solver|done].
    unfold paced in *. destruct (px_abuse cfg) as [[f n]|]; set_solver. }
  unfold resolved in Hlim, Hgo. destruct a as [a|].
  - eapply Hlim; [done|]. intros h. destruct (px_auth_service cfg); [|done]. subst tr1.
    exists (Some a). unfold pre. split_and!; [set_solver|done|done].
  - destruct (px_auth_service cfg) eqn:Hs; cbn [andb] in H; [destruct (px_rbac cfg) eqn:Hb'|].
    + eapply (Hgo "" (λ _ _, False)); [by eapply proxied_denied|done].
    + eapply Hlim; [done|]. intros h. subst tr1. exists None. unfold pre. split_and!; [set_solver|done|done].
    + eapply Hlim; [done|]. done.
Qed.

(** C3. A proxied request that is not forwarded to a provider gets an error and
    is not billed.  One that is forwarded is so once, after its key was
    resolved (successfully when RBAC is on), the abuse detector, if there is
    one, did not block it, the rate limiter accepted its cost under the
    caller's key, and the quota of its modality, if there is a router and the
    quota is configured, accepted it; the provider is a handler of the modality
    or the connector of the legacy look-up, which supports the endpoint.  Then
    the answer is the provider's: its response, as a success exactly for a
    status from 200 to 299; or the error 502, for an exception of the provider,
    of the audit log or of the ledger.  With a cost tracker, the ledger takes
    one record, of that response for the caller's tenant, when the status is
    from 200 to 299 and nothing was thrown, and none otherwise.  The gauge of
    active connections is back where it was, less one for an exception of the
    audit log or of the ledger: the [catch] block decrements it again. *)
Theorem proxy_gated req api_key tr r :
  trace (processProxyRequest parse cfg req api_key) tr r →
  connections tr = - Z.of_nat (length (omap late tr)) ∧
  ∃ start tenant, Ev Steady start ∈ tr ∧ outcome start tenant api_key req tr r.
Proof. apply trace_proxy. Qed.

End properties.


(** Without a router no modality is metered, whatever quotas are set. *)
Lemma quota_needs_router cfg req :
  px_router cfg = None → quota_applies cfg (metered cfg req) = false.
Proof. intros Hr. unfold metered, quota_applies. rw Hr. by destruct (px_quotas cfg). Qed.

(** ** A request *)

Definition toy_openai : Provider :=
  {| pv_name := "openai"; pv_models := ["text-embedding-3"]; pv_openai := true |}.

Definition toy_px : PxConfig :=
  {| px_auth_service := true; px_rbac := true; px_abuse := Some (0.5%float, 8%nat);
     px_router := Some (registerHandler {| mh_modality := RateLimiter.Embedding; mh_rate := 0.1;
                                           mh_connector := Some toy_openai |}
                          {| handlers := ∅; policies := ∅ |});
     px_quotas := Some [RateLimiter.Embedding]; px_connectors := [toy_openai]; px_audit := true;
     px_tracker := Some CostTracker.toy_tracker |}.

Definition toy_proxy_request : ProxyRequest :=
  {| pr_endpoint := "/v1/embeddings"; pr_model := "text-embedding-3"; pr_raw_body := "{input}";
     pr_content_type := "application/json" |}.

Definition toy_auth : AuthContext :=
  {| c_tenant_id := "acme"; c_user_id := "u"; c_api_key_id := "k"; c_role := Viewer;
     c_is_rbac_enabled := true; c_session_id := ""; c_auth_method := "api_key";
     c_mfa_verified := false; c_external_subject := "" |}.

Definition toy_exec (B : Type) (e : PxCmd B) (w : unit) : B * unit :=
  match e in PxCmd B return B * unit with
  | Connections _ => (tt, w)
  | Inc _ _ => (tt, w)
  | Observe _ _ => (tt, w)
  | Steady => (0, w)
  | System => (0, w)
  | RobinCounter => (0, w)
  | ResolveKey _ => (Some toy_auth, w)
  | ObserveKey _ _ => (AbuseDetector.Throttle, w)
  | Allow _ _ => (true, w)
  | AllowModality _ _ => (true, w)
  | Forward _ _ => (inr {| ps_http_status := 200; ps_body := "{}"; ps_content_type := "application/json" |}, w)
  | AuditForward _ _ => (None, w)
  | Bill _ => (None, w)
  end.

Definition toy_proxied : prog PxCmd ProxyResult :=
  processProxyRequest (λ _, None) toy_px toy_proxy_request "sk-1".

Lemma toy_forwarded :
  omap forwarded (recorded toy_exec toy_proxied tt) = [(toy_openai, toy_proxy_request)].
Proof. vm_compute. reflexivity. Qed.

Lemma proxy_gated_witness :
  connections (recorded toy_exec toy_proxied tt) = 0 ∧
  ∃ pre answer post,
    recorded toy_exec toy_proxied tt = pre ++ Ev (Forward toy_openai toy_proxy_request) answer :: post ∧
    paced toy_px "sk-1" toy_proxy_request pre ∧ Ev (AllowModality RateLimiter.Embedding "sk-1") true ∈ pre ∧
    (run toy_exec toy_proxied tt).1 = reply answer (head (omap late post)).
Proof.
  destruct (proxy_gated (λ _, None) toy_px toy_proxy_request "sk-1" (recorded toy_exec toy_proxied tt)
    (run toy_exec toy_proxied tt).1) as [Hc (start & tenant & _ & [(Hf & _)|Hf])].
  - apply recorded_trace.
  - by rw toy_forwarded in Hf.
  - destruct Hf as (pre & c & a & post & Htr & Hpre & _ & _ & _ & (Hp & Hq & _) & Hr & _).
    assert (c = toy_openai) as ->.
    { pose proof toy_forwarded as H. rw Htr omap_app Hpre in H. cbn in H. congruence. }
    split; [by vm_compute|]. exists pre, a, post. split_and!; [done|done| |done]. apply Hq. by vm_compute.
Defined.

End Proxy.
