(* ===== verification/Orchestrator.v ===== *)
(** * Orchestrator: the agent loop and its endpoint

    Models [src/src/agent/orchestrator.cpp]: the system prompt, the recovery of
    a tool call from a model's answer and the loop that alternates model and
    tool calls.  The model, the sandbox and the clock are calls of the loop;
    [None] as the result is an exception that leaves it.  The time stamps of
    the steps are not kept. *)
From Corelib Require Import PrimFloat.
From S2P Require Import Prelude.
From S2P Require Import Prog.
From S2P Require Import Trace.
From S2P Require Import Json.
From S2P Require Import ErrorCodes.
From S2P Require Import ToolSandbox.
From S2P Require Import ChatTypes.
Import ErrorCodes Json ToolSandbox ChatTypes.
Local Open Scope Z_scope.

Module Orchestrator.

Inductive OrchCmd : Type → Type :=
| Now : OrchCmd Z
| CountStep : OrchCmd unit
| AskModel (req : ChatRequest) : OrchCmd (Exception + ChatResponse)
| RunTool (tool_id : string) (arguments : json) : OrchCmd (option ToolExecutionResult).

Record OrchestrationConfig := {
  max_steps : Z;
  max_total_timeout_ms : Z;
}.

Record OrchestrationStep := {
  step_number : Z;
  thought : string;
  os_tool_id : string;
  tool_arguments : json;
  tool_result : option ToolExecutionResult;
}.

Record OrchestrationResult := {
  run_success : bool;
  final_answer : string;
  steps : list OrchestrationStep;
  total_steps : Z;
  total_duration_ms : float;
  run_error : string;
}.
#[global] Instance result_settable : Settable OrchestrationResult := λ r,
  {| run_success := run_success r; final_answer := final_answer r; steps := steps r;
     total_steps := total_steps r; total_duration_ms := total_duration_ms r;
     run_error := run_error r |}.
#[global] Instance step_settable : Settable OrchestrationStep := λ s,
  {| step_number := step_number s; thought := thought s; os_tool_id := os_tool_id s;
     tool_arguments := tool_arguments s; tool_result := tool_result s |}.

Definition no_result : OrchestrationResult :=
  {| run_success := false; final_answer := ""; steps := []; total_steps := 0;
     total_duration_ms := 0%float; run_error := "" |}.

Definition quote : string := String "034"%char "".

(** ** Tool calls in a model's answer *)

(** The scan from an opening brace: the length of the shortest prefix in which
    the braces outside string literals are balanced. *)
Fixpoint scan (s : string) (depth : Z) (in_str escaped : bool) : option nat :=
  match s with
  | EmptyString => None
  | String c s =>
      if in_str then
        S <$> (if escaped then scan s depth true false
               else if decide (c = "\"%char) then scan s depth true true
               else if decide (c = "034"%char) then scan s depth false false
               else scan s depth true false)
      else if decide (c = "034"%char) then S <$> scan s depth true escaped
      else if decide (c = "{"%char) then S <$> scan s (depth + 1) false escaped
      else if decide (c = "}"%char) then
        if depth - 1 =? 0 then Some 1%nat else S <$> scan s (depth - 1) false escaped
      else S <$> scan s depth false escaped
  end.

Definition as_tool_call (parsed : json) : option (string * json) :=
  match json_member "tool" parsed, json_member "arguments" parsed with
  | Some (JString tool_id), Some arguments => Some (tool_id, arguments)
  | _, _ => None
  end.

Definition parseToolCall (parse : string → option json) (llm_output : string) :
    option (string * json) :=
  begin ← str_find "{"%char 0 llm_output;
  let rest := substr_from begin llm_output in
  len ← scan rest 0 false false;
  parsed ← parse (String.substring 0 len rest);
  as_tool_call parsed.

(** ** The loop *)

Section orchestrator.
Context `{UnorderedIter} (dump : json → string) (parse : string → option json).
Context (config : OrchestrationConfig) (reg : option Registry) (sandbox llm_fn : bool).
Notation orch := (prog OrchCmd).

Definition buildSystemPrompt : string :=
  "You are a ReAct agent. On each turn either call a tool or give a final answer." +:+ newline +:+
  "To call a tool, respond with a single JSON object on its own line:" +:+ newline +:+
  "{" +:+ quote +:+ "tool" +:+ quote +:+ ": " +:+ quote +:+ "<tool_id>" +:+ quote +:+ ", " +:+
  quote +:+ "arguments" +:+ quote +:+ ": { ... }}" +:+ newline +:+
  "To finish, respond with plain text beginning with " +:+ quote +:+ "Final Answer:" +:+ quote +:+
  "." +:+ newline +:+
  "Only use tools from the list below. Do not invent tools." +:+ newline +:+
  match reg with
  | None => ""
  | Some r =>
      match listTools [] r with
      | [] => ""
      | tools =>
          newline +:+ "Available tools:" +:+ newline +:+
          foldr (λ t acc, (if enabled t
                           then "- " +:+ td_id t +:+ ": " +:+ td_description t +:+ " schema=" +:+
                                dump (parameters_schema t) +:+ newline
                           else "") +:+ acc) "" tools
      end
  end.

Definition message (role content : string) : Message :=
  {| m_role := role; m_content := content; m_content_parts := JNull; m_tool_calls := [];
     m_tool_call_id := ""; m_name := "" |}.

Definition request (model : string) (messages : list Message) : ChatRequest :=
  {| cr_model := model; cr_messages := messages; cr_temperature := None; cr_max_tokens := None;
     cr_stream := false; cr_extra := JNull; cr_tools := JNull; cr_tool_choice := JNull;
     cr_metadata := None |}.

Definition add_step (os : OrchestrationStep) (r : OrchestrationResult) : OrchestrationResult :=
  r <| steps := steps r ++ [os] |>.

Definition millis (ns : Z) : float := (int_to_double ns / 1e6)%float.

(** What one step does: ends the loop with a result, or goes on with the
    conversation, the input and the result so far. *)
Inductive Outcome :=
| Stop (r : OrchestrationResult)
| Go (messages : list Message) (input : string) (r : OrchestrationResult).

(** A step after the model's answer [llm_output]. *)
Definition act (os : OrchestrationStep) (messages : list Message) (llm_output input : string)
    (r : OrchestrationResult) : orch (option Outcome) :=
  match parseToolCall parse llm_output with
  | None =>
      Ret (Some (Stop (add_step os r <| run_success := true |> <| final_answer := llm_output |>)))
  | Some (tool_id, arguments) =>
      match (match reg with Some reg => validateCall tool_id arguments reg | None => Some (true, "") end) with
      | None => Ret None
      | Some (false, error) =>
          Ret (Some (Stop (add_step os r <| run_success := false |>
                                         <| run_error := "Rejected tool call: " +:+ error |>)))
      | Some (true, _) =>
          if negb sandbox then
            Ret (Some (Stop (add_step os r <| run_success := false |>
              <| run_error := "Tool call requested but no sandbox configured" |>)))
          else
            exec_result ← call (RunTool tool_id arguments);
            match exec_result with
            | None => Ret None
            | Some exec_result =>
                let output := tr_output exec_result in
                let os := os <| os_tool_id := tool_id |> <| tool_arguments := arguments |>
                             <| tool_result := Some exec_result |> in
                let r := add_step os r <| run_success := true |> <| final_answer := output |> in
                Ret (Some (if llm_fn
                           then Go (messages ++ [message "user" ("Observation: " +:+ output)]) input r
                           else Go messages output r))
            end
      end
  end.

Definition one_step (model : string) (start step : Z) (messages : list Message) (input : string)
    (r : OrchestrationResult) : orch (option Outcome) :=
  now ← call Now;
  if (int_to_double (max_total_timeout_ms config) <=? millis (now - start))%float then
    Ret (Some (Stop (r <| run_error := "Orchestration timeout exceeded" |>)))
  else
    call CountStep;;
    if llm_fn then
      answer ← call (AskModel (request model messages));
      match answer with
      | inl _ => Ret None
      | inr resp =>
          let output := r_content resp in
          act {| step_number := step + 1; thought := output; os_tool_id := "";
                 tool_arguments := JNull; tool_result := None |}
            (messages ++ [message "assistant" output]) output input r
      end
    else
      act {| step_number := step + 1; thought := input; os_tool_id := ""; tool_arguments := JNull;
             tool_result := None |} messages input input r.

(** The [for] loop; [n] steps are left. *)
Fixpoint loop (n : nat) (model : string) (start step : Z) (messages : list Message)
    (input : string) (r : OrchestrationResult) : orch (option OrchestrationResult) :=
  match n with
  | O => Ret (Some r)
  | S n =>
      out ← one_step model start step messages input r;
      match out with
      | None => Ret None
      | Some (Stop r) => Ret (Some r)
      | Some (Go messages input r) => loop n model start (step + 1) messages input r
      end
  end.

Definition run_agent (user_query model : string) : orch (option OrchestrationResult) :=
  start ← call Now;
  let messages := if llm_fn then [message "system" buildSystemPrompt; message "user" user_query]
                  else [] in
  out ← loop (Z.to_nat (max_steps config)) model start 0 messages user_query no_result;
  match out with
  | None => Ret None
  | Some r =>
      let r := if no_elems (steps r) && str_empty (run_error r)
               then r <| run_error := "Max steps reached without resolution" |> else r in
      now ← call Now;
      Ret (Some (r <| total_duration_ms := millis (now - start) |>
                   <| total_steps := Z.of_nat (length (steps r)) |>))
  end.

End orchestrator.

(** ** Finding the call *)

(** The inside of a string literal. *)
Inductive literal : string → Prop :=
| literal_nil : literal ""
| literal_char c s : c ≠ "\"%char → c ≠ "034"%char → literal s → literal (String c s)
| literal_escape c s : literal s → literal (String "\"%char (String c s)).

(** Braces are balanced outside string literals, as in any JSON text. *)
Inductive balanced : string → Prop :=
| balanced_nil : balanced ""
| balanced_char c s :
    c ≠ "034"%char → c ≠ "{"%char → c ≠ "}"%char → balanced s → balanced (String c s)
| balanced_literal l s : literal l → balanced s → balanced (quote +:+ l +:+ quote +:+ s)
| balanced_braces b s : balanced b → balanced s → balanced ("{" +:+ b +:+ "}" +:+ s).

Lemma scan_open s depth : scan ("{" +:+ s) depth false false = S <$> scan s (depth + 1) false false.
Proof. done. Qed.
Lemma scan_quote s depth : scan (quote +:+ s) depth false false = S <$> scan s depth true false.
Proof. done. Qed.
Lemma scan_close s depth :
  scan ("}" +:+ s) depth false false =
  if depth - 1 =? 0 then Some 1%nat else S <$> scan s (depth - 1) false false.
Proof. done. Qed.

Lemma scan_literal l t depth :
  literal l →
  scan (l +:+ quote +:+ t) depth true false =
  (λ n, String.length l + S n)%nat <$> scan t depth false false.
Proof.
  induction 1 as [|c s Hc1 Hc2 _ IH|c s _ IH].
  - change (scan ("" +:+ quote +:+ t) depth true false) with (S <$> scan t depth false false).
    by destruct (scan t depth false false).
  - rw string_cons_app. cbn [scan]. rw !decide_False // IH. by destruct (scan t depth false false).
  - change (scan (String "\"%char (String c s) +:+ quote +:+ t) depth true false)
      with (S <$> (S <$> scan (s +:+ quote +:+ t) depth true false)).
    rw IH. by destruct (scan t depth false false).
Qed.

Lemma scan_balanced b t depth :
  balanced b → 0 < depth →
  scan (b +:+ t) depth false false =
  (λ n, String.length b + n)%nat <$> scan t depth false false.
Proof.
  intros Hb. revert t depth. induction Hb as [|c s Hc1 Hc2 Hc3 _ IH|l s Hl _ IH|b s _ IHb _ IHs];
    intros t depth Hd.
  - change ("" +:+ t) with t. by destruct (scan t depth false false).
  - rw string_cons_app. cbn [scan]. rw !decide_False // IH //. by destruct (scan t depth false false).
  - rw !string_app_assoc scan_quote scan_literal // IH // !string_length_app.
    destruct (scan t depth false false); [|done]. simpl. f_equal. lia.
  - rw !string_app_assoc scan_open IHb; [|lia]. rw scan_close (proj2 (Z.eqb_neq _ _)); [|lia].
    replace (depth + 1 - 1) with depth by lia. rw IHs // !string_length_app.
    destruct (scan t depth false false); [|done]. simpl. f_equal. lia.
Qed.

(** A tool call is found in a model's answer wherever it stands: the first
    object of the answer is taken as a whole, whatever text is around it and
    whatever braces its string literals contain. *)
Theorem tool_call_found parse before body after parsed :
  ¬ has_char "{"%char before → balanced body →
  parse ("{" +:+ body +:+ "}") = Some parsed →
  parseToolCall parse (before +:+ "{" +:+ body +:+ "}" +:+ after) = as_tool_call parsed.
Proof.
  intros Hb Hbal Hp. unfold parseToolCall.
  set (obj := "{" +:+ body +:+ "}").
  assert (before +:+ "{" +:+ body +:+ "}" +:+ after = before +:+ String "{"%char (body +:+ "}" +:+ after))
    as -> by done.
  rw str_find_first //. cbn [mbind option_bind]. rw substr_from_app.
  assert (scan (String "{"%char (body +:+ "}" +:+ after)) 0 false false = Some (String.length obj)) as ->.
  { change (String "{"%char ?x) with ("{" +:+ x). rw scan_open scan_balanced //.
    rw scan_close /=. unfold obj. rw !string_length_app /=. f_equal. }
  cbn [mbind option_bind].
  assert (String "{"%char (body +:+ "}" +:+ after) = obj +:+ after) as ->.
  { unfold obj. by rw !string_app_assoc. }
  rw substring_app_l Hp //.
Qed.

(** ** The loop *)

Section runs.
Context `{UnorderedIter} (dump : json → string) (parse : string → option json).
Context (config : OrchestrationConfig) (reg : option Registry) (sandbox : bool).
Notation OrchEvent := (Event OrchCmd).

(** The tool a call runs, and the tool a model's answer asks for. *)
Definition tool_run (ev : OrchEvent) : option (string * json) :=
  let 'Ev e _ := ev in match e with RunTool id args => Some (id, args) | _ => None end.

Definition asked_for (ev : OrchEvent) : option (string * json) :=
  let 'Ev e b := ev in
  match e in OrchCmd B return B → option (string * json) with
  | AskModel _ => λ b,
      match b with inr resp => parseToolCall parse (r_content resp) | inl _ => None end
  | _ => λ _, None
  end b.

(** The registry accepts a call. *)
Definition accepted (call : string * json) : Prop :=
  ∀ r, reg = Some r → ∃ note, validateCall call.1 call.2 r = Some (true, note).

(** A tool is run only right after the model asked for exactly this call. *)
Fixpoint supervised (pending : option (string * json)) (tr : list OrchEvent) : Prop :=
  match tr with
  | [] => True
  | ev :: tr =>
      match tool_run ev with
      | Some call => pending = Some call ∧ accepted call
      | None => True
      end ∧ supervised (asked_for ev) tr
  end.

Definition model_call (ev : OrchEvent) : option ChatRequest :=
  let 'Ev e _ := ev in match e with AskModel req => Some req | _ => None end.
Definition model_calls (tr : list OrchEvent) : nat := length (omap model_call tr).
Definition tool_calls (tr : list OrchEvent) : nat := length (omap tool_run tr).

Lemma supervised_app pending tr1 tr2 :
  supervised pending tr1 → (∀ p, supervised p tr2) → supervised pending (tr1 ++ tr2).
Proof.
  revert pending. induction tr1 as [|ev tr1 IH]; intros pending; simpl; [by auto|].
  intros [Hev H1] H2. split; [done|]. by apply IH.
Qed.

Lemma calls_app tr1 tr2 :
  model_calls (tr1 ++ tr2) = (model_calls tr1 + model_calls tr2)%nat ∧
  tool_calls (tr1 ++ tr2) = (tool_calls tr1 + tool_calls tr2)%nat.
Proof. unfold model_calls, tool_calls. by rw !omap_app !length_app. Qed.

(** The result so far of a loop that goes on. *)
Definition going (r : OrchestrationResult) : Prop := run_error r = "" ∧ (steps r = [] ∨ run_success r = true).

(** A failure is never silent. *)
Definition explained (r : OrchestrationResult) : Prop := run_success r = false → run_error r ≠ "".

Lemma trace_act os messages output input r tr out :
  trace (act parse reg sandbox true os messages output input r) tr out → going r →
  (tr = [] ∨ ∃ id args b, tr = [Ev (RunTool id args) b] ∧
     parseToolCall parse output = Some (id, args) ∧ accepted (id, args)) ∧
  match out with
  | None => True
  | Some (Stop r') => explained r' ∧ length (steps r') = S (length (steps r)) ∧
      (run_success r' = true → final_answer r' = output ∧ parseToolCall parse output = None)
  | Some (Go _ _ r') => going r' ∧ length (steps r') = S (length (steps r)) ∧ run_success r' = true
  end.
Proof.
  unfold act. intros Ht [He Hs].
  destruct (parseToolCall parse output) as [[id args]|] eqn:Hp.
  2: { trace_next Ht. split; [by left|]. split_and!; [done|by rw /= length_app /=; lia|done]. }
  destruct (match reg with Some _ => _ | None => _ end) as [[[] note]|] eqn:Hv.
  3: { trace_next Ht. split; [by left|done]. }
  2: { trace_next Ht. split; [by left|]. split_and!; [done|by rw /= length_app /=; lia|done]. }
  destruct sandbox; cbn [negb] in Ht.
  2: { trace_next Ht. split; [by left|]. split_and!; [done|by rw /= length_app /=; lia|done]. }
  destruct Ht as (b & tr' & -> & Ht).
  assert (accepted (id, args)) as Hacc by (intros g ->; by exists note).
  destruct b as [res|]; destruct Ht as [-> ->]; (split; [right; by eexists id, args, _|]); [|done].
  split; [split; [exact He|by right]|]. split; [by rw /= length_app /=; lia|done].
Qed.

Lemma trace_one_step model start step messages input r tr out :
  trace (one_step parse config reg sandbox true model start step messages input r) tr out → going r →
  (∀ p, supervised p tr) ∧ (model_calls tr <= 1)%nat ∧ (tool_calls tr <= model_calls tr)%nat ∧
  match out with
  | None => True
  | Some (Stop r') => explained r' ∧ (length (steps r') <= S (length (steps r)))%nat
  | Some (Go _ _ r') => going r' ∧ length (steps r') = S (length (steps r))
  end.
Proof.
  unfold one_step. intros Ht Hg. trace_next Ht.
  destruct (_ <=? _)%float.
  { trace_next Ht. split_and!; [done|unfold tool_calls, model_calls; simpl; lia..|done|simpl; lia]. }
  trace_next Ht. apply trace_call_bind in Ht as (answer & tr2 & -> & Ht). cbv beta in Ht.
  destruct answer as [e|resp]; [destruct Ht as [-> ->]; split_and!; [done|done|unfold tool_calls; simpl; lia|done]|].
  apply trace_act in Ht as [Htr Hout]; [|done].
  split_and!.
  - intros p. cbn [supervised tool_run asked_for]. do 3 (split; [done|]).
    destruct Htr as [->|(id & args & b & -> & Hp & Ha)]; [done|]. by split_and!.
  - destruct Htr as [->|(id & args & b & -> & Hp & Ha)]; done.
  - destruct Htr as [->|(id & args & b & -> & Hp & Ha)]; unfold tool_calls, model_calls; simpl; lia.
  - destruct out as [[r'|ms i r']|]; [| |done]; [destruct Hout as (? & -> & _)|destruct Hout as (? & -> & _)]; done.
Qed.

Lemma trace_loop n model start step messages input r tr out :
  trace (loop parse config reg sandbox true n model start step messages input r) tr out → going r →
  (∀ p, supervised p tr) ∧ (model_calls tr <= n)%nat ∧ (tool_calls tr <= model_calls tr)%nat ∧
  ∀ r', out = Some r' →
    (explained r' ∨ n = 0%nat ∧ r' = r) ∧ (length (steps r') <= length (steps r) + n)%nat.
Proof.
  revert step messages input r tr out. induction n as [|n IH]; intros step messages input r tr out Ht Hg.
  { destruct Ht as [-> ->]. split_and!; [done..|]. intros r' [= <-]. split; [by right|lia]. }
  cbn [loop] in Ht. apply trace_bind in Ht as (tr1 & tr2 & a & -> & Hone & Ht).
  apply trace_one_step in Hone as (Hs & Hm & Htl & Ha); [|done].
  destruct (calls_app tr1 tr2) as [Hcm Hct].
  destruct a as [[r1|ms i r1]|].
  - destruct Ht as [-> ->]. rw app_nil_r. split_and!; [done|lia|lia|]. intros r' [= <-].
    destruct Ha. split; [by left|lia].
  - destruct Ha as [Hg1 Hl]. destruct (IH _ _ _ _ _ _ Ht Hg1) as (Hs2 & Hm2 & Ht2 & Hr).
    split_and!; [intros p; by apply supervised_app|lia|lia|]. intros r' Hr'.
    destruct (Hr r' Hr') as [[?|[-> ->]] ?]; (split; [left|lia]); [done|].
    destruct Hg1 as [_ [Hnil|Hsucc]]; [by rw Hnil in Hl|]. intros Hf. by rw Hsucc in Hf.
  - destruct Ht as [-> ->]. rw app_nil_r. split_and!; [done|lia|lia|done].
Qed.

Lemma trace_run_agent user_query model tr out :
  trace (run_agent dump parse config reg sandbox true user_query model) tr out →
  supervised None tr ∧ (model_calls tr <= Z.to_nat (max_steps config))%nat ∧
  (tool_calls tr <= model_calls tr)%nat ∧
  ∀ r, out = Some r → explained r ∧ total_steps r = Z.of_nat (length (steps r)) ∧
    (length (steps r) <= Z.to_nat (max_steps config))%nat.
Proof.
  unfold run_agent. intros Ht. apply trace_call_bind in Ht as (start & tr0 & -> & Ht). cbv beta in Ht.
  apply trace_bind in Ht as (tr1 & tr2 & a & -> & Hl & Ht).
  apply trace_loop in Hl as (Hs & Hm & Htl & Hr); [|split; [done|by left]].
  assert ((∀ p, supervised p tr2) ∧ model_calls tr2 = 0%nat ∧ tool_calls tr2 = 0%nat) as (Hs2 & Hm2 & Ht2).
  { destruct a as [r|]; [do 2 trace_next Ht|trace_next Ht]; by split_and!. }
  destruct (calls_app tr1 tr2) as [Hcm Hct].
  change (model_calls (Ev Now start :: ?t)) with (model_calls t).
  change (tool_calls (Ev Now start :: ?t)) with (tool_calls t).
  split_and!; [split; [done|by apply supervised_app]|lia|lia|].
  intros r ->. destruct a as [r0|]; [|by destruct Ht]. trace_next Ht. destruct Ht as [_ [= ->]].
  destruct (Hr r0 eq_refl) as [He Hle]. simpl in Hle.
  set (r1 := if _ && _ then _ else r0). 
  assert (steps r1 = steps r0 ∧ explained r1) as [Hst Hex].
  { unfold r1. destruct He as [He|[_ ->]]; [|done].
    destruct (_ && _) eqn:Hc; [|done]. split; [done|]. by intros _. }
  split_and!; [exact Hex|done|]. simpl. by rw Hst.
Qed.

(** An agent run in which the model drives: a tool is run only as the direct
    answer to a model's output that asks for exactly this call, and only if
    the registry knows the tool, has it enabled and finds its required
    arguments; there are at most [max_steps] model calls and no more tool
    calls than model calls; and a run that does not succeed says why. *)
Theorem agent_supervised user_query model tr out :
  trace (run_agent dump parse config reg sandbox true user_query model) tr out →
  supervised None tr ∧ (model_calls tr <= Z.to_nat (max_steps config))%nat ∧
  (tool_calls tr <= model_calls tr)%nat ∧
  ∀ r, out = Some r → (run_success r = false → run_error r ≠ "") ∧
    total_steps r = Z.of_nat (length (steps r)) ∧
    (length (steps r) <= Z.to_nat (max_steps config))%nat.
Proof. apply trace_run_agent. Qed.

End runs.

(** ** A run *)

Definition toy_call : json :=
  json_of_list [("tool", JString "sum"); ("arguments", json_of_list [("x", JInteger 1)])].

Definition toy_parse (s : string) : option json :=
  if decide (s = "{sum 1}") then Some toy_call else None.

Definition toy_registry : Registry :=
  {[ "sum" := {| td_id := "sum"; td_name := "sum"; td_description := "adds"; td_version := "1";
                 parameters_schema := json_of_list [("required", JArray [JString "x"])];
                 td_timeout_ms := 100; max_concurrent := 1; rate_limit_max_calls := 1;
                 rate_limit_window_seconds := 1; enabled := true; tags := [] |} ]}.

Definition toy_answer (n : nat) : ChatResponse :=
  {| r_id := ""; r_model := ""; r_content := if n is O then "I use {sum 1} now" else "done";
     r_usage := no_usage; r_finish_reason := ""; r_tool_calls := [] |}.

(** The model asks for the tool in its first answer; [n] answers were given. *)
Definition toy_exec (B : Type) (e : OrchCmd B) (n : nat) : B * nat :=
  match e in OrchCmd B return B * nat with
  | Now => (0, n)
  | CountStep => (tt, n)
  | AskModel _ => (inr (toy_answer n), S n)
  | RunTool id _ =>
      (Some {| tr_tool_id := id; tr_status := ToolSandbox.Success; tr_output := "2";
               tr_error_message := "" |}, n)
  end.

Definition toy_agent `{UnorderedIter} : prog OrchCmd (option OrchestrationResult) :=
  run_agent (λ _, "") toy_parse {| max_steps := 5; max_total_timeout_ms := 1000 |}
    (Some toy_registry) true true "add" "m".

Lemma tool_call_found_witness :
  parseToolCall toy_parse "I use {sum 1} now" = Some ("sum", json_of_list [("x", JInteger 1)]).
Proof.
  apply (tool_call_found toy_parse "I use " "sum 1" " now" toy_call).
  - unfold has_char. apply (bool_decide_unpack _). by vm_compute.
  - by repeat constructor.
  - done.
Defined.

Lemma agent_supervised_witness :
  supervised toy_parse (Some toy_registry) None (recorded toy_exec toy_agent 0%nat) ∧
  model_calls (recorded toy_exec toy_agent 0%nat) = 2%nat ∧
  tool_calls (recorded toy_exec toy_agent 0%nat) = 1%nat.
Proof.
  destruct (agent_supervised (λ _, "") toy_parse {| max_steps := 5; max_total_timeout_ms := 1000 |}
    (Some toy_registry) true "add" "m" (recorded toy_exec toy_agent 0%nat) (run toy_exec toy_agent 0%nat).1)
    as (Hs & _); [apply recorded_trace|].
  split_and!; [done|by vm_compute|by vm_compute].
Defined.

End Orchestrator.
