(* ===== verification/Api.v ===== *)
(** * Api: the HTTP endpoints of the data plane

    Models [src/src/server/api_controller.cpp] with the checks and endpoints of
    [src/src/server/gateway_runtime.cpp] it calls ([validateApiKey],
    [authorizeApiRequest], [validateAdminKey], [processAgentRequest],
    [processWorkflowRequest]) and [response_headers.h].  A handler is a program
    over the calls of the parts it uses; a chat or proxy request runs the
    program of [Gateway] or [Proxy] inside it.  A handler answers, is left by an
    exception, or has undefined behaviour.  Telemetry is not modelled. *)
From Corelib Require Import PrimFloat.
From S2P Require Import Prelude.
From S2P Require Import Prog.
From S2P Require Import Trace.
From S2P Require Import Json.
From S2P Require Import ErrorCodes.
From S2P Require Import ToolSandbox.
From S2P Require Import WorkflowDsl.
From S2P Require Import WorkflowStore.
From S2P Require Import WorkflowEngine.
From S2P Require Import Identity.
From S2P Require Import Auth.
From S2P Require Import ChatTypes.
From S2P Require Import Connector.
From S2P Require Import Gateway.
From S2P Require Import GatewayFacts.
From S2P Require Import Sse.
From S2P Require Import Proxy.
From S2P Require Import Orchestrator.
Import Json ErrorCodes ChatTypes Sse.
Local Open Scope Z_scope.

Module Api.

Record HttpRequest := {
  q_header : string → string;
  q_param : string → string;
  q_body : string;
}.

(** A plain answer, a chat stream that is run later, or the audit stream. *)
Inductive Reply :=
| Plain (r : HttpResponse)
| ChatStream (headers : list (string * string)) (req : ChatRequest) (api_key : string)
    (request_headers : gmap string string)
| LogStream (headers : list (string * string)) (level_filter : string).

Inductive Handled :=
| Answered (r : Reply)
| Thrown
| Undefined.

Record CacheStats := {
  hit_count : Z;
  miss_count : Z;
  put_count : Z;
  entry_count : Z;
  hit_rate : float;
  current_threshold : float;
}.

Inductive ApiCmd (X : Type) : Type → Type :=
| OfGateway {B} (c : Gateway.GwCmd X B) : ApiCmd X B
| OfProxy {B} (c : Proxy.PxCmd B) : ApiCmd X B
| OfAgent {B} (c : Orchestrator.OrchCmd B) : ApiCmd X B
| RunWorkflow (dsl : WorkflowDsl.Dsl) (run_id : string) (context : json) :
    ApiCmd X (option WorkflowEngine.ExecutionResult)
| Models : ApiCmd X (list (string * string))
| ExposeMetrics : ApiCmd X string
| StoreReady : ApiCmd X bool
| CacheReady : ApiCmd X bool
| ReloadConfig : ApiCmd X bool
| ReadCacheStats : ApiCmd X CacheStats
| ImportCache (text : string) : ApiCmd X Z.
Arguments OfGateway {X B}.
Arguments OfProxy {X B}.
Arguments OfAgent {X B}.
Arguments RunWorkflow {X}.
Arguments Models {X}.
Arguments ExposeMetrics {X}.
Arguments StoreReady {X}.
Arguments CacheReady {X}.
Arguments ReloadConfig {X}.
Arguments ReadCacheStats {X}.
Arguments ImportCache {X}.

(** The runtime as the handlers see it. *)
Record ApiConfig := {
  a_initialized : bool;
  a_shutting_down : bool;
  a_gateway : Gateway.GwConfig;
  a_proxy : Proxy.PxConfig;
  a_auth_enabled : bool;
  a_key_hashes : list string;
  a_admin_key : string;
  a_agent_enabled : bool;
  a_agent : option (ToolSandbox.Registry * Orchestrator.OrchestrationConfig);
  a_fallback : bool;
  a_workflow_enabled : bool;
  a_workflow_engine : bool;
  a_store : option string;        (** the backend's name *)
  a_cache_store : option string;
  a_semantic_cache : bool;
  a_audit : bool;
}.

Definition kMaxRequestBodySize : Z := 1024 * 1024.
Definition kMaxProxyBodySize : Z := 25 * 1024 * 1024.
Definition kMaxPreview : nat := 4096.

Definition extractBearerToken (req : HttpRequest) : string :=
  let auth := q_header req "Authorization" in
  if decide ((7 < String.length auth)%nat ∧ String.substring 0 7 auth = "Bearer ")
  then substr_from 7 auth else "".

Definition body_over (limit : Z) (req : HttpRequest) : bool :=
  limit <? Z.of_nat (String.length (q_body req)).

Section api.
Context {X : Type} (fresh : X) `{UnorderedIter}.
Context (dump : json → option string) (parse : string → option json) (what_ : string → string).
Context (sha256 : string → string) (version : string) (cfg : ApiConfig).
Notation api := (prog (ApiCmd X)).

(** ** Keys *)

Definition rbac_on : bool := Gateway.g_auth_service (a_gateway cfg) && Gateway.g_rbac (a_gateway cfg).

Definition validateApiKey (key : string) : bool :=
  if rbac_on then true
  else if negb (a_auth_enabled cfg) then true
  else existsb (String.eqb (sha256 key)) (a_key_hashes cfg).

Definition authorizeApiRequest (key : string) : api bool :=
  if rbac_on then
    a ← call (OfGateway (Gateway.ResolveKey key));
    Ret (bool_decide (is_Some a))
  else Ret (validateApiKey key).

Definition validateAdminKey (key : string) : bool :=
  if str_empty (a_admin_key cfg) then false
  else String.eqb (sha256 key) (sha256 (a_admin_key cfg)).

(** ** Answers *)

Definition version_header : list (string * string) := [("X-AegisGate-Version", version)].

(** A JSON answer; writing a string that is not UTF-8 throws. *)
Definition json_reply (status : Z) (headers : list (string * string)) (body : json) : Handled :=
  match dump body with
  | None => Thrown
  | Some text =>
      Answered (Plain {| h_status := status; h_content_type := "application/json";
                         h_headers := headers; h_body := text |})
  end.

Definition toDocUrl (code : ErrorCode) : string :=
  "https://aegisgate.dev/docs/errors#" +:+ toAegisCode code.

Definition makeErrorResponse (code : ErrorCode) (message_override : string) : Handled :=
  let msg := if str_empty message_override then toDefaultMessage code else message_override in
  json_reply (toHttpStatus code) version_header
    (json_of_list [("error", json_of_list
       [("code", JString (toAegisCode code)); ("type", JString (toErrorType code));
        ("message", JString msg); ("doc_url", JString (toDocUrl code))])]).

Definition error_body (aegis_code error_type message : string) : json :=
  json_of_list [("error", json_of_list
    [("code", JString aegis_code); ("type", JString error_type); ("message", JString message)])].

Definition makeErrorResponseRaw (status : Z) (aegis_code error_type message : string) : Handled :=
  json_reply status version_header (error_body aegis_code error_type message).

Definition gateway_error (err : GatewayError) : Handled :=
  makeErrorResponseRaw (http_status err) (error_code err) (error_type err) (message err).

Definition shutting_down : Handled :=
  makeErrorResponseRaw 503 "shutting_down" "server_error"
    "Server is shutting down — retry with another instance".

(** The checks every data-plane handler starts with. *)
Definition when_up (k : api Handled) : api Handled :=
  if negb (a_initialized cfg) then Ret (makeErrorResponse NotInitialized "")
  else if a_shutting_down cfg then Ret shutting_down
  else k.

Definition parse_failure (body : string) : Handled :=
  makeErrorResponse InvalidRequest ("Failed to parse request: " +:+ what_ body).

(** ** Chat *)

Definition message_of (m : json) : option Message :=
  role ← string_or "user" "role" m;
  '(content, parts) ← content_from (json_member "content" m);
  calls ← tool_calls_from (json_member "tool_calls" m);
  id ← string_or "" "tool_call_id" m;
  name ← string_or "" "name" m;
  Some {| m_role := role; m_content := content; m_content_parts := parts;
          m_tool_calls := calls; m_tool_call_id := id; m_name := name |}.

Definition optional {A} (get : json → option A) (k : string) (j : json) : option (option A) :=
  match json_member k j with None => Some None | Some v => Some <$> get v end.

Definition chat_request_of (j : json) : option ChatRequest :=
  model ← string_or "" "model" j;
  messages ← mapM message_of (from_option Gateway.json_elems [] (json_member "messages" j));
  temperature ← optional as_double "temperature" j;
  max_tokens ← optional as_int "max_tokens" j;
  stream ← json_value as_bool "stream" false j;
  Some {| cr_model := model; cr_messages := messages; cr_temperature := temperature;
          cr_max_tokens := max_tokens; cr_stream := stream;
          cr_extra := default JNull (json_member "extra" j);
          cr_tools := default JNull (json_member "tools" j);
          cr_tool_choice := default JNull (json_member "tool_choice" j); cr_metadata := None |}.

Definition chat_json (r : ChatResponse) : json :=
  let msg := if no_elems (r_tool_calls r)
    then json_of_list [("role", JString "assistant"); ("content", JString (r_content r))]
    else json_of_list [("role", JString "assistant");
           ("content", if str_empty (r_content r) then JNull else JString (r_content r));
           ("tool_calls", JArray (tool_call_to_json <$> r_tool_calls r))] in
  json_of_list [("id", JString (r_id r)); ("object", JString "chat.completion");
    ("model", JString (r_model r));
    ("choices", JArray [json_of_list [("index", JInteger 0); ("message", msg);
                                      ("finish_reason", JString (r_finish_reason r))]]);
    ("usage", usage_to_json (r_usage r))].

(** [applyResponseHeaders]. *)
Definition applied_headers (headers : gmap string string) : list (string * string) :=
  filter (λ kv, kv.1 ≠ "") (iter headers).

Definition chat_answer (result : Gateway.ProcessResult) : Handled :=
  if negb (Gateway.success result) then gateway_error (Gateway.error result)
  else
    json_reply 200
      ((if 0 <? Gateway.tokens_saved result
        then [("X-AegisGate-Tokens-Saved", to_string (Gateway.tokens_saved result))] else []) ++
       applied_headers (Gateway.result_headers result) ++ version_header)
      (chat_json (Gateway.response result)).

Definition template_header (req : HttpRequest) : gmap string string :=
  let tpl := q_header req "X-AegisGate-Template" in
  if str_empty tpl then ∅ else {[ "X-AegisGate-Template" := tpl ]}.

Definition chatCompletions (req : HttpRequest) : api Handled :=
  when_up
    (let api_key := extractBearerToken req in
     if negb (validateApiKey api_key) then Ret (makeErrorResponse InvalidApiKey "")
     else if body_over kMaxRequestBodySize req then Ret (makeErrorResponse PayloadTooLarge "")
     else
       match parse (q_body req) ≫= chat_request_of with
       | None => Ret (parse_failure (q_body req))
       | Some chat_req =>
           if no_elems (cr_messages chat_req) then
             Ret (makeErrorResponse MissingRequiredField
                    "messages field is required and must not be empty")
           else if cr_stream chat_req then
             Ret (Answered (ChatStream
               ([("Cache-Control", "no-cache"); ("X-Accel-Buffering", "no")] ++ version_header)
               chat_req api_key (template_header req)))
           else
             result ← translate (@OfGateway X)
               (Gateway.processRequest fresh (a_gateway cfg) chat_req api_key (template_header req));
             Ret (match result with None => Thrown | Some r => chat_answer r end)
       end).

(** The stream of a [ChatStream] answer, run when the client is connected. *)
Definition chat_stream (req : ChatRequest) (api_key : string) (headers : gmap string string) :
    prog (Gateway.GwCmd X) (option unit) :=
  Gateway.processStreamingRequest fresh (a_gateway cfg) req api_key headers.

(** ** Agent *)

(** [error] is none where [AgentResult::error] is left uninitialised. *)
Record AgentResult := {
  ag_success : bool;
  ag_run : Orchestrator.OrchestrationResult;
  ag_error : option GatewayError;
}.

Definition endpoint_error (status : Z) (code type msg : string) : GatewayError :=
  {| http_status := status; error_code := code; error_type := type; message := msg;
     internal_detail := "" |}.

Definition agent_refused (err : GatewayError) : option AgentResult :=
  Some {| ag_success := false; ag_run := Orchestrator.no_result; ag_error := Some err |}.

(** The budget of a request: the configured one, or less. *)
Definition agent_config (config : Orchestrator.OrchestrationConfig) (max_steps : Z) :
    Orchestrator.OrchestrationConfig :=
  {| Orchestrator.max_steps :=
       if (0 <? max_steps) && (max_steps <? Orchestrator.max_steps config) then max_steps
       else Orchestrator.max_steps config;
     Orchestrator.max_total_timeout_ms := Orchestrator.max_total_timeout_ms config |}.

(** [None] is an exception of the run.  The orchestrator writes only the
    schemas of registered tools as JSON. *)
Definition processAgentRequest (model input : string) (max_steps : Z) (api_key : string) :
    api (option AgentResult) :=
  if negb (validateApiKey api_key) then Ret (agent_refused (Gateway.err_of 401 InvalidApiKey))
  else if negb (a_agent_enabled cfg) then
    Ret (agent_refused (endpoint_error 501 "agent_endpoint_disabled" "not_implemented"
                          "Agent endpoint is disabled"))
  else match a_agent cfg with
  | None =>
      Ret (agent_refused (endpoint_error 503 "agent_unavailable" "server_error"
                            "Agent orchestration is not available"))
  | Some (registry, config) =>
      if negb (a_fallback cfg) then
        Ret (agent_refused (endpoint_error 503 "agent_unavailable" "server_error"
                              "Model backend is not available"))
      else
        run ← translate (@OfAgent X)
          (Orchestrator.run_agent (λ j, default "" (dump j)) parse (agent_config config max_steps)
             (Some registry) true true input model);
        Ret (match run with
             | None => None
             | Some r =>
                 let failed := negb (Orchestrator.run_success r) in
                 Some {| ag_success := Orchestrator.run_success r; ag_run := r;
                         ag_error := if failed && str_empty (Orchestrator.run_error r)
                           then Some (endpoint_error 500 "agent_error" "server_error"
                                        "Agent orchestration failed")
                           else None |}
             end)
  end.

Definition step_json (s : Orchestrator.OrchestrationStep) : json :=
  let m := map_assign "thought" (JString (Orchestrator.thought s))
             [("step_number", JInteger (Orchestrator.step_number s))] in
  let m := Connector.put_if (negb (str_empty (Orchestrator.os_tool_id s))) "tool_id"
             (JString (Orchestrator.os_tool_id s)) m in
  JObject (Connector.put_opt "tool_result"
    (λ r, JString (String.substring 0 kMaxPreview (ToolSandbox.tr_output r)))
    (Orchestrator.tool_result s) m).

Definition agent_json (r : Orchestrator.OrchestrationResult) : json :=
  let m := [("success", JBool (Orchestrator.run_success r))] in
  let m := map_assign "final_answer" (JString (Orchestrator.final_answer r)) m in
  let m := map_assign "total_steps" (JInteger (Orchestrator.total_steps r)) m in
  let m := map_assign "total_duration_ms" (JFloat (Orchestrator.total_duration_ms r)) m in
  let m := Connector.put_if (negb (str_empty (Orchestrator.run_error r))) "error"
             (JString (Orchestrator.run_error r)) m in
  JObject (map_assign "steps" (JArray (step_json <$> Orchestrator.steps r)) m).

(** The answer to a result; reading an uninitialised error is undefined. *)
Definition agent_answer (result : AgentResult) : Handled :=
  if negb (ag_success result) then
    match ag_error result with Some err => gateway_error err | None => Undefined end
  else json_reply 200 version_header (agent_json (ag_run result)).

Definition agent_body (j : json) : option (string * string * Z) :=
  model ← string_or "" "model" j;
  input ← string_or "" "input" j;
  max_steps ← json_value as_int "max_steps" 0 j;
  Some (model, input, max_steps).

Definition agentRun (req : HttpRequest) : api Handled :=
  when_up
    (let api_key := extractBearerToken req in
     if body_over kMaxRequestBodySize req then Ret (makeErrorResponse PayloadTooLarge "")
     else match parse (q_body req) ≫= agent_body with
     | None => Ret (parse_failure (q_body req))
     | Some (model, input, max_steps) =>
         if str_empty input then
           Ret (makeErrorResponse MissingRequiredField
                  "input field is required and must not be empty")
         else
           result ← processAgentRequest model input max_steps api_key;
           Ret (match result with None => Thrown | Some r => agent_answer r end)
     end).

(** ** Workflows *)

Record WorkflowResult := {
  wf_success : bool;
  wf_run_id : string;
  wf_exec : WorkflowEngine.ExecutionResult;
  wf_error : option GatewayError;
}.

Definition workflow_refused (err : GatewayError) : option WorkflowResult :=
  Some {| wf_success := false; wf_run_id := ""; wf_exec := WorkflowEngine.no_result;
          wf_error := Some err |}.

Definition processWorkflowRequest (workflow_json context : json) (api_key : string) :
    api (option WorkflowResult) :=
  if negb (validateApiKey api_key) then Ret (workflow_refused (Gateway.err_of 401 InvalidApiKey))
  else if negb (a_workflow_enabled cfg) then
    Ret (workflow_refused (endpoint_error 501 "workflow_endpoint_disabled" "not_implemented"
                             "Workflow endpoint is disabled"))
  else if negb (a_workflow_engine cfg) then
    Ret (workflow_refused (endpoint_error 503 "workflow_unavailable" "server_error"
                             "Workflow engine is not available"))
  else match WorkflowDsl.fromJson workflow_json with
  | None =>
      Ret (workflow_refused (endpoint_error 400 "invalid_workflow_dsl" "invalid_request_error"
                               "Malformed workflow DSL"))
  | Some dsl =>
      run_id ← translate (@OfGateway X) Gateway.generateRequestId;
      exec ← call (RunWorkflow dsl run_id (if is_null context then JObject [] else context));
      Ret (match exec with
           | None => None
           | Some e =>
               let rejected := negb (WorkflowEngine.ok e) &&
                 bool_decide (WorkflowEngine.error_message e = "backpressure_rejected") in
               Some {| wf_success := WorkflowEngine.ok e; wf_run_id := run_id; wf_exec := e;
                       wf_error := if rejected
                         then Some (endpoint_error 429 "workflow_backpressure" "rate_limit_error"
                                      "Too many concurrent workflow runs")
                         else None |}
           end)
  end.

Definition workflow_json (r : WorkflowResult) : json :=
  let e := wf_exec r in
  let m := [("ok", JBool (WorkflowEngine.ok e))] in
  let m := map_assign "run_id" (JString (wf_run_id r)) m in
  let m := map_assign "final_status" (JString (WorkflowStore.runStatusToString (WorkflowEngine.final_status e))) m in
  let m := map_assign "completed_nodes" (JInteger (WorkflowEngine.completed_nodes e)) m in
  let m := map_assign "failed_nodes" (JInteger (WorkflowEngine.failed_nodes e)) m in
  JObject (Connector.put_if (negb (str_empty (WorkflowEngine.error_message e))) "error"
             (JString (WorkflowEngine.error_message e)) m).

(** [!success && error.http_status != 0]. *)
Definition workflow_answer (r : WorkflowResult) : Handled :=
  if wf_success r then json_reply 200 version_header (workflow_json r)
  else match wf_error r with
       | None => Undefined
       | Some err =>
           if http_status err =? 0 then json_reply 200 version_header (workflow_json r)
           else gateway_error err
       end.

Definition workflowRun (req : HttpRequest) : api Handled :=
  when_up
    (let api_key := extractBearerToken req in
     if body_over kMaxRequestBodySize req then Ret (makeErrorResponse PayloadTooLarge "")
     else match parse (q_body req) with
     | None => Ret (parse_failure (q_body req))
     | Some j =>
         match json_member "workflow" j with
         | None => Ret (makeErrorResponse MissingRequiredField "workflow field is required")
         | Some workflow =>
             result ← processWorkflowRequest workflow (default JNull (json_member "context" j)) api_key;
             Ret (match result with None => Thrown | Some r => workflow_answer r end)
         end
     end).

(** ** Proxied endpoints *)

Definition proxy_answer (result : Proxy.ProxyResult) : Handled :=
  let resp := Proxy.px_response result in
  if Proxy.px_success result || negb (str_empty (ps_body resp)) then
    Answered (Plain {| h_status := ps_http_status resp; h_content_type := ps_content_type resp;
                       h_headers := version_header; h_body := ps_body resp |})
  else
    let err := Proxy.px_error result in
    json_reply (http_status err) version_header
      (error_body (error_code err) (error_type err) (message err)).

Definition handleProxyEndpoint (endpoint : string) (req : HttpRequest) : api Handled :=
  when_up
    (let api_key := extractBearerToken req in
     if negb (validateApiKey api_key) then Ret (makeErrorResponse InvalidApiKey "")
     else if body_over kMaxProxyBodySize req then Ret (makeErrorResponse PayloadTooLarge "")
     else
       let content_type := if str_empty (q_header req "Content-Type") then "application/json"
                           else q_header req "Content-Type" in
       let model := if str_contains "application/json" content_type
                    then default "" (parse (q_body req) ≫= string_or "" "model") else "" in
       result ← translate (@OfProxy X) (Proxy.processProxyRequest parse (a_proxy cfg)
         {| pr_endpoint := endpoint; pr_model := model; pr_raw_body := q_body req;
            pr_content_type := content_type |} api_key);
       Ret (proxy_answer result)).

Definition embeddings : HttpRequest → api Handled := handleProxyEndpoint "/v1/embeddings".
Definition imageGenerations : HttpRequest → api Handled := handleProxyEndpoint "/v1/images/generations".
Definition audioTranscriptions : HttpRequest → api Handled :=
  handleProxyEndpoint "/v1/audio/transcriptions".
Definition audioTranslations : HttpRequest → api Handled :=
  handleProxyEndpoint "/v1/audio/translations".
Definition audioSpeech : HttpRequest → api Handled := handleProxyEndpoint "/v1/audio/speech".

(** ** Reading and administration *)

(** A handler for callers with a key. *)
Definition authorized_only (req : HttpRequest) (k : api Handled) : api Handled :=
  allowed ← authorizeApiRequest (extractBearerToken req);
  if (allowed : bool) then k else Ret (makeErrorResponse InvalidApiKey "").

Definition admin_only (req : HttpRequest) (k : api Handled) : api Handled :=
  if validateAdminKey (extractBearerToken req) then k
  else Ret (makeErrorResponse InvalidAdminKey "").

Definition model_json (m : string * string) : json :=
  json_of_list [("id", JString m.1); ("object", JString "model"); ("owned_by", JString m.2);
                ("permission", JArray [])].

Definition listModels (req : HttpRequest) : api Handled :=
  when_up (authorized_only req
    (models ← call Models;
     Ret (json_reply 200 version_header
       (json_of_list [("object", JString "list"); ("data", JArray (model_json <$> models))])))).

Definition metrics (req : HttpRequest) : api Handled :=
  authorized_only req
    (output ← call ExposeMetrics;
     Ret (Answered (Plain {| h_status := 200;
       h_content_type := "text/plain; version=0.0.4; charset=utf-8"; h_headers := [];
       h_body := output |}))).

Definition cacheStats (req : HttpRequest) : api Handled :=
  authorized_only req
    (if negb (a_semantic_cache cfg) then Ret (makeErrorResponse CacheUnavailable "")
     else
       stats ← call ReadCacheStats;
       Ret (json_reply 200 version_header (json_of_list
         [("hit_count", JInteger (hit_count stats)); ("miss_count", JInteger (miss_count stats));
          ("put_count", JInteger (put_count stats)); ("entry_count", JInteger (entry_count stats));
          ("hit_rate", JFloat (hit_rate stats));
          ("current_threshold", JFloat (current_threshold stats))]))).

Definition reloadConfig (req : HttpRequest) : api Handled :=
  admin_only req
    (ok ← call ReloadConfig;
     Ret (if (ok : bool)
          then json_reply 200 [] (json_of_list [("status", JString "reloaded");
                 ("message", JString "Configuration reloaded successfully")])
          else json_reply 500 [] (json_of_list [("status", JString "error");
                 ("message", JString "Failed to reload configuration")]))).

Definition cacheImport (req : HttpRequest) : api Handled :=
  admin_only req
    (if negb (a_semantic_cache cfg) then Ret (makeErrorResponse CacheUnavailable "")
     else
       imported ← call (ImportCache (q_body req));
       Ret (json_reply 200 [] (json_of_list [("imported", JInteger imported)]))).

Definition logStream (req : HttpRequest) : api Handled :=
  admin_only req
    (Ret (if negb (a_audit cfg) then makeErrorResponse InternalError "Audit logger not available"
          else Answered (LogStream [("Cache-Control", "no-cache"); ("Connection", "keep-alive")]
                 (q_param req "level")))).

Definition healthLive : Handled := json_reply 200 version_header (json_of_list [("status", JString "alive")]).

Definition healthReady : api Handled :=
  let probe (backend : option string) (e : ApiCmd X bool) : api (bool * string) :=
    match backend with
    | Some name => if a_initialized cfg then ready ← call e; Ret (ready, name) else Ret (true, "none")
    | None => Ret (true, "none")
    end in
  '(persistent_ok, persistent_backend) ← probe (a_store cfg) StoreReady;
  '(cache_ok, cache_backend) ← probe (a_cache_store cfg) CacheReady;
  let storage_ok := persistent_ok && cache_ok in
  let ready := a_initialized cfg && negb (a_shutting_down cfg) && storage_ok in
  let store healthy backend := json_of_list [("healthy", JBool healthy); ("backend", JString backend)] in
  Ret (json_reply (if ready then 200 else 503) version_header
    (json_of_list
      [("status", JString (if ready then "ready" else if storage_ok then "degraded" else "not_ready"));
       ("version", JString version);
       ("checks", json_of_list [("runtime", JBool (a_initialized cfg));
          ("shutting_down", JBool (a_shutting_down cfg));
          ("persistent_store", store persistent_ok persistent_backend);
          ("cache_store", store cache_ok cache_backend)])])).

End api.

(** ** The way in *)

Section facts.
Context {X : Type} (fresh : X) `{UnorderedIter}.
Context (dump : json → option string) (parse : string → option json) (what_ : string → string).
Context (sha256 : string → string) (version : string) (cfg : ApiConfig).
Notation chatCompletions := (chatCompletions fresh dump parse what_ sha256 version cfg).
Notation agentRun := (agentRun (X := X) dump parse what_ sha256 version cfg).
Notation validateApiKey := (validateApiKey sha256 cfg).

(** An answer with an error status, or an exception. *)
Definition refusal (h : Handled) : Prop :=
  h = Thrown ∨ ∃ r, h = Answered (Plain r) ∧ 400 <= h_status r.

Lemma json_reply_refusal status headers body :
  400 <= status → refusal (json_reply dump status headers body).
Proof. intros Hs. unfold json_reply. destruct (dump body); [right; by eexists|by left]. Qed.

Lemma make_error_refusal code msg : 400 <= toHttpStatus code → refusal (makeErrorResponse dump version code msg).
Proof. apply json_reply_refusal. Qed.

Lemma gateway_error_refusal err : 400 <= http_status err → refusal (gateway_error dump version err).
Proof. apply json_reply_refusal. Qed.

Ltac refused H :=
  left; destruct H as [-> ->]; split; [done|];
  by first [apply make_error_refusal|apply gateway_error_refusal|apply json_reply_refusal].

(** The request a body stands for, and what it takes to be let in. *)
Definition accepted (req : HttpRequest) (chat_req : ChatRequest) : Prop :=
  a_initialized cfg = true ∧ a_shutting_down cfg = false ∧
  validateApiKey (extractBearerToken req) = true ∧ body_over kMaxRequestBodySize req = false ∧
  parse (q_body req) ≫= chat_request_of = Some chat_req ∧ cr_messages chat_req ≠ [].

Lemma trace_chat req tr h :
  trace (chatCompletions req) tr h →
  tr = [] ∧ refusal h ∨
  ∃ chat_req, accepted req chat_req ∧
    if cr_stream chat_req then
      tr = [] ∧ ∃ headers, h = Answered (ChatStream headers chat_req (extractBearerToken req) (template_header req))
    else ∃ tr' r, tr = lift (@OfGateway X) <$> tr' ∧
      trace (Gateway.processRequest fresh (a_gateway cfg) chat_req (extractBearerToken req)
               (template_header req)) tr' r ∧
      h = match r with None => Thrown | Some r => chat_answer dump version r end.
Proof.
  unfold Api.chatCompletions, when_up, accepted. intros Ht.
  destruct (a_initialized cfg); cbn [negb] in Ht;
    [|refused Ht].
  destruct (a_shutting_down cfg); [refused Ht|].
  destruct (validateApiKey _) eqn:Hv; cbn [negb] in Ht;
    [|refused Ht].
  destruct (body_over _ _); [refused Ht|].
  destruct (parse (q_body req) ≫= chat_request_of) as [chat|] eqn:Hp;
    [|refused Ht].
  destruct (no_elems (cr_messages chat)) eqn:Hm;
    [refused Ht|].
  right. exists chat. split; [split_and!; try done; by destruct (cr_messages chat)|].
  destruct (cr_stream chat); [destruct Ht as [-> ->]; split; [done|by eexists]|].
  apply trace_bind in Ht as (tr1 & tr2 & r & -> & (tr' & -> & Ht)%trace_translate & [-> ->]).
  exists tr', r. by rw app_nil_r.
Qed.

(** ** Gateways in a chain *)

Lemma find_put_if c k v m : map_find k (Connector.put_if c k v m) = if c then Some v else map_find k m.
Proof. destruct c; simpl; [|done]. by rw map_find_assign decide_True. Qed.

Lemma find_put_opt {A} k (f : A → json) v m :
  map_find k (Connector.put_opt k f v m) = match v with Some a => Some (f a) | None => map_find k m end.
Proof. destruct v; simpl; [|done]. by rw map_find_assign decide_True. Qed.

Lemma find_put_if_ne c k k' v m :
  k ≠ k' → map_find k (Connector.put_if c k' v m) = map_find k m.
Proof. intros Hk. destruct c; simpl; [|done]. by rw map_find_assign decide_False. Qed.

Lemma find_put_opt_ne {A} k k' (f : A → json) v m :
  k ≠ k' → map_find k (Connector.put_opt k' f v m) = map_find k m.
Proof. intros Hk. destruct v; simpl; [|done]. by rw map_find_assign decide_False. Qed.

Lemma message_of_from_json j m : message_from_json j = Some m → message_of j = Some m.
Proof.
  unfold message_from_json, message_of, string_or, json_value.
  destruct j; try done. cbn [json_member]. by destruct (map_find "role" _).
Qed.

Lemma tool_calls_read_back calls : tool_calls_from (Some (JArray (tool_call_to_json <$> calls))) = Some calls.
Proof.
  apply mapM_Some_2, Forall2_fmap_l, Forall_Forall2_diag, Forall_forall.
  intros tc _. apply tool_call_round_trip.
Qed.

Lemma messages_read_back ms js :
  mapM message_to_json ms = Some js →
  ∃ ms', mapM message_of js = Some ms' ∧ Forall2 read_as ms ms'.
Proof.
  intros Hj%mapM_Some_1.
  induction Hj as [|m j ms js Hm _ (ms' & Hms & Hsame)]; [by exists []|].
  destruct (message_read_back m j Hm) as (m' & Hm'%message_of_from_json & Hsm).
  exists (m' :: ms'). split; [|by constructor]. cbn [mapM]. by rw Hm' Hms.
Qed.

(** The numbers of an answer fit in an [int]. *)
Definition int_usage (u : TokenUsage) : Prop :=
  WorkflowDsl.int_range (prompt_tokens u) ∧ WorkflowDsl.int_range (completion_tokens u) ∧
  WorkflowDsl.int_range (total_tokens u).

Lemma usage_read_back u : int_usage u → usage_from_json (usage_to_json u) = Some u.
Proof.
  destruct u as [p c t]. intros (Hp & Hc & Ht).
  transitivity (Some {| prompt_tokens := to_int p; completion_tokens := to_int c;
                        total_tokens := to_int t |}); [done|].
  by rw !WorkflowDsl.to_int_id.
Qed.

Lemma response_read_back r : int_usage (r_usage r) → Connector.openai_response (chat_json r) = Some r.
Proof.
  destruct r as [id model content usage finish calls]. intros Hu%usage_read_back.
  cbn [r_usage] in Hu.
  transitivity ('(content, calls, finish) ←
                  ('(content, calls) ←
                     (calls ← tool_calls_from (if no_elems calls then None
                                else Some (JArray (tool_call_to_json <$> calls)));
                      Some (content, calls));
                   Some (content, calls, finish));
                usage ← usage_from_json (usage_to_json usage);
                Some {| r_id := id; r_model := model; r_content := content; r_usage := usage;
                        r_finish_reason := finish; r_tool_calls := calls |}).
  - destruct calls as [|tc calls]; [done|]. by destruct content.
  - rw Hu. destruct calls as [|tc calls]; [done|]. cbn [no_elems]. by rw tool_calls_read_back.
Qed.

(** A request as the next gateway reads it. *)
Definition same_request (req req' : ChatRequest) : Prop :=
  cr_model req' = cr_model req ∧ Forall2 read_as (cr_messages req) (cr_messages req') ∧
  cr_temperature req' = cr_temperature req ∧ cr_max_tokens req' = cr_max_tokens req ∧
  cr_stream req' = cr_stream req ∧ hasToolsRequest req' = hasToolsRequest req ∧
  (hasToolsRequest req = true → cr_tools req' = cr_tools req) ∧
  cr_tool_choice req' = cr_tool_choice req.

Lemma body_members req js :
  mapM message_to_json (cr_messages req) = Some js →
  ∃ o, Connector.openai_body req = Some (JObject o) ∧
    map_find "model" o = Some (JString (cr_model req)) ∧ map_find "messages" o = Some (JArray js) ∧
    map_find "temperature" o = JFloat <$> cr_temperature req ∧
    map_find "max_tokens" o = JInteger <$> cr_max_tokens req ∧
    map_find "stream" o = (if cr_stream req then Some (JBool true) else None) ∧
    map_find "extra" o = None ∧
    map_find "tools" o = (if hasToolsRequest req then Some (cr_tools req) else None) ∧
    map_find "tool_choice" o =
      (if is_null (cr_tool_choice req) then None else Some (cr_tool_choice req)).
Proof.
  intros Hjs. unfold Connector.openai_body, hasToolsRequest. rw Hjs. cbn [mbind option_bind].
  eexists. split; [done|].
  split_and!; repeat first
    [rw find_put_if | rw find_put_opt | rw find_put_if_ne; [|done] | rw find_put_opt_ne; [|done]]; try done.
  by destruct (is_null (cr_tool_choice req)).
Qed.

Lemma choice_read_back j : default JNull (if is_null j then None else Some j) = j.
Proof. by destruct j. Qed.

Lemma tools_read_back req req' :
  cr_tools req' = default JNull (if hasToolsRequest req then Some (cr_tools req) else None) →
  hasToolsRequest req' = hasToolsRequest req ∧ (hasToolsRequest req = true → cr_tools req' = cr_tools req).
Proof.
  intros Ht. destruct (hasToolsRequest req) eqn:Hh.
  - split; [|done]. by rw /hasToolsRequest Ht.
  - split; [|done]. by rw /hasToolsRequest Ht.
Qed.

Lemma request_read_back req j :
  from_option WorkflowDsl.int_range True (cr_max_tokens req) →
  Connector.openai_body req = Some j → ∃ req', chat_request_of j = Some req' ∧ same_request req req'.
Proof.
  intros Hint Hj.
  destruct (mapM message_to_json (cr_messages req)) as [js|] eqn:Hjs;
    [|by rw /Connector.openai_body Hjs in Hj].
  destruct (messages_read_back _ js Hjs) as (ms & Hms & Hsame).
  destruct (body_members req js Hjs) as (o & Ho & F1 & F2 & F3 & F4 & F5 & F6 & F7 & F8).
  rw Ho in Hj. injection Hj as <-.
  unfold chat_request_of, string_or, json_value, optional. cbn [json_member].
  rw F1 F2 F3 F4 F5 F6 F7 F8. cbn [mbind option_bind as_string from_option Gateway.json_elems]. rw Hms.
  assert (∀ b : bool, match (if b then Some (JBool true) else None) with
    Some v => as_bool v | None => Some false end = Some b) as Hb by by intros [].
  destruct (cr_temperature req) as [temp|] eqn:Et, (cr_max_tokens req) as [n|] eqn:En;
    cbn [mbind option_bind fmap option_fmap option_map as_double as_int];
    rw ?WorkflowDsl.to_int_id //; cbn [mbind option_bind]; rw Hb; cbn [mbind option_bind];
    eexists; (split; [done|]); unfold same_request; rw Et En;
    match goal with |- context [hasToolsRequest ?r = hasToolsRequest req] =>
      destruct (tools_read_back req r eq_refl) as [Ht1 Ht2] end;
    by rw Ht1; split_and!; try exact (choice_read_back _).
Qed.

(** C35. A gateway can be the upstream of another: the body the OpenAI connector
    posts for a request is read by the chat endpoint as the same request (the
    model, the messages, the sampling parameters, the stream flag, the tools),
    and the JSON the endpoint answers with is read by the connector as the very
    response it was made of.  A message is read back with the text the
    guardrails left and its other parts, but for one case: a multimodal message
    that has no text part (an image alone) arrives with an empty text and two
    more parts that are no objects.  The token counts are in the range of the
    [int]s that hold them. *)
Theorem gateway_chain req j r :
  from_option WorkflowDsl.int_range True (cr_max_tokens req) →
  Connector.openai_body req = Some j → int_usage (r_usage r) →
  (∃ req', chat_request_of j = Some req' ∧ same_request req req') ∧
  Connector.openai_response (chat_json r) = Some r.
Proof. intros ???. split; [by eapply request_read_back|by apply response_read_back]. Qed.

(** ** Agents *)

Lemma agent_config_steps config n :
  Orchestrator.max_steps (agent_config config n) <= Orchestrator.max_steps config ∧
  (0 < n → Orchestrator.max_steps (agent_config config n) <= n).
Proof.
  unfold agent_config. cbn. destruct (0 <? n) eqn:Hn; [apply Z.ltb_lt in Hn|apply Z.ltb_ge in Hn];
    cbn; [|lia]. destruct (n <? _) eqn:Hm; [apply Z.ltb_lt in Hm|apply Z.ltb_ge in Hm]; lia.
Qed.

(** What the answer of [agentRun] is when the orchestrator has run with the
    result [out]: an exception of the run leaves the handler; a run that did
    not succeed has its reason in [run_error], but the handler reads the error
    that is not set. *)
Definition agent_outcome (out : option Orchestrator.OrchestrationResult) : Handled :=
  match out with
  | None => Thrown
  | Some r => if Orchestrator.run_success r
              then json_reply dump 200 (version_header version) (agent_json r) else Undefined
  end.

(** What the agent endpoint lets through. *)
Definition agent_admitted (req : HttpRequest) (registry : ToolSandbox.Registry)
    (config : Orchestrator.OrchestrationConfig) (model input : string) (max_steps : Z) : Prop :=
  a_initialized cfg = true ∧ a_shutting_down cfg = false ∧
  validateApiKey (extractBearerToken req) = true ∧ body_over kMaxRequestBodySize req = false ∧
  a_agent_enabled cfg = true ∧ a_agent cfg = Some (registry, config) ∧ a_fallback cfg = true ∧
  parse (q_body req) ≫= agent_body = Some (model, input, max_steps) ∧ input ≠ "".

(** The run of the orchestrator for such a request. *)
Definition agent_run (registry : ToolSandbox.Registry) (config : Orchestrator.OrchestrationConfig)
    (model input : string) (max_steps : Z) : prog Orchestrator.OrchCmd (option Orchestrator.OrchestrationResult) :=
  Orchestrator.run_agent (λ j, default "" (dump j)) parse (agent_config config max_steps) (Some registry)
    true true input model.

Lemma trace_agent req tr h :
  trace (agentRun req) tr h →
  tr = [] ∧ refusal h ∨
  ∃ registry config model input max_steps tr' out,
    agent_admitted req registry config model input max_steps ∧
    trace (agent_run registry config model input max_steps) tr' out ∧
    tr = lift (@OfAgent X) <$> tr' ∧ h = agent_outcome out.
Proof.
  unfold Api.agentRun, when_up, agent_admitted. intros Ht.
  destruct (a_initialized cfg); cbn [negb] in Ht;
    [|refused Ht].
  destruct (a_shutting_down cfg); [refused Ht|].
  destruct (body_over _ _); [refused Ht|].
  destruct (parse (q_body req) ≫= agent_body) as [[[model input] n]|] eqn:Hp;
    [|refused Ht].
  destruct (str_empty input) eqn:Hi; [refused Ht|].
  apply trace_bind in Ht as (tr1 & tr2 & res & -> & Ht & [-> ->]). rw app_nil_r.
  unfold processAgentRequest in Ht.
  destruct (validateApiKey _) eqn:Hv; cbn [negb] in Ht;
    [|refused Ht].
  destruct (a_agent_enabled cfg); cbn [negb] in Ht;
    [|refused Ht].
  destruct (a_agent cfg) as [[registry config]|];
    [|refused Ht].
  destruct (a_fallback cfg); cbn [negb] in Ht;
    [|refused Ht].
  apply trace_bind in Ht as (tr3 & tr4 & out & -> & (tr' & -> & Ht)%trace_translate & [-> ->]).
  right. exists registry, config, model, input, n, tr', out. rw app_nil_r.
  destruct (Orchestrator.trace_run_agent _ _ _ _ _ _ _ _ _ Ht) as (_ & _ & _ & Hout).
  split_and!; try done; [by intros ->|].
  destruct out as [r|]; [|done]. destruct (Hout r eq_refl) as (He & _ & _).
  unfold agent_answer, agent_outcome. cbn [ag_success ag_error ag_run].
  destruct (Orchestrator.run_success r) eqn:Hs; cbn [negb]; [done|]. cbn [andb].
  by destruct (Orchestrator.run_error r) eqn:Hr; [destruct (He Hs)|].
Qed.

(** C36. The agent endpoint: a request that is not let in runs nothing and is
    answered with an error.  One that is let in runs the orchestrator on its
    input and model, once, and what the handler does follows from the result
    of that very run: the JSON of the run when it succeeded; an exception when
    the run ended with one; and undefined behaviour when it ended without
    success, since the handler then reads an error that nobody has set.  The
    run makes at most the configured number of model calls, and no more than
    the request asked for where it gives a number; and tools run only as the
    model's last output asked and the registry allows. *)
Theorem agent_endpoint req tr h :
  trace (agentRun req) tr h →
  tr = [] ∧ refusal h ∨
  ∃ registry config model input max_steps tr' out,
    agent_admitted req registry config model input max_steps ∧
    trace (agent_run registry config model input max_steps) tr' out ∧
    tr = lift (@OfAgent X) <$> tr' ∧ h = agent_outcome out ∧
    Orchestrator.supervised parse (Some registry) None tr' ∧
    (Orchestrator.tool_calls tr' <= Orchestrator.model_calls tr')%nat ∧
    (Orchestrator.model_calls tr' <= Z.to_nat (Orchestrator.max_steps config))%nat ∧
    (0 < max_steps → (Orchestrator.model_calls tr' <= Z.to_nat max_steps)%nat).
Proof.
  intros [Hno|(reg & config & model & input & n & tr' & out & Ha & Hrun & Htr & Hh)]%trace_agent; [by left|].
  right. exists reg, config, model, input, n, tr', out.
  destruct (Orchestrator.trace_run_agent _ _ _ _ _ _ _ _ _ Hrun) as (Hs & Hm & Ht & _).
  destruct (agent_config_steps config n) as [Hc Hn].
  split_and!; [done..|lia|]. intros Hpos%Hn. lia.
Qed.

(** ** Keys *)

Definition unlift (ev : Event (ApiCmd X)) : option (Event (Gateway.GwCmd X)) :=
  let 'Ev e b := ev in
  match e in ApiCmd _ B return B → option (Event (Gateway.GwCmd X)) with
  | OfGateway c => λ b, Some (Ev c b)
  | _ => λ _, None
  end b.

(** The calls of the gateway among those of a handler. *)
Definition gateway_events (tr : list (Event (ApiCmd X))) : list (Event (Gateway.GwCmd X)) :=
  omap unlift tr.

Lemma gateway_events_lift tr : gateway_events (lift (@OfGateway X) <$> tr) = tr.
Proof. induction tr as [|[B e b] tr IH]; [done|]. csimpl. by rw IH. Qed.

(** An answer that gives nothing: a refusal, or an error of the gateway. *)
Definition unserved (h : Handled) : Prop := refusal h ∨ ∃ err, h = gateway_error dump version err.

(** C6. The chat endpoint serves only key holders.  With RBAC on, let the
    authentication service answer the look-ups of the caller's token in the
    worlds [ws] (the store and the clock at that moment, no two keys of a store
    having the same hash).  Unless the token was, in one of these very worlds,
    that of a key that was neither revoked nor expired and belonged to an active
    user of an active tenant, the caller gets an error and no model is reached;
    a stream that was set up for them is held to the same when it runs: it
    reaches no model and sends no delta. *)
Theorem chat_authenticated env deps req tr h ws :
  Gateway.g_auth_service (a_gateway cfg) = true → Gateway.g_rbac (a_gateway cfg) = true →
  Auth.ad_rbac deps = true → let key := extractBearerToken req in
  trace (chatCompletions req) tr h → GatewayFacts.looked_up env deps key ws (gateway_events tr) →
  (∃ w, w ∈ ws ∧ GatewayFacts.key_holder env key w) ∨
  GatewayFacts.upstreams (gateway_events tr) = [] ∧
    (unserved h ∨ ∃ headers chat_req, h = Answered (ChatStream headers chat_req key (template_header req)) ∧
       ∀ tr' r ws', trace (chat_stream fresh cfg chat_req key (template_header req)) tr' r →
         GatewayFacts.looked_up env deps key ws' tr' →
         (∃ w, w ∈ ws' ∧ GatewayFacts.key_holder env key w) ∨
         GatewayFacts.upstreams tr' = [] ∧ ∀ d, Gateway.OnDelta d ∉ GatewayFacts.clients tr').
Proof.
  intros Hauth Hrbac Hdeps key Ht Hres.
  assert (∀ chat_req tr' ws', GatewayFacts.looked_up env deps key ws' tr' →
    GatewayFacts.served fresh (a_gateway cfg) chat_req key (template_header req) tr' →
    ∃ w, w ∈ ws' ∧ GatewayFacts.key_holder env key w)
    as Hkey by (intros ? tr' ws' Hl Hs; by eapply (GatewayFacts.served_key fresh (a_gateway cfg))).
  destruct (trace_chat req tr h Ht) as [[-> Href]|(chat_req & Hacc & Hc)];
    [right; split; [done|by left; left]|].
  destruct (cr_stream chat_req) eqn:Hstr.
  - destruct Hc as [-> (headers & ->)]. right. split; [done|]. right. exists headers, chat_req.
    split; [done|]. intros tr' r ws' Hr Hl.
    destruct (decide (GatewayFacts.upstreams tr' = [])) as [Hno|Hup];
      [|left; apply (Hkey chat_req tr' ws' Hl); right; exists r; split; [done|by left]].
    set (is_delta c := match c with Gateway.OnDelta _ => true | _ => false end).
    destruct (decide (Exists (λ c, is_delta c = true) (GatewayFacts.clients tr'))) as [He|Hn].
    + left. apply (Hkey chat_req tr' ws' Hl). right. exists r. split; [done|]. right.
      apply Exists_exists in He as ([d|?|?] & Hc & Hd); [by exists d|done..].
    + right. split; [done|]. intros d Hd. apply Hn, Exists_exists. by exists (Gateway.OnDelta d).
  - destruct Hc as (tr' & r & -> & Hc & Hh). rw gateway_events_lift in Hres. rw gateway_events_lift.
    destruct (decide (GatewayFacts.upstreams tr' = [])) as [Hno|Hup];
      [|left; apply (Hkey chat_req tr' ws Hres); left; exists r; split; [done|by left]].
    destruct r as [res|]; [|right; split; [done|]; left; left; by left].
    destruct (Gateway.success res) eqn:Hs.
    + left. apply (Hkey chat_req tr' ws Hres). left. exists (Some res). split; [done|]. right. by exists res.
    + right. split; [done|]. left. right. exists (Gateway.error res). rw Hh /chat_answer. by rw Hs.
Qed.

(** A bearer of a key: one the authentication service resolves under RBAC, else
    one of the configured ones, where keys are asked for at all. *)
Definition bearer (key : string) (tr : list (Event (ApiCmd X))) : Prop :=
  if rbac_on cfg then ∃ a, Ev (OfGateway (Gateway.ResolveKey key)) (Some a) ∈ tr
  else a_auth_enabled cfg = true → sha256 key ∈ a_key_hashes cfg.

Definition admin (key : string) : Prop := a_admin_key cfg ≠ "" ∧ sha256 key = sha256 (a_admin_key cfg).


Lemma existsb_eqb s l : existsb (String.eqb s) l = true → s ∈ l.
Proof. intros (x & Hx & ->%String.eqb_eq)%existsb_exists. by apply list_elem_of_In. Qed.

Definition of_key_lookup (ev : Event (ApiCmd X)) : bool :=
  match unlift ev with
  | Some (Ev (Gateway.ResolveKey _) _) => true
  | _ => false
  end.

(** Nothing was done but the look-up of the key. *)
Definition only_looked_up (tr : list (Event (ApiCmd X))) : Prop := forallb of_key_lookup tr = true.

Lemma trace_authorized req k tr h :
  trace (authorized_only (X := X) dump sha256 version cfg req k) tr h →
  only_looked_up tr ∧ refusal h ∨ bearer (extractBearerToken req) tr.
Proof.
  unfold authorized_only, authorizeApiRequest, bearer, Api.validateApiKey.
  destruct (rbac_on cfg).
  - intros Ht. apply trace_bind in Ht as (tr1 & tr2 & ok & -> & Ht1 & Ht2).
    apply trace_call_bind in Ht1 as (a & tr' & -> & [-> ->]).
    destruct a as [a|]; [right; exists a; by left|].
    destruct Ht2 as [-> ->]. left. split; [done|]. by apply make_error_refusal.
  - intros Ht. apply trace_bind in Ht as (tr1 & tr2 & ok & -> & [-> ->] & Ht2).
    destruct (a_auth_enabled cfg); cbn [negb] in Ht2; [|by right].
    destruct (existsb _ _) eqn:Hk; [right; intros _; by apply existsb_eqb|].
    destruct Ht2 as [-> ->]. left. split; [done|]. by apply make_error_refusal.
Qed.

Lemma trace_admin req k tr h :
  trace (admin_only (X := X) dump sha256 version cfg req k) tr h →
  tr = [] ∧ refusal h ∨ admin (extractBearerToken req).
Proof.
  unfold admin_only, validateAdminKey, admin. intros Ht.
  destruct (str_empty (a_admin_key cfg)) eqn:He; [refused Ht|].
  destruct (String.eqb _ _) eqn:Hk; [|refused Ht]. right.
  split; [by intros Hn; rw Hn in He|by apply String.eqb_eq].
Qed.

(** Who gets at what beside the chat: the list of models, the metrics and the
    cache statistics are read only by the bearer of a key; the configuration is
    reloaded, the cache filled and the audit stream opened only by the bearer of
    the admin key, and by nobody where none is configured.  Everybody else gets
    an error, and nothing but the look-up of the key has happened. *)
Theorem endpoint_keys req tr h :
  (trace (listModels (X := X) dump sha256 version cfg req) tr h ∨
   trace (metrics (X := X) dump sha256 version cfg req) tr h ∨
   trace (cacheStats (X := X) dump sha256 version cfg req) tr h →
     only_looked_up tr ∧ refusal h ∨ bearer (extractBearerToken req) tr) ∧
  (trace (reloadConfig (X := X) dump sha256 version cfg req) tr h ∨
   trace (cacheImport (X := X) dump sha256 version cfg req) tr h ∨
   trace (logStream (X := X) dump sha256 version cfg req) tr h →
     tr = [] ∧ refusal h ∨ admin (extractBearerToken req)).
Proof.
  split.
  - intros [Ht|[Ht|Ht]]; [|by eapply trace_authorized..]. unfold listModels, when_up in Ht.
    destruct (a_initialized cfg); cbn [negb] in Ht; [|refused Ht].
    destruct (a_shutting_down cfg); [refused Ht|]. by eapply trace_authorized.
  - intros [Ht|[Ht|Ht]]; by eapply trace_admin.
Qed.

(** Under RBAC the agent and workflow endpoints take any key: they ask only
    [validateApiKey], which leaves the question to the look-up that they never
    make. *)
Lemma agent_any_key req tr h :
  rbac_on cfg = true → trace (agentRun req) tr h → gateway_events tr = [] ∧
  validateApiKey (extractBearerToken req) = true.
Proof.
  intros Hr Ht. split; [|by rw /Api.validateApiKey Hr].
  destruct (trace_agent req tr h Ht) as [[-> _]|(reg & config & model & input & n & tr' & out & _ & _ & -> & _)]; [done|].
  clear. induction tr' as [|[B e b] tr IH]; [done|]. by csimpl.
Qed.

End facts.



(** ** Runs *)

Definition toy_json : json :=
  json_of_list [("model", JString "auto"); ("messages", JArray [json_of_list
    [("role", JString "user"); ("content", JString "my card is 4111")]]);
    ("input", JString "add"); ("max_steps", JInteger 3)].
Definition toy_dump (j : json) : option string := Some "{}".
Definition toy_parse (s : string) : option json :=
  if decide (s = "{body}") then Some toy_json else Orchestrator.toy_parse s.

Definition toy_http : HttpRequest :=
  {| q_header h := if decide (h = "Authorization") then "Bearer " +:+ GatewayFacts.toy_token else "";
     q_param _ := ""; q_body := "{body}" |}.

Definition toy_api : ApiConfig :=
  {| a_initialized := true; a_shutting_down := false; a_gateway := GatewayFacts.toy_config;
     a_proxy := Proxy.toy_px; a_auth_enabled := false; a_key_hashes := []; a_admin_key := "root";
     a_agent_enabled := true;
     a_agent := Some (Orchestrator.toy_registry,
                      {| Orchestrator.max_steps := 5; Orchestrator.max_total_timeout_ms := 1000 |});
     a_fallback := true; a_workflow_enabled := false; a_workflow_engine := false; a_store := None;
     a_cache_store := None; a_semantic_cache := false; a_audit := true |}.

Definition toy_exec (B : Type) (e : ApiCmd unit B) (n : nat) : B * nat :=
  match e in ApiCmd _ B return B * nat with
  | OfGateway c => ((GatewayFacts.toy_exec _ c tt).1, n)
  | OfProxy c => ((Proxy.toy_exec _ c tt).1, n)
  | OfAgent c => Orchestrator.toy_exec _ c n
  | RunWorkflow _ _ _ => (None, n)
  | Models => ([("m1", "openai")], n)
  | ExposeMetrics => ("requests 1", n)
  | StoreReady | CacheReady | ReloadConfig => (true, n)
  | ReadCacheStats => ({| hit_count := 0; miss_count := 0; put_count := 0; entry_count := 0;
                          hit_rate := 0; current_threshold := 0 |}, n)
  | ImportCache _ => (0, n)
  end.

Definition toy_chat : prog (ApiCmd unit) Handled :=
  chatCompletions tt toy_dump toy_parse id id "1" toy_api toy_http.
Definition toy_agent : prog (ApiCmd unit) Handled :=
  agentRun toy_dump toy_parse id id "1" toy_api toy_http.

Lemma gateway_chain_witness :
  ∃ j req', Connector.openai_body GatewayFacts.toy_request = Some j ∧
    chat_request_of j = Some req' ∧ cr_model req' = "auto" ∧
    Connector.openai_response (chat_json (Orchestrator.toy_answer 1)) = Some (Orchestrator.toy_answer 1).
Proof.
  destruct (Connector.openai_body GatewayFacts.toy_request) as [j|] eqn:Hj; [|by vm_compute in Hj].
  destruct (gateway_chain GatewayFacts.toy_request j (Orchestrator.toy_answer 1))
    as [(req' & Hr & Hm & _) Hresp]; [done|done|by vm_compute|by exists j, req'].
Defined.

Lemma toy_runs :
  GatewayFacts.upstreams (gateway_events (recorded toy_exec toy_chat 0%nat)) =
    [(GatewayFacts.masked_request, "m1")] ∧
  GatewayFacts.resolutions GatewayFacts.toy_token (gateway_events (recorded toy_exec toy_chat 0%nat)) =
    [(run (Identity.id_exec Auth.toy_env)
        (Auth.resolve Auth.toy_env Auth.toy_deps GatewayFacts.toy_token) Auth.toy_world).1] ∧
  length (recorded toy_exec toy_agent 0%nat) ≠ 0%nat.
Proof. split_and!; by vm_compute. Qed.

Lemma agent_endpoint_witness :
  ∃ tr' out, recorded toy_exec toy_agent 0%nat = lift (@OfAgent unit) <$> tr' ∧
    (run toy_exec toy_agent 0%nat).1 = agent_outcome toy_dump "1" out ∧
    (Orchestrator.model_calls tr' <= 3)%nat.
Proof.
  destruct (agent_endpoint toy_dump toy_parse id id "1" toy_api toy_http
    (recorded toy_exec toy_agent 0%nat) (run toy_exec toy_agent 0%nat).1)
    as [[Hno _]|(reg & config & model & input & n & tr' & out & Ha & _ & Htr & Hh & _ & _ & _ & Hn)].
  - apply recorded_trace.
  - destruct toy_runs as (_ & _ & Hlen). by rw Hno in Hlen.
  - exists tr', out. split_and!; [done|done|].
    destruct Ha as (_ & _ & _ & _ & _ & _ & _ & [= _ _ <-] & _). by apply Hn.
Defined.

Lemma chat_authenticated_witness : GatewayFacts.key_holder Auth.toy_env GatewayFacts.toy_token Auth.toy_world.
Proof.
  destruct toy_runs as (Hup & Hres & _).
  destruct (chat_authenticated tt toy_dump toy_parse id id "1" toy_api Auth.toy_env Auth.toy_deps
    toy_http (recorded toy_exec toy_chat 0%nat) (run toy_exec toy_chat 0%nat).1 [Auth.toy_world]) as [H|[Hno _]].
  - done.
  - done.
  - done.
  - apply recorded_trace.
  - change (extractBearerToken toy_http) with GatewayFacts.toy_token.
    unfold GatewayFacts.looked_up. rw Hres. constructor; [|constructor]. split; [exact Auth.toy_hashes|done].
  - destruct H as (w & Hw & H). apply list_elem_of_singleton in Hw as ->. exact H.
  - by rw Hup in Hno.
Defined.

Lemma endpoint_keys_witness :
  admin id toy_api "root" ∧
  only_looked_up (recorded toy_exec (metrics toy_dump id "1" toy_api
    {| q_header _ := ""; q_param _ := ""; q_body := "" |}) 0%nat).
Proof.
  split.
  - destruct (proj2 (endpoint_keys (X := unit) toy_dump id "1" toy_api
      {| q_header _ := "Bearer root"; q_param _ := ""; q_body := "" |} []
      (Answered (LogStream [("Cache-Control", "no-cache"); ("Connection", "keep-alive")] ""))))
      as [[_ [Hr|(r & Hr & _)]]|Ha]; [right; right; by split|done|done|exact Ha].
  - destruct (proj1 (endpoint_keys toy_dump id "1" toy_api
      {| q_header _ := ""; q_param _ := ""; q_body := "" |}
      (recorded toy_exec (metrics toy_dump id "1" toy_api
         {| q_header _ := ""; q_param _ := ""; q_body := "" |}) 0%nat)
      (run toy_exec (metrics toy_dump id "1" toy_api
         {| q_header _ := ""; q_param _ := ""; q_body := "" |}) 0%nat).1))
      as [[Hl _]|Hb]; [right; left; apply recorded_trace|exact Hl|].
    by vm_compute.
Defined.

End Api.
