(* ===== verification/AdminSession.v ===== *)
(** * AdminSession: who may use the admin interface

    Models [src/src/server/admin_session.cpp]: the address allow-list with its
    IPv4 ranges ([inet_pton] and [std::stoi] included), the recovery of the
    client address behind trusted proxies, the CORS decision, and the
    resolution of a session cookie for the HTTP and WebSocket endpoints with
    its MFA gate. *)
From Corelib Require Import PrimFloat.
From S2P Require Import Prelude.
From S2P Require Import Prog.
From S2P Require Import Json.
From S2P Require Import Jwt.
From S2P Require Import IsoTime.
From S2P Require Import Identity.
From S2P Require Import Auth.
Import Auth.
Local Open Scope Z_scope.

Module AdminSession.

(** ** Addresses *)

Definition digit_value (c : ascii) : option Z :=
  let v := byte_of c - 48 in if (0 <=? v) && (v <=? 9) then Some v else None.

(** [s.c_str()] as a C string. *)
Fixpoint c_str (s : string) : list ascii :=
  match s with
  | EmptyString => []
  | String c s => if decide (c = "000"%char) then [] else c :: c_str s
  end.

(** The loop of [inet_pton] for IPv4: the octets before the current one, the
    current one, whether it has a digit, and how many octets have begun. *)
Fixpoint pton_loop (l : list ascii) (done : list Z) (cur : Z) (saw_digit : bool) (octets : Z) :
    option (list Z) :=
  match l with
  | [] => if octets <? 4 then None else Some (done ++ [cur])
  | c :: l =>
      match digit_value c with
      | Some v =>
          let new := cur * 10 + v in
          if saw_digit && (cur =? 0) then None
          else if 255 <? new then None
          else if saw_digit then pton_loop l done new true octets
          else if 4 <? octets + 1 then None
          else pton_loop l done new true (octets + 1)
      | None =>
          if decide (c = "."%char) then
            if saw_digit then
              if octets =? 4 then None else pton_loop l (done ++ [cur]) 0 false octets
            else None
          else None
      end
  end.

(** [ntohl] of the address: the octets in base 256. *)
Definition parseIpv4 (s : string) : option Z :=
  octets ← pton_loop (c_str s) [] 0 false 0;
  Some (foldl (λ a o, a * 256 + o) 0 octets).

Definition isspace (c : ascii) : bool :=
  let b := byte_of c in (b =? 32) || ((9 <=? b) && (b <=? 13)).

Fixpoint skip_spaces (l : list ascii) : list ascii :=
  match l with
  | c :: l' => if isspace c then skip_spaces l' else l
  | [] => []
  end.

(** The leading digits as a number, and whether there is one. *)
Fixpoint strtol_digits (l : list ascii) (acc : Z) (any : bool) : option Z :=
  match l with
  | c :: l => match digit_value c with
              | Some v => strtol_digits l (acc * 10 + v) true
              | None => if any then Some acc else None
              end
  | [] => if any then Some acc else None
  end.

(** [std::stoi]: the number at the start of the text, [None] for the
    exceptions of no number and of one out of range. *)
Definition stoi (s : string) : option Z :=
  let l := skip_spaces (c_str s) in
  let '(neg, l) := match l with
                   | c :: l' => if decide (c = "-"%char) then (true, l')
                                else if decide (c = "+"%char) then (false, l') else (false, l)
                   | [] => (false, l)
                   end in
  n ← strtol_digits l 0 false;
  let n := if neg : bool then - n else n in
  if (- 2 ^ 31 <=? n) && (n <? 2 ^ 31) then Some n else None.

Definition u32_not (z : Z) : Z := 2 ^ 32 - 1 - z.

Definition cidr_mask (prefix : Z) : Z :=
  if prefix =? 32 then 0xFFFFFFFF else u32_not (Z.shiftl 1 (32 - prefix) - 1).

Definition cidrMatchV4 (cidr ip : string) : bool :=
  match str_find "/"%char 0 cidr with
  | None => false
  | Some slash =>
      match stoi (substr_from (slash + 1) cidr) with
      | None => false
      | Some prefix =>
          if (prefix <? 0) || (32 <? prefix) then false
          else match parseIpv4 (String.substring 0 slash cidr), parseIpv4 ip with
               | Some net_i, Some ip_i =>
                   if prefix =? 0 then true
                   else let mask := cidr_mask prefix in
                        Z.land net_i mask =? Z.land ip_i mask
               | _, _ => false
               end
      end
  end.

Definition ipMatchesEntry (entry ip : string) : bool :=
  if decide (entry = ip) then true
  else if bool_decide (is_Some (str_find "/"%char 0 entry)) then cidrMatchV4 entry ip
  else false.

Definition ipInList (ip : string) (l : list string) : bool := existsb (λ e, ipMatchesEntry e ip) l.

Definition isAdminIpAllowed (ip : string) (allowed_ips : list string) : bool :=
  match allowed_ips with [] => true | _ => ipInList ip allowed_ips end.

(** ** The client behind a proxy *)

(** [std::getline] with [',']: the pieces, without an empty last one. *)
Fixpoint split_commas (cur s : string) : list string :=
  match s with
  | EmptyString => if str_empty cur then [] else [cur]
  | String c s =>
      if decide (c = ","%char) then cur :: split_commas "" s
      else split_commas (cur +:+ String c "") s
  end.

Definition blank (c : ascii) : bool := bool_decide (c = " "%char ∨ c = "009"%char).

Fixpoint drop_blanks (s : string) : string :=
  match s with
  | String c s' => if blank c then drop_blanks s' else s
  | EmptyString => ""
  end.

(** Cut after the last character that is not blank. *)
Fixpoint drop_last_blanks (s : string) : string :=
  match s with
  | EmptyString => ""
  | String c s' =>
      match drop_last_blanks s' with
      | EmptyString => if blank c then "" else String c ""
      | s'' => String c s''
      end
  end.

Definition xff_parts (xff_header : string) : list string :=
  base.filter (λ p, p ≠ "")
    ((λ item, drop_last_blanks (drop_blanks item)) <$> split_commas "" xff_header).

Definition resolveClientIp (peer_ip xff_header : string) (trusted_proxies : list string) : string :=
  if bool_decide (trusted_proxies = []) || str_empty xff_header then peer_ip
  else if negb (ipInList peer_ip trusted_proxies) then peer_ip
  else
    let parts := xff_parts xff_header in
    match list_find (λ p, ipInList p trusted_proxies = false) (reverse parts) with
    | Some (_, p) => p
    | None => default peer_ip (head parts)
    end.

(** ** CORS *)

Record CorsDecision := {
  allowed : bool; allow_origin : string; allow_credentials : bool; vary_origin : bool;
}.

Definition no_cors : CorsDecision :=
  {| allowed := false; allow_origin := ""; allow_credentials := false; vary_origin := false |}.

Fixpoint cors_loop (origin : string) (l : list string) (has_wildcard : bool) : CorsDecision :=
  match l with
  | [] => if has_wildcard
          then {| allowed := true; allow_origin := "*"; allow_credentials := false;
                  vary_origin := false |}
          else no_cors
  | o :: l =>
      if decide (o = "*") then cors_loop origin l true
      else if decide (o = origin)
      then {| allowed := true; allow_origin := origin; allow_credentials := true;
              vary_origin := true |}
      else cors_loop origin l has_wildcard
  end.

Definition decideCors (origin : string) (allowed_origins : list string) : CorsDecision :=
  if str_empty origin then no_cors else cors_loop origin allowed_origins false.

(** ** What an admin connection receives *)

Definition shouldDeliverAuditToConnection (is_super : bool) (conn_tenant_id entry_tenant_id : string) :
    bool := is_super || bool_decide (conn_tenant_id = entry_tenant_id).

Definition shouldDeliverGlobalMetrics (is_super : bool) : bool := is_super.

(** ** Sessions *)

Section sessions.
Context `{UnorderedIter} (env : IdEnv).
Context (hmacSha256 : string → string → string) (parse : string → option json)
  (trunc : float → Z).

(** The context of an accepted token; [auth_svc] is [None] for a null
    pointer. *)
Definition jwt_context (p : Jwt.JwtPayload) (auth_svc : option AuthDeps) : AuthContext :=
  {| c_tenant_id := Jwt.jp_tenant_id p; c_user_id := Jwt.jp_user_id p; c_api_key_id := "";
     c_role := default Viewer (roleFromString (Jwt.jp_role p));
     c_is_rbac_enabled := from_option ad_rbac false auth_svc; c_session_id := "";
     c_auth_method := ""; c_mfa_verified := false; c_external_subject := "" |}.

Definition jwt_fallback (session_cookie : string) (auth_svc : option AuthDeps)
    (jwt_secret : string) : prog IdCmd (option AuthContext) :=
  if str_empty jwt_secret then Ret None
  else
    t ← call Clock;
    match Jwt.verify hmacSha256 parse trunc session_cookie jwt_secret (seconds t) with
    | None => Ret None
    | Some p =>
        let ctx := jwt_context p auth_svc in
        if from_option (λ deps, isMfaRequired deps ctx) false auth_svc then Ret None
        else Ret (Some ctx)
    end.

Definition resolveAdminSession (session_cookie client_ip : string) (allowed_ips : list string)
    (auth_svc : option AuthDeps) (jwt_secret : string) : prog IdCmd (option AuthContext) :=
  if negb (isAdminIpAllowed client_ip allowed_ips) then Ret None
  else if str_empty session_cookie then Ret None
  else match auth_svc with
  | Some deps =>
      session_ctx ← resolveSession deps session_cookie;
      match session_ctx with
      | Some ctx =>
          if isMfaRequired deps ctx && negb (c_mfa_verified ctx) then Ret None else Ret (Some ctx)
      | None => jwt_fallback session_cookie auth_svc jwt_secret
      end
  | None => jwt_fallback session_cookie auth_svc jwt_secret
  end.

Definition resolvePendingMfaSession (session_cookie client_ip : string) (allowed_ips : list string)
    (auth_svc : option AuthDeps) : prog IdCmd (option AuthContext) :=
  if negb (isAdminIpAllowed client_ip allowed_ips) then Ret None
  else if str_empty session_cookie then Ret None
  else match auth_svc with
  | None => Ret None
  | Some deps =>
      session_ctx ← resolveSession deps session_cookie;
      match session_ctx with
      | Some ctx =>
          if isMfaRequired deps ctx && negb (c_mfa_verified ctx) then Ret (Some ctx) else Ret None
      | None => Ret None
      end
  end.

Definition resolveMfaChallengeSession (session_cookie client_ip : string)
    (allowed_ips : list string) (auth_svc : option AuthDeps) (jwt_secret : string) :
    prog IdCmd (option AuthContext) :=
  ctx ← resolveAdminSession session_cookie client_ip allowed_ips auth_svc jwt_secret;
  match ctx with
  | Some ctx => Ret (Some ctx)
  | None => resolvePendingMfaSession session_cookie client_ip allowed_ips auth_svc
  end.

End sessions.

(** ** Lemmas on addresses *)

(** A number below 1000 without leading zeros. *)
Definition num_chars (n : Z) : list ascii :=
  if n <? 10 then [IsoTime.digit n]
  else if n <? 100 then [IsoTime.digit (n / 10); IsoTime.digit (n mod 10)]
  else [IsoTime.digit (n / 100); IsoTime.digit (n / 10 mod 10); IsoTime.digit (n mod 10)].

Definition num_text (n : Z) : string := String.string_of_list_ascii (num_chars n).

(** The address in dotted decimal. *)
Definition quad_chars (x : Z) : list ascii :=
  num_chars (x / 2 ^ 24) ++ "."%char :: num_chars (x / 2 ^ 16 mod 256) ++
  "."%char :: num_chars (x / 2 ^ 8 mod 256) ++ "."%char :: num_chars (x mod 256).

Definition quad (x : Z) : string := String.string_of_list_ascii (quad_chars x).

Lemma digit_value_digit v : 0 <= v < 10 → digit_value (IsoTime.digit v) = Some v.
Proof.
  revert v. apply (below_all _ 10). apply (bool_decide_unpack _). by vm_compute.
Qed.

Lemma pton_first v l done octets :
  0 <= v < 10 → octets < 4 →
  pton_loop (IsoTime.digit v :: l) done 0 false octets = pton_loop l done v true (octets + 1).
Proof.
  intros Hv Ho. cbn [pton_loop]. rw digit_value_digit //. cbn [andb].
  rw (proj2 (Z.ltb_ge 255 _)); [|lia]. rw (proj2 (Z.ltb_ge 4 _)); [|lia]. done.
Qed.

Lemma pton_more v cur l done octets :
  0 <= v < 10 → 0 < cur → cur * 10 + v <= 255 →
  pton_loop (IsoTime.digit v :: l) done cur true octets = pton_loop l done (cur * 10 + v) true octets.
Proof.
  intros Hv Hc Hn. cbn [pton_loop]. rw digit_value_digit //.
  rw (proj2 (Z.eqb_neq cur 0)); [|lia]. cbn [andb]. rw (proj2 (Z.ltb_ge 255 _)); [|lia]. done.
Qed.

Lemma pton_octet n l done octets :
  0 <= n < 256 → octets < 4 →
  pton_loop (num_chars n ++ l) done 0 false octets = pton_loop l done n true (octets + 1).
Proof.
  intros Hn Ho. unfold num_chars.
  assert (n / 100 = n / 10 / 10) as H100 by by rw Z.div_div //.
  destruct (Z.ltb_spec n 10); [apply pton_first; lia|].
  assert (n = n / 10 * 10 + n mod 10) as Hd by (pose proof (Z.div_mod n 10); lia).
  assert (0 <= n mod 10 < 10) by by apply Z.mod_pos_bound.
  destruct (Z.ltb_spec n 100); cbn [app].
  - rw pton_first; [|Z.to_euclidean_division_equations; lia|done].
    rw pton_more; [by rw -Hd|done|Z.to_euclidean_division_equations; lia|lia].
  - rw pton_first; [|Z.to_euclidean_division_equations; lia|done].
    assert (n / 10 = n / 100 * 10 + n / 10 mod 10) as Hd'
      by (rw H100; pose proof (Z.div_mod (n / 10) 10); lia).
    rw pton_more; [|by apply Z.mod_pos_bound|Z.to_euclidean_division_equations; lia|lia].
    rw -Hd' pton_more; [by rw -Hd|done|lia|lia].
Qed.

Lemma pton_dot cur l done octets :
  octets < 4 →
  pton_loop ("."%char :: l) done cur true octets = pton_loop l (done ++ [cur]) 0 false octets.
Proof. intros Ho. cbn [pton_loop]. simpl. by rw (proj2 (Z.eqb_neq octets 4)); [|lia]. Qed.

Lemma pton_quad x :
  0 <= x < 2 ^ 32 →
  pton_loop (quad_chars x) [] 0 false 0 =
  Some [x / 2 ^ 24; x / 2 ^ 16 mod 256; x / 2 ^ 8 mod 256; x mod 256].
Proof.
  intros Hx. unfold quad_chars.
  assert (0 <= x / 2 ^ 24 < 256) by (Z.to_euclidean_division_equations; lia).
  do 3 (rw pton_octet; [|(done || by apply Z.mod_pos_bound)|done]; rw pton_dot //).
  rw -(app_nil_r (num_chars (x mod 256))) pton_octet; [done|by apply Z.mod_pos_bound|done].
Qed.

Lemma quad_value x :
  0 <= x < 2 ^ 32 →
  foldl (λ a o, a * 256 + o) 0 [x / 2 ^ 24; x / 2 ^ 16 mod 256; x / 2 ^ 8 mod 256; x mod 256] = x.
Proof.
  intros Hx. simpl. rw (_ : x / 16777216 = x / 256 / 256 / 256); [|by rw !Z.div_div //].
  rw (_ : x / 65536 = x / 256 / 256); [|by rw Z.div_div //].
  pose proof (Z.div_mod x 256). pose proof (Z.div_mod (x / 256) 256).
  pose proof (Z.div_mod (x / 256 / 256) 256). change (2 ^ 8) with 256. lia.
Qed.

(** Neither a NUL nor a slash. *)
Definition plain (c : ascii) : Prop := c ≠ "000"%char ∧ c ≠ "/"%char.

Lemma num_chars_plain n : 0 <= n < 1000 → Forall plain (num_chars n).
Proof.
  intros Hn. assert (∀ v, 0 <= v < 10 → plain (IsoTime.digit v)) as Hp.
  { apply (below_all _ 10). apply (bool_decide_unpack _). by vm_compute. }
  unfold num_chars. destruct (Z.ltb_spec n 10); [|destruct (Z.ltb_spec n 100)];
    repeat constructor; apply Hp; Z.to_euclidean_division_equations; lia.
Qed.

Lemma quad_chars_plain x : 0 <= x < 2 ^ 32 → Forall plain (quad_chars x).
Proof.
  intros Hx. assert (0 <= x / 2 ^ 24 < 256) by (Z.to_euclidean_division_equations; lia).
  assert (∀ a, Forall plain (num_chars (a mod 256))) as Hm.
  { intros a. apply num_chars_plain. pose proof (Z.mod_pos_bound a 256). lia. }
  assert (plain "."%char) as Hdot by by split.
  unfold quad_chars. repeat first [apply Forall_app; split|apply Forall_cons; split]; try done.
  apply num_chars_plain. lia.
Qed.

Lemma c_str_plain l : Forall plain l → c_str (String.string_of_list_ascii l) = l.
Proof. induction 1 as [|c l [Hc _] _ IH]; [done|]. simpl. by rw decide_False // IH. Qed.

Lemma parse_quad x : 0 <= x < 2 ^ 32 → parseIpv4 (quad x) = Some x.
Proof.
  intros Hx. unfold parseIpv4, quad. rw c_str_plain; [|by apply quad_chars_plain].
  rw pton_quad //. cbn [mbind option_bind]. by rw quad_value.
Qed.

Lemma strtol_num n : 0 <= n < 1000 → strtol_digits (num_chars n) 0 false = Some n.
Proof.
  intros Hn. unfold num_chars. destruct (Z.ltb_spec n 10); [|destruct (Z.ltb_spec n 100)];
    cbn [strtol_digits]; rw !digit_value_digit; try (Z.to_euclidean_division_equations; lia);
    f_equal; Z.to_euclidean_division_equations; lia.
Qed.

Lemma stoi_num n : 0 <= n < 1000 → stoi (num_text n) = Some n.
Proof.
  intros Hn. unfold stoi, num_text. rw c_str_plain; [|by apply num_chars_plain].
  pose proof (strtol_num n Hn) as Hs.
  assert (∃ c l, num_chars n = c :: l ∧ isspace c = false ∧ c ≠ "-"%char ∧ c ≠ "+"%char)
    as (c & l & E & Hsp & Hm & Hp).
  { assert (∀ v, 0 <= v < 10 → isspace (IsoTime.digit v) = false ∧
              IsoTime.digit v ≠ "-"%char ∧ IsoTime.digit v ≠ "+"%char) as Hd.
    { apply (below_all _ 10). apply (bool_decide_unpack _). by vm_compute. }
    unfold num_chars. destruct (Z.ltb_spec n 10); [|destruct (Z.ltb_spec n 100)];
      eexists _, _; (split; [done|]); apply Hd; Z.to_euclidean_division_equations; lia. }
  rw E in Hs *. cbn [skip_spaces]. rw Hsp !decide_False // Hs. cbn [mbind option_bind].
  rw !(proj2 (Z.leb_le _ _)); [|lia]. by rw (proj2 (Z.ltb_lt _ _)); [|lia].
Qed.

(** The masked bits are the quotient. *)
Lemma land_mask n p :
  0 <= n < 2 ^ 32 → 0 < p <= 32 → Z.land n (cidr_mask p) = n / 2 ^ (32 - p) * 2 ^ (32 - p).
Proof.
  intros Hn Hp.
  assert (cidr_mask p = Z.shiftl (Z.ones p) (32 - p)) as ->.
  { unfold cidr_mask, u32_not. rw !Z.shiftl_mul_pow2; [|lia..]. rw Z.ones_equiv -Z.sub_1_r.
    destruct (Z.eqb_spec p 32) as [->|]; [done|].
    rw Z.mul_sub_distr_r -Z.pow_add_r; [|lia..]. rw (_ : p + (32 - p) = 32); lia. }
  rw -Z.shiftl_mul_pow2; [|lia]. rw -Z.shiftr_div_pow2; [|lia].
  apply Z.bits_inj'. intros j Hj. rw Z.land_spec.
  destruct (Z.lt_ge_cases j (32 - p)).
  { rw !Z.shiftl_spec_low //. by rw andb_false_r. }
  rw !Z.shiftl_spec_high; [|lia..]. rw (_ : j - (32 - p) - - (32 - p) = j); [|lia].
  destruct (Z.lt_ge_cases (j - (32 - p)) p).
  - by rw Z.ones_spec_low; [rw andb_true_r|lia].
  - rw Z.ones_spec_high; [|lia]. rw andb_false_r.
    symmetry. apply Z.testbit_false; [lia|]. rw Z.div_small //.
    split; [lia|]. eapply Z.lt_le_trans; [apply Hn|]. apply Z.pow_le_mono_r; lia.
Qed.

Lemma has_slash_plain l : Forall plain l → ¬ has_char "/"%char (String.string_of_list_ascii l).
Proof.
  intros Hl. unfold has_char. rw String.list_ascii_of_string_of_list_ascii. intros Hin.
  rw Forall_forall in Hl. by destruct (Hl _ Hin).
Qed.

Lemma xff_parts_app (a b : string) :
  xff_parts (a +:+ "," +:+ b) = xff_parts a ++ xff_parts b.
Proof.
  unfold xff_parts. set (trim := λ item, drop_last_blanks (drop_blanks item)).
  assert (∀ cur, base.filter (λ p, p ≠ "") (trim <$> split_commas cur (a +:+ "," +:+ b)) =
            base.filter (λ p, p ≠ "") (trim <$> split_commas cur a) ++
            base.filter (λ p, p ≠ "") (trim <$> split_commas "" b)) as Hgen; [|apply Hgen].
  induction a as [|c a IH]; intros cur.
  - change ("" +:+ "," +:+ b) with (String "," b). cbn [split_commas].
    destruct (decide _) as [_|]; [|done]. rw fmap_cons. destruct (str_empty cur) eqn:Hcur.
    + apply str_empty_spec in Hcur as ->. rw filter_cons_False //. by intros [].
    + by rw -filter_app.
  - rw string_cons_app. cbn [split_commas]. case_decide; [|apply IH].
    rw !fmap_cons !filter_cons. by case_decide; rw IH.
Qed.

(** The rightmost address that is not a trusted proxy. *)
Lemma list_find_reverse {A} (P : A → Prop) `{!∀ x, Decision (P x)} pre c post :
  P c → Forall (λ x, ¬ P x) post → ∃ i, list_find P (reverse (pre ++ c :: post)) = Some (i, c).
Proof.
  intros Hc Hpost. rw reverse_app reverse_cons -app_assoc.
  exists (length (reverse post)). apply list_find_app_Some. right. split_and!; [done| |].
  - apply list_find_None. by rw Forall_reverse.
  - rw Nat.sub_diag. cbn [app list_find]. by rw decide_True.
Qed.

Lemma cors_loop_spec origin l wild :
  origin ≠ "" →
  let d := cors_loop origin l wild in
  (allow_credentials d = true ↔ origin ≠ "*" ∧ origin ∈ l) ∧
  (allow_credentials d = true → allow_origin d = origin ∧ vary_origin d = true) ∧
  (allow_origin d = "*" → allow_credentials d = false).
Proof.
  intros Hemp. revert wild. induction l as [|o l IH]; intros wild; simpl.
  - rw elem_of_nil. destruct wild; simpl; naive_solver.
  - rw elem_of_cons. destruct (decide (o = "*")) as [->|Hw]; [|destruct (decide (o = origin)) as [->|]].
    + destruct (IH true) as (H1 & H2 & H3). naive_solver.
    + simpl. naive_solver.
    + destruct (IH wild) as (H1 & H2 & H3). naive_solver.
Qed.

Lemma jwt_fallback_some env hmac parse trunc cookie svc secret w ctx :
  (run (id_exec env) (jwt_fallback hmac parse trunc cookie svc secret) w).1 = Some ctx →
  secret ≠ "" ∧ ∃ p,
    Jwt.verify hmac parse trunc cookie secret (seconds (iw_clock w)) = Some p ∧
    ctx = jwt_context p svc ∧ (∀ deps, svc = Some deps → isMfaRequired deps ctx = false).
Proof.
  unfold jwt_fallback. destruct (str_empty secret) eqn:Hs; [done|]. rw run_clock.
  destruct (Jwt.verify _ _ _ _ _ _) as [p|]; [|done].
  destruct (from_option _ false svc) eqn:Hm; [done|]. intros [= <-].
  split; [by apply str_empty_false|]. exists p. split_and!; [done..|]. by intros deps ->.
Qed.

(** ** Properties *)

(** An address matches a range exactly when the two agree on the bits that the
    prefix length selects. *)
Theorem cidr_membership net ip p :
  0 <= net < 2 ^ 32 → 0 <= ip < 2 ^ 32 → 0 <= p <= 32 →
  cidrMatchV4 (quad net +:+ "/" +:+ num_text p) (quad ip) =
  (net / 2 ^ (32 - p) =? ip / 2 ^ (32 - p)).
Proof.
  intros Hnet Hip Hp. unfold cidrMatchV4.
  change (quad net +:+ "/" +:+ num_text p) with (quad net +:+ String "/" (num_text p)).
  rw str_find_first; [|by apply has_slash_plain, quad_chars_plain].
  rw substring_app_l !parse_quad //.
  assert (quad net +:+ String "/" (num_text p) = (quad net +:+ "/") +:+ num_text p) as E
    by by rw string_app_assoc.
  rw E (_ : String.length (quad net) + 1 = String.length (quad net +:+ "/"))%nat;
    [|by rw string_length_app].
  rw substr_from_app stoi_num; [|lia].
  rw (proj2 (Z.ltb_ge p 0)); [|lia]. rw (proj2 (Z.ltb_ge 32 p)); [|lia]. cbn [orb].
  destruct (Z.eqb_spec p 0) as [->|].
  - rw !Z.div_small //.
  - rw !land_mask //; [|lia..]. apply eq_true_iff_eq. rw !Z.eqb_eq.
    rw Z.mul_cancel_r //. apply Z.pow_nonzero; lia.
Qed.

Lemma cidr_membership_witness :
  quad 167838211 = "10.1.2.3" ∧
  cidrMatchV4 "10.0.0.0/8" "10.1.2.3" = true ∧ cidrMatchV4 "10.0.0.0/8" "11.1.2.3" = false.
Proof.
  split; [by vm_compute|].
  assert (quad 167772160 +:+ "/" +:+ num_text 8 = "10.0.0.0/8") as En by by vm_compute.
  assert (quad 167838211 = "10.1.2.3") as E1 by by vm_compute.
  assert (quad 184615427 = "11.1.2.3") as E2 by by vm_compute.
  rewrite -En -E1 -E2. split.
  - rewrite (cidr_membership 167772160 167838211 8); [by vm_compute|lia|lia|lia].
  - rewrite (cidr_membership 167772160 184615427 8); [by vm_compute|lia|lia|lia].
Defined.

(** The client cannot choose its address: a peer that is not a trusted proxy
    is its own address, and behind trusted proxies the address is the last one
    they did not vouch for, whatever the header the client itself sent. *)
Theorem client_ip_unspoofable peer spoof tail trusted client proxies :
  (ipInList peer trusted = false → ∀ header, resolveClientIp peer header trusted = peer) ∧
  (ipInList peer trusted = true → xff_parts tail = client :: proxies →
   ipInList client trusted = false → Forall (λ p, ipInList p trusted = true) proxies →
   resolveClientIp peer (spoof +:+ "," +:+ tail) trusted = client).
Proof.
  split; unfold resolveClientIp.
  - intros Hp header. rw Hp /=. by destruct (_ || _).
  - intros Hp Htail Hc Hproxies.
    assert (bool_decide (trusted = []) || str_empty (spoof +:+ "," +:+ tail) = false) as ->.
    { apply orb_false_iff. split; [by destruct trusted|]. apply str_empty_false. by destruct spoof. }
    rw Hp /= xff_parts_app Htail.
    destruct (list_find_reverse (λ p, ipInList p trusted = false) (xff_parts spoof) client proxies)
      as [i ->]; [done| |done].
    eapply Forall_impl; [done|]. simpl. by intros p ->.
Qed.

Lemma client_ip_unspoofable_witness :
  resolveClientIp "203.0.113.9" "10.9.9.9" ["10.0.0.0/8"] = "203.0.113.9" ∧
  resolveClientIp "10.0.0.1" ("127.0.0.1, 10.9.9.9" +:+ "," +:+ " 198.51.100.7 ,10.0.0.2")
    ["10.0.0.0/8"] = "198.51.100.7".
Proof.
  split.
  - apply (proj1 (client_ip_unspoofable "203.0.113.9" "" "" ["10.0.0.0/8"] "" [])). by vm_compute.
  - apply (proj2 (client_ip_unspoofable "10.0.0.1" "127.0.0.1, 10.9.9.9" " 198.51.100.7 ,10.0.0.2"
             ["10.0.0.0/8"] "198.51.100.7" ["10.0.0.2"])); [by vm_compute..|].
    repeat constructor; by vm_compute.
Defined.

(** Credentials are only allowed for an origin that is on the list by name,
    which is then echoed; a wildcard never carries credentials. *)
Theorem cors_credentials origin l :
  (allow_credentials (decideCors origin l) = true ↔ origin ≠ "" ∧ origin ≠ "*" ∧ origin ∈ l) ∧
  (allow_credentials (decideCors origin l) = true →
     allow_origin (decideCors origin l) = origin ∧ vary_origin (decideCors origin l) = true) ∧
  (allow_origin (decideCors origin l) = "*" → allow_credentials (decideCors origin l) = false).
Proof.
  unfold decideCors. destruct (str_empty origin) eqn:Hemp; bools; [naive_solver|].
  destruct (cors_loop_spec origin l false Hemp) as (H1 & H2 & H3). naive_solver.
Qed.

(** C24. A cookie opens the admin interface only from an allowed address, and only
    as the stored session of an active user of an active tenant or as a token
    signed with the secret; wherever the policy asks for a second factor, the
    session has passed it.  A session that waits for its second factor, which
    [resolvePendingMfaSession] admits to the challenge endpoints, is refused
    everywhere else. *)
Theorem admin_session_gate `{UnorderedIter} env hmac parse trunc cookie ip ips svc secret w :
  let '(r, w') := run (id_exec env)
    (resolveAdminSession hmac parse trunc cookie ip ips svc secret) w in
  let '(pending, _) := run (id_exec env) (resolvePendingMfaSession cookie ip ips svc) w in
  (∀ ctx, r = Some ctx →
     isAdminIpAllowed ip ips = true ∧ cookie ≠ "" ∧
     (∀ deps, svc = Some deps → isMfaRequired deps ctx = true → c_mfa_verified ctx = true) ∧
     ((∃ x u t, rows (iw_store w) Sessions !! cookie = Some x ∧
         getUser (s_user_id x) (iw_store w) = Some u ∧ u_status u = "active" ∧
         getTenant (s_tenant_id x) (iw_store w) = Some t ∧ t_status t = "active" ∧
         ctx = session_context x u) ∨
      (secret ≠ "" ∧ ∃ p, Jwt.verify hmac parse trunc cookie secret (seconds (iw_clock w)) = Some p ∧
         ctx = jwt_context p svc))) ∧
  (∀ ctx, pending = Some ctx →
     r = None ∧ c_mfa_verified ctx = false ∧
     ∃ deps, svc = Some deps ∧ isMfaRequired deps ctx = true).
Proof.
  unfold resolveAdminSession, resolvePendingMfaSession.
  destruct (isAdminIpAllowed ip ips) eqn:Hip; [|done]. cbn [negb].
  destruct (str_empty cookie) eqn:Hc; [done|]. apply str_empty_false in Hc.
  destruct svc as [deps|].
  2:{ pose proof (jwt_fallback_some env hmac parse trunc cookie None secret w) as Hj.
      destruct (run _ (jwt_fallback _ _ _ _ _ _) w) as [r w']. simpl in *.
      split; [|done]. intros ctx ->. destruct (Hj ctx eq_refl) as (Hs & p & Hp & -> & Hm).
      split_and!; try done. right. split; [done|]. by exists p. }
  rw !run_bind.
  destruct (run (id_exec env) (resolveSession deps cookie) w) as [[c|] w1] eqn:Hs.
  - apply resolve_session_some in Hs as (x & u & t & Hsess).
    destruct (isMfaRequired deps c) eqn:Hm; [destruct (c_mfa_verified c) eqn:Hv|]; simpl.
    + split; [|done]. intros ctx [= <-]. split_and!; [done..|]. left. by exists x, u, t.
    + split; [done|]. intros ctx [= <-]. split_and!; [done..|]. by exists deps.
    + split; [|done]. intros ctx [= <-]. split_and!; [done|done|congruence|].
      left. by exists x, u, t.
  - pose proof (run_keeps_clock env (resolveSession deps cookie) w) as Hclock. rw Hs in Hclock.
    pose proof (jwt_fallback_some env hmac parse trunc cookie (Some deps) secret w1) as Hj.
    destruct (run _ (jwt_fallback _ _ _ _ _ _) w1) as [r w']. simpl in *. rw Hclock in Hj.
    split; [|done]. intros ctx ->. destruct (Hj ctx eq_refl) as (Hsec & p & Hp & -> & Hm).
    split_and!; try done; [|by right; split; [|exists p]]. intros d Hd. by rw Hm.
Qed.

End AdminSession.
