(* ===== verification/AdminBase.v ===== *)
(** * AdminBase: what the admin handlers share

    Models [src/src/server/admin_controller_base.{h,cpp}]: results and errors,
    the audit calls and the tenant that a request is about.  The second half
    is the calculus in which the effect of a handler on the store is derived
    call by call. *)
From S2P Require Import Prelude.
From S2P Require Import Prog.
From S2P Require Import Json.
From S2P Require Import ErrorCodes.
From S2P Require Import AuditLog.
From S2P Require Import IsoTime.
From S2P Require Import Identity.
Import Json ErrorCodes.
Local Open Scope Z_scope.

Module AdminBase.

(** ** AdminResult *)

Record AdminResult := {
  ar_status : Z;
  ar_body : json;
  ar_error_code : ErrorCode;
  ar_is_error : bool;
}.

Definition ok (body : json) (status : Z) : AdminResult :=
  {| ar_status := status; ar_body := body; ar_error_code := InternalError; ar_is_error := false |}.

Definition error (code : ErrorCode) (msg : string) : AdminResult :=
  {| ar_status := toHttpStatus code;
     ar_body := json_of_list
       [("error", json_of_list
          [("code", JString (toAegisCode code)); ("type", JString (toErrorType code));
           ("message", JString (if str_empty msg then toDefaultMessage code else msg))])];
     ar_error_code := code; ar_is_error := true |}.

(** A handler's program; [None] is an exception of the library. *)
Definition handler := prog IdCmd (option AdminResult).

Definition reply (r : AdminResult) : handler := Ret (Some r).
Definition refuse_ (code : ErrorCode) (msg : string) : handler := reply (error code msg).

(** [x ⇐ e; p]: a value that may be an exception. *)
Definition attempt {A} (x : option A) (k : A → handler) : handler :=
  match x with Some a => k a | None => Ret None end.
Notation "x ⇐ e ; p" := (attempt e (λ x, p)) (at level 20, e at level 100, p at level 200,
  only parsing).

(** ** The base class *)

Section handlers.
Context (env : IdEnv).

(** [logAction("admin", ...)]. *)
Definition log_admin (tenant action detail : string) : prog IdCmd unit :=
  now ← now_iso;
  translate (@Log) (Audit.log (ie_audit_store env) (ie_encryption env)
    (Audit.action_entry "admin" now tenant "AdminController" action detail)).

Definition auditAction (ctx : AuthContext) (action detail : string) : prog IdCmd unit :=
  when_ (ie_has_audit env)
    (let enriched := if decide (c_role ctx = SuperAdmin)
                     then "[SuperAdmin user=" +:+ c_user_id ctx +:+ "] " +:+ detail else detail in
     log_admin (c_tenant_id ctx) action enriched).

Definition auditCrossTenantAction (ctx : AuthContext) (target action detail : string) :
    prog IdCmd unit :=
  when_ (ie_has_audit env)
    (let enriched := "[CrossTenant user=" +:+ c_user_id ctx +:+ " from=" +:+ c_tenant_id ctx +:+
                     " target=" +:+ target +:+ "] " +:+ detail in
     log_admin (c_tenant_id ctx) ("cross_tenant:" +:+ action) enriched;;
     when_ (negb (bool_decide (c_tenant_id ctx = target)))
       (log_admin target ("cross_tenant:" +:+ action) enriched)).

Definition effectiveTenantId (ctx : AuthContext) (requested : string) : string :=
  if decide (c_role ctx = SuperAdmin) then requested else c_tenant_id ctx.

End handlers.

(** ** What a handler does to the store *)

(** [leads p w Q]: run alone from [w], [p] ends with a result and a store in
    [Q]. *)
Definition leads (env : IdEnv) {A} (p : prog IdCmd A) (w : IdWorld) (Q : A → Store → Prop) : Prop :=
  let '(a, w') := run (id_exec env) p w in Q a (iw_store w').

Section leads.
Context (env : IdEnv) {A : Type}.
Implicit Types (Q : A → Store → Prop).

Lemma leads_ret a w Q : Q a (iw_store w) → leads env (Ret a) w Q.
Proof. done. Qed.

Lemma leads_fetch {B} (f : Store → B) k w Q :
  leads env (k (f (iw_store w))) w Q → leads env (fetch f ≫= k) w Q.
Proof. unfold leads. by rw run_fetch. Qed.

Lemma leads_store {B} (f : Store → B * Store) k w Q :
  (∀ b s, f (iw_store w) = (b, s) → leads env (k b) (with_store s w) Q) →
  leads env (store f ≫= k) w Q.
Proof.
  intros Hk. destruct (f (iw_store w)) as [b s] eqn:Hf. specialize (Hk b s eq_refl).
  unfold leads in *. by rw (run_store env f k w b s).
Qed.

(** A part that leaves the store alone, whatever it returns. *)
Lemma leads_quiet {B} (p : prog IdCmd B) k w Q :
  quiet (id_exec env) iw_store p →
  (∀ b w', iw_store w' = iw_store w → iw_clock w' = iw_clock w → leads env (k b) w' Q) →
  leads env (p ≫= k) w Q.
Proof.
  intros Hq Hk. unfold leads. rw run_bind.
  pose proof (quiet_run (id_exec env) iw_store p w Hq) as Hs.
  pose proof (run_keeps_clock env p w) as Hc. destruct (run _ p w) as [b w1]. by apply Hk.
Qed.

(** A part with effects of its own. *)
Lemma leads_bind {B} (p : prog IdCmd B) k w Q :
  leads env p w (λ b s, ∀ w', iw_store w' = s → iw_clock w' = iw_clock w → leads env (k b) w' Q) →
  leads env (p ≫= k) w Q.
Proof.
  unfold leads. rw run_bind. pose proof (run_keeps_clock env p w) as Hc.
  destruct (run (id_exec env) p w) as [b w1]. intros Hk. by apply Hk.
Qed.

Lemma leads_clock (k : Z → prog IdCmd A) w Q :
  leads env (k (iw_clock w)) w Q → leads env (call Clock ≫= k) w Q.
Proof. unfold leads. by rw run_clock. Qed.

End leads.

(** The calls that leave the store alone. *)
Create HintDb admin.

Lemma quiet_log env tenant action detail :
  quiet (id_exec env) iw_store (log_admin env tenant action detail).
Proof.
  unfold log_admin, now_iso. simpl. split; [done|]. intros _. split.
  - done.
  - intros e. destruct (ie_audit_store env); [|done]. by split.
Qed.

Lemma quiet_auditAction env ctx action detail :
  quiet (id_exec env) iw_store (auditAction env ctx action detail).
Proof. unfold auditAction. destruct (ie_has_audit env); [apply quiet_log|done]. Qed.

Lemma quiet_auditCrossTenantAction env ctx target action detail :
  quiet (id_exec env) iw_store (auditCrossTenantAction env ctx target action detail).
Proof.
  unfold auditCrossTenantAction. destruct (ie_has_audit env); [|done].
  apply quiet_bind; [apply quiet_log|]. intros _. destruct (negb _); [apply quiet_log|done].
Qed.

Lemma quiet_now_iso env : quiet (id_exec env) iw_store now_iso.
Proof. by split. Qed.

Lemma quiet_generateId env : quiet (id_exec env) iw_store (call GenerateId).
Proof. by split. Qed.

#[export] Hint Resolve quiet_auditAction quiet_auditCrossTenantAction
  quiet_now_iso quiet_generateId : admin.

(** States of the same store and clock are compared with the first one. *)
Ltac chain Hst Hck :=
  match type of Hst with
  | iw_store _ = iw_store ?w =>
      try match goal with H : iw_store w = _ |- _ => rewrite H in Hst end
  end;
  match type of Hck with
  | iw_clock _ = iw_clock ?w =>
      try match goal with H : iw_clock w = _ |- _ => rewrite H in Hck end
  end.

(** One call of a handler, or one of its tests. *)
Ltac admin_step :=
  match goal with
  | |- leads _ (Ret _) _ _ => apply leads_ret
  | |- leads _ (reply _) _ _ => apply leads_ret
  | |- leads _ (refuse_ _ _) _ _ => apply leads_ret
  | |- leads _ (fetch _ ≫= _) _ _ => apply leads_fetch
  | |- leads _ (store _ ≫= _) _ _ => apply leads_store; intros [] ? ?
  | |- leads _ (call Clock ≫= _) _ _ => apply leads_clock
  | |- leads _ (attempt ?x _) _ _ => destruct x eqn:?; cbn [attempt]
  | |- leads _ (_ ≫= _) _ _ =>
      let w1 := fresh "w" in let Hst := fresh "Hst" in let Hck := fresh "Hck" in
      apply leads_quiet; [solve [auto with admin]|]; intros ? w1 Hst Hck; chain Hst Hck
  | |- leads _ (if ?b then _ else _) _ _ => destruct b eqn:?
  | |- leads _ (match ?x with _ => _ end) _ _ => destruct x eqn:?
  end.

(** Every state on the way has the first one's store. *)
Ltac same_store :=
  repeat match goal with
  | Hst : iw_store ?w = _ |- context [iw_store ?w] => rewrite Hst
  | Hst : iw_store ?w = _, Hf : context [iw_store ?w] |- _ => rewrite Hst in Hf
  end; cbn [iw_store with_store] in *.

Ltac admin_run := repeat admin_step; same_store; try done.

End AdminBase.
