(* ===== verification/AdminIam.v ===== *)
(** * AdminIam: administration of tenants, users and API keys

    Models [src/src/server/admin_iam_controller.cpp]: every handler, as a program over the
    calls of Identity.  The theorems: an administrator who is not a super
    administrator reads and changes rows of the own tenant only, nobody grants
    a role above the own one, and an issued key opens the gateway for its user
    until it is revoked. *)
From Corelib Require Import PrimFloat.
From S2P Require Import Prelude.
From S2P Require Import Prog.
From S2P Require Import Json.
From S2P Require Import ErrorCodes.
From S2P Require Import IsoTime.
From S2P Require Import Identity.
From S2P Require Import Auth.
From S2P Require Import AdminBase.
Import Json ErrorCodes Auth AdminBase.
Local Open Scope Z_scope.

Module AdminIam.

Section handlers.
Context `{UnorderedIter} (env : IdEnv).

(** ** Rows as JSON *)

Definition tenantToJson (t : Tenant) : json :=
  json_of_list
    [("id", JString (t_id t)); ("name", JString (t_name t)); ("status", JString (t_status t));
     ("model_whitelist", JArray (JString <$> t_model_whitelist t));
     ("daily_cost_limit", JFloat (t_daily_cost_limit t));
     ("monthly_cost_limit", JFloat (t_monthly_cost_limit t));
     ("rate_limit_tokens", JInteger (t_rate_limit_tokens t));
     ("rate_limit_refill", JFloat (t_rate_limit_refill t));
     ("created_at", JString (t_created_at t)); ("updated_at", JString (t_updated_at t))].

Definition userToJson (u : User) : json :=
  json_of_list
    [("id", JString (u_id u)); ("tenant_id", JString (u_tenant_id u));
     ("username", JString (u_username u)); ("display_name", JString (u_display_name u));
     ("role", JString (roleToString (u_role u))); ("status", JString (u_status u));
     ("created_at", JString (u_created_at u)); ("updated_at", JString (u_updated_at u))].

Definition apiKeyToJson (k : ApiKeyRecord) : json :=
  json_of_list
    [("id", JString (k_id k)); ("user_id", JString (k_user_id k));
     ("tenant_id", JString (k_tenant_id k)); ("name", JString (k_name k));
     ("key_prefix", JString (k_key_prefix k)); ("role", JString (roleToString (k_role k)));
     ("status", JString (k_status k)); ("expires_at", JString (k_expires_at k));
     ("last_used_at", JString (k_last_used_at k)); ("created_at", JString (k_created_at k));
     ("updated_at", JString (k_updated_at k))].

Definition listing (arr : list json) (total : Z) : json :=
  json_of_list [("data", JArray arr); ("count", JInteger (Z.of_nat (length arr)));
                ("total", JInteger total)].

(** ** Tenants *)

(** The row of [createTenant] before its identifier and times are known. *)
Definition tenant_fields (body : json) (id now : string) : option (ErrorCode + Tenant) :=
  name ← json_value as_string "name" "" body;
  if str_empty name then Some (inl MissingRequiredField)
  else
    status ← json_value as_string "status" "active" body;
    whitelist ← (match json_member "model_whitelist" body with
                 | Some v => as_strings v
                 | None => Some []
                 end);
    daily ← json_value as_double "daily_cost_limit" (-1)%float body;
    monthly ← json_value as_double "monthly_cost_limit" (-1)%float body;
    tokens ← json_value as_int "rate_limit_tokens" (-1) body;
    refill ← json_value as_double "rate_limit_refill" (-1)%float body;
    Some (inr {| t_id := id; t_name := name; t_status := status; t_model_whitelist := whitelist;
                 t_daily_cost_limit := daily; t_monthly_cost_limit := monthly;
                 t_rate_limit_tokens := tokens; t_rate_limit_refill := refill;
                 t_created_at := now; t_updated_at := now |}).

Definition createTenant (ctx : AuthContext) (body : json) : handler :=
  if negb (requireRole ctx SuperAdmin) then refuse_ InsufficientPermissions ""
  else
    id ← call GenerateId;
    now ← now_iso;
    fields ⇐ tenant_fields body id now;
    match fields with
    | inl code => refuse_ code "Field 'name' is required"
    | inr t =>
        existing ← fetch (listTenants 1000 0);
        if existsb (λ e, bool_decide (t_name e = t_name t)) existing
        then refuse_ TenantNameExists ""
        else
          inserted ← store (insertTenant t);
          if negb inserted then refuse_ InternalError "Failed to create tenant"
          else
            auditCrossTenantAction env ctx (t_id t) "admin.create_tenant"
              ("tenant_id=" +:+ t_id t +:+ " name=" +:+ t_name t);;
            reply (ok (tenantToJson t) 201)
    end.

Definition listTenants_ (ctx : AuthContext) (limit offset : Z) : handler :=
  if negb (requireRole ctx SuperAdmin) then refuse_ InsufficientPermissions ""
  else
    tenants ← fetch (listTenants limit offset);
    total ← fetch tenantCount;
    reply (ok (listing (tenantToJson <$> tenants) total) 200).

Definition getTenant_ (ctx : AuthContext) (id : string) : handler :=
  if negb (authorize ctx Viewer id) then refuse_ InsufficientPermissions ""
  else
    t ← fetch (getTenant (effectiveTenantId ctx id));
    match t with
    | None => refuse_ InvalidRequest "Tenant not found"
    | Some t => reply (ok (tenantToJson t) 200)
    end.

(** [if (body.contains(k)) x = body[k].get<T>()]. *)
Definition replaced {A} (get : json → option A) (k : string) (body : json) (x : A) : option A :=
  match json_member k body with Some v => get v | None => Some x end.

Definition tenant_update (body : json) (now : string) (t : Tenant) : option Tenant :=
  name ← replaced as_string "name" body (t_name t);
  status ← replaced as_string "status" body (t_status t);
  whitelist ← replaced as_strings "model_whitelist" body (t_model_whitelist t);
  daily ← replaced as_double "daily_cost_limit" body (t_daily_cost_limit t);
  monthly ← replaced as_double "monthly_cost_limit" body (t_monthly_cost_limit t);
  tokens ← replaced as_int "rate_limit_tokens" body (t_rate_limit_tokens t);
  refill ← replaced as_double "rate_limit_refill" body (t_rate_limit_refill t);
  Some {| t_id := t_id t; t_name := name; t_status := status; t_model_whitelist := whitelist;
          t_daily_cost_limit := daily; t_monthly_cost_limit := monthly;
          t_rate_limit_tokens := tokens; t_rate_limit_refill := refill;
          t_created_at := t_created_at t; t_updated_at := now |}.

Definition updateTenant_ (ctx : AuthContext) (id : string) (body : json) : handler :=
  if negb (authorize ctx SuperAdmin id) then refuse_ InsufficientPermissions ""
  else
    t ← fetch (getTenant id);
    match t with
    | None => refuse_ InvalidRequest "Tenant not found"
    | Some t =>
        now ← now_iso;
        t' ⇐ tenant_update body now t;
        updated ← store (updateTenant t');
        if negb updated then refuse_ InternalError "Failed to update tenant"
        else
          auditCrossTenantAction env ctx id "admin.update_tenant" ("tenant_id=" +:+ id);;
          reply (ok (tenantToJson t') 200)
    end.

Definition deleteTenant_ (ctx : AuthContext) (id : string) : handler :=
  if negb (requireRole ctx SuperAdmin) then refuse_ InsufficientPermissions ""
  else
    deleted ← store (deleteTenant id);
    if negb deleted then refuse_ InvalidRequest "Tenant not found"
    else
      auditCrossTenantAction env ctx id "admin.delete_tenant" ("tenant_id=" +:+ id);;
      reply (ok (json_of_list [("deleted", JBool true)]) 200).

(** ** Users *)

Definition createUser (ctx : AuthContext) (body : json) : handler :=
  target ⇐ json_value as_string "tenant_id" "" body;
  let target_tenant := if str_empty target then c_tenant_id ctx else target in
  if negb (authorize ctx TenantAdmin target_tenant) then refuse_ InsufficientPermissions ""
  else
    id ← call GenerateId;
    username ⇐ json_value as_string "username" "" body;
    if str_empty username then refuse_ MissingRequiredField "Field 'username' is required"
    else
      display_name ⇐ json_value as_string "display_name" "" body;
      role_str ⇐ json_value as_string "role" "viewer" body;
      match roleFromString role_str with
      | None => refuse_ InvalidRequest ("Invalid role: " +:+ role_str)
      | Some role =>
          if negb (canGrantRole ctx role)
          then refuse_ InsufficientPermissions "Cannot assign a role higher than your own"
          else
            now ← now_iso;
            let u := {| u_id := id; u_tenant_id := target_tenant; u_username := username;
                        u_display_name := display_name; u_role := role; u_status := "active";
                        u_created_at := now; u_updated_at := now |} in
            taken ← fetch (getUserByUsername (u_tenant_id u) (u_username u));
            match taken with
            | Some _ => refuse_ UsernameExists ""
            | None =>
                inserted ← store (insertUser u);
                if negb inserted then refuse_ InternalError "Failed to create user"
                else
                  auditAction env ctx "admin.create_user" ("user_id=" +:+ u_id u);;
                  reply (ok (userToJson u) 201)
            end
      end.

Definition listUsers_ (ctx : AuthContext) (tenant_id : string) (limit offset : Z) : handler :=
  if negb (str_empty tenant_id) && negb (requireTenantAccess ctx tenant_id)
  then refuse_ InsufficientPermissions ""
  else
    let eff := effectiveTenantId ctx tenant_id in
    if negb (requireRole ctx Viewer) then refuse_ InsufficientPermissions ""
    else
      users ← fetch (listUsers eff limit offset);
      total ← fetch (userCount eff);
      reply (ok (listing (userToJson <$> users) total) 200).

Definition getUser_ (ctx : AuthContext) (id : string) : handler :=
  u ← fetch (getUser id);
  match u with
  | None => refuse_ InvalidRequest "User not found"
  | Some u =>
      if negb (authorize ctx Viewer (u_tenant_id u)) then refuse_ InsufficientPermissions ""
      else reply (ok (userToJson u) 200)
  end.

(** The [role] member: [inl] a refusal. *)
Definition role_update (ctx : AuthContext) (body : json) (role : Role) :
    option ((ErrorCode * string) + Role) :=
  match json_member "role" body with
  | None => Some (inr role)
  | Some v =>
      s ← as_string v;
      Some (match roleFromString s with
            | None => inl (InvalidRequest, "Invalid role")
            | Some r =>
                if negb (canGrantRole ctx r)
                then inl (InsufficientPermissions, "Cannot assign a role higher than your own")
                else inr r
            end)
  end.

Definition updateUser_ (ctx : AuthContext) (id : string) (body : json) : handler :=
  u ← fetch (getUser id);
  match u with
  | None => refuse_ InvalidRequest "User not found"
  | Some u =>
      if negb (authorize ctx TenantAdmin (u_tenant_id u)) then refuse_ InsufficientPermissions ""
      else
        display_name ⇐ replaced as_string "display_name" body (u_display_name u);
        role ⇐ role_update ctx body (u_role u);
        match role with
        | inl (code, msg) => refuse_ code msg
        | inr role =>
            status ⇐ replaced as_string "status" body (u_status u);
            now ← now_iso;
            let u' := {| u_id := u_id u; u_tenant_id := u_tenant_id u; u_username := u_username u;
                         u_display_name := display_name; u_role := role; u_status := status;
                         u_created_at := u_created_at u; u_updated_at := now |} in
            updated ← store (updateUser u');
            if negb updated then refuse_ InternalError "Failed to update user"
            else
              auditAction env ctx "admin.update_user" ("user_id=" +:+ id);;
              reply (ok (userToJson u') 200)
        end
  end.

Definition deleteUser_ (ctx : AuthContext) (id : string) : handler :=
  u ← fetch (getUser id);
  match u with
  | None => refuse_ InvalidRequest "User not found"
  | Some u =>
      if negb (authorize ctx TenantAdmin (u_tenant_id u)) then refuse_ InsufficientPermissions ""
      else
        deleted ← store (deleteUser id);
        if negb deleted then refuse_ InternalError "Failed to delete user"
        else
          auditAction env ctx "admin.delete_user" ("user_id=" +:+ id);;
          reply (ok (json_of_list [("deleted", JBool true)]) 200)
  end.

(** ** API keys *)

(** [j[k] = v] on an object. *)
Definition with_member (k v : string) (j : json) : json :=
  match j with JObject m => JObject (map_assign k (JString v) m) | _ => j end.

Definition createApiKey (ctx : AuthContext) (body : json) : handler :=
  user_id ⇐ json_value as_string "user_id" "" body;
  if str_empty user_id then refuse_ MissingRequiredField "Field 'user_id' is required"
  else
    user ← fetch (getUser user_id);
    match user with
    | None => refuse_ InvalidRequest "User not found"
    | Some user =>
        if negb (authorize ctx TenantAdmin (u_tenant_id user))
        then refuse_ InsufficientPermissions ""
        else
          raw ← generateApiKey;
          raw_key ⇐ raw;
          id ← call GenerateId;
          name ⇐ json_value as_string "name" "" body;
          role_str ⇐ json_value as_string "role" (roleToString (u_role user)) body;
          let role := default (u_role user) (roleFromString role_str) in
          if negb (canGrantRole ctx role)
          then refuse_ InsufficientPermissions "Cannot issue a key with a role higher than your own"
          else
            expires_at ⇐ replaced as_string "expires_at" body "";
            now ← now_iso;
            let k := {| k_id := id; k_user_id := user_id; k_tenant_id := u_tenant_id user;
                        k_name := name; k_key_prefix := extractKeyPrefix raw_key;
                        k_key_hash := hashApiKey env raw_key; k_role := role;
                        k_status := "active"; k_expires_at := expires_at; k_last_used_at := "";
                        k_created_at := now; k_updated_at := now |} in
            inserted ← store (insertApiKey k);
            if negb inserted then refuse_ InternalError "Failed to create API key"
            else
              auditAction env ctx "admin.create_api_key" ("key_id=" +:+ k_id k);;
              reply (ok (with_member "key" raw_key (apiKeyToJson k)) 201)
    end.

Definition listApiKeys_ (ctx : AuthContext) (tenant_id : string) (limit offset : Z) : handler :=
  if negb (str_empty tenant_id) && negb (requireTenantAccess ctx tenant_id)
  then refuse_ InsufficientPermissions ""
  else
    let eff := effectiveTenantId ctx tenant_id in
    if negb (requireRole ctx Viewer) then refuse_ InsufficientPermissions ""
    else
      keys ← fetch (listApiKeys eff limit offset);
      total ← fetch (apiKeyCount eff);
      reply (ok (listing (apiKeyToJson <$> keys) total) 200).

(** The search of both handlers below. *)
Definition find_key (id : string) : prog IdCmd (option ApiKeyRecord) :=
  keys_all ← fetch (listApiKeys "" 10000 0);
  Ret (option_map snd (list_find (λ k, k_id k = id) keys_all)).

Definition revokeApiKey_ (ctx : AuthContext) (id : string) : handler :=
  found ← find_key id;
  match found with
  | None => refuse_ InvalidRequest "API key not found"
  | Some found =>
      if negb (authorize ctx TenantAdmin (k_tenant_id found)) then refuse_ InsufficientPermissions ""
      else
        revoked ← store (revokeApiKey id);
        if negb revoked then refuse_ InternalError "Failed to revoke API key"
        else
          auditAction env ctx "admin.revoke_api_key" ("key_id=" +:+ id);;
          reply (ok (json_of_list [("revoked", JBool true)]) 200)
  end.

Definition rotateApiKey (ctx : AuthContext) (id : string) : handler :=
  found ← find_key id;
  match found with
  | None => refuse_ InvalidRequest "API key not found"
  | Some found =>
      if negb (authorize ctx TenantAdmin (k_tenant_id found)) then refuse_ InsufficientPermissions ""
      else if negb (canGrantRole ctx (k_role found))
      then refuse_ InsufficientPermissions "Cannot rotate a key with a role higher than your own"
      else
        store (revokeApiKey id);;
        raw ← generateApiKey;
        raw_key ⇐ raw;
        new_id ← call GenerateId;
        now ← now_iso;
        let k := {| k_id := new_id; k_user_id := k_user_id found;
                    k_tenant_id := k_tenant_id found; k_name := k_name found +:+ " (rotated)";
                    k_key_prefix := extractKeyPrefix raw_key;
                    k_key_hash := hashApiKey env raw_key; k_role := k_role found;
                    k_status := "active"; k_expires_at := ""; k_last_used_at := "";
                    k_created_at := now; k_updated_at := now |} in
        inserted ← store (insertApiKey k);
        if negb inserted then refuse_ InternalError "Failed to create rotated key"
        else
          auditAction env ctx "admin.rotate_api_key"
            ("old_key_id=" +:+ id +:+ " new_key_id=" +:+ k_id k);;
          reply (ok (with_member "rotated_from" id (with_member "key" raw_key (apiKeyToJson k))) 201)
  end.

End handlers.

(** ** What a handler does to the store *)

Section leads.
Context (env : IdEnv) {A : Type}.
Implicit Types (Q : A → Store → Prop).

Lemma leads_generateApiKey k w Q :
  (∀ buf w', iw_store w' = iw_store w → iw_clock w' = iw_clock w →
     leads env (k (option_map key_text buf)) w' Q) →
  leads env (generateApiKey ≫= k) w Q.
Proof.
  intros Hk. unfold leads, generateApiKey. rw run_bind run_call. cbn [id_exec run].
  by destruct (iw_bytes w (iw_next_bytes w)) as [f|]; apply Hk.
Qed.

Lemma leads_find_key `{UnorderedIter} id (k : option ApiKeyRecord → prog IdCmd A) w Q :
  leads env (k (option_map snd (list_find (λ k, k_id k = id)
                                  (listApiKeys "" 10000 0 (iw_store w))))) w Q →
  leads env (find_key id ≫= k) w Q.
Proof. unfold leads, find_key. by rw run_bind run_fetch. Qed.

End leads.

Ltac iam_step :=
  lazymatch goal with
  | |- leads _ (find_key _ ≫= _) _ _ => apply leads_find_key
  | |- leads _ (generateApiKey ≫= _) _ _ =>
      let w1 := fresh "w" in let Hst := fresh "Hst" in let Hck := fresh "Hck" in
      apply leads_generateApiKey; intros ? w1 Hst Hck; chain Hst Hck
  | |- _ => admin_step
  end.

Ltac iam_run := repeat iam_step; same_store; try done.

Lemma authorize_inv ctx r tenant :
  authorize ctx r tenant = true → requireRole ctx r = true ∧ requireTenantAccess ctx tenant = true.
Proof. apply andb_prop. Qed.

(** *** The policy *)

(** One permitted change of the store by the holder of [ctx]. *)
Inductive permitted (ctx : AuthContext) (s : Store) : Store → Prop :=
| may_change_tenants s' :
    requireRole ctx SuperAdmin = true → same_but Tenants s s' → permitted ctx s s'
| may_add_user u :
    authorize ctx TenantAdmin (u_tenant_id u) = true → canGrantRole ctx (u_role u) = true →
    rows s Users !! u_id u = None →
    permitted ctx s (set_rows Users (<[u_id u := u]> (rows s Users)) s)
| may_change_user u u' :
    rows s Users !! u_id u = Some u → authorize ctx TenantAdmin (u_tenant_id u) = true →
    u_id u' = u_id u → u_tenant_id u' = u_tenant_id u →
    u_role u' = u_role u ∨ canGrantRole ctx (u_role u') = true →
    permitted ctx s (set_rows Users (<[u_id u := u']> (rows s Users)) s)
| may_delete_user id u :
    rows s Users !! id = Some u → authorize ctx TenantAdmin (u_tenant_id u) = true →
    permitted ctx s (set_rows Users (delete id (rows s Users)) s)
| may_add_key k :
    authorize ctx TenantAdmin (k_tenant_id k) = true → canGrantRole ctx (k_role k) = true →
    rows s ApiKeys !! k_id k = None →
    permitted ctx s (set_rows ApiKeys (<[k_id k := k]> (rows s ApiKeys)) s)
| may_revoke_key k :
    rows s ApiKeys !! k_id k = Some k → authorize ctx TenantAdmin (k_tenant_id k) = true →
    permitted ctx s
      (set_rows ApiKeys (<[k_id k := set_k_status "revoked" k]> (rows s ApiKeys)) s).

(** Rows are stored under their identifiers. *)
Definition keyed (s : Store) : Prop :=
  (∀ id u, rows s Users !! id = Some u → u_id u = id) ∧
  (∀ id k, rows s ApiKeys !! id = Some k → k_id k = id).

(** The requests. *)
Inductive IamRequest :=
| CreateTenant (body : json) | ListTenants (limit offset : Z) | GetTenant (id : string)
| UpdateTenant (id : string) (body : json) | DeleteTenant (id : string)
| CreateUser (body : json) | ListUsers (tenant_id : string) (limit offset : Z)
| GetUser (id : string) | UpdateUser (id : string) (body : json) | DeleteUser (id : string)
| CreateApiKey (body : json) | ListApiKeys (tenant_id : string) (limit offset : Z)
| RevokeApiKey (id : string) | RotateApiKey (id : string).

Definition iam `{UnorderedIter} (env : IdEnv) (ctx : AuthContext) (r : IamRequest) : handler :=
  match r with
  | CreateTenant body => createTenant env ctx body
  | ListTenants limit offset => listTenants_ ctx limit offset
  | GetTenant id => getTenant_ ctx id
  | UpdateTenant id body => updateTenant_ env ctx id body
  | DeleteTenant id => deleteTenant_ env ctx id
  | CreateUser body => createUser env ctx body
  | ListUsers tenant_id limit offset => listUsers_ ctx tenant_id limit offset
  | GetUser id => getUser_ ctx id
  | UpdateUser id body => updateUser_ env ctx id body
  | DeleteUser id => deleteUser_ env ctx id
  | CreateApiKey body => createApiKey env ctx body
  | ListApiKeys tenant_id limit offset => listApiKeys_ ctx tenant_id limit offset
  | RevokeApiKey id => revokeApiKey_ env ctx id
  | RotateApiKey id => rotateApiKey env ctx id
  end.

Section policy.
Context `{UnorderedIter} (env : IdEnv) (ctx : AuthContext).

Lemma createTenant_leads body w :
  leads env (createTenant env ctx body) w (λ _ s', rtc (permitted ctx) (iw_store w) s').
Proof.
  unfold createTenant. iam_run.
  - apply rtc_once, may_change_tenants; [by bools|]. by eapply insert_new_same.
  - apply rtc_once, may_change_tenants; [by bools|]. by eapply insert_new_same.
Qed.

Lemma updateTenant_leads id body w :
  leads env (updateTenant_ env ctx id body) w (λ _ s', rtc (permitted ctx) (iw_store w) s').
Proof.
  unfold updateTenant_. iam_run; apply rtc_once, may_change_tenants;
    try by eapply modify_row_same.
  all: bools; by eapply authorize_inv.
Qed.

Lemma deleteTenant_leads id w :
  leads env (deleteTenant_ env ctx id) w (λ _ s', rtc (permitted ctx) (iw_store w) s').
Proof.
  unfold deleteTenant_. iam_run; (apply rtc_once, may_change_tenants;
    [by bools|by eapply erase_row_same]).
Qed.

Lemma insertUser_permitted u s b s' :
  negb (authorize ctx TenantAdmin (u_tenant_id u)) = false →
  negb (canGrantRole ctx (u_role u)) = false →
  insertUser u s = (b, s') → rtc (permitted ctx) s s'.
Proof.
  intros Ha Hg. unfold insertUser. destruct (rows s Users !! u_id u) eqn:Hu; [by intros [= <- <-]|].
  destruct (existsb _ _); intros [= <- <-]; [done|]. bools. by apply rtc_once, may_add_user.
Qed.

Lemma updateUser_permitted id u u' s b s' :
  keyed s → getUser id s = Some u → negb (authorize ctx TenantAdmin (u_tenant_id u)) = false →
  u_id u' = u_id u → u_tenant_id u' = u_tenant_id u →
  u_role u' = u_role u ∨ canGrantRole ctx (u_role u') = true →
  updateUser u' s = (b, s') → rtc (permitted ctx) s s'.
Proof.
  intros [Hk _] Hu Ha Hid Ht Hr Hup. unfold getUser in Hu. pose proof (Hk _ _ Hu) as Hkey. subst id.
  unfold updateUser in Hup. apply modify_row_spec in Hup. rw Hid Hu in Hup.
  destruct Hup as [_ ->]. bools. by apply rtc_once, may_change_user.
Qed.

Lemma deleteUser_permitted id u s b s' :
  getUser id s = Some u → negb (authorize ctx TenantAdmin (u_tenant_id u)) = false →
  deleteUser id s = (b, s') → rtc (permitted ctx) s s'.
Proof.
  intros Hu Ha Hd. unfold getUser in Hu. apply erase_row_spec in Hd. rw Hu in Hd.
  destruct Hd as [_ ->]. bools. by eapply rtc_once, may_delete_user.
Qed.

Lemma insertApiKey_permitted k s b s' :
  negb (authorize ctx TenantAdmin (k_tenant_id k)) = false →
  negb (canGrantRole ctx (k_role k)) = false →
  insertApiKey k s = (b, s') → rtc (permitted ctx) s s'.
Proof.
  intros Ha Hg. unfold insertApiKey, insert_new.
  destruct (rows s ApiKeys !! k_id k) eqn:Hk; intros [= <- <-]; [done|].
  bools. by apply rtc_once, may_add_key.
Qed.

(** The key that the search finds is the row of that identifier. *)
Lemma find_key_row id s k :
  keyed s →
  option_map snd (list_find (λ k, k_id k = id) (listApiKeys "" 10000 0 s)) = Some k →
  rows s ApiKeys !! id = Some k ∧ k_id k = id.
Proof.
  intros [_ Hk]. destruct (list_find _ _) as [[i k']|] eqn:Hf; [|done]. intros [= ->].
  apply list_find_Some in Hf as (Hi & <- & _). split; [|done].
  apply list_elem_of_lookup_2 in Hi. unfold listApiKeys in Hi. rw page_spec in Hi.
  apply elem_of_take_1 in Hi. rw drop_0 in Hi. apply list_elem_of_filter in Hi as [_ Hin].
  apply (elem_of_all_rows ApiKeys) in Hin as [id Hid]. by rw (Hk _ _ Hid).
Qed.

Lemma revokeApiKey_permitted id k s b s' :
  rows s ApiKeys !! id = Some k → k_id k = id →
  negb (authorize ctx TenantAdmin (k_tenant_id k)) = false →
  revokeApiKey id s = (b, s') → rtc (permitted ctx) s s'.
Proof.
  intros Hk <- Ha Hr. apply modify_row_spec in Hr. rw Hk in Hr. destruct Hr as [_ ->].
  bools. by apply rtc_once, may_revoke_key.
Qed.

Lemma createUser_leads body w :
  leads env (createUser env ctx body) w (λ _ s', rtc (permitted ctx) (iw_store w) s').
Proof. unfold createUser. iam_run; (eapply insertUser_permitted; [| |done]; done). Qed.

Lemma role_update_ok body role role' :
  role_update ctx body role = Some (inr role') → role' = role ∨ canGrantRole ctx role' = true.
Proof.
  unfold role_update. destruct (json_member _ _) as [v|]; [|intros [= ->]; by left].
  destruct (as_string v) as [s|]; [|done]. simpl. destruct (roleFromString s) as [r|]; [|done].
  destruct (canGrantRole ctx r) eqn:Hg; [|done]. intros [= ->]. by right.
Qed.

Lemma updateUser_leads id body w :
  keyed (iw_store w) →
  leads env (updateUser_ env ctx id body) w (λ _ s', rtc (permitted ctx) (iw_store w) s').
Proof.
  intros Hk. unfold updateUser_. iam_run;
    (eapply updateUser_permitted; [done|done|done| | | |done]; [done|done|by eapply role_update_ok]).
Qed.

Lemma deleteUser_leads id w :
  leads env (deleteUser_ env ctx id) w (λ _ s', rtc (permitted ctx) (iw_store w) s').
Proof. unfold deleteUser_. iam_run; by eapply deleteUser_permitted. Qed.

Lemma createApiKey_leads body w :
  leads env (createApiKey env ctx body) w (λ _ s', rtc (permitted ctx) (iw_store w) s').
Proof. unfold createApiKey. iam_run; (eapply insertApiKey_permitted; [| |done]; done). Qed.

Lemma revokeApiKey_leads id w :
  keyed (iw_store w) →
  leads env (revokeApiKey_ env ctx id) w (λ _ s', rtc (permitted ctx) (iw_store w) s').
Proof.
  intros Hk. unfold revokeApiKey_. iam_run.
  all: edestruct (find_key_row id) as [Hrow Hid]; [exact Hk|done|].
  all: by eapply revokeApiKey_permitted.
Qed.

Lemma rotateApiKey_leads id w :
  keyed (iw_store w) →
  leads env (rotateApiKey env ctx id) w (λ _ s', rtc (permitted ctx) (iw_store w) s').
Proof.
  intros Hk. unfold rotateApiKey. iam_run.
  all: edestruct (find_key_row id) as [Hrow Hid]; [exact Hk|done|].
  all: (etrans; [by eapply revokeApiKey_permitted|]); try done.
  all: (eapply insertApiKey_permitted; [| |done]; done).
Qed.

(** Every handler stays within the policy. *)
Lemma iam_leads r w :
  keyed (iw_store w) →
  leads env (iam env ctx r) w (λ _ s', rtc (permitted ctx) (iw_store w) s').
Proof.
  intros Hk. destruct r; simpl.
  - apply createTenant_leads.
  - unfold listTenants_. iam_run.
  - unfold getTenant_. iam_run.
  - apply updateTenant_leads.
  - apply deleteTenant_leads.
  - apply createUser_leads.
  - unfold listUsers_. iam_run.
  - unfold getUser_. iam_run.
  - by apply updateUser_leads.
  - apply deleteUser_leads.
  - apply createApiKey_leads.
  - unfold listApiKeys_. iam_run.
  - by apply revokeApiKey_leads.
  - by apply rotateApiKey_leads.
Qed.

End policy.

(** *** What the policy guarantees *)

(** Rows of other tenants are what they were, and so is everything else. *)
Definition foreign_same (tenant : string) (s s' : Store) : Prop :=
  (∀ id u, u_tenant_id u ≠ tenant → rows s' Users !! id = Some u ↔ rows s Users !! id = Some u) ∧
  (∀ id k, k_tenant_id k ≠ tenant → rows s' ApiKeys !! id = Some k ↔ rows s ApiKeys !! id = Some k) ∧
  (∀ t, t ≠ Users → t ≠ ApiKeys → rows s' t = rows s t).

(** A role that was not there before ranks [top] at most. *)
Definition roles_within (top : Z) (s s' : Store) : Prop :=
  (∀ id u', rows s' Users !! id = Some u' →
     role_rank (u_role u') <= top ∨ ∃ u, rows s Users !! id = Some u ∧ u_role u = u_role u') ∧
  (∀ id k', rows s' ApiKeys !! id = Some k' →
     role_rank (k_role k') <= top ∨ ∃ k, rows s ApiKeys !! id = Some k ∧ k_role k = k_role k').

(** Keys are only ever revoked. *)
Definition keys_kept (s s' : Store) : Prop :=
  ∀ id k, rows s ApiKeys !! id = Some k →
    rows s' ApiKeys !! id = Some k ∨ rows s' ApiKeys !! id = Some (set_k_status "revoked" k).

Section guarantees.
Context (ctx : AuthContext).

(** A user row after a permitted change, and one before it. *)
Lemma permitted_user s s' id u' :
  permitted ctx s s' → rows s' Users !! id = Some u' →
  rows s Users !! id = Some u' ∨
  (u_id u' = id ∧ authorize ctx TenantAdmin (u_tenant_id u') = true ∧
   (canGrantRole ctx (u_role u') = true ∨
    ∃ u, rows s Users !! id = Some u ∧ u_role u = u_role u')).
Proof.
  intros [s1 _ [_ Hs]|u Ha Hg Hn|u u1 Hu Ha Hid Ht Hr|id1 u Hu Ha|k|k] Hl.
  - rw Hs // in Hl. by left.
  - rw rows_set_eq in Hl. apply lookup_insert_Some in Hl as [[<- <-]|[_ Hl]]; [|by left].
    right. eauto.
  - rw rows_set_eq in Hl. apply lookup_insert_Some in Hl as [[<- <-]|[_ Hl]]; [|by left].
    right. rw Hid Ht. split_and!; [done..|]. destruct Hr as [Hr|]; [right; eauto|by left].
  - rw rows_set_eq in Hl. apply lookup_delete_Some in Hl as [_ Hl]. by left.
  - rw rows_set_ne // in Hl. by left.
  - rw rows_set_ne // in Hl. by left.
Qed.

Lemma permitted_user_back s s' id u :
  permitted ctx s s' → rows s Users !! id = Some u →
  rows s' Users !! id = Some u ∨ authorize ctx TenantAdmin (u_tenant_id u) = true.
Proof.
  intros [s1 _ [_ Hs]|v Ha Hg Hn|v v1 Hv Ha Hid Ht Hr|id1 v Hv Ha|k|k] Hl.
  - rw Hs //. by left.
  - rw rows_set_eq. destruct (decide (u_id v = id)) as [<-|]; [by rw Hn in Hl|].
    rw lookup_insert_ne //. by left.
  - rw rows_set_eq. destruct (decide (u_id v = id)) as [<-|]; [right; rw Hv in Hl; by injection Hl as <-|].
    rw lookup_insert_ne //. by left.
  - rw rows_set_eq. destruct (decide (id1 = id)) as [<-|]; [right; rw Hv in Hl; by injection Hl as <-|].
    rw lookup_delete_ne //. by left.
  - rw rows_set_ne //. by left.
  - rw rows_set_ne //. by left.
Qed.

Lemma permitted_key s s' id k' :
  permitted ctx s s' → rows s' ApiKeys !! id = Some k' →
  rows s ApiKeys !! id = Some k' ∨
  (k_id k' = id ∧ authorize ctx TenantAdmin (k_tenant_id k') = true ∧
   (canGrantRole ctx (k_role k') = true ∨
    ∃ k, rows s ApiKeys !! id = Some k ∧ k_role k = k_role k')).
Proof.
  intros [s1 _ [_ Hs]|u|u u1|id1 u|k Ha Hg Hn|k Hk Ha] Hl.
  - rw Hs // in Hl. by left.
  - rw rows_set_ne // in Hl. by left.
  - rw rows_set_ne // in Hl. by left.
  - rw rows_set_ne // in Hl. by left.
  - rw rows_set_eq in Hl. apply lookup_insert_Some in Hl as [[<- <-]|[_ Hl]]; [|by left].
    right. eauto.
  - rw rows_set_eq in Hl. apply lookup_insert_Some in Hl as [[<- <-]|[_ Hl]]; [|by left].
    right. split_and!; [done..|]. right. eauto.
Qed.

Lemma permitted_key_back s s' id k :
  permitted ctx s s' → rows s ApiKeys !! id = Some k →
  rows s' ApiKeys !! id = Some k ∨
  (authorize ctx TenantAdmin (k_tenant_id k) = true ∧
   rows s' ApiKeys !! id = Some (set_k_status "revoked" k)).
Proof.
  intros [s1 _ [_ Hs]|u|u u1|id1 u|k1 Ha Hg Hn|k1 Hk Ha] Hl.
  - rw Hs //. by left.
  - rw rows_set_ne //. by left.
  - rw rows_set_ne //. by left.
  - rw rows_set_ne //. by left.
  - rw rows_set_eq. destruct (decide (k_id k1 = id)) as [<-|]; [by rw Hn in Hl|].
    rw lookup_insert_ne //. by left.
  - rw rows_set_eq. destruct (decide (k_id k1 = id)) as [<-|].
    + right. rw lookup_insert_eq. rw Hk in Hl. injection Hl as ->. done.
    + rw lookup_insert_ne //. by left.
Qed.

Lemma permitted_keyed s s' : keyed s → permitted ctx s s' → keyed s'.
Proof.
  intros [Hu Hk] Hp. split; intros id x Hx.
  - destruct (permitted_user _ _ _ _ Hp Hx) as [?|[? _]]; auto.
  - destruct (permitted_key _ _ _ _ Hp Hx) as [?|[? _]]; auto.
Qed.

Lemma permitted_keyed_all s s' : keyed s → rtc (permitted ctx) s s' → keyed s'.
Proof. intros Hk. induction 1 as [|s1 s2 s3 Hp _ IH]; [done|]. by eapply IH, permitted_keyed. Qed.

Context (Hrbac : c_is_rbac_enabled ctx = true).

Lemma authorize_own r tenant :
  c_role ctx ≠ SuperAdmin → authorize ctx r tenant = true → tenant = c_tenant_id ctx.
Proof.
  intros Hs [_ Ht]%authorize_inv. unfold requireTenantAccess in Ht. rw Hrbac decide_False // in Ht.
  by apply bool_decide_eq_true in Ht as ->.
Qed.

Lemma permitted_foreign s s' :
  c_role ctx ≠ SuperAdmin → permitted ctx s s' → foreign_same (c_tenant_id ctx) s s'.
Proof.
  intros Hs Hp. split_and!.
  - intros id u Hu. split; intros Hl.
    + destruct (permitted_user _ _ _ _ Hp Hl) as [?|(_ & Ha & _)]; [done|].
      by apply authorize_own in Ha.
    + destruct (permitted_user_back _ _ _ _ Hp Hl) as [?|Ha]; [done|]. by apply authorize_own in Ha.
  - intros id k Hk. split; intros Hl.
    + destruct (permitted_key _ _ _ _ Hp Hl) as [?|(_ & Ha & _)]; [done|].
      by apply authorize_own in Ha.
    + destruct (permitted_key_back _ _ _ _ Hp Hl) as [?|[Ha _]]; [done|]. by apply authorize_own in Ha.
  - intros t Htu Htk. destruct Hp as [s1 Hr| | | | |]; try by rw rows_set_ne.
    unfold requireRole in Hr. rw Hrbac in Hr. exfalso. by destruct (c_role ctx).
Qed.

Lemma permitted_roles top s s' :
  role_rank (c_role ctx) <= top → permitted ctx s s' → roles_within top s s'.
Proof.
  intros Htop Hp. assert (∀ r, canGrantRole ctx r = true → role_rank r <= top) as Hg.
  { intros r. unfold canGrantRole. rw Hrbac. intros ?%Z.leb_le. lia. }
  split; intros id x Hx.
  - destruct (permitted_user _ _ _ _ Hp Hx) as [?|(_ & _ & [?|?])]; eauto.
  - destruct (permitted_key _ _ _ _ Hp Hx) as [?|(_ & _ & [?|?])]; eauto.
Qed.

Lemma permitted_needs_admin s s' :
  permitted ctx s s' → role_rank TenantAdmin <= role_rank (c_role ctx).
Proof.
  assert (∀ r, requireRole ctx r = true → role_rank r <= role_rank (c_role ctx)) as Hr.
  { intros r. unfold requireRole. rw Hrbac. by intros ?%Z.leb_le. }
  intros []; try (by apply Hr; eapply authorize_inv).
  specialize (Hr SuperAdmin). simpl in *. naive_solver lia.
Qed.

End guarantees.

#[global] Instance foreign_same_preorder tenant : PreOrder (foreign_same tenant).
Proof.
  split; [by intros s; split_and!|]. intros s1 s2 s3 (U1 & K1 & T1) (U2 & K2 & T2). split_and!.
  - intros id u Hu. by rw U2 // U1.
  - intros id k Hk. by rw K2 // K1.
  - intros t H1 H2. by rw T2 // T1.
Qed.

#[global] Instance roles_within_preorder top : PreOrder (roles_within top).
Proof.
  split; [by intros s; split; intros id x Hx; right; exists x|].
  intros s1 s2 s3 [U1 K1] [U2 K2]. split; intros id x Hx.
  - destruct (U2 id x Hx) as [?|(y & Hy & E)]; [by left|].
    destruct (U1 id y Hy) as [?|(z & Hz & E')]; [left; congruence|right; exists z; split; congruence].
  - destruct (K2 id x Hx) as [?|(y & Hy & E)]; [by left|].
    destruct (K1 id y Hy) as [?|(z & Hz & E')]; [left; congruence|right; exists z; split; congruence].
Qed.

#[global] Instance keys_kept_preorder : PreOrder keys_kept.
Proof.
  split; [by intros s id k; left|]. intros s1 s2 s3 H1 H2 id k Hk.
  destruct (H1 id k Hk) as [Hk'|Hk']; destruct (H2 id _ Hk') as [?|?]; auto.
Qed.

(** Requests of several administrators, one after the other. *)
Definition iam_session `{UnorderedIter} (env : IdEnv) (rs : list (AuthContext * IamRequest))
    (w : IdWorld) : IdWorld :=
  foldl (λ w '(ctx, r), (run (id_exec env) (iam env ctx r) w).2) w rs.

(** A relation that every permitted change respects holds across the whole. *)
Lemma iam_session_respects `{UnorderedIter} env (R : relation Store) `{!PreOrder R} rs w :
  keyed (iw_store w) →
  Forall (λ '(ctx, _), ∀ s1 s2, permitted ctx s1 s2 → R s1 s2) rs →
  R (iw_store w) (iw_store (iam_session env rs w)) ∧ keyed (iw_store (iam_session env rs w)).
Proof.
  intros Hk Hall. revert w Hk. induction Hall as [|[ctx r] rs Hr _ IH]; intros w Hk; [done|].
  simpl. pose proof (iam_leads env ctx r w Hk) as Hl. unfold leads in Hl.
  destruct (run (id_exec env) (iam env ctx r) w) as [a w1]. simpl.
  assert (R (iw_store w) (iw_store w1) ∧ keyed (iw_store w1)) as [HR Hk1].
  { clear -Hl Hr Hk PreOrder0. induction Hl as [s|s1 s2 s3 Hp _ IHl]; [done|].
    destruct IHl as [HR2 Hk3]; [by eapply permitted_keyed|]. split; [|done].
    etrans; [by apply Hr|done]. }
  destruct (IH w1 Hk1) as [HR' Hk']. split; [by etrans|done].
Qed.

Lemma permitted_kept ctx s s' : permitted ctx s s' → keys_kept s s'.
Proof.
  intros Hp id k Hk. destruct (permitted_key_back _ _ _ _ _ Hp Hk) as [?|[_ ?]]; [by left|by right].
Qed.

(** *** What is shown *)

Lemma viewer_ok ctx : requireRole ctx Viewer = true.
Proof. unfold requireRole. destruct (c_is_rbac_enabled ctx); [|done]. by destruct (c_role ctx). Qed.

Lemma viewer_grant ctx : canGrantRole ctx Viewer = true.
Proof. unfold canGrantRole. destruct (c_is_rbac_enabled ctx); [|done]. by destruct (c_role ctx). Qed.

Lemma own_access ctx tenant :
  c_is_rbac_enabled ctx = true → c_role ctx ≠ SuperAdmin →
  requireTenantAccess ctx tenant = bool_decide (c_tenant_id ctx = tenant).
Proof. intros Hr Hs. unfold requireTenantAccess. by rw Hr decide_False. Qed.

Lemma list_guard ctx tid :
  c_is_rbac_enabled ctx = true → c_role ctx ≠ SuperAdmin →
  negb (str_empty tid) && negb (requireTenantAccess ctx tid) =
  negb (str_empty tid || bool_decide (c_tenant_id ctx = tid)).
Proof. intros Hr Hs. by rw own_access // negb_orb. Qed.

Lemma filter_in_tenant {A} (f : A → string) tenant (l : list A) :
  tenant ≠ "" →
  base.filter (λ x, in_tenant tenant (f x) = true) l = base.filter (λ x, f x = tenant) l.
Proof.
  intros Ht. apply list_filter_iff. intros x. unfold in_tenant.
  rw (proj2 (str_empty_false _) Ht). apply bool_decide_eq_true.
Qed.

(** *** The life of a key *)

Definition revoked_in (k : ApiKeyRecord) (s : Store) : Store :=
  set_rows ApiKeys (<[k_id k := set_k_status "revoked" k]> (rows s ApiKeys)) s.

(** [k] is a fresh key that [token] opens, and all that [s'] adds to [s]. *)
Definition issued (env : IdEnv) (token : string) (k : ApiKeyRecord) (s s' : Store) : Prop :=
  token ≠ "" ∧ key_opens env token k ∧ k_status k = "active" ∧ rows s ApiKeys !! k_id k = None ∧
  s' = set_rows ApiKeys (<[k_id k := k]> (rows s ApiKeys)) s.

Section lifecycle.
Context `{UnorderedIter} (env : IdEnv) (ctx : AuthContext).

Lemma insertApiKey_issued buf token k s s' :
  option_map key_text buf = Some token → k_key_prefix k = extractKeyPrefix token →
  k_key_hash k = hashApiKey env token → k_status k = "active" →
  insertApiKey k s = (true, s') → issued env token k s s'.
Proof.
  intros Hbuf Hp Hh Hs [Hn ->]%insert_new_true. split_and!; try done. by destruct buf; simplify_eq/=.
Qed.

Lemma createApiKey_issues body w :
  leads env (createApiKey env ctx body) w (λ r s', ∀ res, r = Some res → ar_is_error res = false →
    ∃ token k u, ar_body res = with_member "key" token (apiKeyToJson k) ∧
      issued env token k (iw_store w) s' ∧
      getUser (k_user_id k) (iw_store w) = Some u ∧ k_tenant_id k = u_tenant_id u).
Proof.
  unfold createApiKey. iam_run; intros res [= <-]; try done. intros _.
  match goal with Hi : insertApiKey ?k _ = _, Ht : option_map key_text _ = Some ?token |- _ =>
    eexists token, k, _ end.
  split_and!; [reflexivity| |done|done]. by eapply insertApiKey_issued.
Qed.

Lemma revokeApiKey_revokes id w :
  keyed (iw_store w) →
  leads env (revokeApiKey_ env ctx id) w (λ r s', ∀ res, r = Some res → ar_is_error res = false →
    ∃ k, k_id k = id ∧ rows (iw_store w) ApiKeys !! id = Some k ∧ s' = revoked_in k (iw_store w)).
Proof.
  intros Hk. unfold revokeApiKey_. iam_run; intros res [= <-]; try done. intros _.
  edestruct (find_key_row id) as [Hrow Hid]; [exact Hk|done|]. subst id.
  eexists. split_and!; [done..|].
  match goal with Hr : revokeApiKey _ _ = _ |- _ => apply modify_row_spec in Hr; rw Hrow in Hr;
    by destruct Hr as [_ ->] end.
Qed.

Lemma rotateApiKey_rotates id w :
  keyed (iw_store w) →
  leads env (rotateApiKey env ctx id) w (λ r s', ∀ res, r = Some res → ar_is_error res = false →
    ∃ k token k', k_id k = id ∧ rows (iw_store w) ApiKeys !! id = Some k ∧
      ar_body res =
        with_member "rotated_from" id (with_member "key" token (apiKeyToJson k')) ∧
      issued env token k' (revoked_in k (iw_store w)) s' ∧
      k_user_id k' = k_user_id k ∧ k_tenant_id k' = k_tenant_id k ∧ k_role k' = k_role k ∧
      k_expires_at k' = "").
Proof.
  intros Hk. unfold rotateApiKey. iam_run; intros res [= <-]; try done; intros _.
  all: edestruct (find_key_row id) as [Hrow Hid]; [exact Hk|done|]; subst id.
  all: match goal with Hr : revokeApiKey _ _ = _ |- _ => apply modify_row_spec in Hr; rw Hrow in Hr;
         destruct Hr as [Hb ->]; simplify_eq/= end.
  all: match goal with Hi : insertApiKey ?k _ = _, Ht : option_map key_text _ = Some ?token |- _ =>
    eexists _, token, k end.
  all: split_and!; [done|done|reflexivity| |done|done|done|done]; by eapply insertApiKey_issued.
Qed.

(** The token of [k] is good for [k]'s context while [k] is usable. *)
Definition opens_for (deps : AuthDeps) (w : IdWorld) (token : string) (k : ApiKeyRecord) : Prop :=
  key_usable (iw_store w) (seconds (iw_clock w)) k → k_user_id k ≠ "system.autorollback" →
  run (id_exec env) (resolve env deps token) w = (Some (key_context k), w).

Definition refused_ (deps : AuthDeps) (w : IdWorld) (token : string) : Prop :=
  run (id_exec env) (resolve env deps token) w = (None, w).

Lemma issued_opens deps token k s w :
  ad_rbac deps = true → hashes_unique (iw_store w) → issued env token k s (iw_store w) →
  opens_for deps w token k.
Proof.
  intros Hr Hu (Ht & Ho & _ & _ & Hs).
  eapply proj1, (resolve_key env deps token (k_id k)); [done..| |done].
  by rw Hs rows_set_eq lookup_insert_eq.
Qed.

Lemma issued_row token k s s' : issued env token k s s' → rows s' ApiKeys !! k_id k = Some k.
Proof. intros (_ & _ & _ & _ & ->). by rw rows_set_eq lookup_insert_eq. Qed.

Lemma issued_keeps token k s s' id x :
  issued env token k s s' → rows s ApiKeys !! id = Some x → rows s' ApiKeys !! id = Some x.
Proof.
  intros (_ & _ & _ & Hn & ->) Hx. rw rows_set_eq lookup_insert_ne //. intros <-. by rw Hn in Hx.
Qed.

Lemma revoked_row k s : rows (revoked_in k s) ApiKeys !! k_id k = Some (set_k_status "revoked" k).
Proof. unfold revoked_in. by rw rows_set_eq lookup_insert_eq. Qed.

(** The revoked row of a key, in a store that still has it. *)
Lemma revoked_refused deps token k id w :
  ad_rbac deps = true → hashes_unique (iw_store w) → token ≠ "" → key_opens env token k →
  rows (iw_store w) ApiKeys !! id = Some (set_k_status "revoked" k) → refused_ deps w token.
Proof.
  intros Hr Hu Ht Ho Hk. by eapply (proj2 (resolve_key env deps token id _ w Hr Ht Hu Hk Ho)).
Qed.

End lifecycle.

(** ** An instance *)

Lemma toy_store_keyed : keyed toy_store.
Proof.
  split.
  - apply (bool_decide_unpack (map_Forall (λ id u, u_id u = id) (rows toy_store Users))). by vm_compute.
  - apply (bool_decide_unpack (map_Forall (λ id k, k_id k = id) (rows toy_store ApiKeys))).
    by vm_compute.
Qed.

Definition toy_context (u : string) (tenant : string) (role : Role) : AuthContext :=
  {| c_tenant_id := tenant; c_user_id := u; c_api_key_id := ""; c_role := role;
     c_is_rbac_enabled := true; c_session_id := ""; c_auth_method := "";
     c_mfa_verified := false; c_external_subject := "" |}.

Definition alice : AuthContext := toy_context "alice" "acme" TenantAdmin.

Definition string_body (l : list (string * string)) : json := json_of_list (prod_map id JString <$> l).

(** A user and a key of the own tenant, and two attempts at another one. *)
Definition toy_requests : list (AuthContext * IamRequest) :=
  [(alice, CreateUser (string_body [("username", "carol"); ("role", "developer")]));
   (alice, CreateApiKey (string_body [("user_id", "id0")]));
   (alice, UpdateUser "bob" (string_body [("status", "suspended")]));
   (alice, RevokeApiKey "k2"); (alice, RotateApiKey "k1")].

(** ** Properties *)

(** C22. Whatever requests administrators of one tenant send, in whatever order:
    as long as none of them is a super administrator, the users and keys of
    the other tenants, and every other table, stay as they were; no user and
    no key gets a role above the highest one among the senders; a key is never
    changed except to revoke it; and senders below a tenant administrator
    change nothing at all. *)
Theorem iam_isolation `{UnorderedIter} env tenant top rs w :
  keyed (iw_store w) →
  Forall (λ '(ctx, _), c_is_rbac_enabled ctx = true ∧ c_role ctx ≠ SuperAdmin ∧
            c_tenant_id ctx = tenant ∧ role_rank (c_role ctx) <= top) rs →
  let s := iw_store w in let s' := iw_store (iam_session env rs w) in
  foreign_same tenant s s' ∧ roles_within top s s' ∧ keys_kept s s' ∧
  (top < role_rank TenantAdmin → ∀ t, rows s' t = rows s t).
Proof.
  intros Hk Hall s s'. split_and!.
  - eapply (iam_session_respects env (foreign_same tenant)); [done|]. eapply Forall_impl; [exact Hall|].
    intros [ctx r] (Hr & Hs & <- & _) s1 s2. by apply permitted_foreign.
  - eapply (iam_session_respects env (roles_within top)); [done|]. eapply Forall_impl; [exact Hall|].
    intros [ctx r] (Hr & Hs & _ & Ht) s1 s2. by apply permitted_roles.
  - eapply (iam_session_respects env keys_kept); [done|]. eapply Forall_impl; [exact Hall|].
    intros [ctx r] _ s1 s2. apply permitted_kept.
  - intros Htop. assert (PreOrder (λ s s' : Store, ∀ t, rows s' t = rows s t)) as Hpre.
    { split; [done|]. intros s1 s2 s3 H1 H2 t. by rw H2. }
    eapply (iam_session_respects env (λ s s', ∀ t, rows s' t = rows s t)); [done|].
    eapply Forall_impl; [exact Hall|]. intros [ctx r] (Hr & Hs & _ & Ht) s1 s2 Hp.
    apply permitted_needs_admin in Hp; [lia|done].
Qed.

Lemma iam_isolation_witness :
  let s' := iw_store (iam_session toy_env toy_requests toy_world) in
  (size (rows s' Users), size (rows s' ApiKeys)) = (4%nat, 4%nat) ∧
  (k_status <$> rows s' ApiKeys !! "k1", k_status <$> rows s' ApiKeys !! "k2")
    = (Some "revoked", Some "active") ∧
  foreign_same "acme" toy_store s' ∧ roles_within (role_rank TenantAdmin) toy_store s' ∧ keys_kept toy_store s'.
Proof.
  destruct (iam_isolation toy_env "acme" (role_rank TenantAdmin) toy_requests toy_world)
    as (H1 & H2 & H3 & _).
  - exact toy_store_keyed.
  - repeat constructor; done.
  - split_and!; [by vm_compute..|exact H1|exact H2|exact H3].
Defined.

(** The life of a key.  The token that [createApiKey] shows is new and opens
    the gateway for the key's user, tenant and role as long as the user and
    the tenant are active and the key has not expired.  After a successful
    [revokeApiKey] the token is refused.  After a successful [rotateApiKey] it
    is refused too, and the token shown instead opens the gateway for the same
    user, tenant and role, with no expiry whatever the old key had. *)
Theorem api_key_lifecycle `{UnorderedIter} env deps ctx body w res w1 :
  ad_rbac deps = true → keyed (iw_store w) → hashes_unique (iw_store w1) →
  run (id_exec env) (createApiKey env ctx body) w = (Some res, w1) → ar_is_error res = false →
  ∃ token k u,
    ar_body res = with_member "key" token (apiKeyToJson k) ∧
    getUser (k_user_id k) (iw_store w) = Some u ∧ k_tenant_id k = u_tenant_id u ∧
    rows (iw_store w) ApiKeys !! k_id k = None ∧ opens_for env deps w1 token k ∧
    (∀ ctx' res' w2, run (id_exec env) (revokeApiKey_ env ctx' (k_id k)) w1 = (Some res', w2) →
       ar_is_error res' = false → hashes_unique (iw_store w2) → refused_ env deps w2 token) ∧
    (∀ ctx' res' w2, run (id_exec env) (rotateApiKey env ctx' (k_id k)) w1 = (Some res', w2) →
       ar_is_error res' = false → hashes_unique (iw_store w2) →
       refused_ env deps w2 token ∧
       ∃ token' k', ar_body res' =
           with_member "rotated_from" (k_id k) (with_member "key" token' (apiKeyToJson k')) ∧
         k_user_id k' = k_user_id k ∧ k_tenant_id k' = k_tenant_id k ∧ k_role k' = k_role k ∧
         k_expires_at k' = "" ∧ opens_for env deps w2 token' k').
Proof.
  intros Hr Hk Hu1 Hc Hok. pose proof (createApiKey_issues env ctx body w) as Hl.
  pose proof (iam_leads env ctx (CreateApiKey body) w Hk) as Hp. simpl in Hp.
  unfold leads in Hl, Hp. rw Hc in Hl Hp. destruct (Hl res eq_refl Hok) as (token & k & u & Hb & Hi & Hu & Ht).
  assert (keyed (iw_store w1)) as Hk1 by by eapply permitted_keyed_all.
  pose proof (issued_row _ _ _ _ _ Hi) as Hrow1.
  exists token, k, u. destruct (id Hi) as (Htok & Hopen & _ & Hnew & _).
  split_and!; try done; [by eapply issued_opens| |].
  - intros ctx' res' w2 Hrun Hok' Hu2. pose proof (revokeApiKey_revokes env ctx' (k_id k) w1 Hk1) as Hv.
    unfold leads in Hv. rw Hrun in Hv. destruct (Hv res' eq_refl Hok') as (k0 & Hid & Hrow & Hs2).
    rw Hrow1 in Hrow. injection Hrow as <-.
    eapply revoked_refused; [done..|]. rw Hs2. apply revoked_row.
  - intros ctx' res' w2 Hrun Hok' Hu2. pose proof (rotateApiKey_rotates env ctx' (k_id k) w1 Hk1) as Hv.
    unfold leads in Hv. rw Hrun in Hv.
    destruct (Hv res' eq_refl Hok') as (k0 & token' & k' & Hid & Hrow & Hb' & Hi' & E1 & E2 & E3 & E4).
    rw Hrow1 in Hrow. injection Hrow as <-. split.
    + eapply revoked_refused; [done..|]. eapply issued_keeps; [done|apply revoked_row].
    + exists token', k'. split_and!; try done. by eapply issued_opens.
Qed.

Lemma api_key_lifecycle_witness :
  let out := run (id_exec toy_env) (createApiKey toy_env alice (string_body [("user_id", "alice")]))
               toy_world in
  ar_status <$> out.1 = Some 201 ∧
  ∃ token k u, getUser (k_user_id k) toy_store = Some u ∧ k_tenant_id k = u_tenant_id u ∧
    opens_for toy_env toy_deps out.2 token k.
Proof.
  intros out. assert (ar_status <$> out.1 = Some 201) as Hst by by vm_compute. split; [done|].
  assert (hashes_unique (iw_store out.2)) as Hu by (apply hashes_unique_dec; by vm_compute).
  assert (ar_is_error <$> out.1 = Some false) as Hok by by vm_compute.
  destruct out as [[res|] w1] eqn:Hrun; [|done]. injection Hok as Hok.
  destruct (api_key_lifecycle toy_env toy_deps alice (string_body [("user_id", "alice")]) toy_world res w1
              eq_refl toy_store_keyed Hu Hrun Hok) as (token & k & u & _ & H2 & H3 & _ & H5 & _).
  by exists token, k, u.
Defined.

(** A caller who is not a super administrator sees the own tenant only:
    a listing asked for no tenant or for the own one is a page of exactly the
    tenant's users (or keys) with their number, a listing asked for another
    tenant is refused, and a user is shown only when they belong to the
    tenant.  Reading changes nothing. *)
Theorem iam_visibility `{UnorderedIter} env ctx w :
  c_is_rbac_enabled ctx = true → c_role ctx ≠ SuperAdmin → c_tenant_id ctx ≠ "" →
  (∀ tid limit offset,
     let own := base.filter (λ u, u_tenant_id u = c_tenant_id ctx) (all_rows Users (iw_store w)) in
     run (id_exec env) (listUsers_ ctx tid limit offset) w =
     (Some (if str_empty tid || bool_decide (c_tenant_id ctx = tid)
            then ok (listing (userToJson <$>
                   take (Z.to_nat (Z.max 1 limit)) (drop (Z.to_nat offset) own))
                   (Z.of_nat (length own))) 200
            else error InsufficientPermissions ""), w)) ∧
  (∀ tid limit offset,
     let own := base.filter (λ k, k_tenant_id k = c_tenant_id ctx) (all_rows ApiKeys (iw_store w)) in
     run (id_exec env) (listApiKeys_ ctx tid limit offset) w =
     (Some (if str_empty tid || bool_decide (c_tenant_id ctx = tid)
            then ok (listing (apiKeyToJson <$>
                   take (Z.to_nat (Z.max 1 limit)) (drop (Z.to_nat offset) own))
                   (Z.of_nat (length own))) 200
            else error InsufficientPermissions ""), w)) ∧
  (∀ id, run (id_exec env) (getUser_ ctx id) w =
     (Some (match rows (iw_store w) Users !! id with
            | Some u => if decide (u_tenant_id u = c_tenant_id ctx) then ok (userToJson u) 200
                        else error InsufficientPermissions ""
            | None => error InvalidRequest "User not found"
            end), w)).
Proof.
  intros Hr Hs Ht. split_and!.
  - intros tid limit offset own. unfold listUsers_, effectiveTenantId. rw decide_False // list_guard //.
    destruct (_ || _); [|done]. rw viewer_ok run_fetch run_fetch /listUsers page_spec.
    rw (filter_in_tenant u_tenant_id) // /userCount (proj2 (str_empty_false _) Ht) //.
  - intros tid limit offset own. unfold listApiKeys_, effectiveTenantId. rw decide_False // list_guard //.
    destruct (_ || _); [|done]. rw viewer_ok run_fetch run_fetch /listApiKeys page_spec.
    rw (filter_in_tenant k_tenant_id) // /apiKeyCount (proj2 (str_empty_false _) Ht) //.
  - intros id. unfold getUser_. rw run_fetch {1}/getUser. destruct (rows _ Users !! id) as [u|]; [|done].
    unfold authorize. rw viewer_ok own_access //.
    destruct (decide (c_tenant_id ctx = u_tenant_id u)) as [E|E].
    + by rw bool_decide_true // decide_True.
    + by rw bool_decide_false // decide_False.
Qed.

Lemma iam_visibility_witness :
  run (id_exec toy_env) (getUser_ alice "bob") toy_world =
    (Some (error InsufficientPermissions ""), toy_world) ∧
  run (id_exec toy_env) (listUsers_ alice "globex" 10 0) toy_world =
    (Some (error InsufficientPermissions ""), toy_world).
Proof.
  destruct (iam_visibility toy_env alice toy_world) as (H1 & _ & H3); [done..|]. split.
  - rw H3. f_equal.
  - rw H1. f_equal.
Defined.

(** The role of the target does not matter: whoever administers a tenant can
    demote, suspend and delete every user of it, super administrators
    included. *)
Theorem superior_not_protected `{UnorderedIter} env ctx id u w :
  keyed (iw_store w) → rows (iw_store w) Users !! id = Some u →
  authorize ctx TenantAdmin (u_tenant_id u) = true →
  leads env (deleteUser_ env ctx id) w (λ r s',
    ar_is_error <$> r = Some false ∧ rows s' Users !! id = None) ∧
  leads env (updateUser_ env ctx id (string_body [("role", "viewer"); ("status", "suspended")])) w
    (λ r s', ar_is_error <$> r = Some false ∧
       ∃ u', rows s' Users !! id = Some u' ∧ u_role u' = Viewer ∧ u_status u' = "suspended").
Proof.
  intros [Hk _] Hu Ha. pose proof (Hk _ _ Hu) as Hid. split.
  - unfold deleteUser_. apply leads_fetch. unfold getUser. rw Hu Ha. cbn [negb].
    apply leads_store. intros b s' Hd. apply erase_row_spec in Hd. rw Hu in Hd.
    destruct Hd as [-> ->]. cbn [negb]. iam_run. by rw rows_set_eq lookup_delete_eq.
  - unfold updateUser_. apply leads_fetch. unfold getUser. rw Hu Ha. cbn [negb].
    rw (_ : role_update ctx _ (u_role u) = Some (inr Viewer)); [|by rw /role_update /= viewer_grant].
    cbn [attempt replaced]. iam_run.
    all: match goal with Hup : updateUser _ _ = _ |- _ =>
           unfold updateUser in Hup; apply modify_row_spec in Hup; cbn [u_id] in Hup;
           rw Hid Hu in Hup; destruct Hup as [Hb ->]; try done end.
    match goal with Hs : replaced _ "status" _ _ = _ |- _ => injection Hs as <- end.
    split; [done|]. rw rows_set_eq lookup_insert_eq. by eexists.
Qed.

Lemma superior_not_protected_witness :
  u_role <$> rows toy_store Users !! "root" = Some SuperAdmin ∧
  leads toy_env (deleteUser_ toy_env alice "root") toy_world (λ r s',
    ar_is_error <$> r = Some false ∧ rows s' Users !! "root" = None).
Proof.
  split; [done|].
  by apply (superior_not_protected toy_env alice "root" (toy_user "root" "acme" SuperAdmin)
              toy_world toy_store_keyed).
Defined.

End AdminIam.
