(* ===== verification/AdminMfa.v ===== *)
(** * AdminMfa: the second factor

    Models the MFA handlers of [src/src/server/admin_controller.cpp]: setup,
    verification, recovery and removal, over the table of secrets (of the SQL
    stores, the in-memory store has none) and the table of failures.  The
    theorems: an enrolled authenticator opens the session, nothing else does,
    and the number of guesses in a lock-out window is bounded. *)
From Corelib Require Import PrimFloat.
From S2P Require Import Prelude.
From S2P Require Import Prog.
From S2P Require Import Json.
From S2P Require Import ErrorCodes.
From S2P Require Import AuditLog.
From S2P Require Import IsoTime.
From S2P Require Import Identity.
From S2P Require Import Auth.
From S2P Require Import Totp.
From S2P Require Import AdminBase.
Import Json ErrorCodes IsoTime Auth Totp AdminBase.
Local Open Scope Z_scope.

Module AdminMfa.

(** The lock-out policy of the controller. *)
Record MfaPolicy := {
  mfa_recovery_code_count_ : Z;
  mfa_lockout_max_failures_ : Z;
  mfa_lockout_window_sec_ : Z;
}.

Definition default_policy : MfaPolicy :=
  {| mfa_recovery_code_count_ := 8; mfa_lockout_max_failures_ := 5;
     mfa_lockout_window_sec_ := 900 |}.

Definition setMfaPolicy (recovery_code_count lockout_max_failures lockout_window_sec : Z)
    (p : MfaPolicy) : MfaPolicy :=
  let pick new old := if 0 <? new then new else old in
  {| mfa_recovery_code_count_ := pick recovery_code_count (mfa_recovery_code_count_ p);
     mfa_lockout_max_failures_ := pick lockout_max_failures (mfa_lockout_max_failures_ p);
     mfa_lockout_window_sec_ := pick lockout_window_sec (mfa_lockout_window_sec_ p) |}.

Section handlers.
Context (env : IdEnv) (hmac_sha1 : list Z → list Z → option (list Z)) (cipher : Audit.Encryption).
Context (auth_service : bool) (policy : MfaPolicy).

Definition kMfaPurpose : string := "mfa_totp_secret".

(** The secret of a row; a text that cannot be decrypted is used as it is. *)
Definition plain_secret (mfa : MfaSecret) : string :=
  if Audit.enc_isAvailable cipher
  then default (mfa_secret_enc mfa) (Audit.enc_decrypt cipher (mfa_secret_enc mfa) kMfaPurpose)
  else mfa_secret_enc mfa.

Definition setupMfa (ctx : AuthContext) : handler :=
  existing ← fetch (getMfaSecret (c_user_id ctx));
  if from_option mfa_enabled false existing then refuse_ InvalidRequest "MFA is already enabled"
  else
    secret ← generateSecret;
    secret ⇐ secret;
    let secret_enc := if Audit.enc_isAvailable cipher
                      then Audit.enc_encrypt cipher secret kMfaPurpose else secret in
    codes ← generateRecoveryCodes (mfa_recovery_code_count_ policy);
    codes ⇐ codes;
    now ← now_iso;
    let mfa := {| mfa_user_id := c_user_id ctx; mfa_secret_enc := secret_enc;
                  mfa_enabled := false;
                  mfa_recovery_codes_hash := hashRecoveryCode env <$> codes;
                  mfa_created_at := now |} in
    stored ← store (upsertMfaSecret mfa);
    if negb stored then refuse_ InternalError "Failed to store MFA secret"
    else
      user ← fetch (getUser (c_user_id ctx));
      let username := from_option u_username (c_user_id ctx) user in
      let qr_uri := generateOtpAuthUri secret username "AegisGate" in
      auditAction env ctx "admin.mfa_setup" ("user_id=" +:+ c_user_id ctx);;
      reply (ok (json_of_list [("secret", JString secret); ("qr_uri", JString qr_uri);
                               ("recovery_codes", JArray (JString <$> codes))]) 200).

(** [recordMfaFailure] reads the clock itself. *)
Definition record_failure (ctx : AuthContext) : prog IdCmd unit :=
  t ← call Clock;
  store (recordMfaFailure (c_user_id ctx) (mfa_lockout_max_failures_ policy)
           (mfa_lockout_window_sec_ policy) (seconds t));;
  Ret tt.

(** The session of the request is marked as verified. *)
Definition mark_session (ctx : AuthContext) : prog IdCmd unit :=
  when_ (negb (str_empty (c_session_id ctx)) && auth_service)
    (setMfaVerified (c_session_id ctx) true;; Ret tt).

Definition verifyMfa (ctx : AuthContext) (body : json) : handler :=
  code ⇐ json_value as_string "code" "" body;
  if str_empty code then refuse_ MissingRequiredField "Field 'code' is required"
  else
    mfa ← fetch (getMfaSecret (c_user_id ctx));
    match mfa with
    | None => refuse_ MfaNotSetup ""
    | Some mfa =>
        now ← call Clock;
        locked ← fetch (getMfaLockedUntil (c_user_id ctx));
        if seconds now <? locked
        then refuse_ RateLimitExceeded "Too many failed MFA attempts; try again later"
        else
          t ← call Clock;
          valid ⇐ verifyCode hmac_sha1 (plain_secret mfa) code 0 (seconds t);
          if negb valid then record_failure ctx;; refuse_ MfaInvalidCode ""
          else
            store (clearMfaFailures (c_user_id ctx));;
            when_ (negb (mfa_enabled mfa))
              (store (upsertMfaSecret
                 {| mfa_user_id := mfa_user_id mfa; mfa_secret_enc := mfa_secret_enc mfa;
                    mfa_enabled := true;
                    mfa_recovery_codes_hash := mfa_recovery_codes_hash mfa;
                    mfa_created_at := mfa_created_at mfa |});; Ret tt);;
            mark_session ctx;;
            auditAction env ctx "admin.mfa_verify" ("user_id=" +:+ c_user_id ctx);;
            reply (ok (json_of_list [("verified", JBool true); ("mfa_enabled", JBool true)]) 200)
    end.

Definition disableMfa (ctx : AuthContext) (body : json) : handler :=
  if negb (requireRole ctx TenantAdmin) then refuse_ InsufficientPermissions ""
  else
    code ⇐ json_value as_string "code" "" body;
    if str_empty code then refuse_ MissingRequiredField "Field 'code' is required"
    else
      mfa ← fetch (getMfaSecret (c_user_id ctx));
      match mfa with
      | None => refuse_ MfaNotSetup ""
      | Some mfa =>
          if negb (mfa_enabled mfa) then refuse_ MfaNotSetup ""
          else
            t ← call Clock;
            valid ⇐ verifyCode hmac_sha1 (plain_secret mfa) code 0 (seconds t);
            if negb valid then refuse_ MfaInvalidCode ""
            else
              store (deleteMfaSecret (c_user_id ctx));;
              auditAction env ctx "admin.mfa_disable" ("user_id=" +:+ c_user_id ctx);;
              reply (ok (json_of_list [("disabled", JBool true)]) 200)
      end.

Definition recoveryMfa (ctx : AuthContext) (body : json) : handler :=
  code ⇐ json_value as_string "code" "" body;
  if str_empty code then refuse_ MissingRequiredField "Field 'code' is required"
  else
    mfa ← fetch (getMfaSecret (c_user_id ctx));
    match mfa with
    | None => refuse_ MfaNotSetup ""
    | Some mfa =>
        if negb (mfa_enabled mfa) then refuse_ MfaNotSetup ""
        else
          now ← call Clock;
          locked ← fetch (getMfaLockedUntil (c_user_id ctx));
          if seconds now <? locked
          then refuse_ RateLimitExceeded "Too many failed MFA attempts; try again later"
          else
            match verifyRecoveryCode env (mfa_recovery_codes_hash mfa) code with
            | None => record_failure ctx;; refuse_ MfaInvalidCode "Invalid recovery code"
            | Some hashes =>
                store (clearMfaFailures (c_user_id ctx));;
                store (upsertMfaSecret
                  {| mfa_user_id := mfa_user_id mfa; mfa_secret_enc := mfa_secret_enc mfa;
                     mfa_enabled := mfa_enabled mfa; mfa_recovery_codes_hash := hashes;
                     mfa_created_at := mfa_created_at mfa |});;
                mark_session ctx;;
                auditAction env ctx "admin.mfa_recovery" ("user_id=" +:+ c_user_id ctx);;
                reply (ok (json_of_list [("verified", JBool true);
                  ("remaining_codes", JInteger (Z.of_nat (length hashes)))]) 200)
            end
    end.

End handlers.

(** ** What the handlers do

    Verification and recovery are one procedure with two ways to check a
    code. *)

Inductive Outcome := Thrown | Refused (code : ErrorCode) | Passed.

Definition outcome_of (r : option AdminResult) : Outcome :=
  match r with
  | None => Thrown
  | Some res => if ar_is_error res then Refused (ar_error_code res) else Passed
  end.

(** What a check says of the code: the library throws, it is wrong, or it is
    right and the row may be replaced. *)
Inductive Check := CheckThrows | CheckFails | CheckPasses (write : option MfaSecret).

Definition set_enabled (m : MfaSecret) : MfaSecret :=
  {| mfa_user_id := mfa_user_id m; mfa_secret_enc := mfa_secret_enc m; mfa_enabled := true;
     mfa_recovery_codes_hash := mfa_recovery_codes_hash m; mfa_created_at := mfa_created_at m |}.

Definition set_codes (hashes : list string) (m : MfaSecret) : MfaSecret :=
  {| mfa_user_id := mfa_user_id m; mfa_secret_enc := mfa_secret_enc m; mfa_enabled := mfa_enabled m;
     mfa_recovery_codes_hash := hashes; mfa_created_at := mfa_created_at m |}.

Definition totp_check hmac_sha1 cipher (code : string) (now : Z) (m : MfaSecret) : Check :=
  match verifyCode hmac_sha1 (plain_secret cipher m) code 0 now with
  | None => CheckThrows
  | Some false => CheckFails
  | Some true => CheckPasses (if mfa_enabled m then None else Some (set_enabled m))
  end.

Definition recovery_check env (code : string) (m : MfaSecret) : Check :=
  match verifyRecoveryCode env (mfa_recovery_codes_hash m) code with
  | None => CheckFails
  | Some hashes => CheckPasses (Some (set_codes hashes m))
  end.

Definition write_row (write : option MfaSecret) (s : Store) : Store :=
  match write with Some m => (upsertMfaSecret m s).2 | None => s end.

Definition mark (auth_service : bool) (ctx : AuthContext) (s : Store) : Store :=
  if negb (str_empty (c_session_id ctx)) && auth_service
  then (updateSessionMfaVerified (c_session_id ctx) true s).2 else s.

Definition second_factor (auth_service : bool) (policy : MfaPolicy) (enabled_only : bool)
    (check : MfaSecret → Check) (ctx : AuthContext) (now : Z) (s : Store) : Outcome * Store :=
  match getMfaSecret (c_user_id ctx) s with
  | None => (Refused MfaNotSetup, s)
  | Some m =>
      if enabled_only && negb (mfa_enabled m) then (Refused MfaNotSetup, s)
      else if now <? getMfaLockedUntil (c_user_id ctx) s then (Refused RateLimitExceeded, s)
      else match check m with
      | CheckThrows => (Thrown, s)
      | CheckFails =>
          (Refused MfaInvalidCode,
           (recordMfaFailure (c_user_id ctx) (mfa_lockout_max_failures_ policy)
              (mfa_lockout_window_sec_ policy) now s).2)
      | CheckPasses write =>
          (Passed, mark auth_service ctx (write_row write (clearMfaFailures (c_user_id ctx) s).2))
      end
  end.

(** The code of a request. *)
Definition with_code (body : json) (k : string → Store → Outcome * Store) (s : Store) :
    Outcome * Store :=
  match json_value as_string "code" "" body with
  | None => (Thrown, s)
  | Some code => if str_empty code then (Refused MissingRequiredField, s) else k code s
  end.

Section refinement.
Context (env : IdEnv) (hmac_sha1 : list Z → list Z → option (list Z)) (cipher : Audit.Encryption).
Context (auth_service : bool) (policy : MfaPolicy).

Lemma leads_store_snd {A B} (f : Store → B * Store) (k : B → prog IdCmd A) w Q :
  (∀ b, leads env (k b) (with_store (f (iw_store w)).2 w) Q) → leads env (store f ≫= k) w Q.
Proof. intros Hk. apply leads_store. intros b s Hf. rw Hf in Hk. apply Hk. Qed.

Lemma leads_mark {A} ctx (k : unit → prog IdCmd A) w Q :
  (∀ w', iw_store w' = mark auth_service ctx (iw_store w) → leads env (k tt) w' Q) →
  leads env (mark_session auth_service ctx ≫= k) w Q.
Proof.
  intros Hk. apply leads_bind. unfold mark_session, mark in *. destruct (_ && _); simpl.
  - apply leads_store_snd. intros b. apply leads_ret. intros w' Hw' _. by apply Hk.
  - apply leads_ret. intros w' Hw' _. by apply Hk.
Qed.

Lemma leads_write {A} (b : bool) m (k : unit → prog IdCmd A) w Q :
  (∀ w', iw_store w' = write_row (if b then Some m else None) (iw_store w) → leads env (k tt) w' Q) →
  leads env (when_ b (store (upsertMfaSecret m);; Ret tt) ≫= k) w Q.
Proof.
  intros Hk. apply leads_bind. destruct b; simpl.
  - apply leads_store_snd. intros b. apply leads_ret. intros w' Hw' _. by apply Hk.
  - apply leads_ret. intros w' Hw' _. by apply Hk.
Qed.

Lemma leads_failure {A} ctx (k : unit → prog IdCmd A) w Q :
  (∀ w', iw_store w' = (recordMfaFailure (c_user_id ctx) (mfa_lockout_max_failures_ policy)
       (mfa_lockout_window_sec_ policy) (seconds (iw_clock w)) (iw_store w)).2 →
     leads env (k tt) w' Q) →
  leads env (record_failure policy ctx ≫= k) w Q.
Proof.
  intros Hk. apply leads_bind. unfold record_failure. apply leads_clock, leads_store_snd.
  intros b. apply leads_ret. intros w' Hw' _. by apply Hk.
Qed.

(** [verifyMfa] is the procedure with the authenticator's codes. *)
Lemma verifyMfa_refines ctx body w :
  leads env (verifyMfa env hmac_sha1 cipher auth_service policy ctx body) w (λ r s',
    (outcome_of r, s') =
    with_code body (λ code, second_factor auth_service policy false
      (totp_check hmac_sha1 cipher code (seconds (iw_clock w))) ctx (seconds (iw_clock w)))
      (iw_store w)).
Proof.
  unfold verifyMfa, with_code. destruct (json_value _ _ _ body) as [code|]; [|done]. cbn [attempt].
  destruct (str_empty code); [done|]. apply leads_fetch. unfold second_factor.
  destruct (getMfaSecret _ _) as [m|]; [|done]. apply leads_clock, leads_fetch. cbn [andb].
  destruct (_ <? _); [done|]. apply leads_clock. unfold totp_check.
  destruct (verifyCode _ _ _ _ _) as [[]|]; [| |done]; cbn [attempt negb].
  - apply leads_store_snd. intros _. apply leads_write. intros w1 H1. apply leads_mark. intros w2 H2.
    apply leads_quiet; [auto with admin|]. intros _ w3 H3 _. apply leads_ret.
    rw H3 H2 H1. by destruct (mfa_enabled m).
  - apply leads_failure. intros w1 H1. apply leads_ret. by rw H1.
Qed.

(** [recoveryMfa] is the procedure with the recovery codes. *)
Lemma recoveryMfa_refines ctx body w :
  leads env (recoveryMfa env auth_service policy ctx body) w (λ r s',
    (outcome_of r, s') =
    with_code body (λ code, second_factor auth_service policy true (recovery_check env code)
      ctx (seconds (iw_clock w))) (iw_store w)).
Proof.
  unfold recoveryMfa, with_code. destruct (json_value _ _ _ body) as [code|]; [|done]. cbn [attempt].
  destruct (str_empty code); [done|]. apply leads_fetch. unfold second_factor.
  destruct (getMfaSecret _ _) as [m|]; [|done]. destruct (mfa_enabled m) eqn:Hen; [|done].
  cbn [andb negb]. apply leads_clock, leads_fetch. destruct (_ <? _); [done|]. unfold recovery_check.
  destruct (verifyRecoveryCode _ _ _) as [hashes|].
  - apply leads_store_snd. intros _. apply leads_store_snd. intros _. apply leads_mark. intros w2 H2.
    apply leads_quiet; [auto with admin|]. intros _ w3 H3 _. apply leads_ret.
    rw H3 H2 /write_row /set_codes Hen. done.
  - apply leads_failure. intros w1 H1. apply leads_ret. by rw H1.
Qed.

End refinement.

(** *** The bound on guesses *)

(** The guesses that are looked at, from the row [r], at the given times. *)
Fixpoint looked_at (max window : Z) (r : MfaFailRow) (ts : list Z) : Z :=
  match ts with
  | [] => 0
  | t :: ts =>
      if t <? locked_until r then looked_at max window r ts
      else 1 + looked_at max window (fail_row max window t r) ts
  end.

Lemma looked_at_locked max window r ts until :
  until <= locked_until r → Forall (λ t, t < until) ts → looked_at max window r ts = 0.
Proof.
  intros Hl Hts. induction Hts as [|t ts Ht _ IH]; [done|]. cbn [looked_at].
  by rw (proj2 (Z.ltb_lt _ _)); [|lia].
Qed.

Section window.
Context (max window from : Z) (Hmax : 1 <= max) (Hfrom : 0 < from).

(** The row counts failures since some second of the window. *)
Lemma looked_at_counting r ts :
  from <= first_fail_at r → 1 <= fail_count r < max ∨ from + window <= locked_until r →
  Forall (λ t, from <= t < from + window) ts →
  looked_at max window r ts <= Z.max 0 (max - fail_count r).
Proof.
  intros Hf Hr Hts. revert r Hf Hr. induction Hts as [|t ts Ht Hts IH]; intros r Hf Hr;
    [simpl; lia|]. cbn [looked_at]. destruct (Z.ltb_spec t (locked_until r)); [by apply IH|].
  destruct Hr as [Hr|?]; [|lia]. unfold fail_row.
  rw (proj2 (Z.eqb_neq (first_fail_at r) 0)); [|lia]. cbn [orb].
  rw (proj2 (Z.ltb_ge window (t - first_fail_at r))); [|lia]. cbn [fail_count].
  destruct (Z.leb_spec max (fail_count r + 1)).
  - rw (looked_at_locked _ _ _ _ (from + window)); [lia|simpl; lia|].
    eapply Forall_impl; [exact Hts|]. simpl. lia.
  - etrans; [apply Z.add_le_mono_l, IH; simpl; lia|]. simpl. lia.
Qed.

(** Whatever the row was before: what is left of its count, and one count
    more. *)
Lemma looked_at_bound r ts :
  0 <= fail_count r → Forall (λ t, from <= t < from + window) ts →
  looked_at max window r ts <= Z.max 0 (max - 1 - fail_count r) + max.
Proof.
  intros Hr Hts. revert r Hr. induction Hts as [|t ts Ht Hts IH]; intros r Hr; [simpl; lia|].
  cbn [looked_at]. destruct (Z.ltb_spec t (locked_until r)); [by apply IH|]. unfold fail_row.
  destruct (_ || _).
  - etrans; [apply Z.add_le_mono_l, looked_at_counting; [..|done]|].
    + destruct (_ <=? _); simpl; lia.
    + simpl. destruct (Z.leb_spec max 1); simpl; lia.
    + simpl. destruct (Z.leb_spec max 1); simpl; lia.
  - cbn [fail_count]. destruct (Z.leb_spec max (fail_count r + 1)).
    + rw (looked_at_locked _ _ _ _ (from + window)); [lia|simpl; lia|].
      eapply Forall_impl; [exact Hts|]. simpl. lia.
    + etrans; [apply Z.add_le_mono_l, IH; simpl; lia|]. simpl. lia.
Qed.

End window.

(** *** Requests *)

Inductive MfaRequest :=
| SetupMfa | VerifyMfa (body : json) | DisableMfa (body : json) | RecoveryMfa (body : json).

(** A guess at one of the two endpoints with a lock-out, [verifyMfa] and
    [recoveryMfa].  [disableMfa] checks a code too, without one. *)
Definition limited_guess (r : MfaRequest) : bool :=
  match r with VerifyMfa _ | RecoveryMfa _ => true | _ => false end.

Definition failures (user : string) (s : Store) : MfaFailRow :=
  default no_failures (rows s MfaFailures !! user).

Lemma locked_failures user s : getMfaLockedUntil user s = locked_until (failures user s).
Proof. unfold getMfaLockedUntil, failures. by destruct (rows s MfaFailures !! user). Qed.

Lemma quiet_bytes env n : quiet (id_exec env) iw_store (call (RandBytes n)).
Proof. by split. Qed.

Lemma quiet_generateRecoveryCodes env count :
  quiet (id_exec env) iw_store (generateRecoveryCodes count).
Proof.
  unfold generateRecoveryCodes. induction (Z.to_nat count) as [|n IH]; [done|]. cbn [recovery_codes].
  apply quiet_bind; [apply quiet_bytes|]. intros [buf|]; [|done]. by apply quiet_bind.
Qed.

(** The new secret encodes bytes. *)
Lemma leads_generateSecret env {A} (k : option string → prog IdCmd A) w Q :
  (∀ r w', iw_store w' = iw_store w → iw_clock w' = iw_clock w →
     (∀ secret, r = Some secret → ∃ buf, Forall (λ b, 0 <= b < 256) buf ∧ secret = base32Encode buf) →
     leads env (k r) w' Q) →
  leads env (generateSecret ≫= k) w Q.
Proof.
  intros Hk. unfold leads, generateSecret. rw run_bind run_call. cbn [id_exec run].
  destruct (iw_bytes w (iw_next_bytes w)) as [f|]; apply Hk; try done. intros secret Hs.
  exists ((λ i, f i mod 256) <$> seq 0 SECRET_BYTES). split; [|by apply (inj Some) in Hs].
  apply Forall_fmap, Forall_forall. intros i _. apply Z.mod_pos_bound. lia.
Qed.

#[local] Hint Resolve quiet_generateRecoveryCodes : admin.

Section requests.
Context (env : IdEnv) (hmac_sha1 : list Z → list Z → option (list Z)) (cipher : Audit.Encryption).
Context (auth_service : bool) (policy : MfaPolicy).

Definition mfa (ctx : AuthContext) (r : MfaRequest) : handler :=
  match r with
  | SetupMfa => setupMfa env cipher policy ctx
  | VerifyMfa body => verifyMfa env hmac_sha1 cipher auth_service policy ctx body
  | DisableMfa body => disableMfa env hmac_sha1 cipher ctx body
  | RecoveryMfa body => recoveryMfa env auth_service policy ctx body
  end.

(** What a successful setup leaves behind and shows. *)
Lemma setupMfa_spec ctx w :
  leads env (setupMfa env cipher policy ctx) w (λ r s',
    same_but MfaSecrets (iw_store w) s' ∧
    ∀ res, r = Some res → ar_is_error res = false →
      ∃ buf m, Forall (λ b, 0 <= b < 256) buf ∧
        json_member "secret" (ar_body res) = Some (JString (base32Encode buf)) ∧
        rows s' MfaSecrets !! c_user_id ctx = Some m ∧ mfa_user_id m = c_user_id ctx ∧
        mfa_enabled m = false ∧
        mfa_secret_enc m = if Audit.enc_isAvailable cipher
          then Audit.enc_encrypt cipher (base32Encode buf) kMfaPurpose else base32Encode buf).
Proof.
  unfold setupMfa. apply leads_fetch. destruct (from_option _ _ _).
  { apply leads_ret. split; [done|]. by intros res [= <-]. }
  apply leads_generateSecret. intros r w1 H1 _ Hsec. destruct r as [secret|]; [|apply leads_ret; by rw H1].
  destruct (Hsec secret eq_refl) as (buf & Hbuf & ->). cbn [attempt].
  apply leads_quiet; [auto with admin|]. intros codes w2 H2 _. rw H1 in H2.
  destruct codes as [codes|]; [|apply leads_ret; by rw H2]. cbn [attempt].
  apply leads_quiet; [auto with admin|]. intros now w3 H3 _. rw H2 in H3.
  apply leads_store_snd. intros b. cbn [upsertMfaSecret]. rw H3. cbn [snd].
  destruct (negb b).
  { apply leads_ret. split; [apply same_but_set|]. by intros res [= <-]. }
  apply leads_fetch, leads_quiet; [auto with admin|]. intros _ w4 H4 _. apply leads_ret.
  rw H4. cbn [iw_store with_store]. split; [apply same_but_set|]. intros res [= <-] _.
  eexists buf, _. split_and!; [done|done|by rw rows_set_eq lookup_insert_eq|done..].
Qed.

Lemma disableMfa_same ctx body w :
  leads env (disableMfa env hmac_sha1 cipher ctx body) w (λ _ s', same_but MfaSecrets (iw_store w) s').
Proof. unfold disableMfa. admin_run; by eapply erase_row_same. Qed.

(** Wrong codes sent to [disableMfa], at the given times. *)
Fixpoint disable_guesses (ctx : AuthContext) (body : json) (ts : list Z) (w : IdWorld) :
    list Outcome * IdWorld :=
  match ts with
  | [] => ([], w)
  | t :: ts =>
      let '(r, w) := run (id_exec env) (disableMfa env hmac_sha1 cipher ctx body) (with_clock t w) in
      let '(l, w) := disable_guesses ctx body ts w in
      (outcome_of r :: l, w)
  end.

(** However many there are, each is looked at, and none is counted. *)
Lemma disable_unlimited ctx code m ts w :
  requireRole ctx TenantAdmin = true → code ≠ "" →
  getMfaSecret (c_user_id ctx) (iw_store w) = Some m → mfa_enabled m = true →
  Forall (λ t, verifyCode hmac_sha1 (plain_secret cipher m) code 0 (seconds t) = Some false) ts →
  (disable_guesses ctx (json_of_list [("code", JString code)]) ts w).1
    = replicate (length ts) (Refused MfaInvalidCode) ∧
  iw_store (disable_guesses ctx (json_of_list [("code", JString code)]) ts w).2 = iw_store w.
Proof.
  intros Hrole Hcode Hm Hen Hts. revert w Hm. induction Hts as [|t ts Ht Hts IH]; intros w Hm; [done|].
  cbn [disable_guesses].
  assert (leads env (disableMfa env hmac_sha1 cipher ctx (json_of_list [("code", JString code)])) (with_clock t w)
    (λ r s', outcome_of r = Refused MfaInvalidCode ∧ s' = iw_store w)) as Hrun.
  { unfold disableMfa. rw Hrole. cbn [negb].
    assert (json_value as_string "code" "" (json_of_list [("code", JString code)]) = Some code) as -> by done.
    cbn [attempt]. rw (proj2 (str_empty_false _) Hcode). apply leads_fetch.
    cbn [iw_store with_clock]. rw Hm Hen. cbn [negb]. apply leads_clock. cbn [iw_clock with_clock]. rw Ht.
    cbn [attempt negb]. by apply leads_ret. }
  unfold leads in Hrun. destruct (run _ _ _) as [r w1]. destruct Hrun as [-> Hw].
  destruct (IH w1) as [Hl Hs]; [by rw Hw|]. destruct (disable_guesses _ _ ts w1) as [l w2].
  cbn [fst snd] in *. rw Hl Hs Hw. done.
Qed.

End requests.

(** *** Failures *)

#[global] Instance Outcome_eq_dec : EqDecision Outcome.
Proof. solve_decision. Defined.

Lemma failures_same_but t user s s' :
  t ≠ MfaFailures → same_but t s s' → failures user s' = failures user s.
Proof. intros Ht [_ Hs]. unfold failures. by rw Hs. Qed.

Lemma failures_write user write s : failures user (write_row write s) = failures user s.
Proof. destruct write as [m|]; [|done]. unfold failures. cbn [write_row upsertMfaSecret snd]. by rw rows_set_ne. Qed.

Lemma failures_mark user svc ctx s : failures user (mark svc ctx s) = failures user s.
Proof.
  unfold mark. destruct (_ && _); [|done]. destruct (updateSessionMfaVerified _ _ s) as [b s'] eqn:Hu.
  by apply (failures_same_but Sessions), (modify_row_same _ _ _ _ _ _ Hu).
Qed.

(** What an attempt does to the count of a user: nothing, unless it is theirs
    and wrong, or right. *)
Definition counted (policy : MfaPolicy) (user : string) (now : Z) (o : Outcome) (s s' : Store) : Prop :=
  o = Passed ∨
  (o = Refused MfaInvalidCode ∧ locked_until (failures user s) <= now ∧
   failures user s' = fail_row (mfa_lockout_max_failures_ policy) (mfa_lockout_window_sec_ policy)
                        now (failures user s)) ∨
  (o ≠ Refused MfaInvalidCode ∧ failures user s' = failures user s).

Lemma second_factor_counted svc policy en check ctx now s o s' :
  second_factor svc policy en check ctx now s = (o, s') →
  counted policy (c_user_id ctx) now o s s' ∧
  ∀ user, user ≠ c_user_id ctx → failures user s' = failures user s.
Proof.
  unfold second_factor, counted. destruct (getMfaSecret _ s) as [m|]; [|intros [= <- <-]; naive_solver].
  destruct (en && _); [intros [= <- <-]; naive_solver|].
  destruct (Z.ltb_spec now (getMfaLockedUntil (c_user_id ctx) s)) as [|Hl];
    [intros [= <- <-]; naive_solver|]. rw locked_failures in Hl.
  destruct (check m) as [| |write]; intros [= <- <-].
  - naive_solver.
  - split.
    + right. left. split_and!; [done..|]. unfold failures at 1. cbn [recordMfaFailure snd].
      by rw rows_set_eq lookup_insert_eq.
    + intros user Hu. unfold failures. cbn [recordMfaFailure snd].
      by rw rows_set_eq lookup_insert_ne.
  - split; [by left|]. intros user Hu. rw failures_mark failures_write. unfold failures.
    cbn [clearMfaFailures snd]. by rw rows_set_eq lookup_delete_ne.
Qed.

Section counting.
Context (env : IdEnv) (hmac_sha1 : list Z → list Z → option (list Z)) (cipher : Audit.Encryption).
Context (auth_service : bool) (policy : MfaPolicy).

Lemma with_code_counted body k ctx now s o s' :
  (∀ code o s', k code s = (o, s') → counted policy (c_user_id ctx) now o s s' ∧
     ∀ user, user ≠ c_user_id ctx → failures user s' = failures user s) →
  with_code body k s = (o, s') →
  counted policy (c_user_id ctx) now o s s' ∧
  ∀ user, user ≠ c_user_id ctx → failures user s' = failures user s.
Proof.
  intros Hk. unfold with_code. destruct (json_value _ _ _ _) as [code|];
    [|intros [= <- <-]; unfold counted; naive_solver].
  destruct (str_empty code); [intros [= <- <-]; unfold counted; naive_solver|]. apply Hk.
Qed.

Lemma mfa_counted ctx r w :
  leads env (mfa env hmac_sha1 cipher auth_service policy ctx r) w (λ res s',
    (limited_guess r = true →
     counted policy (c_user_id ctx) (seconds (iw_clock w)) (outcome_of res) (iw_store w) s') ∧
    ∀ user, limited_guess r = false ∨ user ≠ c_user_id ctx → failures user s' = failures user (iw_store w)).
Proof.
  destruct r as [|body|body|body]; cbn [mfa limited_guess].
  - pose proof (setupMfa_spec env cipher policy ctx w) as Hs. unfold leads in *.
    destruct (run _ _ w) as [res w']. destruct Hs as [Hs _]. split; [done|]. intros user _.
    by eapply failures_same_but; [|exact Hs].
  - pose proof (verifyMfa_refines env hmac_sha1 cipher auth_service policy ctx body w) as Hs.
    unfold leads in *. destruct (run _ _ w) as [res w'].
    symmetry in Hs. apply (with_code_counted _ _ ctx (seconds (iw_clock w))) in Hs as [? ?];
      [naive_solver|]. intros code o s'. apply second_factor_counted.
  - pose proof (disableMfa_same env hmac_sha1 cipher ctx body w) as Hs. unfold leads in *.
    destruct (run _ _ w) as [res w']. split; [done|]. intros user _.
    by eapply failures_same_but; [|exact Hs].
  - pose proof (recoveryMfa_refines env auth_service policy ctx body w) as Hs.
    unfold leads in *. destruct (run _ _ w) as [res w'].
    symmetry in Hs. apply (with_code_counted _ _ ctx (seconds (iw_clock w))) in Hs as [? ?];
      [naive_solver|]. intros code o s'. apply second_factor_counted.
Qed.

(** The answers that the guesses of one user at those endpoints get, when requests of several
    users are handled one after the other at the given times. *)
Fixpoint guesses_of (user : string) (rs : list (Z * AuthContext * MfaRequest)) (w : IdWorld) :
    list Outcome :=
  match rs with
  | [] => []
  | (t, ctx, r) :: rs =>
      let '(res, w) := run (id_exec env) (mfa env hmac_sha1 cipher auth_service policy ctx r)
                         (with_clock t w) in
      if bool_decide (c_user_id ctx = user) && limited_guess r
      then outcome_of res :: guesses_of user rs w else guesses_of user rs w
  end.

Definition wrong (l : list Outcome) : Z :=
  Z.of_nat (length (base.filter (λ o, o = Refused MfaInvalidCode) l)).

(** Wrong guesses are guesses that are looked at. *)
Lemma guesses_looked_at user P rs w :
  Forall (λ '(t, _, _), P (seconds t)) rs → Passed ∉ guesses_of user rs w →
  ∃ ts, Forall P ts ∧
    wrong (guesses_of user rs w) =
    looked_at (mfa_lockout_max_failures_ policy) (mfa_lockout_window_sec_ policy)
      (failures user (iw_store w)) ts.
Proof.
  intros Hrs. revert w. induction Hrs as [|[[t ctx] r] rs Ht _ IH]; intros w.
  { intros _. by exists []. }
  cbn [guesses_of]. pose proof (mfa_counted ctx r (with_clock t w)) as Hc. unfold leads in Hc.
  destruct (run _ _ _) as [res w1]. cbn [iw_store iw_clock with_clock] in Hc.
  destruct Hc as [Hcount Hother].
  destruct (bool_decide (c_user_id ctx = user) && limited_guess r) eqn:Hu.
  - apply andb_prop in Hu as [Hu%bool_decide_eq_true Hg]. subst user. rw not_elem_of_cons.
    intros [Hp Hrest]. destruct (IH w1 Hrest) as (ts & Hts & Hw). unfold wrong in *.
    destruct (Hcount Hg) as [?|[(-> & Hl & Hf)|[Hne Hf]]]; [congruence| |].
    + exists (seconds t :: ts). split; [by constructor|]. cbn [looked_at].
      rw (proj2 (Z.ltb_ge _ _)); [|lia]. rw -Hf -Hw filter_cons_True //. simpl. lia.
    + exists ts. split; [done|]. by rw filter_cons_False // -Hf.
  - intros Hrest. destruct (IH w1 Hrest) as (ts & Hts & Hw). exists ts. split; [done|].
    rw Hw Hother //. apply andb_false_iff in Hu as [?%bool_decide_eq_false|]; auto.
Qed.

End counting.

(** *** Sessions *)

Definition verified (s : Store) (id : string) : Prop :=
  s_mfa_verified <$> rows s Sessions !! id = Some true.

Lemma verified_same_but t s s' id : t ≠ Sessions → same_but t s s' → verified s' id → verified s id.
Proof. intros Ht [_ Hs]. unfold verified. by rw Hs. Qed.

Lemma verified_write write s id : verified (write_row write s) id → verified s id.
Proof. destruct write as [m|]; [|done]. unfold verified. cbn [write_row upsertMfaSecret snd]. by rw rows_set_ne. Qed.

Lemma verified_mark svc ctx s id :
  verified (mark svc ctx s) id → verified s id ∨ (id = c_session_id ctx ∧ id ≠ "" ∧ svc = true).
Proof.
  unfold mark, verified. destruct (negb _ && svc) eqn:Hc; [|by left].
  unfold updateSessionMfaVerified, modify_row.
  destruct (rows s Sessions !! c_session_id ctx) as [x|] eqn:Hx; [|by left].
  cbn [snd]. rw rows_set_eq. destruct (decide (c_session_id ctx = id)) as [<-|Hne].
  - intros _. right. bools. done.
  - rw lookup_insert_ne //. by left.
Qed.

(** The procedure marks a session only after a check that passed. *)
Lemma second_factor_verified svc policy en check ctx now s o s' id :
  second_factor svc policy en check ctx now s = (o, s') → verified s' id →
  verified s id ∨
  (id = c_session_id ctx ∧ o = Passed ∧
   ∃ m write, getMfaSecret (c_user_id ctx) s = Some m ∧ (en = true → mfa_enabled m = true) ∧
     getMfaLockedUntil (c_user_id ctx) s <= now ∧ check m = CheckPasses write ∧
     ∀ m', write = Some m' → rows s' MfaSecrets !! mfa_user_id m' = Some m').
Proof.
  unfold second_factor. destruct (getMfaSecret _ s) as [m|] eqn:Hm; [|intros [= <- <-]; by left].
  destruct (en && _) eqn:Hen; [intros [= <- <-]; by left|].
  destruct (Z.ltb_spec now (getMfaLockedUntil (c_user_id ctx) s)) as [|Hl]; [intros [= <- <-]; by left|].
  destruct (check m) as [| |write] eqn:Hc; intros [= <- <-]; [by left| |].
  - unfold verified. cbn [recordMfaFailure snd]. rw rows_set_ne //. by left.
  - intros Hv. apply verified_mark in Hv as [Hv|(-> & _)].
    + left. apply verified_write in Hv. revert Hv. unfold verified. cbn [clearMfaFailures snd].
      by rw rows_set_ne.
    + right. split_and!; [done..|]. exists m, write. split_and!; try done.
      * intros ->. by destruct (mfa_enabled m).
      * intros m' ->. unfold mark. destruct (negb (str_empty _) && svc); cbn [write_row upsertMfaSecret snd].
        -- unfold updateSessionMfaVerified, modify_row.
           destruct (rows _ Sessions !! _); cbn [snd]; [rw rows_set_ne //|];
             by rw rows_set_eq lookup_insert_eq.
        -- by rw rows_set_eq lookup_insert_eq.
Qed.

Lemma with_code_verified body k s o s' id :
  with_code body k s = (o, s') → verified s' id →
  verified s id ∨ ∃ code, json_value as_string "code" "" body = Some code ∧
    k code s = (o, s') ∧ verified s' id.
Proof.
  unfold with_code. destruct (json_value _ _ _ _) as [code|]; [|intros [= <- <-]; by left].
  destruct (str_empty code); [intros [= <- <-]; by left|]. intros Hk Hv. right. by exists code.
Qed.

Lemma last_match_some hashed l i : last_match hashed l = Some i → l !! i = Some hashed.
Proof.
  unfold last_match.
  assert (∀ pre m, (∀ j, m = Some j → (pre ++ l) !! j = Some hashed) →
    (foldl (λ '(i, m) stored, (S i, if decide (stored = hashed) then Some i else m))
       (length pre, m) l).2 = Some i → (pre ++ l) !! i = Some hashed) as Hgen;
    [|by apply (Hgen [] None)].
  induction l as [|x l IH]; intros pre m Hm; [simpl; apply Hm|]. cbn [foldl].
  rw (_ : S (length pre) = length (pre ++ [x])); [|rw length_app /=; lia].
  rw (_ : pre ++ x :: l = (pre ++ [x]) ++ l) in Hm *; [|by rw -assoc]. apply IH.
  intros j. case_decide as Hx; [intros [= <-]|apply Hm]. subst x.
  rw -assoc lookup_app_r // Nat.sub_diag //.
Qed.

(** A recovery code is used up. *)
Lemma verifyRecoveryCode_some env hashes code rest :
  verifyRecoveryCode env hashes code = Some rest → hashes ≡ₚ hashRecoveryCode env code :: rest.
Proof.
  unfold verifyRecoveryCode. destruct (last_match _ _) as [i|] eqn:Hi; [|done].
  intros [= <-]. apply last_match_some in Hi. by apply delete_Permutation.
Qed.

(** The cipher gives back what it encrypted. *)
Class CipherInverse (cipher : Audit.Encryption) : Prop :=
  cipher_inverse : ∀ text purpose, Audit.enc_isAvailable cipher = true →
    Audit.enc_decrypt cipher (Audit.enc_encrypt cipher text purpose) purpose = Some text.

Definition code_body (code : string) : json := json_of_list [("code", JString code)].

(** ** An instance *)

Definition toy_cipher : Audit.Encryption :=
  {| Audit.enc_isAvailable := true; Audit.enc_encrypt text purpose := purpose +:+ text;
     Audit.enc_decrypt text purpose := Some (substr_from (String.length purpose) text) |}.

#[global] Instance toy_cipher_inverse : CipherInverse toy_cipher.
Proof. intros text purpose _. simpl. by rw substr_from_app. Qed.

(** A session whose user has not passed the second factor. *)
Definition toy_session : Session :=
  {| s_id := "s1"; s_user_id := "alice"; s_tenant_id := "acme"; s_ip_address := "";
     s_user_agent := ""; s_auth_method := "sso"; s_mfa_verified := false;
     s_created_at := ""; s_last_active_at := ""; s_expires_at := "" |}.

Definition mfa_world : IdWorld :=
  with_store (put (t := Sessions) "s1" toy_session toy_store) toy_world.

Definition alice_session : AuthContext :=
  session_context toy_session (toy_user "alice" "acme" TenantAdmin).

(** An enrolled user. *)
Definition enrolled_world : IdWorld :=
  with_store (put (t := MfaSecrets) "alice"
    {| mfa_user_id := "alice"; mfa_secret_enc := "mfa_totp_secretJBSWY3DPEHPK3PXP"; mfa_enabled := true;
       mfa_recovery_codes_hash := []; mfa_created_at := "" |} (iw_store mfa_world)) mfa_world.

(** With one permitted failure, three guesses that run concurrently are all
    looked at. *)
Definition one_failure : MfaPolicy := 
  {| mfa_recovery_code_count_ := 10; mfa_lockout_max_failures_ := 1; mfa_lockout_window_sec_ := 300 |}.

Lemma lockout_race :
  let guess := verifyMfa toy_env toy_sha1 toy_cipher true one_failure alice_session (code_body "x") in
  let out := (run_sched (id_exec toy_env) [0; 0; 0; 1; 1; 1; 2; 2; 2; 0; 0; 0; 1; 1; 1; 2; 2; 2]%nat
                [guess; guess; guess] enrolled_world).1 in
  (λ p, match p with Ret r => Some (outcome_of r) | _ => None end) <$> out
    = replicate 3 (Some (Refused MfaInvalidCode)).
Proof. vm_compute. reflexivity. Qed.

(** ** Properties *)

(** Enrolment works: a code that an authenticator computes from the secret
    shown by [setupMfa], with a clock at most thirty seconds off, is accepted
    by [verifyMfa] unless the account is locked; the second factor is then
    switched on and the session of the request is marked as verified. *)
Theorem mfa_enrolment env hmac_sha1 cipher policy `{!HmacSha1 hmac_sha1, !CipherInverse cipher}
    ctx x w res w1 t clock :
  run (id_exec env) (setupMfa env cipher policy ctx) w = (Some res, w1) → ar_is_error res = false →
  rows (iw_store w) Sessions !! c_session_id ctx = Some x → c_session_id ctx ≠ "" →
  0 < t → 0 < seconds clock → Z.abs (t - seconds clock) <= 30 →
  getMfaLockedUntil (c_user_id ctx) (iw_store w) <= seconds clock →
  ∃ secret v, json_member "secret" (ar_body res) = Some (JString secret) ∧
    generateCode hmac_sha1 (base32Decode secret) (Z.quot t TOTP_PERIOD)
      = Some (decimal TOTP_DIGITS v) ∧
    leads env (verifyMfa env hmac_sha1 cipher true policy ctx (code_body (decimal TOTP_DIGITS v)))
      (with_clock clock w1) (λ r s',
        outcome_of r = Passed ∧ mfa_enabled <$> getMfaSecret (c_user_id ctx) s' = Some true ∧
        verified s' (c_session_id ctx)).
Proof.
  intros Hrun Hok Hx Hid Ht Hc Habs Hl. pose proof (setupMfa_spec env cipher policy ctx w) as Hs.
  unfold leads in Hs. rw Hrun in Hs. destruct Hs as [[_ Hsame] Hs].
  destruct (Hs res eq_refl Hok) as (buf & m & Hbuf & Hbody & Hm & Huser & Hen & Hsec).
  destruct (totp_accepts hmac_sha1 buf t (seconds clock)) as (v & Hgen & Hver); [done..|].
  exists (base32Encode buf), v. split_and!; [done|by rw base32_round_trip|].
  pose proof (verifyMfa_refines env hmac_sha1 cipher true policy ctx
    (code_body (decimal TOTP_DIGITS v)) (with_clock clock w1)) as Hr.
  unfold leads in *. clear Hrun. destruct (run _ _ _) as [r w2]. symmetry in Hr.
  unfold with_code, second_factor, totp_check in Hr. cbn [iw_store iw_clock with_clock] in Hr.
  assert (json_value as_string "code" "" (code_body (decimal TOTP_DIGITS v))
          = Some (decimal TOTP_DIGITS v)) as Hcode by done.
  rw Hcode code_nonempty {1}/getMfaSecret Hm in Hr. cbn [andb] in Hr.
  rw (_ : getMfaLockedUntil _ (iw_store w1) = getMfaLockedUntil (c_user_id ctx) (iw_store w)) in Hr;
    [|unfold getMfaLockedUntil; by rw Hsame].
  rw (proj2 (Z.ltb_ge _ _) Hl) in Hr.
  rw (_ : plain_secret cipher m = base32Encode buf) in Hr;
    [|unfold plain_secret; rw Hsec; destruct (Audit.enc_isAvailable cipher) eqn:Ha; [by rw cipher_inverse|done]].
  rw Hver Hen in Hr. injection Hr as <- <-. split; [done|].
  unfold mark. rw (proj2 (str_empty_false _) Hid). cbn [negb andb].
  unfold updateSessionMfaVerified, modify_row. cbn [write_row upsertMfaSecret clearMfaFailures snd].
  rw !rows_set_ne // Hsame // Hx. cbn [snd]. unfold verified, getMfaSecret.
  rw rows_set_ne // !rows_set_eq lookup_insert_eq {1}/set_enabled. cbn [mfa_user_id].
  by rw Huser lookup_insert_eq.
Qed.

Lemma mfa_enrolment_witness :
  let out := run (id_exec toy_env) (setupMfa toy_env toy_cipher default_policy alice_session)
               mfa_world in
  ar_status <$> out.1 = Some 200 ∧
  ∃ v, leads toy_env
    (verifyMfa toy_env toy_sha1 toy_cipher true default_policy alice_session
       (code_body (decimal TOTP_DIGITS v)))
    (with_clock toy_time out.2) (λ r s',
      outcome_of r = Passed ∧ mfa_enabled <$> getMfaSecret "alice" s' = Some true ∧
      verified s' "s1").
Proof.
  intros out. assert (ar_status <$> out.1 = Some 200) as Hst by by vm_compute. split; [done|].
  assert (ar_is_error <$> out.1 = Some false) as Hok by by vm_compute.
  destruct out as [[res|] w1] eqn:Hrun; [|done]. injection Hok as Hok.
  destruct (mfa_enrolment toy_env toy_sha1 toy_cipher default_policy alice_session toy_session
              mfa_world res w1 1767225600 toy_time Hrun Hok) as (_ & v & _ & _ & Hv);
    [by vm_compute..|]. by exists v.
Defined.

(** C25. Nothing else marks a session: whatever request is handled, a session that
    is verified afterwards was so before, or it is the session of the request,
    the account was not locked, and the request carried either a code of the
    stored secret at that time or an unused recovery code, which is then used
    up. *)
Theorem mfa_session_gate env hmac_sha1 cipher svc policy ctx r w :
  leads env (mfa env hmac_sha1 cipher svc policy ctx r) w (λ res s', ∀ id, verified s' id →
    verified (iw_store w) id ∨
    (id = c_session_id ctx ∧ outcome_of res = Passed ∧
     getMfaLockedUntil (c_user_id ctx) (iw_store w) <= seconds (iw_clock w) ∧
     ∃ m body code, getMfaSecret (c_user_id ctx) (iw_store w) = Some m ∧
       json_value as_string "code" "" body = Some code ∧
       ((r = VerifyMfa body ∧
         verifyCode hmac_sha1 (plain_secret cipher m) code 0 (seconds (iw_clock w)) = Some true) ∨
        (r = RecoveryMfa body ∧ mfa_enabled m = true ∧
         ∃ m', rows s' MfaSecrets !! mfa_user_id m = Some m' ∧
           mfa_recovery_codes_hash m ≡ₚ
             hashRecoveryCode env code :: mfa_recovery_codes_hash m')))).
Proof.
  destruct r as [|body|body|body]; cbn [mfa].
  - pose proof (setupMfa_spec env cipher policy ctx w) as Hs. unfold leads in *.
    destruct (run _ _ w) as [res w']. destruct Hs as [Hs _]. intros id Hv. left.
    by eapply verified_same_but; [|exact Hs|].
  - pose proof (verifyMfa_refines env hmac_sha1 cipher svc policy ctx body w) as Hs. unfold leads in *.
    destruct (run _ _ w) as [res w']. symmetry in Hs. intros id Hv.
    apply (with_code_verified _ _ _ _ _ _ Hs) in Hv as [Hv|(code & Hcode & Hk & Hv)]; [by left|].
    destruct (second_factor_verified _ _ _ _ _ _ _ _ _ _ Hk Hv)
      as [?|(-> & Ho & m & wr & Hm & _ & Hl & Hc & _)]; [by left|].
    right. split_and!; try done. exists m, body, code. split_and!; [done..|]. left. split; [done|].
    unfold totp_check in Hc. by destruct (verifyCode _ _ _ _ _) as [[]|].
  - pose proof (disableMfa_same env hmac_sha1 cipher ctx body w) as Hs. unfold leads in *.
    destruct (run _ _ w) as [res w']. intros id Hv. left. by eapply verified_same_but; [|exact Hs|].
  - pose proof (recoveryMfa_refines env svc policy ctx body w) as Hs. unfold leads in *.
    destruct (run _ _ w) as [res w']. symmetry in Hs. intros id Hv.
    apply (with_code_verified _ _ _ _ _ _ Hs) in Hv as [Hv|(code & Hcode & Hk & Hv)]; [by left|].
    destruct (second_factor_verified _ _ _ _ _ _ _ _ _ _ Hk Hv)
      as [?|(-> & Ho & m & wr & Hm & Hen & Hl & Hc & Hwr)]; [by left|].
    right. split_and!; try done. exists m, body, code. split_and!; [done..|]. right.
    split_and!; [done|by apply Hen|]. unfold recovery_check in Hc.
    destruct (verifyRecoveryCode _ _ _) as [rest|] eqn:Hrec; [|done]. injection Hc as <-.
    exists (set_codes rest m). split; [by apply (Hwr (set_codes rest m))|].
    by apply verifyRecoveryCode_some.
Qed.

(** C26. Guessing at the endpoints that verify a code or use a recovery code is
    bounded, for requests that are handled one after the other and a limit of
    at least one failure.  Whatever second-factor requests are handled in a
    lock-out window, whoever sends them: as long as no guess for a user at
    those endpoints was right, fewer than twice the permitted failures are
    looked at; the other guesses are refused without a look at the code.  The
    window lies behind the epoch, and the stored count is not negative.  The
    bound does not cover the codes sent to [disableMfa], which has no lock-out
    ([disable_unlimited]), nor requests that run concurrently, which may all
    read the lock before the first of them records its failure
    ([lockout_race]). *)
Theorem mfa_guess_bound env hmac_sha1 cipher svc policy user from rs w :
  1 <= mfa_lockout_max_failures_ policy → 0 < from →
  0 <= fail_count (failures user (iw_store w)) →
  Forall (λ '(t, _, _), from <= seconds t < from + mfa_lockout_window_sec_ policy) rs →
  Passed ∉ guesses_of env hmac_sha1 cipher svc policy user rs w →
  wrong (guesses_of env hmac_sha1 cipher svc policy user rs w)
    <= 2 * mfa_lockout_max_failures_ policy - 1.
Proof.
  intros Hmax Hfrom Hcount Hrs Hpass.
  destruct (guesses_looked_at env hmac_sha1 cipher svc policy user
    (λ t, from <= t < from + mfa_lockout_window_sec_ policy) rs w) as (ts & Hts & ->); [done..|].
  etrans; [by eapply looked_at_bound|]. lia.
Qed.

Lemma mfa_guess_bound_witness :
  let rs := (toy_time, alice_session, SetupMfa) ::
            replicate 7 (toy_time, alice_session, VerifyMfa (code_body "x")) in
  let l := guesses_of toy_env toy_sha1 toy_cipher true default_policy "alice" rs mfa_world in
  l = replicate 5 (Refused MfaInvalidCode) ++ replicate 2 (Refused RateLimitExceeded) ∧
  wrong l <= 2 * 5 - 1.
Proof.
  intros rs l. assert (l = replicate 5 (Refused MfaInvalidCode) ++
    replicate 2 (Refused RateLimitExceeded)) as Hl by by vm_compute. split; [done|].
  apply (mfa_guess_bound toy_env toy_sha1 toy_cipher true default_policy "alice" 1767225600 rs
           mfa_world); [done..| |].
  - assert (seconds toy_time = 1767225600) as Hs by by vm_compute.
    apply Forall_cons. split; [|apply Forall_replicate]; rw Hs; simpl; lia.
  - fold l. rw Hl. apply (bool_decide_unpack _). by vm_compute.
Defined.

End AdminMfa.
